(** * A shallow embedding of the trading-agent engine

    The development follows the JavaScript sources of the engine:

    - [JS]        the fragment of JavaScript values the sources compute with
                  (numbers with NaN and infinities, truthiness, relational
                  comparison, property access, thrown values);
    - [Logger]    [logger.js]: the bounded log buffer and the status snapshot;
    - [Scheduler] [scheduler.js]: the per-fire wrapper and the daily-times
                  recomputation;
    - [Engine]    the effect monad shared by the asynchronous code: external
                  services answer from a scripted [World], the engine threads
                  a clock, the token cache and an event trace;
    - [Trading]   [trading.js]: token directory cache, swap, transfer, market
                  data and price;
    - [Range]     [baseline-range.js]: the price condition evaluator and the
                  wait loop;
    - [DCA]       [baseline-dca.js]: the balance gate and the immediate
                  execution path of the baseline function.

    Conventions.  An ISO timestamp is kept as the epoch milliseconds it
    prints.  A finite JavaScript number is kept as the rational it denotes;
    a product is rounded to the nearest double; parsing and formatting of
    numbers are taken from the runtime, as fields of the [World].  *)

From Stdlib Require Import ZArith QArith Qround Qabs List String Ascii Bool Lia.
From Stdlib Require Import DecimalString Sorted Permutation.
Import ListNotations.

Set Implicit Arguments.
Set Warnings "-register-all,-notation-for-abbreviation".

(* ===================================================================== *)
(** * JavaScript values *)
(* ===================================================================== *)

Module JS.

Open Scope string_scope.

(** Numbers: a finite value, or one of the three non-finite ones.  The two
    zeros compare equal and are both falsy, so they are not kept apart. *)
Inductive jsnum : Type :=
| Fin (q : Q)
| NaN
| PInf
| NInf.

(** JSON values plus [undefined]. *)
Inductive jsval : Type :=
| VUndef
| VNull
| VBool (b : bool)
| VNum (n : jsnum)
| VStr (s : string)
| VArr (items : list jsval)
| VObj (fields : list (string * jsval)).

Inductive jstype : Type := TUndefined | TObject | TBoolean | TNumber | TString.

(** [typeof v]; note [typeof null === 'object']. *)
Definition typeof (v : jsval) : jstype :=
  match v with
  | VUndef => TUndefined
  | VNull => TObject
  | VBool _ => TBoolean
  | VNum _ => TNumber
  | VStr _ => TString
  | VArr _ => TObject
  | VObj _ => TObject
  end.

Definition jstype_eqb (a b : jstype) : bool :=
  match a, b with
  | TUndefined, TUndefined | TObject, TObject | TBoolean, TBoolean
  | TNumber, TNumber | TString, TString => true
  | _, _ => false
  end.

(** ToBoolean. *)
Definition truthy (v : jsval) : bool :=
  match v with
  | VUndef | VNull => false
  | VBool b => b
  | VNum (Fin q) => negb (Qeq_bool q 0)
  | VNum NaN => false
  | VNum PInf | VNum NInf => true
  | VStr s => negb (s =? "")
  | VArr _ | VObj _ => true
  end.

(** [a || b] on values. *)
Definition js_or (a b : jsval) : jsval := if truthy a then a else b.

(** [v === false] and [v === true]. *)
Definition is_false (v : jsval) : bool :=
  match v with VBool false => true | _ => false end.
Definition is_true (v : jsval) : bool :=
  match v with VBool true => true | _ => false end.

(** The abstract relational comparison [a < b] on numbers: [None] is the
    specification's [undefined], produced when an operand is NaN. *)
Definition num_lt (a b : jsnum) : option bool :=
  match a, b with
  | NaN, _ | _, NaN => None
  | Fin x, Fin y => Some (negb (Qle_bool y x))
  | NInf, NInf => Some false
  | NInf, _ => Some true
  | _, NInf => Some false
  | PInf, _ => Some false
  | Fin _, PInf => Some true
  end.

Definition js_lt (a b : jsnum) : bool :=
  match num_lt a b with Some true => true | _ => false end.
(** [a >= b] is "not (a < b)", and false when the comparison is undefined. *)
Definition js_ge (a b : jsnum) : bool :=
  match num_lt a b with Some false => true | _ => false end.
(** [a <= b] is "not (b < a)", and false when the comparison is undefined. *)
Definition js_le (a b : jsnum) : bool :=
  match num_lt b a with Some false => true | _ => false end.

(** [2 ^ k] for an exponent of either sign. *)
Definition two_to (k : Z) : Q :=
  if (0 <=? k)%Z then inject_Z (2 ^ k) else Qinv (inject_Z (2 ^ (- k))).

(** The exponent of the leading binary digit of a rational other than 0:
    the [e] with [2 ^ e <= |q| < 2 ^ (e + 1)]. *)
Definition leading_exponent (q : Q) : Z :=
  let e := (Z.log2 (Z.abs (Qnum q)) - Z.log2 (Z.pos (Qden q)))%Z in
  if Qle_bool (two_to e) (Qabs q) then e else (e - 1)%Z.

(** The double nearest to a rational, ties to the even significand: what
    an arithmetic operation returns whose exact result is that rational.
    The significand has 53 binary digits, the last place is never below
    [2 ^ -1074], and a magnitude that rounds to [2 ^ 1024] or more is
    infinite. *)
Definition nearest_double (q : Q) : jsnum :=
  if Qeq_bool q 0 then Fin 0
  else
    let place := Z.max (leading_exponent q - 52) (-1074) in
    let scaled := Qdiv (Qabs q) (two_to place) in
    let below := Qfloor scaled in
    let rest := Qminus scaled (inject_Z below) in
    let significand :=
      match Qcompare rest (1 # 2) with
      | Lt => below
      | Gt => (below + 1)%Z
      | Eq => if Z.even below then below else (below + 1)%Z
      end in
    let magnitude := Qred (Qmult (inject_Z significand) (two_to place)) in
    if Qle_bool (two_to 1024) magnitude then (if (Qnum q <? 0)%Z then NInf else PInf)
    else Fin (if (Qnum q <? 0)%Z then Qred (Qopp magnitude) else magnitude).

(** [a * b] on numbers. *)
Definition js_mul (a b : jsnum) : jsnum :=
  match a, b with
  | NaN, _ | _, NaN => NaN
  | Fin x, Fin y => nearest_double (Qmult x y)
  | Fin x, PInf | PInf, Fin x =>
      if Qeq_bool x 0 then NaN else if (Qnum x <? 0)%Z then NInf else PInf
  | Fin x, NInf | NInf, Fin x =>
      if Qeq_bool x 0 then NaN else if (Qnum x <? 0)%Z then PInf else NInf
  | PInf, PInf | NInf, NInf => PInf
  | PInf, NInf | NInf, PInf => NInf
  end.

(** [Math.floor(a)] *)
Definition js_floor (a : jsnum) : jsnum :=
  match a with
  | Fin q => Fin (inject_Z (Qfloor q))
  | other => other
  end.

(** The result of running a piece of code: a value, or a thrown one.  What
    the sources throw, and what the runtime throws on their behalf, are
    [Error] objects (of some class), of which the sources read only
    [message]: such an error is kept as its message, and [outcome] is the
    result of code that throws nothing else. *)
Inductive result (E A : Type) : Type :=
| Ret (a : A)
| Throw (error : E).
Arguments Ret {E A} a.
Arguments Throw {E A} error%_string.

Notation outcome := (result string).

(** [BigInt(a)] for a number: a RangeError unless it is an integer. *)
Definition to_BigInt (a : jsnum) : outcome Z :=
  match a with
  | Fin q =>
      if Qeq_bool q (inject_Z (Qfloor q)) then Ret (Qfloor q)
      else Throw "The number is not an integer and cannot be converted to a BigInt"
  | NaN => Throw "The number NaN cannot be converted to a BigInt because it is not an integer"
  | PInf =>
      Throw "The number Infinity cannot be converted to a BigInt because it is not an integer"
  | NInf =>
      Throw "The number -Infinity cannot be converted to a BigInt because it is not an integer"
  end.

Fixpoint lookup (k : string) (fields : list (string * jsval)) : jsval :=
  match fields with
  | [] => VUndef
  | (k', v) :: rest => if k' =? k then v else lookup k rest
  end.

(** Property read [v.k] for a non-index name [k]: a TypeError on
    [undefined] and [null], the field on an object, [length] on strings
    and arrays, [undefined] otherwise. *)
Definition get_prop (v : jsval) (k : string) : outcome jsval :=
  match v with
  | VUndef => Throw ("Cannot read properties of undefined (reading '" ++ k ++ "')")
  | VNull => Throw ("Cannot read properties of null (reading '" ++ k ++ "')")
  | VObj fields => Ret (lookup k fields)
  | VArr items =>
      if k =? "length" then Ret (VNum (Fin (inject_Z (Z.of_nat (List.length items)))))
      else Ret VUndef
  | VStr s =>
      if k =? "length" then Ret (VNum (Fin (inject_Z (Z.of_nat (String.length s)))))
      else Ret VUndef
  | VBool _ | VNum _ => Ret VUndef
  end.

(** Optional chaining [v?.k]. *)
Definition get_prop_opt (v : jsval) (k : string) : jsval :=
  match v with
  | VUndef | VNull => VUndef
  | _ => match get_prop v k with Ret x => x | Throw _ => VUndef end
  end.

(** [error.message] of a value caught from foreign code. *)
Definition message_of (e : jsval) : outcome jsval := get_prop e "message".

(** ASCII [toUpperCase]; the stage names and token symbols of the sources
    are ASCII. *)
Definition upper_ascii (c : ascii) : ascii :=
  let n := nat_of_ascii c in
  if andb (97 <=? n)%nat (n <=? 122)%nat then ascii_of_nat (n - 32) else c.

Fixpoint toUpperCase (s : string) : string :=
  match s with
  | EmptyString => EmptyString
  | String c rest => String (upper_ascii c) (toUpperCase rest)
  end.

(** [s.includes(sub)]. *)
Fixpoint includes (sub s : string) : bool :=
  if String.prefix sub s then true
  else match s with
       | EmptyString => false
       | String _ rest => includes sub rest
       end.

End JS.

(* ===================================================================== *)
(** * logger.js *)
(* ===================================================================== *)

Module Logger.
Import JS.
Open Scope string_scope.
Open Scope list_scope.

(** [{timestamp, level, message, id}] *)
Record LogEntry : Type := mkLogEntry {
  timestamp : Z;
  level : string;
  message : string;
  id : Q
}.

(** [{stage, message, timestamp, success, details, schedule}] *)
Record Status : Type := mkStatus {
  st_stage : string;
  st_message : string;
  st_timestamp : Z;
  st_success : jsval;
  st_details : jsval;
  st_schedule : jsval
}.

(** The module-level variables [logs] and [currentStatus]. *)
Record Store : Type := mkStore {
  logs : list LogEntry;
  currentStatus : Status
}.

(** [const MAX_LOGS = 1000] *)
Definition MAX_LOGS : nat := 1000.

(** What one call reads from the runtime: the two [new Date()] values and
    [Date.now() + Math.random()]. *)
Record Reads : Type := mkReads {
  r_status_ts : Z;
  r_log_ts : Z;
  r_log_id : Q
}.

(** [Array.prototype.shift] *)
Definition shift (A : Type) (l : list A) : list A := List.tl l.

(** [Logger.log(message, level = 'info')]: push, then drop the head when
    the length went over [MAX_LOGS]. *)
Definition log (r : Reads) (msg : string) (lvl : option string)
    (buf : list LogEntry) : list LogEntry :=
  let logEntry := {| timestamp := r_log_ts r;
                     level := match lvl with Some l => l | None => "info" end;
                     message := msg;
                     id := r_log_id r |} in
  let pushed := buf ++ [logEntry] in
  if (MAX_LOGS <? List.length pushed)%nat then shift pushed else pushed.

Definition error (r : Reads) (msg : string) := log r msg (Some "error").
Definition warn (r : Reads) (msg : string) := log r msg (Some "warn").
Definition info (r : Reads) (msg : string) := log r msg (Some "info").

(** [clearLogs]: [this.logs.length = 0] *)
Definition clearLogs (buf : list LogEntry) : list LogEntry := [].

(** A default parameter takes over when the argument is [undefined]. *)
Definition default_to (d v : jsval) : jsval :=
  match v with VUndef => d | _ => v end.

Definition check_mark : string := "✅ ".

(** [updateStatus(stage, message, success = null, details = {},
                  scheduleInfo = null, shouldLog = true)] *)
Definition updateStatus (r : Reads) (stage msg : string)
    (success details scheduleInfo shouldLog : jsval) (s : Store) : Store :=
  let success := default_to VNull success in
  let details := default_to (VObj []) details in
  let scheduleInfo := default_to VNull scheduleInfo in
  let shouldLog := default_to (VBool true) shouldLog in
  let status := {| st_stage := stage;
                   st_message := msg;
                   st_timestamp := r_status_ts r;
                   st_success := success;
                   st_details := details;
                   st_schedule := scheduleInfo |} in
  if truthy shouldLog then
    let statusMessage := ("[" ++ toUpperCase stage ++ "] " ++ msg)%string in
    if is_false success then
      {| logs := error r statusMessage (logs s); currentStatus := status |}
    else if is_true success then
      {| logs := info r (check_mark ++ statusMessage)%string (logs s); currentStatus := status |}
    else
      {| logs := info r statusMessage (logs s); currentStatus := status |}
  else
    {| logs := logs s; currentStatus := status |}.

Definition getStatus (s : Store) : Status := currentStatus s.

(** The store when the module is loaded at time [t0]. *)
Definition initial (t0 : Z) : Store :=
  {| logs := [];
     currentStatus := {| st_stage := "idle"; st_message := "System ready";
                         st_timestamp := t0; st_success := VNull;
                         st_details := VObj []; st_schedule := VNull |} |}.

(** The writes that reach the buffer: an append through [log] or a
    [clearLogs]. *)
Inductive LogOp : Type :=
| OpLog (r : Reads) (msg : string) (lvl : option string)
| OpClear.

Definition apply_op (buf : list LogEntry) (op : LogOp) : list LogEntry :=
  match op with
  | OpLog r msg lvl => log r msg lvl buf
  | OpClear => clearLogs buf
  end.

Definition run_ops (ops : list LogOp) (buf : list LogEntry) : list LogEntry :=
  fold_left apply_op ops buf.

Definition entry_of (r : Reads) (msg : string) (lvl : option string) : LogEntry :=
  {| timestamp := r_log_ts r;
     level := match lvl with Some l => l | None => "info" end;
     message := msg;
     id := r_log_id r |}.

(** Every entry handed to the buffer since the last clear, oldest first,
    on top of the entries [before] already handed in. *)
Definition appended (before : list LogEntry) (ops : list LogOp) : list LogEntry :=
  fold_left (fun acc op => match op with
                           | OpLog r msg lvl => acc ++ [entry_of r msg lvl]
                           | OpClear => []
                           end) ops before.

(** The last [n] elements of a list, in order. *)
Definition lastn (A : Type) (n : nat) (l : list A) : list A :=
  skipn (List.length l - n) l.

(** The snapshot a publish writes. *)
Definition snapshot_of (r : Reads) (stage msg : string)
    (success details scheduleInfo : jsval) : Status :=
  {| st_stage := stage;
     st_message := msg;
     st_timestamp := r_status_ts r;
     st_success := default_to VNull success;
     st_details := default_to (VObj []) details;
     st_schedule := default_to VNull scheduleInfo |}.

End Logger.


(* ===================================================================== *)
(** * scheduler.js *)
(* ===================================================================== *)

Module Scheduler.
Import JS.
Open Scope string_scope.
Open Scope list_scope.
Open Scope Z_scope.

(** [{hour, minute}] *)
Record Time : Type := mkTime {
  hour : Z;
  minute : Z
}.

(** The [lastExecution] record.  A completed fire stores
    [{timestamp, duration, success, details}], a failed one
    [{timestamp, success: false, error}]; a field the literal does not write
    is [None].  The duration is kept in milliseconds (the source prints it
    in seconds). *)
Record Execution : Type := mkExecution {
  ex_timestamp : Z;
  ex_duration : option Z;
  ex_success : jsval;
  ex_details : option jsval;
  ex_error : option jsval
}.

Inductive ScheduleType : Type := TyInterval | TyTimes.

(** The object kept per schedule in [activeSchedules]; [None] is a field the
    object does not have (yet), [lastExecution = None] is [null]. *)
Record Schedule : Type := mkSchedule {
  sc_type : ScheduleType;
  sc_intervalId : option nat;
  sc_intervalMs : option Z;
  sc_executeImmediately : option bool;
  sc_times : option (list Time);
  sc_startTime : Z;
  sc_lastExecution : option Execution;
  sc_timeoutId : option nat;
  sc_nextExecution : option Z
}.

(** Module state: the [activeSchedules] Map (insertion ordered), the id
    counter, and the next timer handle the runtime hands out. *)
Record State : Type := mkState {
  activeSchedules : list (string * Schedule);
  nextScheduleId : nat;
  nextTimer : nat
}.

Definition initial : State :=
  {| activeSchedules := []; nextScheduleId := 1; nextTimer := 1 |}.

(** [Map.prototype.get / set / delete] *)
Fixpoint map_get (k : string) (m : list (string * Schedule)) : option Schedule :=
  match m with
  | [] => None
  | (k', v) :: rest => if (k' =? k)%string then Some v else map_get k rest
  end.

Fixpoint map_set (k : string) (v : Schedule) (m : list (string * Schedule))
  : list (string * Schedule) :=
  match m with
  | [] => [(k, v)]
  | (k', v') :: rest =>
      if (k' =? k)%string then (k', v) :: rest else (k', v') :: map_set k v rest
  end.

Fixpoint map_delete (k : string) (m : list (string * Schedule))
  : list (string * Schedule) :=
  match m with
  | [] => []
  | (k', v') :: rest =>
      if (k' =? k)%string then rest else (k', v') :: map_delete k rest
  end.

(** How the awaited callback settled. *)
Inductive Settled : Type :=
| Resolved (result : jsval)
| Rejected (error : jsval).

(** The clock values one fire reads: [Date.now()] before and after the
    callback, and the [new Date()] of the stored record. *)
Record FireReads : Type := mkFireReads {
  executionStart : Z;
  executionEnd : Z;
  recordedAt : Z
}.

Definition set_lastExecution (e : Execution) (s : Schedule) : Schedule :=
  {| sc_type := sc_type s; sc_intervalId := sc_intervalId s;
     sc_intervalMs := sc_intervalMs s;
     sc_executeImmediately := sc_executeImmediately s;
     sc_times := sc_times s; sc_startTime := sc_startTime s;
     sc_lastExecution := Some e;
     sc_timeoutId := sc_timeoutId s; sc_nextExecution := sc_nextExecution s |}.

Definition with_schedules (m : list (string * Schedule)) (st : State) : State :=
  {| activeSchedules := m; nextScheduleId := nextScheduleId st;
     nextTimer := nextTimer st |}.

(** [wrappedFunction] of [scheduleInterval] and of [scheduleTimes] (the two
    closures have the same text).  [st] is the module state when the awaited
    callback has settled.  The result is [Throw] when the wrapper's own
    promise rejects. *)
Definition wrappedFunction (scheduleId : string) (cb : Settled) (r : FireReads)
    (st : State) : outcome State :=
  match cb with
  | Resolved result =>
      match map_get scheduleId (activeSchedules st) with
      | Some schedule =>
          let e := {| ex_timestamp := recordedAt r;
                      ex_duration := Some (executionEnd r - executionStart r);
                      (* success: result?.success || true *)
                      ex_success := js_or (get_prop_opt result "success") (VBool true);
                      (* details: result || {} *)
                      ex_details := Some (js_or result (VObj []));
                      ex_error := None |} in
          Ret (with_schedules
                 (map_set scheduleId (set_lastExecution e schedule) (activeSchedules st)) st)
      | None => Ret st
      end
  | Rejected error =>
      match map_get scheduleId (activeSchedules st) with
      | Some schedule =>
          match message_of error with
          | Ret m =>
              let e := {| ex_timestamp := recordedAt r;
                          ex_duration := None;
                          ex_success := VBool false;
                          ex_details := None;
                          ex_error := Some m |} in
              Ret (with_schedules
                     (map_set scheduleId (set_lastExecution e schedule) (activeSchedules st)) st)
          | Throw t => Throw t
          end
      | None => Ret st
      end
  end.

(** ** Parsing ["HH:MM"] *)

(** [s.split(':')] *)
Fixpoint split_colon_aux (acc : string) (s : string) : list string :=
  match s with
  | EmptyString => [acc]
  | String c rest =>
      if Ascii.eqb c ":"%char then acc :: split_colon_aux EmptyString rest
      else split_colon_aux (acc ++ String c EmptyString)%string rest
  end.

Definition split_colon (s : string) : list string := split_colon_aux EmptyString s.

Definition digit_value (c : ascii) : option Z :=
  let n := nat_of_ascii c in
  if andb (48 <=? n)%nat (n <=? 57)%nat then Some (Z.of_nat (n - 48)) else None.

Fixpoint decimal_aux (acc : Z) (s : string) : option Z :=
  match s with
  | EmptyString => Some acc
  | String c rest =>
      match digit_value c with
      | Some d => decimal_aux (10 * acc + d) rest
      | None => None
      end
  end.

(** [Number(s)] on the strings made of at most 11 decimal digits
    ([Number("")] is 0).  [None] stands for every other string: there
    [Number] yields NaN, or reads one of its other numeral forms (sign,
    fraction, exponent, radix prefix, surrounding blanks), or gives a number
    so large that the products and sums made of it below are no longer
    exact; these are outside this model. *)
Definition Number_decimal (s : string) : option Z :=
  if (String.length s <=? 11)%nat then decimal_aux 0 s else None.

(** [const [hour, minute] = timeStr.split(':').map(Number)].  [None] also
    when there is no second component ([minute] would be [undefined]). *)
Definition parseTime (timeStr : string) : option Time :=
  match split_colon timeStr with
  | h :: m :: _ =>
      match Number_decimal h, Number_decimal m with
      | Some hv, Some mv => Some {| hour := hv; minute := mv |}
      | _, _ => None
      end
  | _ => None
  end.

Fixpoint parseAll (times : list string) : option (list Time) :=
  match times with
  | [] => Some []
  | t :: rest =>
      match parseTime t, parseAll rest with
      | Some x, Some xs => Some (x :: xs)
      | _, _ => None
      end
  end.

(** The sort key of the comparator: [a.hour * 60 + a.minute]. *)
Definition minutes_of (t : Time) : Z := hour t * 60 + minute t.

(** [Array.prototype.sort] with the comparator
    [(a, b) => a.hour*60 + a.minute - (b.hour*60 + b.minute)]: a stable sort,
    here by insertion in front of the first element that does not compare
    smaller. *)
Fixpoint insert_time (t : Time) (l : list Time) : list Time :=
  match l with
  | [] => [t]
  | x :: rest =>
      if (minutes_of t - minutes_of x <=? 0) then t :: x :: rest
      else x :: insert_time t rest
  end.

Fixpoint sort_times (l : list Time) : list Time :=
  match l with
  | [] => []
  | x :: rest => insert_time x (sort_times rest)
  end.

(** [parsedTimes = times.map(...).sort(...)] *)
Definition parsedTimes (times : list string) : option (list Time) :=
  match parseAll times with
  | Some l => Some (sort_times l)
  | None => None
  end.

(** ** Dates *)

Definition DAY : Z := 24 * 3600000.

(** Milliseconds after midnight: [time.hour * 3600000 + time.minute * 60000] *)
Definition ms_of (t : Time) : Z := hour t * 3600000 + minute t * 60000.

(** The largest time value a [Date] holds: 8.64e15 ms either side of the
    epoch. *)
Definition MAX_TIME : Z := 8640000000000000.

(** A [Date] object, kept as its time value; [None] is an Invalid Date,
    whose time value is NaN. *)
Definition Date : Type := option Z.

(** [new Date(value)] *)
Definition new_Date (value : Z) : Date :=
  if Z.abs value <=? MAX_TIME then Some value else None.

(** [new Date(d.getTime() + ms)] *)
Definition shifted (d : Date) (ms : Z) : Date :=
  match d with
  | Some t => new_Date (t + ms)
  | None => None
  end.

(** The time zone of the process, as the two readings the runtime makes of
    it, both in minutes, UTC minus local time: [offset_at t] is
    [getTimezoneOffset()] of the date at the instant [t], and the calendar
    fields of that date are those of [t - offset_at t * 60000];
    [offset_of_local v] is the offset in force at the local time [v], which
    [new Date(year, month, day)] applies to the midnight it is given.  The
    two differ around a change of the clock. *)
Record Zone : Type := mkZone {
  offset_at : Z -> Z;
  offset_of_local : Z -> Z
}.

(** A zone whose clock never changes. *)
Definition fixed (minutes : Z) : Zone :=
  {| offset_at := fun _ => minutes; offset_of_local := fun _ => minutes |}.

Definition utc : Zone := fixed 0.

(** [America/New_York] around the end of daylight saving time in 2024:
    four hours behind UTC until 2024-11-03T06:00:00Z (02:00 local), five
    hours from then on. *)
Definition new_york : Zone :=
  {| offset_at := fun t => if t <? 1730613600000 then 240 else 300;
     offset_of_local := fun v => if v <? 1730599200000 then 240 else 300 |}.

(** [setTimeout(callback, delay)]: after how long the timer fires.  A delay
    below 1 or above 2147483647 is replaced by 1. *)
Definition fires_after (delay : Z) : Z :=
  if (1 <=? delay) && (delay <=? 2147483647) then delay else 1.

Section Dates.

Variable tz : Zone.

(** [new Date(d.getFullYear(), d.getMonth(), d.getDate())] for the date at
    the instant [t]: the midnight that opens the local calendar day of [t],
    taken as a local time.  (For a year from 0 to 99 the constructor reads
    1900 plus that year; clocks of those years are left out.) *)
Definition local_midnight (t : Z) : Date :=
  let midnight := ((t - offset_at tz t * 60000) / DAY) * DAY in
  new_Date (midnight + offset_of_local tz midnight * 60000).

(** The loop "check times today": the first configured time whose date
    today compares after [nowUtc].  An Invalid Date compares after
    nothing. *)
Fixpoint first_after (todayUtc : Date) (nowUtc : Z) (times : list Time) : option Z :=
  match times with
  | [] => None
  | time :: rest =>
      match shifted todayUtc (ms_of time) with
      | Some executionTime =>
          if nowUtc <? executionTime then Some executionTime
          else first_after todayUtc nowUtc rest
      | None => first_after todayUtc nowUtc rest
      end
  end.

(** The computation of [scheduleNext], up to its [console.log]: the pair of
    [nextExecution] (the value stored in the schedule) and the [delay]
    handed to [setTimeout].  With no configured time, [parsedTimes[0].hour]
    is a TypeError; with a [nextExecution] that is an Invalid Date,
    [nextExecution.toISOString()] is a RangeError. *)
Definition scheduleNext_compute (times : list Time) (now : Z) : outcome (Z * Z) :=
  match new_Date (now + offset_at tz now * 60000) with
  | Some nowUtc =>
      let todayUtc := local_midnight nowUtc in
      match first_after todayUtc nowUtc times with
      | Some nextExecution => Ret (nextExecution, nextExecution - nowUtc)
      | None =>
          let tomorrowUtc := shifted todayUtc (24 * 3600000) in
          match times with
          | firstTime :: _ =>
              match shifted tomorrowUtc (ms_of firstTime) with
              | Some nextExecution => Ret (nextExecution, nextExecution - nowUtc)
              | None => Throw "Invalid time value"
              end
          | [] => Throw "Cannot read properties of undefined (reading 'hour')"
          end
      end
  | None =>
      (* [nowUtc] is an Invalid Date: so is every date made from it, and no
         comparison with it holds *)
      match times with
      | _ :: _ => Throw "Invalid time value"
      | [] => Throw "Cannot read properties of undefined (reading 'hour')"
      end
  end.

(** [scheduleNext]: compute, arm the timeout, and record the handle and the
    next execution in the schedule when it is still registered.  Returns the
    delay of the armed timeout. *)
Definition scheduleNext (scheduleId : string) (times : list Time) (now : Z)
    (st : State) : outcome (Z * State) :=
  match scheduleNext_compute times now with
  | Throw e => Throw e
  | Ret (nextExecution, delay) =>
      let timeoutId := nextTimer st in
      let st1 := {| activeSchedules := activeSchedules st;
                    nextScheduleId := nextScheduleId st;
                    nextTimer := S (nextTimer st) |} in
      match map_get scheduleId (activeSchedules st1) with
      | Some schedule =>
          let schedule' :=
            {| sc_type := sc_type schedule; sc_intervalId := sc_intervalId schedule;
               sc_intervalMs := sc_intervalMs schedule;
               sc_executeImmediately := sc_executeImmediately schedule;
               sc_times := sc_times schedule; sc_startTime := sc_startTime schedule;
               sc_lastExecution := sc_lastExecution schedule;
               sc_timeoutId := Some timeoutId;
               sc_nextExecution := Some nextExecution |} in
          Ret (delay, with_schedules (map_set scheduleId schedule' (activeSchedules st1)) st1)
      | None => Ret (delay, st1)
      end
  end.

End Dates.

(** [`times_${nextScheduleId++}`] *)
Definition show_nat (n : nat) : string := NilZero.string_of_uint (Nat.to_uint n).

(** [scheduleTimes(executeFunction, times)] up to the start of the
    heartbeat: parse and sort, register the schedule, arm the first timeout.
    The outer [None] is a time string outside the parsing model. *)
Definition scheduleTimes (tz : Zone) (times : list string) (now : Z) (st : State)
  : option (outcome (string * Z * State)) :=
  let scheduleId := ("times_" ++ show_nat (nextScheduleId st))%string in
  match parsedTimes times with
  | None => None
  | Some parsed =>
      let schedule :=
        {| sc_type := TyTimes; sc_intervalId := None; sc_intervalMs := None;
           sc_executeImmediately := None; sc_times := Some parsed;
           sc_startTime := now; sc_lastExecution := None;
           sc_timeoutId := None; sc_nextExecution := None |} in
      let st1 := {| activeSchedules := map_set scheduleId schedule (activeSchedules st);
                    nextScheduleId := S (nextScheduleId st);
                    nextTimer := nextTimer st |} in
      match scheduleNext tz scheduleId parsed now st1 with
      | Throw e => Some (Throw e)
      | Ret (delay, st2) => Some (Ret (scheduleId, delay, st2))
      end
  end.

(** [scheduleInterval(executeFunction, intervalMs, executeImmediately)] up
    to the start of the heartbeat.  With [executeImmediately] the wrapper is
    called first; its continuation after the [await] runs later, when the
    schedule is registered. *)
Definition scheduleInterval (intervalMs : Z) (executeImmediately : bool) (now : Z)
    (st : State) : string * State :=
  let scheduleId := ("interval_" ++ show_nat (nextScheduleId st))%string in
  let intervalId := nextTimer st in
  let schedule :=
    {| sc_type := TyInterval; sc_intervalId := Some intervalId;
       sc_intervalMs := Some intervalMs;
       sc_executeImmediately := Some executeImmediately; sc_times := None;
       sc_startTime := now; sc_lastExecution := None;
       sc_timeoutId := None; sc_nextExecution := None |} in
  (scheduleId,
   {| activeSchedules := map_set scheduleId schedule (activeSchedules st);
      nextScheduleId := S (nextScheduleId st);
      nextTimer := S (nextTimer st) |}).

(** One fire of a daily-times schedule: the timeout callback awaits the
    wrapper and then calls [scheduleNext] at the time [now'] the wrapper
    returned. *)
Definition fire_times (tz : Zone) (scheduleId : string) (times : list Time)
    (cb : Settled) (r : FireReads) (now' : Z) (st : State) : outcome (Z * State) :=
  match wrappedFunction scheduleId cb r st with
  | Throw e => Throw e
  | Ret st1 => scheduleNext tz scheduleId times now' st1
  end.

(** The order the configured times are kept in. *)
Definition by_minutes (a b : Time) : Prop := minutes_of a <= minutes_of b.

(** The readings [scheduleNext] makes of the zone at [now] agree: the date
    [nowUtc] has the offset of [now], and so has the midnight of the UTC
    day of [now].  So it is at every instant of a zone whose clock never
    changes, and in the other zones except around a change. *)
Definition steady (tz : Zone) (now : Z) : Prop :=
  offset_at tz (now + offset_at tz now * 60000) = offset_at tz now
  /\ offset_of_local tz ((now / DAY) * DAY) = offset_at tz now.

(** The [lastExecution] of a schedule, when it is registered and has one. *)
Definition lastExecution_of (scheduleId : string) (st : State) : option Execution :=
  match map_get scheduleId (activeSchedules st) with
  | Some s => sc_lastExecution s
  | None => None
  end.

End Scheduler.

(* ===================================================================== *)
(** * The effect model of the asynchronous code *)
(* ===================================================================== *)

Module Engine.
Import JS.
Open Scope string_scope.
Open Scope list_scope.
Open Scope Z_scope.

(** The external collaborators an [await] can reach. *)
Inductive Service : Type :=
| SvcWallet          (* getOrCreateWallet *)
| SvcBalances        (* getBalances *)
| SvcTokens          (* GET https://token.jup.ag/all *)
| SvcQuote           (* GET https://quote-api.jup.ag/v6/quote *)
| SvcSwapTx          (* POST https://quote-api.jup.ag/v6/swap *)
| SvcSign            (* privy.walletApi.solana.signAndSendTransaction *)
| SvcConfirm         (* connection.confirmTransaction *)
| SvcBlockhash       (* connection.getLatestBlockhash *)
| SvcTokenAccounts   (* connection.getParsedTokenAccountsByOwner *)
| SvcMarket.         (* GET explorer-api.mobula.io market data *)

Definition service_eqb (a b : Service) : bool :=
  match a, b with
  | SvcWallet, SvcWallet | SvcBalances, SvcBalances | SvcTokens, SvcTokens
  | SvcQuote, SvcQuote | SvcSwapTx, SvcSwapTx | SvcSign, SvcSign
  | SvcConfirm, SvcConfirm | SvcBlockhash, SvcBlockhash
  | SvcTokenAccounts, SvcTokenAccounts | SvcMarket, SvcMarket => true
  | _, _ => false
  end.

(** The instructions [transfer] assembles. *)
Inductive Instruction : Type :=
| SystemTransfer (fromPubkey toPubkey : string) (lamports : jsnum)
| CreateAssociatedTokenAccount (payer account owner mint : string)
| TokenTransfer (source destination owner : string) (amount : Z).

(** What the engine does that can be observed from outside.  Log and
    console lines carry the text of the source template (without its
    leading pictogram), interpolations left as written; of the console
    lines only those of the retry loops, of the send and of the confirmation
    steps are recorded. *)
Inductive Event : Type :=
| ECall (s : Service)
| ESleep (ms : Z)
| EStatus (stage : string) (success : jsval)
| ELog (level : string) (template : string)
| EConsole (template : string)
| ETransaction (instructions : list Instruction).

(** A token of the directory, [{address, symbol, name, decimals}]; a
    missing or empty symbol is [None]. *)
Record Token : Type := mkToken {
  tk_address : string;
  tk_symbol : option string;
  tk_name : string;
  tk_decimals : nat
}.

(** An entry of [balances.allBalances]. *)
Record Holding : Type := mkHolding {
  h_symbol : option string;
  h_uiAmount : jsnum
}.

Record Wallet : Type := mkWallet {
  walletId : string;
  walletAddress : string
}.

(** The answer to a [fetch]: it rejects, or it resolves with a response of
    which the sources read [ok], [status], [text()] and [json()]. *)
Inductive Fetched (A : Type) : Type :=
| FetchRejects (message : string)
| Response (ok : bool) (status : string) (text : string) (json : outcome A).
Arguments FetchRejects {A} message.
Arguments Response {A} ok status text json.

(** What the signing service can reject with, as far as the sources can
    tell: of a caught value they read [message] and nothing else.  An
    [Error] comes with its message; another value that is not [null] or
    [undefined] (a string, say) has none; of [null] and [undefined] no
    property can be read.  Values whose [message] is something else than a
    string are left out.  The other services ([fetch], the RPC connection,
    the wallet service) and the constructors of the client libraries are
    taken to reject with [Error]s, which are kept as their messages. *)
Inductive Rejection : Type :=
| AnError (message : string)
| NoMessage
| RejectedNull
| RejectedUndefined.

(** [error.message] for a caught rejection; [None] is [undefined]. *)
Definition message_read (error : Rejection) : outcome (option string) :=
  match error with
  | AnError message => Ret (Some message)
  | NoMessage => Ret None
  | RejectedNull => Throw "Cannot read properties of null (reading 'message')"
  | RejectedUndefined => Throw "Cannot read properties of undefined (reading 'message')"
  end.

(** The scripted environment: the n-th request to a service gets the n-th
    answer, after the n-th latency; and the functions of the runtime and of
    the client libraries whose results the sources only pass along. *)
Record World : Type := mkWorld {
  w_wallet : nat -> outcome Wallet;
  w_balances : nat -> outcome (list Holding);
  (* the parsed directory; [None] is a falsy JSON body *)
  w_tokens : nat -> Fetched (option (list Token));
  w_quote : nat -> Fetched jsval;
  w_swaptx : nat -> Fetched jsval;
  (* the [hash] of the broadcast transaction, or what the call rejects with *)
  w_sign : nat -> result Rejection string;
  (* [confirmation.value.err] *)
  w_confirm : nat -> outcome jsval;
  w_blockhash : nat -> outcome string;
  (* [tokenAccounts.value.length] *)
  w_token_accounts : nat -> outcome nat;
  w_market : nat -> Fetched jsval;
  w_latency : Service -> nat -> N;
  (* String(v) inside a template literal *)
  rt_show : jsval -> string;
  (* ToNumber on a value that is not a number *)
  rt_to_number : jsval -> jsnum;
  (* Math.pow(10, decimals) above the powers a double holds exactly *)
  rt_pow10 : nat -> jsnum;
  (* new VersionedTransaction(new TransactionMessage({ instructions, ... })
       .compileToV0Message()), and the constructors of the instructions *)
  rt_compile : list Instruction -> outcome unit;
  (* parseFloat(outAmount) / Math.pow(10, decimals) *)
  rt_expected_output : jsval -> nat -> jsnum;
  (* VersionedTransaction.deserialize(Buffer.from(tx, 'base64')) *)
  rt_deserialize : jsval -> outcome unit;
  (* new PublicKey(address) *)
  rt_public_key : string -> outcome string;
  (* getAssociatedTokenAddress(mint, owner) *)
  rt_associated : string -> string -> outcome string;
  (* (a - b).toFixed(6) *)
  rt_shortfall : jsnum -> jsnum -> string
}.

(** The engine state: the clock, the trace (newest event first) and the
    module variables [jupiterTokensCache] ([None] is [null]) and
    [jupiterTokensCacheTime]. *)
Record State : Type := mkState {
  clock : Z;
  trace : list Event;
  jupiterTokensCache : option (list Token);
  jupiterTokensCacheTime : Z
}.

Definition initial (t0 : Z) : State :=
  {| clock := t0; trace := []; jupiterTokensCache := None; jupiterTokensCacheTime := 0 |}.

(** A computation: from a state to a result and the state it leaves.  A
    thrown value leaves the state changes made so far in place.  [M] is the
    computations that throw [Error]s only, kept as their messages; the [try]
    blocks that call the signing service throw a [Rejection]. *)
Definition Computation (E A : Type) : Type := State -> result E A * State.

Notation M := (Computation string).

Definition ret (E A : Type) (a : A) : Computation E A := fun s => (Ret a, s).
Arguments ret {E A} a.

Definition throw (E A : Type) (e : E) : Computation E A := fun s => (Throw e, s).
Arguments throw {E A} e%_string.

Definition bind (E A B : Type) (m : Computation E A) (k : A -> Computation E B)
  : Computation E B :=
  fun s => match m s with
           | (Ret a, s') => k a s'
           | (Throw e, s') => (Throw e, s')
           end.

(** [try { m } catch (error) { h error }]; where [m] throws [Error]s only,
    [h] is given [error.message]. *)
Definition try_catch (E E' A : Type) (m : Computation E A) (h : E -> Computation E' A)
  : Computation E' A :=
  fun s => match m s with
           | (Ret a, s') => (Ret a, s')
           | (Throw e, s') => h e s'
           end.

(** Lift a result computed without effects. *)
Definition lift (E A : Type) (o : result E A) : Computation E A := fun s => (o, s).

(** A computation that throws [Error]s only, inside a [try] block that
    also calls the signing service. *)
Definition errors (A : Type) (m : M A) : Computation Rejection A :=
  fun s => match m s with
           | (Ret a, s') => (Ret a, s')
           | (Throw message, s') => (Throw (AnError message), s')
           end.

Declare Scope engine_scope.
Delimit Scope engine_scope with engine.
Notation "x <- m ;; k" := (bind m (fun x => k))
  (at level 61, m at next level, right associativity) : engine_scope.
Notation "m ;;; k" := (bind m (fun _ => k))
  (at level 61, right associativity) : engine_scope.
Open Scope engine_scope.

(** [Date.now()] *)
Definition now : M Z := fun s => (Ret (clock s), s).

Definition emit (e : Event) : M unit :=
  fun s => (Ret tt, {| clock := clock s; trace := e :: trace s;
                       jupiterTokensCache := jupiterTokensCache s;
                       jupiterTokensCacheTime := jupiterTokensCacheTime s |}).

Definition advance (ms : Z) : M unit :=
  fun s => (Ret tt, {| clock := clock s + ms; trace := trace s;
                       jupiterTokensCache := jupiterTokensCache s;
                       jupiterTokensCacheTime := jupiterTokensCacheTime s |}).

(** [await new Promise(resolve => setTimeout(resolve, ms))] *)
Definition sleep (ms : Z) : M unit := emit (ESleep ms) ;;; advance (Z.max 0 ms).

Definition updateStatus (stage : string) (success : jsval) : M unit :=
  emit (EStatus stage success).

Definition logger_log (template : string) : M unit := emit (ELog "info" template).
Definition logger_error (template : string) : M unit := emit (ELog "error" template).
Definition console (template : string) : M unit := emit (EConsole template).

(** How many requests a trace holds for a service. *)
Fixpoint calls (svc : Service) (tr : list Event) : nat :=
  match tr with
  | [] => 0%nat
  | ECall s :: rest => if service_eqb s svc then S (calls svc rest) else calls svc rest
  | _ :: rest => calls svc rest
  end.

(** Send a request: its index among the requests to that service; the
    answer arrives after the scripted latency. *)
Definition request (w : World) (svc : Service) : M nat :=
  fun s =>
    let n := calls svc (trace s) in
    (Ret n, {| clock := clock s + Z.of_N (w_latency w svc n);
               trace := ECall svc :: trace s;
               jupiterTokensCache := jupiterTokensCache s;
               jupiterTokensCacheTime := jupiterTokensCacheTime s |}).

(** The state a request leaves. *)
Definition after_request (w : World) (svc : Service) (s : State) : State :=
  snd (request w svc s).

Definition set_cache (c : option (list Token)) (t : Z) : M unit :=
  fun s => (Ret tt, {| clock := clock s; trace := trace s;
                       jupiterTokensCache := c; jupiterTokensCacheTime := t |}).

Definition get_cache : M (option (list Token)) :=
  fun s => (Ret (jupiterTokensCache s), s).

Definition get_cache_time : M Z := fun s => (Ret (jupiterTokensCacheTime s), s).

End Engine.

(* ===================================================================== *)
(** * trading.js *)
(* ===================================================================== *)

Module Trading.
Import JS Engine.
Open Scope string_scope.
Open Scope list_scope.
Open Scope Z_scope.
Open Scope engine_scope.

(** [const CACHE_DURATION = 5 * 60 * 1000] *)
Definition CACHE_DURATION : Z := 5 * 60 * 1000.

(** [!jupiterTokensCache] *)
Definition no_cache (c : option (list Token)) : bool :=
  match c with None => true | Some _ => false end.

(** [getJupiterTokens()] *)
Definition getJupiterTokens (w : World) : M (option (list Token)) :=
  t <- now ;;
  cache <- get_cache ;;
  cacheTime <- get_cache_time ;;
  (if no_cache cache || (CACHE_DURATION <? t - cacheTime) then
     try_catch
       (n <- request w SvcTokens ;;
        match w_tokens w n with
        | FetchRejects e => throw e
        | Response ok _ _ json =>
            if ok then (body <- lift json ;; set_cache body t) else ret tt
        end)
       (fun error =>
          console "Failed to update Jupiter cache:" ;;;
          cache' <- get_cache ;;
          if no_cache cache'
          then throw "Unable to fetch token list from Jupiter API"
          else ret tt)
   else ret tt) ;;;
  get_cache.

(** A refresh attempt that does not bring a directory: the request
    rejects, the response is not [ok], or its body does not parse. *)
Definition refresh_failed (answer : Fetched (option (list Token))) : bool :=
  match answer with
  | FetchRejects _ => true
  | Response ok _ _ json =>
      negb ok || match json with Throw _ => true | Ret _ => false end
  end.

(** A refresh attempt that ends in the [catch] block. *)
Definition refresh_threw (answer : Fetched (option (list Token))) : bool :=
  match answer with
  | FetchRejects _ => true
  | Response ok _ _ json =>
      ok && match json with Throw _ => true | Ret _ => false end
  end.

(** [t => t.symbol && t.symbol.toUpperCase() === symbol.toUpperCase()] *)
Definition symbol_matches (symbol : string) (t : Token) : bool :=
  match tk_symbol t with
  | Some s => (toUpperCase s =? toUpperCase symbol)%string
  | None => false
  end.

(** [tokens.find(...)], a TypeError when [tokens] is [null]. *)
Definition find_token (tokens : option (list Token)) (symbol : string)
  : outcome (option Token) :=
  match tokens with
  | None => Throw "Cannot read properties of null (reading 'find')"
  | Some l => Ret (List.find (symbol_matches symbol) l)
  end.

(** The result object of [getTokenMintAddress]. *)
Record MintResult : Type := mkMintResult {
  mr_success : bool;
  mr_mintAddress : option string;
  mr_tokenInfo : option Token;
  mr_error : option string
}.

(** [getTokenMintAddress(symbol)] *)
Definition getTokenMintAddress (w : World) (symbol : string) : M MintResult :=
  try_catch
    (tokens <- getJupiterTokens w ;;
     token <- lift (find_token tokens symbol) ;;
     match token with
     | None => throw ("Token with symbol '" ++ symbol ++ "' not found")
     | Some tk =>
         ret {| mr_success := true; mr_mintAddress := Some (tk_address tk);
                mr_tokenInfo := Some tk; mr_error := None |}
     end)
    (fun error =>
       ret {| mr_success := false; mr_mintAddress := None;
              mr_tokenInfo := None; mr_error := Some error |}).

(** [checkTokenAccountExists(walletAddress, mintAddress)] *)
Definition checkTokenAccountExists (w : World) (walletAddress mintAddress : string)
  : M bool :=
  try_catch
    (_ <- lift (rt_public_key w walletAddress) ;;
     _ <- lift (rt_public_key w mintAddress) ;;
     n <- request w SvcTokenAccounts ;;
     count <- lift (w_token_accounts w n) ;;
     ret (0 <? count)%nat)
    (fun _ => ret false).

(** The result objects of [swap], [transfer] and the baseline function; a
    field an object literal does not write is [None]. *)
Record Result : Type := mkResult {
  success : bool;
  signature : option string;
  error : option string;
  errorCategory : option string;
  fromAmount : option Z;
  estimatedToAmount : option jsval;
  actualOutputAmount : option jsnum;
  fromToken : option string;
  toToken : option string;
  priceImpact : option jsval;
  executionTime : option Z;
  route : option jsval;
  transferFrom : option string;
  transferTo : option string;
  transferAmount : option jsnum;
  transferToken : option string;
  executionType : option string;
  timestamp : option Z
}.

(** [{ success: false, error }] with the optional category and timestamp. *)
Definition failure (msg : string) (category : option string) (ts : option Z) : Result :=
  {| success := false; signature := None; error := Some msg;
     errorCategory := category; fromAmount := None; estimatedToAmount := None;
     actualOutputAmount := None; fromToken := None; toToken := None;
     priceImpact := None; executionTime := None; route := None;
     transferFrom := None; transferTo := None; transferAmount := None;
     transferToken := None; executionType := None; timestamp := ts |}.

(** The options of [swap]; [None] is a key the caller left out. *)
Record SwapOptions : Type := mkSwapOptions {
  slippageBps : option Z;
  priorityFee : option string;
  maxRetries : option Z;
  confirmTransaction : option bool
}.

Definition no_options : SwapOptions :=
  {| slippageBps := None; priorityFee := None; maxRetries := None;
     confirmTransaction := None |}.

Definition or_default (A : Type) (d : A) (o : option A) : A :=
  match o with Some a => a | None => d end.

(** [Math.pow(10, decimals)] *)
Definition pow10 (w : World) (decimals : nat) : jsnum :=
  if (decimals <=? 22)%nat then Fin (inject_Z (10 ^ Z.of_nat decimals))
  else rt_pow10 w decimals.

(** [BigInt(Math.floor(amount * Math.pow(10, decimals)))] *)
Definition raw_units (w : World) (amount : jsnum) (decimals : nat) : outcome Z :=
  to_BigInt (js_floor (js_mul amount (pow10 w decimals))).

(** [{ success: false, error: error.message, timestamp }] for a caught
    value whose message may be [undefined]. *)
Definition rejected (message : option string) (ts : option Z) : Result :=
  {| success := false; signature := None; error := message;
     errorCategory := None; fromAmount := None; estimatedToAmount := None;
     actualOutputAmount := None; fromToken := None; toToken := None;
     priceImpact := None; executionTime := None; route := None;
     transferFrom := None; transferTo := None; transferAmount := None;
     transferToken := None; executionType := None; timestamp := ts |}.

(** [v === '0'] *)
Definition is_string_zero (v : jsval) : bool :=
  match v with VStr s => (s =? "0")%string | _ => false end.

(** One pass of a retry loop's [catch]: print, rethrow on the last attempt,
    otherwise back off [1000 * attempt] ms and go round again. *)
Definition retry_catch (line : string) (maxRetries attempt : Z) (error : string)
  : M (option jsval) :=
  console line ;;;
  if attempt =? maxRetries then throw error
  else (sleep (1000 * attempt) ;;; ret None).

(** The quote loop [for (attempt = 1; attempt <= maxRetries; attempt++)];
    [left] bounds the passes that remain.  [Some quoteData] on [break],
    [None] when the loop ends without one. *)
Fixpoint quote_loop (w : World) (maxRetries : Z) (attempt : Z) (left : nat)
  : M (option jsval) :=
  match left with
  | O => ret None
  | S left' =>
      if attempt <=? maxRetries then
        r <- try_catch
               (n <- request w SvcQuote ;;
                match w_quote w n with
                | FetchRejects e => throw e
                | Response ok status text json =>
                    if negb ok then
                      throw ("Quote API error " ++ status ++ ": " ++ text)
                    else
                      quoteData <- lift json ;;
                      outAmount <- lift (get_prop quoteData "outAmount") ;;
                      if negb (truthy outAmount) || is_string_zero outAmount
                      then throw "No valid route found for this swap"
                      else ret (Some quoteData)
                end)
               (retry_catch "Quote attempt ${attempt}/${maxRetries} failed: ${error.message}"
                            maxRetries attempt) ;;
        match r with
        | Some q => ret (Some q)
        | None => quote_loop w maxRetries (attempt + 1) left'
        end
      else ret None
  end.

(** The swap-transaction loop, same shape. *)
Fixpoint swaptx_loop (w : World) (maxRetries : Z) (attempt : Z) (left : nat)
  : M (option jsval) :=
  match left with
  | O => ret None
  | S left' =>
      if attempt <=? maxRetries then
        r <- try_catch
               (n <- request w SvcSwapTx ;;
                match w_swaptx w n with
                | FetchRejects e => throw e
                | Response ok status text json =>
                    if negb ok then
                      throw ("Swap API error " ++ status ++ ": " ++ text)
                    else
                      swapData <- lift json ;;
                      tx <- lift (get_prop swapData "swapTransaction") ;;
                      if negb (truthy tx)
                      then throw "No swap transaction received from Jupiter"
                      else ret (Some swapData)
                end)
               (retry_catch
                  "Swap transaction attempt ${attempt}/${maxRetries} failed: ${error.message}"
                  maxRetries attempt) ;;
        match r with
        | Some q => ret (Some q)
        | None => swaptx_loop w maxRetries (attempt + 1) left'
        end
      else ret None
  end.

(** Reading a property of a loop variable that may still be [undefined]. *)
Definition prop_of (v : option jsval) (k : string) : outcome jsval :=
  match v with
  | Some x => get_prop x k
  | None => get_prop VUndef k
  end.

(** What [swap] holds when it calls the signer. *)
Record Prepared : Type := mkPrepared {
  pr_startTime : Z;
  pr_rawAmount : Z;
  pr_quoteData : option jsval;
  pr_outAmount : jsval;
  pr_expectedOutput : jsnum;
  pr_priceImpact : jsval;
  pr_request : nat
}.

(** What [swap] holds once the transaction has been sent. *)
Record Sent : Type := mkSent {
  sent_startTime : Z;
  sent_hash : string;
  sent_rawAmount : Z;
  sent_outAmount : jsval;
  sent_expectedOutput : jsnum;
  sent_priceImpact : jsval;
  sent_route : jsval
}.

(** [swap], from its first line to the call of [signAndSendTransaction];
    [pr_request] is the number of that request. *)
Definition swap_prepare (w : World) (walletId fromTokenSymbol toTokenSymbol : string)
    (amount : jsnum) (walletAddress : string) (options : SwapOptions) : M Prepared :=
  startTime <- now ;;
  let slippage := or_default 150 (slippageBps options) in
  let retries := or_default 3 (maxRetries options) in
  tokens <- getJupiterTokens w ;;
  fromTokenInfo <- lift (find_token tokens fromTokenSymbol) ;;
  toTokenInfo <- lift (find_token tokens toTokenSymbol) ;;
  match fromTokenInfo, toTokenInfo with
  | Some fromInfo, Some toInfo =>
      rawAmount <- lift (raw_units w amount (tk_decimals fromInfo)) ;;
      quoteData <- quote_loop w retries 1 (Z.to_nat retries) ;;
      outAmount <- lift (prop_of quoteData "outAmount") ;;
      let expectedOutput := rt_expected_output w outAmount (tk_decimals toInfo) in
      impact <- lift (prop_of quoteData "priceImpactPct") ;;
      let priceImpact := js_or impact (VNum (Fin 0)) in
      swapData <- swaptx_loop w retries 1 (Z.to_nat retries) ;;
      tx <- lift (prop_of swapData "swapTransaction") ;;
      _ <- lift (rt_deserialize w tx) ;;
      n <- request w SvcSign ;;
      ret {| pr_startTime := startTime; pr_rawAmount := rawAmount;
             pr_quoteData := quoteData; pr_outAmount := outAmount;
             pr_expectedOutput := expectedOutput; pr_priceImpact := priceImpact;
             pr_request := n |}
  | _, _ =>
      throw ("Token not found: " ++ fromTokenSymbol ++ " or " ++ toTokenSymbol)
  end.

(** [swap], from its first line to the line after
    [signAndSendTransaction]: what the signer rejects with is thrown as it
    is. *)
Definition swap_send (w : World) (walletId fromTokenSymbol toTokenSymbol : string)
    (amount : jsnum) (walletAddress : string) (options : SwapOptions)
  : Computation Rejection Sent :=
  p <- errors (swap_prepare w walletId fromTokenSymbol toTokenSymbol amount
                 walletAddress options) ;;
  hash <- lift (w_sign w (pr_request p)) ;;
  errors (console "Transaction sent: ${hash}") ;;;
  (* [quoteData.routePlan] is read when the result object is built; the
     read is pure and [quoteData.outAmount] was read above, so it is
     taken here. *)
  routePlan <- errors (lift (prop_of (pr_quoteData p) "routePlan")) ;;
  ret {| sent_startTime := pr_startTime p; sent_hash := hash;
         sent_rawAmount := pr_rawAmount p; sent_outAmount := pr_outAmount p;
         sent_expectedOutput := pr_expectedOutput p;
         sent_priceImpact := pr_priceImpact p;
         sent_route := js_or routePlan (VArr []) |}.

(** The optional confirmation of [swap]. *)
Definition swap_confirm (w : World) (confirm : bool) : M unit :=
  if confirm then
    console "Confirming transaction..." ;;;
    try_catch
      (n <- request w SvcConfirm ;;
       err <- lift (w_confirm w n) ;;
       if truthy err then console "Transaction failed: ${confirmation.value.err}"
       else console "Transaction confirmed!")
      (fun confirmError =>
         console "Confirmation check failed: ${confirmError.message}")
  else ret tt.

(** [swap], from the confirmation to the returned object. *)
Definition swap_finish (w : World) (fromTokenSymbol toTokenSymbol : string)
    (options : SwapOptions) (s : Sent) : M Result :=
  swap_confirm w (or_default true (confirmTransaction options)) ;;;
  t <- now ;;
  let totalTime := t - sent_startTime s in
  ret {| success := true; signature := Some (sent_hash s); error := None;
         errorCategory := None; fromAmount := Some (sent_rawAmount s);
         estimatedToAmount := Some (sent_outAmount s);
         actualOutputAmount := Some (sent_expectedOutput s);
         fromToken := Some fromTokenSymbol; toToken := Some toTokenSymbol;
         priceImpact := Some (sent_priceImpact s);
         executionTime := Some totalTime; route := Some (sent_route s);
         transferFrom := None; transferTo := None; transferAmount := None;
         transferToken := None; executionType := None; timestamp := None |}.

(** The classification of the outer [catch] of [swap]. *)
Definition classify (msg : string) : string :=
  if includes "insufficient" msg then "insufficient_funds"
  else if includes "slippage" msg then "slippage_exceeded"
  else if includes "timeout" msg then "timeout"
  else if includes "route" msg then "no_route"
  else "unknown".

(** The [catch] block of [swap]: it reads [error.message] for the console
    and calls its [includes], a TypeError when there is no message. *)
Definition swap_catch (error : Rejection) : M Result :=
  message <- lift (message_read error) ;;
  match message with
  | Some msg =>
      t <- now ;;
      ret (failure msg (Some (classify msg)) (Some t))
  | None => throw "Cannot read properties of undefined (reading 'includes')"
  end.

(** [swap(walletId, fromTokenSymbol, toTokenSymbol, fromAmount,
          walletAddress, options = {})] *)
Definition swap (w : World) (walletId fromTokenSymbol toTokenSymbol : string)
    (amount : jsnum) (walletAddress : string) (options : SwapOptions) : M Result :=
  try_catch
    (s <- swap_send w walletId fromTokenSymbol toTokenSymbol amount walletAddress options ;;
     errors (swap_finish w fromTokenSymbol toTokenSymbol options s))
    swap_catch.

(** [transfer], from its first line to the call of
    [signAndSendTransaction]: the number of that request. *)
Definition transfer_prepare (w : World)
    (walletId fromWalletAddress toAddress tokenSymbol : string) (amount : jsnum) : M nat :=
  fromPublicKey <- lift (rt_public_key w fromWalletAddress) ;;
  toPublicKey <- lift (rt_public_key w toAddress) ;;
  nb <- request w SvcBlockhash ;;
  _ <- lift (w_blockhash w nb) ;;
  instructions <-
    (if (toUpperCase tokenSymbol =? "SOL")%string then
       let amountInLamports := js_floor (js_mul amount (Fin (inject_Z 1000000000))) in
       ret [SystemTransfer fromPublicKey toPublicKey amountInLamports]
     else
       tokenResult <- getTokenMintAddress w tokenSymbol ;;
       match mr_success tokenResult, mr_mintAddress tokenResult, mr_tokenInfo tokenResult with
       | true, Some mintAddress, Some tokenInfo =>
           mintPublicKey <- lift (rt_public_key w mintAddress) ;;
           rawAmount <- lift (raw_units w amount (tk_decimals tokenInfo)) ;;
           fromTokenAccount <- lift (rt_associated w mintPublicKey fromPublicKey) ;;
           toTokenAccount <- lift (rt_associated w mintPublicKey toPublicKey) ;;
           toAccountExists <- checkTokenAccountExists w toAddress mintAddress ;;
           ret ((if toAccountExists then []
                 else [CreateAssociatedTokenAccount fromPublicKey toTokenAccount
                         toPublicKey mintPublicKey])
                ++ [TokenTransfer fromTokenAccount toTokenAccount fromPublicKey rawAmount])
       | _, _, _ =>
           throw ("Token " ++ tokenSymbol ++ " not found: "
                  ++ or_default "undefined" (mr_error tokenResult))
       end) ;;
  _ <- lift (rt_compile w instructions) ;;
  emit (ETransaction instructions) ;;;
  request w SvcSign.

(** What [transfer] holds once the transaction has been sent: what the
    signer rejects with is thrown as it is. *)
Definition transfer_send (w : World) (walletId fromWalletAddress toAddress tokenSymbol : string)
    (amount : jsnum) : Computation Rejection string :=
  n <- errors (transfer_prepare w walletId fromWalletAddress toAddress tokenSymbol amount) ;;
  hash <- lift (w_sign w n) ;;
  errors (console "Transfer transaction sent: ${hash}") ;;;
  ret hash.

(** The confirmation of [transfer]: [Some r] when the [try] block returns
    [r], [None] when control reaches the statement after it. *)
Definition transfer_confirm (w : World) : M (option Result) :=
  try_catch
    (n <- request w SvcConfirm ;;
     err <- lift (w_confirm w n) ;;
     if truthy err then
       console "Transfer failed: ${confirmation.value.err}" ;;;
       ret (Some (failure ("Transaction failed: " ++ rt_show w err) None None))
     else
       console "Transfer confirmed!" ;;; ret None)
    (fun confirmError =>
       console "Confirmation check failed: ${confirmError.message}" ;;;
       ret None).

(** [transfer], from the confirmation to the returned object. *)
Definition transfer_finish (w : World) (fromWalletAddress toAddress tokenSymbol : string)
    (amount : jsnum) (hash : string) : M Result :=
  early <- transfer_confirm w ;;
  match early with
  | Some r => ret r
  | None =>
      t <- now ;;
      ret {| success := true; signature := Some hash; error := None;
             errorCategory := None; fromAmount := None; estimatedToAmount := None;
             actualOutputAmount := None; fromToken := None; toToken := None;
             priceImpact := None; executionTime := None; route := None;
             transferFrom := Some fromWalletAddress; transferTo := Some toAddress;
             transferAmount := Some amount; transferToken := Some tokenSymbol;
             executionType := None; timestamp := Some t |}
  end.

(** The [catch] block of [transfer]: it reads [error.message] for the
    result. *)
Definition transfer_catch (error : Rejection) : M Result :=
  message <- lift (message_read error) ;;
  t <- now ;;
  ret (rejected message (Some t)).

(** [transfer(walletId, fromWalletAddress, toAddress, tokenSymbol, amount)] *)
Definition transfer (w : World) (walletId fromWalletAddress toAddress tokenSymbol : string)
    (amount : jsnum) : M Result :=
  try_catch
    (hash <- transfer_send w walletId fromWalletAddress toAddress tokenSymbol amount ;;
     errors (transfer_finish w fromWalletAddress toAddress tokenSymbol amount hash))
    transfer_catch.

(** [marketData(symbol)] *)
Definition marketData (w : World) (symbol : string) : M jsval :=
  try_catch
    (n <- request w SvcMarket ;;
     match w_market w n with
     | FetchRejects e => throw e
     | Response ok status _ json =>
         if negb ok then throw ("HTTP error! status: " ++ status)
         else (data <- lift json ;; lift (get_prop data "data"))
     end)
    (fun error =>
       ret (VObj [("success", VBool false); ("error", VStr error)])).

(** [price(symbol)] *)
Definition price (w : World) (symbol : string) : M jsval :=
  try_catch
    (data <- marketData w symbol ;;
     flag <- lift (get_prop data "success") ;;
     if is_false flag then ret data else lift (get_prop data "price"))
    (fun error =>
       ret (VObj [("success", VBool false); ("error", VStr error)])).

End Trading.

(* ===================================================================== *)
(** * baseline-range.js: the price condition *)
(* ===================================================================== *)

Module Range.
Import JS Engine Trading.
Open Scope string_scope.
Open Scope list_scope.
Open Scope Z_scope.
Open Scope engine_scope.

(** The result object of [checkPriceCondition] and [waitForPriceCondition]. *)
Record PriceCheck : Type := mkPriceCheck {
  pc_success : bool;
  pc_currentPrice : option jsval;
  pc_targetPrice : option jsnum;
  pc_conditionMet : bool;
  pc_condition : option string;
  pc_error : option string;
  pc_timeout : option bool
}.

(** [{ success: false, error, conditionMet: false }] *)
Definition check_failed (err : string) : PriceCheck :=
  {| pc_success := false; pc_currentPrice := None; pc_targetPrice := None;
     pc_conditionMet := false; pc_condition := None; pc_error := Some err;
     pc_timeout := None |}.

(** ToNumber of an operand of [>=] or [<=]. *)
Definition to_number (w : World) (v : jsval) : jsnum :=
  match v with
  | VNum n => n
  | _ => rt_to_number w v
  end.

(** [above ? currentPrice >= targetPrice : currentPrice <= targetPrice] *)
Definition condition_met (w : World) (above : bool) (currentPrice : jsval)
    (targetPrice : jsnum) : bool :=
  if above then js_ge (to_number w currentPrice) targetPrice
  else js_le (to_number w currentPrice) targetPrice.

(** The part of [checkPriceCondition] after the price has come back, with
    the comparison done on [currentPrice]. *)
Definition evaluate (w : World) (tokenToMonitor : string) (targetPrice : jsnum)
    (above : bool) (currentPrice : jsval) : M PriceCheck :=
  let conditionMet := condition_met w above currentPrice targetPrice in
  let conditionText := if above then "above" else "below" in
  (if conditionMet then
     updateStatus "price_condition_met" (VBool true) ;;;
     logger_log "Price condition satisfied: ${tokenToMonitor} $${currentPrice} is ${conditionText} target $${targetPrice}"
   else
     updateStatus "price_condition_waiting" VNull ;;;
     logger_log "Price threshold not reached: ${tokenToMonitor} $${currentPrice} (target: ${conditionText} $${targetPrice})") ;;;
  ret {| pc_success := true; pc_currentPrice := Some currentPrice;
         pc_targetPrice := Some targetPrice; pc_conditionMet := conditionMet;
         pc_condition := Some conditionText; pc_error := None; pc_timeout := None |}.

(** [checkPriceCondition(tokenToMonitor, targetPrice, above)] *)
Definition checkPriceCondition (w : World) (tokenToMonitor : string)
    (targetPrice : jsnum) (above : bool) : M PriceCheck :=
  try_catch
    (updateStatus "price_check" VNull ;;;
     logger_log "Checking ${tokenToMonitor} price condition: ${above ? 'above' : 'below'} $${targetPrice}" ;;;
     priceResult <- price w tokenToMonitor ;;
     (* typeof priceResult === 'object' && priceResult.success === false *)
     isError <- (if jstype_eqb (typeof priceResult) TObject
                 then (flag <- lift (get_prop priceResult "success") ;; ret (is_false flag))
                 else ret false) ;;
     if isError then
       err <- lift (get_prop priceResult "error") ;;
       updateStatus "price_error" (VBool false) ;;;
       logger_error "Failed to get ${tokenToMonitor} price: ${priceResult.error}" ;;;
       ret (check_failed
              ("Failed to get " ++ tokenToMonitor ++ " price: " ++ rt_show w err))
     else if jstype_eqb (typeof priceResult) TNumber then
       evaluate w tokenToMonitor targetPrice above priceResult
     else
       (* typeof priceResult === 'object' && priceResult.price *)
       p <- (if jstype_eqb (typeof priceResult) TObject
             then lift (get_prop priceResult "price")
             else ret VUndef) ;;
       if truthy p then
         evaluate w tokenToMonitor targetPrice above p
       else
         updateStatus "price_error" (VBool false) ;;;
         logger_error "Invalid price format for ${tokenToMonitor}: ${JSON.stringify(priceResult)}" ;;;
         ret (check_failed ("Invalid price format for " ++ tokenToMonitor)))
    (fun error =>
       updateStatus "price_check_error" (VBool false) ;;;
       logger_error "Error checking price condition: ${error.message}" ;;;
       ret (check_failed error)).

(** The shapes of a price result the specification names: a bare number,
    an object with a price, an object with [success: false]; and the
    rest. *)
Inductive Shape : Type :=
| BareNumber (n : jsnum)
| PriceObject (p : jsval)
| ErrorObject (err : jsval)
| Unrecognized.

Definition shape_of (v : jsval) : Shape :=
  match v with
  | VNum n => BareNumber n
  | VObj fields =>
      if is_false (lookup "success" fields) then ErrorObject (lookup "error" fields)
      else if truthy (lookup "price" fields) then PriceObject (lookup "price" fields)
      else Unrecognized
  | _ => Unrecognized
  end.

(** [const checkInterval = 30000] *)
Definition checkInterval : Z := 30000.

(** The default of [maxWaitTime]: [24 * 60 * 60 * 1000] *)
Definition default_maxWaitTime : Z := 24 * 60 * 60 * 1000.

(** [{ success: true, conditionMet: false, timeout: true, error }] *)
Definition timed_out : PriceCheck :=
  {| pc_success := true; pc_currentPrice := None; pc_targetPrice := None;
     pc_conditionMet := false; pc_condition := None;
     pc_error := Some "Price monitoring timeout reached";
     pc_timeout := Some true |}.

(** The [while (Date.now() - startTime < maxWaitTime)] loop.  [fuel] bounds
    the passes; the outer [None] is a loop cut short by it.  [Some None] is
    the loop left through its condition, [Some (Some r)] a [return r] from
    inside. *)
Fixpoint wait_loop (w : World) (tokenToMonitor : string) (targetPrice : jsnum)
    (above : bool) (maxWaitTime startTime : Z) (fuel : nat)
  : M (option (option PriceCheck)) :=
  match fuel with
  | O => ret None
  | S fuel' =>
      t <- now ;;
      if t - startTime <? maxWaitTime then
        priceCheck <- checkPriceCondition w tokenToMonitor targetPrice above ;;
        if negb (pc_success priceCheck) then
          logger_log "Price check failed, retrying in 30 seconds..." ;;;
          sleep checkInterval ;;;
          wait_loop w tokenToMonitor targetPrice above maxWaitTime startTime fuel'
        else if pc_conditionMet priceCheck then
          updateStatus "price_condition_achieved" (VBool true) ;;;
          logger_log "Price condition achieved! Proceeding with trade execution..." ;;;
          ret (Some (Some priceCheck))
        else
          sleep checkInterval ;;;
          wait_loop w tokenToMonitor targetPrice above maxWaitTime startTime fuel'
      else ret (Some None)
  end.

(** [waitForPriceCondition(tokenToMonitor, targetPrice, above,
                           maxWaitTime = 24 * 60 * 60 * 1000)];
    [None] when [fuel] cut the loop short. *)
Definition waitForPriceCondition (w : World) (tokenToMonitor : string)
    (targetPrice : jsnum) (above : bool) (maxWaitTime : option Z) (fuel : nat)
  : M (option PriceCheck) :=
  let maxWaitTime := or_default default_maxWaitTime maxWaitTime in
  startTime <- now ;;
  updateStatus "price_monitoring_start" VNull ;;;
  logger_log "Starting price monitoring: ${tokenToMonitor} ${above ? 'above' : 'below'} $${targetPrice}" ;;;
  logger_log "Checking every 30 seconds..." ;;;
  r <- wait_loop w tokenToMonitor targetPrice above maxWaitTime startTime fuel ;;
  match r with
  | None => ret None
  | Some (Some priceCheck) => ret (Some priceCheck)
  | Some None =>
      updateStatus "price_monitoring_timeout" (VBool false) ;;;
      logger_log "Price monitoring timeout reached after ${maxWaitTime / (60 * 60 * 1000)} hours" ;;;
      ret (Some timed_out)
  end.

(** A state in which [i] requests have gone to the price feed and nothing
    else has happened. *)
Definition asked (i : nat) : State :=
  {| clock := 0; trace := List.repeat (ECall SvcMarket) i;
     jupiterTokensCache := None; jupiterTokensCacheTime := 0 |}.

(** What [checkPriceCondition] returns when its request is request [i] to
    the price feed, counting from 0. *)
Definition poll (w : World) (tokenToMonitor : string) (targetPrice : jsnum)
    (above : bool) (i : nat) : outcome PriceCheck :=
  fst (checkPriceCondition w tokenToMonitor targetPrice above (asked i)).

(** [priceCheck.success && priceCheck.conditionMet]: the poll on which the
    loop returns. *)
Definition ends_wait (o : outcome PriceCheck) : bool :=
  match o with
  | Ret priceCheck => pc_success priceCheck && pc_conditionMet priceCheck
  | Throw _ => false
  end.

(** Passes that are enough for a wait of [maxWaitTime]: every pass that
    does not return sleeps 30 seconds. *)
Definition enough_fuel (maxWaitTime : option Z) : nat :=
  Z.to_nat (or_default default_maxWaitTime maxWaitTime / checkInterval) + 2.

(** The requests to the price feed and the sleeps of a trace, oldest
    first. *)
Fixpoint polls_and_sleeps (chronological : list Event) : list Event :=
  match chronological with
  | [] => []
  | ECall SvcMarket :: rest => ECall SvcMarket :: polls_and_sleeps rest
  | ESleep ms :: rest => ESleep ms :: polls_and_sleeps rest
  | _ :: rest => polls_and_sleeps rest
  end.

(** Polls separated by sleeps of exactly 30 seconds: each poll but a final
    one is followed by one [ESleep 30000], and nothing else occurs. *)
Fixpoint cadence (l : list Event) : bool :=
  match l with
  | [] => true
  | ECall SvcMarket :: rest =>
      match rest with
      | [] => true
      | ESleep ms :: rest' => (ms =? 30000) && cadence rest'
      | _ => false
      end
  | _ => false
  end.

End Range.

(* ===================================================================== *)
(** * baseline-dca.js: the balance gate and the immediate execution *)
(* ===================================================================== *)

Module DCA.
Import JS Engine Trading.
Open Scope string_scope.
Open Scope list_scope.
Open Scope Z_scope.
Open Scope engine_scope.

(** [balances.allBalances.find(token => token.symbol === 'SOL')] *)
Definition is_SOL (h : Holding) : bool :=
  match h_symbol h with
  | Some s => (s =? "SOL")%string
  | None => false
  end.

(** [getBalances(walletAddress)], of which the sources read [allBalances]. *)
Definition getBalances (w : World) : M (list Holding) :=
  n <- request w SvcBalances ;;
  lift (w_balances w n).

(** The [while (true)] loop of [waitForBalance]; [fuel] bounds the polls and
    [None] is a loop cut short by it. *)
Fixpoint balance_loop (w : World) (minimumSOL : jsnum) (fuel : nat) : M (option jsnum) :=
  match fuel with
  | O => ret None
  | S fuel' =>
      r <- try_catch
             (allBalances <- getBalances w ;;
              emit (ELog "${JSON.stringify(balances)}" "All balances:") ;;;
              let currentBalance :=
                match List.find is_SOL allBalances with
                | Some solBalance => h_uiAmount solBalance
                | None => Fin 0
                end in
              if js_ge currentBalance minimumSOL then
                updateStatus "balance_ready" (VBool true) ;;;
                logger_log "Wallet balance ready: ${currentBalance.toFixed(6)} SOL (required: ${minimumSOL} SOL)" ;;;
                ret (Some currentBalance)
              else
                updateStatus "balance_insufficient" VNull ;;;
                logger_log "Insufficient balance: ${currentBalance.toFixed(6)} SOL (need ${minimumSOL} SOL). Checking again in 1 minute..." ;;;
                sleep 60000 ;;;
                ret None)
             (fun error =>
                updateStatus "balance_error" (VBool false) ;;;
                logger_error "Error checking balance: ${error.message}" ;;;
                sleep 60000 ;;;
                ret None) ;;
      match r with
      | Some currentBalance => ret (Some currentBalance)
      | None => balance_loop w minimumSOL fuel'
      end
  end.

(** [waitForBalance(walletAddress, minimumSOL = 0.005)] *)
Definition waitForBalance (w : World) (minimumSOL : option jsnum) (fuel : nat)
  : M (option jsnum) :=
  updateStatus "balance_check" VNull ;;;
  balance_loop w (or_default (Fin (5 # 1000)) minimumSOL) fuel.

(** [token => token.symbol && token.symbol.toUpperCase() === fromTokenUpper] *)
Definition holds_symbol (fromTokenUpper : string) (h : Holding) : bool :=
  match h_symbol h with
  | Some s => (toUpperCase s =? fromTokenUpper)%string
  | None => false
  end.

(** [{ success: false, error, executionType: 'immediate', timestamp }] *)
Definition immediate_failure (msg : string) (ts : Z) : Result :=
  {| success := false; signature := None; error := Some msg;
     errorCategory := None; fromAmount := None; estimatedToAmount := None;
     actualOutputAmount := None; fromToken := None; toToken := None;
     priceImpact := None; executionTime := None; route := None;
     transferFrom := None; transferTo := None; transferAmount := None;
     transferToken := None; executionType := Some "immediate"; timestamp := Some ts |}.

(** [{ ...swapResult, executionType: 'immediate', timestamp }] *)
Definition immediate_result (r : Result) (ts : Z) : Result :=
  {| success := success r; signature := signature r; error := error r;
     errorCategory := errorCategory r; fromAmount := fromAmount r;
     estimatedToAmount := estimatedToAmount r;
     actualOutputAmount := actualOutputAmount r; fromToken := fromToken r;
     toToken := toToken r; priceImpact := priceImpact r;
     executionTime := executionTime r; route := route r;
     transferFrom := transferFrom r; transferTo := transferTo r;
     transferAmount := transferAmount r; transferToken := transferToken r;
     executionType := Some "immediate"; timestamp := Some ts |}.

(** The message of the insufficient-balance result. *)
Definition insufficient_message (w : World) (fromTok : string) (available amount : jsnum)
  : string :=
  "Insufficient " ++ fromTok ++ " balance. Available: " ++ rt_show w (VNum available)
  ++ ", required: " ++ rt_show w (VNum amount).

(** [const minRequiredSOL = 0.0021] *)
Definition minRequiredSOL : jsnum := Fin (21 # 10000).

(** The baseline function with [scheduleOptions = null], from its first
    line to the return of [waitForBalance(wallet.walletAddress, 0.001)]. *)
Definition gate_phase (w : World) (ownerAddress : string) (fuel : nat)
  : M (option Wallet) :=
  updateStatus "wallet_init" VNull ;;;
  n <- request w SvcWallet ;;
  wallet <- lift (w_wallet w n) ;;
  updateStatus "wallet_ready" (VBool true) ;;;
  logger_log "Wallet initialized: ${wallet.walletAddress}" ;;;
  updateStatus "immediate_execution" VNull ;;;
  logger_log "Executing trading immediately..." ;;;
  updateStatus "execution_start" VNull ;;;
  bal <- waitForBalance w (Some (Fin (1 # 1000))) fuel ;;
  match bal with
  | Some _ => ret (Some wallet)
  | None => ret None
  end.

(** The same, from the trading balance check to the returned object. *)
Definition trade_phase (w : World) (wallet : Wallet) (fromTok toTok : string)
    (amount : jsnum) : M Result :=
  updateStatus "trading_balance_check" VNull ;;;
  logger_log "Checking wallet balances for trading..." ;;;
  allBalances <- getBalances w ;;
  logger_log "Found ${balances.allBalances.length} tokens in wallet" ;;;
  let fromTokenUpper := toUpperCase fromTok in
  match List.find (holds_symbol fromTokenUpper) allBalances with
  | None =>
      updateStatus "trading_error" (VBool false) ;;;
      logger_log "No ${fromToken} found in wallet" ;;;
      t <- now ;;
      ret (immediate_failure ("Wallet does not have " ++ fromTok) t)
  | Some tokenObj =>
      if js_lt (h_uiAmount tokenObj) amount then
        let errorMsg := insufficient_message w fromTok (h_uiAmount tokenObj) amount in
        updateStatus "trading_error" (VBool false) ;;;
        logger_log "${errorMsg}" ;;;
        t <- now ;;
        ret (immediate_failure errorMsg t)
      else
        logger_log "Sufficient ${fromToken} balance: ${tokenObj.uiAmount} (need: ${amount})" ;;;
        updateStatus "token_lookup" VNull ;;;
        logger_log "Looking up ${toToken} token address..." ;;;
        toTokenResult <- getTokenMintAddress w toTok ;;
        match mr_success toTokenResult, mr_mintAddress toTokenResult with
        | true, Some toTokenMintAddress =>
            logger_log "${toToken} token found" ;;;
            updateStatus "account_check" VNull ;;;
            logger_log "Checking if you have a ${toToken} account..." ;;;
            accountExists <- checkTokenAccountExists w (walletAddress wallet) toTokenMintAddress ;;
            (if accountExists then logger_log "${toToken} account ready"
             else logger_log "First ${toToken} transaction - account will be created") ;;;
            if (fromTokenUpper =? "SOL")%string && js_lt (h_uiAmount tokenObj) minRequiredSOL then
              let needed := rt_shortfall w minRequiredSOL (h_uiAmount tokenObj) in
              updateStatus "trading_error" (VBool false) ;;;
              logger_log "Not enough SOL for swap fees" ;;;
              logger_log "Current balance: ${tokenObj.uiAmount} SOL" ;;;
              logger_log "Minimum needed: ${minRequiredSOL} SOL" ;;;
              logger_log "Please add ${needed} SOL to continue" ;;;
              t <- now ;;
              ret (immediate_failure
                     ("Insufficient SOL for Jupiter swap operations. Need " ++ needed ++ " SOL more") t)
            else
              updateStatus "swapping" VNull ;;;
              logger_log "Executing swap: ${amount} ${fromToken} -> ${toToken}" ;;;
              logger_log "Using 1.5% slippage tolerance with auto priority fees" ;;;
              let swapOptions := {| slippageBps := Some 150; priorityFee := Some "auto";
                                    maxRetries := Some 2; confirmTransaction := Some true |} in
              swapResult <- swap w (walletId wallet) fromTok toTok amount
                                 (walletAddress wallet) swapOptions ;;
              (if success swapResult then
                 updateStatus "trading_success" (VBool true) ;;;
                 logger_log "Trading execution completed successfully!" ;;;
                 match signature swapResult with
                 | Some _ => logger_log "Transaction: ${swapResult.signature}"
                 | None => ret tt
                 end
               else
                 updateStatus "trading_error" (VBool false) ;;;
                 logger_log "Trading execution failed: ${swapResult.error || 'Unknown error'}") ;;;
              t <- now ;;
              ret (immediate_result swapResult t)
        | _, _ =>
            updateStatus "trading_error" (VBool false) ;;;
            logger_log "Could not find ${toToken} token: ${toTokenResult.error}" ;;;
            t <- now ;;
            ret (immediate_failure
                   ("Failed to get mint address for " ++ toTok ++ ": "
                    ++ or_default "undefined" (mr_error toTokenResult)) t)
        end
  end.

(** [baselineFunction(ownerAddress, fromToken, toToken, amount)] with
    [scheduleOptions = null].  The [catch] block reads [wallet], which is
    declared inside the [try] block and not in scope there: evaluating the
    arguments of its [updateStatus] call throws a ReferenceError, so a value
    thrown in the [try] block leaves the function as a rejection.  [None]
    when [fuel] cut the balance gate short. *)
Definition baselineFunction (w : World) (ownerAddress fromTok toTok : string)
    (amount : jsnum) (fuel : nat) : M (option Result) :=
  updateStatus "initializing" VNull ;;;
  try_catch
    (g <- gate_phase w ownerAddress fuel ;;
     match g with
     | None => ret None
     | Some wallet =>
         r <- trade_phase w wallet fromTok toTok amount ;;
         ret (Some r)
     end)
    (fun _ => throw "wallet is not defined").

End DCA.

(* ===================================================================== *)
(** * Concrete environments *)
(* ===================================================================== *)

Module Samples.
Import JS Engine Trading.
Open Scope string_scope.
Open Scope list_scope.
Open Scope Z_scope.

Definition SOL : Token :=
  {| tk_address := "So11111111111111111111111111111111111111112";
     tk_symbol := Some "SOL"; tk_name := "Wrapped SOL"; tk_decimals := 9 |}.

Definition USDC : Token :=
  {| tk_address := "EPjFWdd5AufqSSqeM2qN1xzybapC8G4wEGGkZwyTDt1v";
     tk_symbol := Some "USDC"; tk_name := "USD Coin"; tk_decimals := 6 |}.

Definition directory : list Token := [SOL; USDC].

(** Two account addresses. *)
Definition alice : string := "5NGqPDeoEfpxwq8bKHkMaSyLXDeR7YmsxSyMbXA5yKSQ".
Definition bob : string := "9WzDXwBbmkg8ZTbNMqUxvQRAyrZzDsGYdLVL9zYtAWWM".

(** [String(v)] on the values the samples print. *)
Definition show (v : jsval) : string :=
  match v with
  | VUndef => "undefined"
  | VNull => "null"
  | VBool true => "true"
  | VBool false => "false"
  | VStr s => s
  | VNum (Fin q) =>
      if Qeq_bool q (inject_Z (Qnum q)) then
        (if (Qnum q <? 0) then "-" else "")
        ++ NilZero.string_of_uint (N.to_uint (Z.to_N (Z.abs (Qnum q))))
      else "?"
  | VNum NaN => "NaN"
  | VNum PInf => "Infinity"
  | VNum NInf => "-Infinity"
  | VArr _ => "?"
  | VObj _ => "[object Object]"
  end.

Definition a_quote : jsval :=
  VObj [("outAmount", VStr "6500000"); ("priceImpactPct", VStr "0.01");
        ("routePlan", VArr [])].

Definition a_swaptx : jsval := VObj [("swapTransaction", VStr "AQID")].

(** Every service answers, the wallet holds 1 SOL and no USDC, the market
    quotes SOL at 105, confirmation reports no error, every answer takes
    100 ms. *)
Definition calm : World :=
  {| w_wallet := fun _ => Ret {| walletId := "w1"; walletAddress := alice |};
     w_balances := fun _ => Ret [ {| h_symbol := Some "SOL"; h_uiAmount := Fin 1 |};
                                  {| h_symbol := Some "USDC"; h_uiAmount := Fin 0 |} ];
     w_tokens := fun _ => Response true "200" "" (Ret (Some directory));
     w_quote := fun _ => Response true "200" "" (Ret a_quote);
     w_swaptx := fun _ => Response true "200" "" (Ret a_swaptx);
     w_sign := fun _ => Ret "sig1";
     w_confirm := fun _ => Ret VNull;
     w_blockhash := fun _ => Ret "bh1";
     w_token_accounts := fun _ => Ret 1%nat;
     w_market := fun _ => Response true "200" ""
                            (Ret (VObj [("data", VObj [("price", VNum (Fin 105))])]));
     w_latency := fun _ _ => 100%N;
     rt_show := show;
     rt_to_number := fun _ => NaN;
     rt_pow10 := fun d => nearest_double (inject_Z (10 ^ Z.of_nat d));
     rt_compile := fun _ => Ret tt;
     rt_expected_output := fun _ _ => Fin 1;
     rt_deserialize := fun _ => Ret tt;
     rt_public_key := fun a => Ret a;
     rt_associated := fun m o => Ret (m ++ "/" ++ o)%string;
     rt_shortfall := fun _ _ => "?" |}.

(** [calm] with another confirmation answer. *)
Definition with_confirm (c : outcome jsval) (w : World) : World :=
  {| w_wallet := w_wallet w; w_balances := w_balances w; w_tokens := w_tokens w;
     w_quote := w_quote w; w_swaptx := w_swaptx w; w_sign := w_sign w;
     w_confirm := fun _ => c;
     w_blockhash := w_blockhash w; w_token_accounts := w_token_accounts w;
     w_market := w_market w; w_latency := w_latency w; rt_show := rt_show w;
     rt_to_number := rt_to_number w; rt_pow10 := rt_pow10 w;
     rt_compile := rt_compile w; rt_expected_output := rt_expected_output w;
     rt_deserialize := rt_deserialize w; rt_public_key := rt_public_key w;
     rt_associated := rt_associated w; rt_shortfall := rt_shortfall w |}.

(** [calm] with another answer of the market data service. *)
Definition with_market (m : Fetched jsval) (w : World) : World :=
  {| w_wallet := w_wallet w; w_balances := w_balances w; w_tokens := w_tokens w;
     w_quote := w_quote w; w_swaptx := w_swaptx w; w_sign := w_sign w;
     w_confirm := w_confirm w;
     w_blockhash := w_blockhash w; w_token_accounts := w_token_accounts w;
     w_market := fun _ => m; w_latency := w_latency w; rt_show := rt_show w;
     rt_to_number := rt_to_number w; rt_pow10 := rt_pow10 w;
     rt_compile := rt_compile w; rt_expected_output := rt_expected_output w;
     rt_deserialize := rt_deserialize w; rt_public_key := rt_public_key w;
     rt_associated := rt_associated w; rt_shortfall := rt_shortfall w |}.

(** [calm] with another answer of the token directory. *)
Definition with_tokens (t : Fetched (option (list Token))) (w : World) : World :=
  {| w_wallet := w_wallet w; w_balances := w_balances w; w_tokens := fun _ => t;
     w_quote := w_quote w; w_swaptx := w_swaptx w; w_sign := w_sign w;
     w_confirm := w_confirm w;
     w_blockhash := w_blockhash w; w_token_accounts := w_token_accounts w;
     w_market := w_market w; w_latency := w_latency w; rt_show := rt_show w;
     rt_to_number := rt_to_number w; rt_pow10 := rt_pow10 w;
     rt_compile := rt_compile w; rt_expected_output := rt_expected_output w;
     rt_deserialize := rt_deserialize w; rt_public_key := rt_public_key w;
     rt_associated := rt_associated w; rt_shortfall := rt_shortfall w |}.

(** The market data body [{ data: { price: v } }]. *)
Definition market_price (v : jsval) : Fetched jsval :=
  Response true "200" "" (Ret (VObj [("data", VObj [("price", v)])])).

(** [w] with a market data service that answers request [n] with [m n]. *)
Definition with_markets (m : nat -> Fetched jsval) (w : World) : World :=
  {| w_wallet := w_wallet w; w_balances := w_balances w; w_tokens := w_tokens w;
     w_quote := w_quote w; w_swaptx := w_swaptx w; w_sign := w_sign w;
     w_confirm := w_confirm w;
     w_blockhash := w_blockhash w; w_token_accounts := w_token_accounts w;
     w_market := m; w_latency := w_latency w; rt_show := rt_show w;
     rt_to_number := rt_to_number w; rt_pow10 := rt_pow10 w;
     rt_compile := rt_compile w; rt_expected_output := rt_expected_output w;
     rt_deserialize := rt_deserialize w; rt_public_key := rt_public_key w;
     rt_associated := rt_associated w; rt_shortfall := rt_shortfall w |}.

(** The price feed is down for the first request, quotes 95 on the second
    and 105 from the third on. *)
Definition recovering : World :=
  with_markets (fun n => match n with
                         | O => FetchRejects "down"
                         | S O => market_price (VNum (Fin 95))
                         | _ => market_price (VNum (Fin 105))
                         end) calm.

(** A state whose directory cache was filled at time 0. *)
Definition cached (t : Z) : State :=
  {| clock := t; trace := []; jupiterTokensCache := Some [SOL];
     jupiterTokensCacheTime := 0 |}.

End Samples.

From Stdlib Require DecimalNat DecimalFacts.

(* ===================================================================== *)
(** * scheduler.js: timers, heartbeat, stopping, schedule information *)
(* ===================================================================== *)

Module SchedulerRuntime.
Import JS Scheduler.
Open Scope string_scope.
Open Scope list_scope.
Open Scope Z_scope.

(** The module state together with what the runtime holds for it: the
    timer handles that are armed (intervals, and timeouts that have not
    fired), the module variable [statusUpdateInterval] ([None] is [null]),
    and the [logCounter] of the running heartbeat closure. *)
Record Sys : Type := mkSys {
  sched : State;
  live : list nat;
  statusUpdateInterval : option nat;
  logCounter : nat
}.

Definition initial : Sys :=
  {| sched := Scheduler.initial; live := []; statusUpdateInterval := None;
     logCounter := 0 |}.

(** [clearInterval(h)] / [clearTimeout(h)]: nothing happens for a handle
    that is not armed. *)
Definition clear (h : nat) (l : list nat) : list nat :=
  List.filter (fun x => negb (Nat.eqb x h)) l.

Definition clear_opt (h : option nat) (l : list nat) : list nat :=
  match h with
  | Some x => clear x l
  | None => l
  end.

(** [startStatusUpdates()]: a second call while the heartbeat runs does
    nothing; a start arms the 5-second interval with a new [logCounter]. *)
Definition startStatusUpdates (y : Sys) : Sys :=
  match statusUpdateInterval y with
  | Some _ => y
  | None =>
      let h := nextTimer (sched y) in
      {| sched := {| activeSchedules := activeSchedules (sched y);
                     nextScheduleId := nextScheduleId (sched y);
                     nextTimer := S h |};
         live := h :: live y;
         statusUpdateInterval := Some h;
         logCounter := 0 |}
  end.

(** [stopStatusUpdates()] *)
Definition stopStatusUpdates (y : Sys) : Sys :=
  match statusUpdateInterval y with
  | Some h =>
      {| sched := sched y; live := clear h (live y);
         statusUpdateInterval := None; logCounter := logCounter y |}
  | None => y
  end.

(** [scheduleInterval(executeFunction, intervalMs, executeImmediately)]:
    the registration of [Scheduler.scheduleInterval], its interval armed,
    then [startStatusUpdates()]. *)
Definition scheduleInterval (intervalMs : Z) (executeImmediately : bool) (now : Z)
    (y : Sys) : string * Sys :=
  let (scheduleId, st) := Scheduler.scheduleInterval intervalMs executeImmediately now (sched y) in
  (scheduleId,
   startStatusUpdates
     {| sched := st; live := nextTimer (sched y) :: live y;
        statusUpdateInterval := statusUpdateInterval y;
        logCounter := logCounter y |}).

(** [scheduleNext()] with the timeout it arms. *)
Definition scheduleNext (tz : Zone) (scheduleId : string) (times : list Time) (now : Z)
    (y : Sys) : outcome Z * Sys :=
  match Scheduler.scheduleNext tz scheduleId times now (sched y) with
  | Throw e => (Throw e, y)
  | Ret (delay, st) =>
      (Ret delay,
       {| sched := st; live := nextTimer (sched y) :: live y;
          statusUpdateInterval := statusUpdateInterval y;
          logCounter := logCounter y |})
  end.

(** The entry [scheduleTimes] puts in [activeSchedules] before it calls
    [scheduleNext()]. *)
Definition register_times (parsed : list Time) (now : Z) (st : State) : string * State :=
  let scheduleId := ("times_" ++ show_nat (nextScheduleId st))%string in
  (scheduleId,
   {| activeSchedules :=
        map_set scheduleId
          {| sc_type := TyTimes; sc_intervalId := None; sc_intervalMs := None;
             sc_executeImmediately := None; sc_times := Some parsed;
             sc_startTime := now; sc_lastExecution := None;
             sc_timeoutId := None; sc_nextExecution := None |}
          (activeSchedules st);
      nextScheduleId := S (nextScheduleId st);
      nextTimer := nextTimer st |}).

(** [scheduleTimes(executeFunction, times)] with the state it leaves, also
    when it throws.  The outer [None] is a time string outside the parsing
    model. *)
Definition scheduleTimes (tz : Zone) (times : list string) (now : Z) (y : Sys)
  : option (outcome string * Sys) :=
  match parsedTimes times with
  | None => None
  | Some parsed =>
      let (scheduleId, st1) := register_times parsed now (sched y) in
      let y1 := {| sched := st1; live := live y;
                   statusUpdateInterval := statusUpdateInterval y;
                   logCounter := logCounter y |} in
      match scheduleNext tz scheduleId parsed now y1 with
      | (Throw e, y2) => Some (Throw e, y2)
      | (Ret _, y2) => Some (Ret scheduleId, startStatusUpdates y2)
      end
  end.

(** The timeout [h] of a daily-times schedule fires: it is no longer armed,
    and the callback starts. *)
Definition timeout_fires (h : nat) (y : Sys) : Sys :=
  {| sched := sched y; live := clear h (live y);
     statusUpdateInterval := statusUpdateInterval y; logCounter := logCounter y |}.

(** The rest of the timeout callback, run on the state found when the
    awaited callback has settled: [await wrappedFunction(); scheduleNext()]. *)
Definition timeout_resumes (tz : Zone) (scheduleId : string) (times : list Time)
    (cb : Settled) (r : FireReads) (now' : Z) (y : Sys) : outcome Z * Sys :=
  match wrappedFunction scheduleId cb r (sched y) with
  | Throw e => (Throw e, y)
  | Ret st =>
      scheduleNext tz scheduleId times now'
        {| sched := st; live := live y;
           statusUpdateInterval := statusUpdateInterval y;
           logCounter := logCounter y |}
  end.

(** [stopSchedule(scheduleId)] *)
Definition stopSchedule (scheduleId : string) (y : Sys) : bool * Sys :=
  match map_get scheduleId (activeSchedules (sched y)) with
  | None => (false, y)
  | Some schedule =>
      let live1 := clear_opt (sc_intervalId schedule) (live y) in
      let live2 := clear_opt (sc_timeoutId schedule) live1 in
      let remaining := map_delete scheduleId (activeSchedules (sched y)) in
      let y1 := {| sched := with_schedules remaining (sched y); live := live2;
                   statusUpdateInterval := statusUpdateInterval y;
                   logCounter := logCounter y |} in
      (true, match remaining with
             | [] => stopStatusUpdates y1
             | _ :: _ => y1
             end)
  end.

(** The loop of [stopAllSchedules] over the keys read at its start. *)
Fixpoint stop_each (scheduleIds : list string) (stoppedCount : nat) (y : Sys)
  : nat * Sys :=
  match scheduleIds with
  | [] => (stoppedCount, y)
  | scheduleId :: rest =>
      let (stopped, y1) := stopSchedule scheduleId y in
      stop_each rest (if stopped then S stoppedCount else stoppedCount) y1
  end.

(** [stopAllSchedules()] *)
Definition stopAllSchedules (y : Sys) : nat * Sys :=
  let scheduleIds := List.map fst (activeSchedules (sched y)) in
  let (stoppedCount, y1) := stop_each scheduleIds 0 y in
  (stoppedCount, stopStatusUpdates y1).

(** Every handle a schedule or the heartbeat holds was handed out before:
    it is below the next handle. *)
Definition handles_below (y : Sys) : Prop :=
  (forall k s h, map_get k (activeSchedules (sched y)) = Some s ->
                 (sc_intervalId s = Some h \/ sc_timeoutId s = Some h) ->
                 (h < nextTimer (sched y))%nat)
  /\ (forall h, statusUpdateInterval y = Some h -> (h < nextTimer (sched y))%nat)
  /\ (forall h, In h (live y) -> (h < nextTimer (sched y))%nat).

(** ** [getScheduleInfo] *)

(** JavaScript's [a % b] on integers: the sign of the dividend; [None] is
    NaN, for a zero divisor. *)
Definition js_rem (a b : Z) : option Z :=
  if b =? 0 then None else Some (Z.rem a b).

(** Decimal digits of an integer, as a template literal prints it. *)
Definition show_Z (z : Z) : string :=
  ((if (z <? 0)%Z then "-" else "") ++ NilZero.string_of_uint (N.to_uint (Z.to_N (Z.abs z))))%string.

(** The countdown fields of an interval schedule:
    [nextExecutionIn], [nextExecutionTime], [nextExecutionFormatted];
    [None] is NaN, respectively an invalid date. *)
Record Countdown : Type := mkCountdown {
  nextExecutionIn : option Z;
  nextExecutionTime : option Z;
  nextExecutionFormatted : string
}.

(** The interval branch of the loop body: [now] is its [Date.now()]. *)
Definition interval_countdown (now startTime intervalMs : Z) : Countdown :=
  let elapsed := now - startTime in
  match js_rem elapsed intervalMs with
  | None =>
      {| nextExecutionIn := None; nextExecutionTime := None;
         nextExecutionFormatted := "NaNm NaNs" |}
  | Some r =>
      let nextExecution := intervalMs - r in
      let n := Z.max 0 nextExecution in
      (* n is not negative: Math.floor of the quotients is the integer quotient *)
      let minutes := n / 60000 in
      let seconds := (Z.rem n 60000) / 1000 in
      {| nextExecutionIn := Some n; nextExecutionTime := Some (now + n);
         nextExecutionFormatted := (show_Z minutes ++ "m " ++ show_Z seconds ++ "s")%string |}
  end.

Definition pad2 (z : Z) : string :=
  ((if (z <? 10)%Z then "0" else "") ++ show_Z z)%string.

(** [new Date(t).toISOString().substr(11, 8)] for an instant of the years
    0000 to 9999, where the ISO text has its time of day at offset 11. *)
Definition iso_time_of_day (t : Z) : string :=
  (pad2 ((t / 3600000) mod 24) ++ ":" ++ pad2 ((t / 60000) mod 60) ++ ":"
   ++ pad2 ((t / 1000) mod 60))%string.

(** The entry of [getScheduleInfo()] for one schedule. *)
Record ScheduleInfo : Type := mkScheduleInfo {
  si_id : string;
  si_type : ScheduleType;
  si_startTime : Z;
  si_intervalMs : option Z;
  si_countdown : option Countdown;
  si_executeImmediately : option bool;
  si_times : option (list Time);
  si_nextExecution : option Z;
  si_nextExecutionTime : option Z;
  si_nextExecutionFormatted : option string
}.

(** The loop body of [getScheduleInfo]. *)
Definition schedule_info (now : Z) (scheduleId : string) (schedule : Schedule)
  : ScheduleInfo :=
  match sc_type schedule with
  | TyInterval =>
      let c := interval_countdown now (sc_startTime schedule)
                 (match sc_intervalMs schedule with Some i => i | None => 0 end) in
      {| si_id := scheduleId; si_type := TyInterval;
         si_startTime := sc_startTime schedule;
         si_intervalMs := sc_intervalMs schedule;
         si_countdown := Some c;
         si_executeImmediately := sc_executeImmediately schedule;
         si_times := None; si_nextExecution := None;
         si_nextExecutionTime := nextExecutionTime c;
         si_nextExecutionFormatted := Some (nextExecutionFormatted c) |}
  | TyTimes =>
      {| si_id := scheduleId; si_type := TyTimes;
         si_startTime := sc_startTime schedule;
         si_intervalMs := None; si_countdown := None;
         si_executeImmediately := None;
         si_times := sc_times schedule;
         si_nextExecution := sc_nextExecution schedule;
         si_nextExecutionTime := sc_nextExecution schedule;
         si_nextExecutionFormatted :=
           match sc_nextExecution schedule with
           | Some t => Some (iso_time_of_day t ++ " UTC")%string
           | None => None
           end |}
  end.

(** [getScheduleInfo()], every iteration reading the clock at [now]. *)
Definition getScheduleInfo (now : Z) (st : State) : list ScheduleInfo :=
  List.map (fun kv => schedule_info now (fst kv) (snd kv)) (activeSchedules st).

(** One tick of the heartbeat closure of [startStatusUpdates]: nothing
    when no schedule is registered; otherwise the counter goes up and
    [updateScheduleStatus(shouldLog)] is called.  The result is that
    argument, [None] when the call is not made. *)
Definition heartbeat_tick (y : Sys) : option bool * Sys :=
  match activeSchedules (sched y) with
  | [] => (None, y)
  | _ :: _ =>
      let counter := S (logCounter y) in
      let shouldLog := (12 <=? counter)%nat in
      (Some shouldLog,
       {| sched := sched y; live := live y;
          statusUpdateInterval := statusUpdateInterval y;
          logCounter := if shouldLog then 0%nat else counter |})
  end.

(** [n] ticks in a row, oldest first. *)
Fixpoint heartbeat_ticks (n : nat) (y : Sys) : list (option bool) * Sys :=
  match n with
  | O => ([], y)
  | S n' =>
      let (flag, y1) := heartbeat_tick y in
      let (flags, y2) := heartbeat_ticks n' y1 in
      (flag :: flags, y2)
  end.

End SchedulerRuntime.

(* ===================================================================== *)
(** * Runs of the scheduler *)
(* ===================================================================== *)

Module SchedulerRuns.
Import JS Scheduler SchedulerRuntime.
Open Scope string_scope.
Open Scope list_scope.

(** [sched] replaced, the rest kept. *)
Definition with_sched (st : State) (y : Sys) : Sys :=
  {| sched := st; live := live y; statusUpdateInterval := statusUpdateInterval y;
     logCounter := logCounter y |}.

(** One thing that can happen to the scheduler: a registration, a stop, the
    wrapper of an interval fire coming back, a timeout firing, or the rest
    of a timeout callback. *)
Inductive Step : Sys -> Sys -> Prop :=
| StepInterval (y : Sys) (intervalMs : Z) (executeImmediately : bool) (now : Z) :
    Step y (snd (scheduleInterval intervalMs executeImmediately now y))
| StepTimes (y y' : Sys) (tz : Zone) (times : list string) (now : Z) (o : outcome string) :
    scheduleTimes tz times now y = Some (o, y') -> Step y y'
| StepStop (y : Sys) (scheduleId : string) :
    Step y (snd (stopSchedule scheduleId y))
| StepStopAll (y : Sys) :
    Step y (snd (stopAllSchedules y))
| StepWrapper (y : Sys) (scheduleId : string) (cb : Settled) (r : FireReads) (st : State) :
    wrappedFunction scheduleId cb r (sched y) = Ret st -> Step y (with_sched st y)
| StepTimeoutFires (y : Sys) (h : nat) :
    Step y (timeout_fires h y)
| StepTimeoutResumes (y y' : Sys) (tz : Zone) (scheduleId : string) (times : list Time)
    (cb : Settled) (r : FireReads) (now' : Z) (o : outcome Z) :
    timeout_resumes tz scheduleId times cb r now' y = (o, y') -> Step y y'.

(** The states a freshly loaded module can get to. *)
Inductive Reachable : Sys -> Prop :=
| ReachInitial : Reachable initial
| ReachStep (y y' : Sys) : Reachable y -> Step y y' -> Reachable y'.

(** The ids in [activeSchedules], in insertion order. *)
Definition ids (y : Sys) : list string := List.map fst (activeSchedules (sched y)).

(** Every id was made from a counter value already used. *)
Definition ids_below (y : Sys) : Prop :=
  forall k, In k (ids y) ->
            exists n, (n < nextScheduleId (sched y))%nat
                      /\ (k = ("interval_" ++ show_nat n)%string
                          \/ k = ("times_" ++ show_nat n)%string).

(** What the scheduler keeps true: ids are pairwise distinct, made from
    used counter values, and every handle held was handed out before. *)
Definition Invariant (y : Sys) : Prop :=
  NoDup (ids y) /\ ids_below y /\ handles_below y.

(** A handle the schedule object holds. *)
Definition holds_handle (s : Schedule) (h : nat) : Prop :=
  sc_intervalId s = Some h \/ sc_timeoutId s = Some h.

(** A handle that is armed, held by no schedule and not the heartbeat's. *)
Definition Orphan (h : nat) (y : Sys) : Prop :=
  NoDup (ids y)
  /\ In h (live y)
  /\ (forall k s, map_get k (activeSchedules (sched y)) = Some s -> ~ holds_handle s h)
  /\ statusUpdateInterval y <> Some h.

(** Sample runs: one interval schedule; then a daily-times schedule too. *)
Definition one_interval : Sys := snd (scheduleInterval 1000 true 0 initial).

Definition two_schedules : Sys :=
  match scheduleTimes utc ["09:30"; "15:30"] 1728030600000 one_interval with
  | Some (_, y) => y
  | None => one_interval
  end.

(** The daily-times schedule of [two_schedules] is stopped while its
    callback is running: its timeout fired, then [stopSchedule]. *)
Definition stopped_in_flight : Sys :=
  snd (stopSchedule "times_2" (timeout_fires 3 two_schedules)).

End SchedulerRuns.

(* ===================================================================== *)
(** * trading.js: what a run leaves in the trace; the retry loops of [swap] *)
(* ===================================================================== *)

Module Traces.
Import JS Engine Trading.
Open Scope string_scope.
Open Scope list_scope.
Open Scope Z_scope.

(** The sleeps of a trace, oldest first. *)
Fixpoint sleeps (tr : list Event) : list Z :=
  match tr with
  | [] => []
  | ESleep ms :: rest => sleeps rest ++ [ms]
  | _ :: rest => sleeps rest
  end.

(** The transactions of a trace, each as its list of instructions, oldest
    first. *)
Fixpoint transactions (tr : list Event) : list (list Instruction) :=
  match tr with
  | [] => []
  | ETransaction ixs :: rest => transactions rest ++ [ixs]
  | _ :: rest => transactions rest
  end.

(** What one pass of the quote loop makes of the answer to its request:
    the quote, or the error its [try] block throws. *)
Definition quote_attempt (answer : Fetched jsval) : outcome jsval :=
  match answer with
  | FetchRejects e => Throw e
  | Response ok status text json =>
      if negb ok then Throw ("Quote API error " ++ status ++ ": " ++ text)
      else match json with
           | Throw e => Throw e
           | Ret quoteData =>
               match get_prop quoteData "outAmount" with
               | Throw e => Throw e
               | Ret outAmount =>
                   if negb (truthy outAmount) || is_string_zero outAmount
                   then Throw "No valid route found for this swap"
                   else Ret quoteData
               end
           end
  end.

(** The same for the swap-transaction loop. *)
Definition swaptx_attempt (answer : Fetched jsval) : outcome jsval :=
  match answer with
  | FetchRejects e => Throw e
  | Response ok status text json =>
      if negb ok then Throw ("Swap API error " ++ status ++ ": " ++ text)
      else match json with
           | Throw e => Throw e
           | Ret swapData =>
               match get_prop swapData "swapTransaction" with
               | Throw e => Throw e
               | Ret tx =>
                   if negb (truthy tx)
                   then Throw "No swap transaction received from Jupiter"
                   else Ret swapData
               end
           end
  end.

(** The state a pass leaves when its attempt fails: the request and the
    console line. *)
Definition failed_pass (w : World) (svc : Service) (line : string) (s : State) : State :=
  let s1 := after_request w svc s in
  {| clock := clock s1; trace := EConsole line :: trace s1;
     jupiterTokensCache := jupiterTokensCache s1;
     jupiterTokensCacheTime := jupiterTokensCacheTime s1 |}.

(** ... and then the back-off. *)
Definition backed_off (ms : Z) (s : State) : State :=
  {| clock := clock s + Z.max 0 ms; trace := ESleep ms :: trace s;
     jupiterTokensCache := jupiterTokensCache s;
     jupiterTokensCacheTime := jupiterTokensCacheTime s |}.

(** The back-offs before attempts [2 .. k + 1]: 1000 ms, 2000 ms, ... *)
Definition backoffs (k : nat) : list Z :=
  List.map (fun i => 1000 * Z.of_nat i) (seq 1 k).

(** A retry loop [loop maxRetries attempt left] over the service [svc],
    whose passes read the answers through [attempt_of], behaves as the
    loops of [swap] do: with [maxRetries] at least 1, it stops at the first
    answer that passes, after one request per attempt and a back-off of
    [1000 * attempt] ms after each failed one; when all [maxRetries]
    answers fail it throws the error of the last, without a back-off after
    it. *)
Definition RetriesWithBackoff (w : World) (svc : Service) (answers : nat -> Fetched jsval)
    (attempt_of : Fetched jsval -> outcome jsval)
    (loop : Z -> Z -> nat -> M (option jsval)) : Prop :=
  forall (maxRetries : nat) (s : State),
    (1 <= maxRetries)%nat ->
    let base := calls svc (trace s) in
    (forall (k : nat) (data : jsval),
        (k < maxRetries)%nat ->
        (forall i, (i < k)%nat -> exists e, attempt_of (answers (base + i)%nat) = Throw e) ->
        attempt_of (answers (base + k)%nat) = Ret data ->
        exists s',
          loop (Z.of_nat maxRetries) 1 maxRetries s = (Ret (Some data), s')
          /\ calls svc (trace s') = (base + k + 1)%nat
          /\ sleeps (trace s') = sleeps (trace s) ++ backoffs k)
    /\ (forall (e : string),
           (forall i, (i < maxRetries - 1)%nat ->
                      exists e', attempt_of (answers (base + i)%nat) = Throw e') ->
           attempt_of (answers (base + (maxRetries - 1))%nat) = Throw e ->
           exists s',
             loop (Z.of_nat maxRetries) 1 maxRetries s = (Throw e, s')
             /\ calls svc (trace s') = (base + maxRetries)%nat
             /\ sleeps (trace s') = sleeps (trace s) ++ backoffs (maxRetries - 1)).

End Traces.

(* ===================================================================== *)
(** * baseline-dca.js: what the balance gate reads *)
(* ===================================================================== *)

Module Gate.
Import JS Engine Trading DCA.
Open Scope string_scope.
Open Scope list_scope.
Open Scope Z_scope.

(** [solBalance ? solBalance.uiAmount : 0] *)
Definition sol_balance (allBalances : list Holding) : jsnum :=
  match List.find is_SOL allBalances with
  | Some solBalance => h_uiAmount solBalance
  | None => Fin 0
  end.

(** What one poll of [waitForBalance] makes of the answer to its request:
    the balance it returns, or [None] when it goes on waiting. *)
Definition balance_reading (minimumSOL : jsnum) (answer : outcome (list Holding))
  : option jsnum :=
  match answer with
  | Ret allBalances =>
      if js_ge (sol_balance allBalances) minimumSOL
      then Some (sol_balance allBalances) else None
  | Throw _ => None
  end.

(** The time the answers to requests [base .. base + n - 1] of a service
    took. *)
Fixpoint latencies (w : World) (svc : Service) (base n : nat) : Z :=
  match n with
  | O => 0
  | S n' => Z.of_N (w_latency w svc base) + latencies w svc (S base) n'
  end.

End Gate.

(* ===================================================================== *)
(** * trading.js: [twitter] *)
(* ===================================================================== *)

Module Twitter.
Import JS Engine.
Open Scope string_scope.
Open Scope list_scope.

(** [a === b].  Two objects or arrays are the same only when they are the
    same object; the tweets compared here come from two different parsed
    responses, so an object is never identical to another. *)
Definition strict_eq (a b : jsval) : bool :=
  match a, b with
  | VUndef, VUndef => true
  | VNull, VNull => true
  | VBool x, VBool y => Bool.eqb x y
  | VNum (Fin x), VNum (Fin y) => Qeq_bool x y
  | VNum PInf, VNum PInf => true
  | VNum NInf, VNum NInf => true
  | VStr x, VStr y => (x =? y)%string
  | _, _ => false
  end.

(** [c.k && l.k && c.k === l.k], as a condition. *)
Definition same_field (k : string) (c l : jsval) : outcome bool :=
  match get_prop c k with
  | Throw e => Throw e
  | Ret ck =>
      if truthy ck then
        match get_prop l k with
        | Throw e => Throw e
        | Ret lk => Ret (truthy lk && strict_eq ck lk)
        end
      else Ret false
  end.

(** The callback of [lastTweets.some]:
    [(c.id && l.id && c.id === l.id) || (c.text && l.text && c.text === l.text)] *)
Definition same_tweet (currentTweet lastTweet : jsval) : outcome bool :=
  match same_field "id" currentTweet lastTweet with
  | Throw e => Throw e
  | Ret true => Ret true
  | Ret false => same_field "text" currentTweet lastTweet
  end.

(** [lastTweets.some(lastTweet => ...)] *)
Fixpoint known (lastTweets : list jsval) (currentTweet : jsval) : outcome bool :=
  match lastTweets with
  | [] => Ret false
  | lastTweet :: rest =>
      match same_tweet currentTweet lastTweet with
      | Throw e => Throw e
      | Ret true => Ret true
      | Ret false => known rest currentTweet
      end
  end.

(** The [for ... of] loop: the first current tweet that is not known. *)
Fixpoint first_new (lastTweets currentTweets : list jsval) : outcome (option jsval) :=
  match currentTweets with
  | [] => Ret None
  | currentTweet :: rest =>
      match known lastTweets currentTweet with
      | Throw e => Throw e
      | Ret false => Ret (Some currentTweet)
      | Ret true => first_new lastTweets rest
      end
  end.

(** The object [twitter] returns; a key it does not write is [None]. *)
Record Report : Type := mkReport {
  hasNewTweet : bool;
  newTweet : jsval;
  currentTweets : option jsval;
  report_error : option string;
  username : option string
}.

Definition failed (user e : string) : Report :=
  {| hasNewTweet := false; newTweet := VNull; currentTweets := None;
     report_error := Some e; username := Some user |}.

(** [twitter(user, lastTweets = [])] on the answer to its request.  The
    outer [None] is a [data.data] that is a string, whose iteration is not
    modelled. *)
Definition twitter (answer : Fetched jsval) (user : string) (lastTweets : list jsval)
  : option Report :=
  match answer with
  | FetchRejects e => Some (failed user e)
  | Response ok status _ json =>
      if negb ok then Some (failed user ("HTTP error! status: " ++ status))
      else
        match json with
        | Throw e => Some (failed user e)
        | Ret data =>
            match get_prop data "data" with
            | Throw e => Some (failed user e)
            | Ret tweets =>
                let current := js_or tweets (VArr []) in
                match lastTweets with
                | [] =>
                    Some {| hasNewTweet := false; newTweet := VNull;
                            currentTweets := Some current; report_error := None;
                            username := None |}
                | _ :: _ =>
                    match current with
                    | VArr items =>
                        match first_new lastTweets items with
                        | Throw e => Some (failed user e)
                        | Ret found =>
                            Some {| hasNewTweet := match found with
                                                   | Some _ => true
                                                   | None => false
                                                   end;
                                    newTweet := match found with
                                                | Some t => t
                                                | None => VNull
                                                end;
                                    currentTweets := Some current;
                                    report_error := None; username := Some user |}
                        end
                    | VStr _ => None
                    | _ => Some (failed user "currentTweets is not iterable")
                    end
                end
            end
        end
  end.

(** A value a tweet can be recognised by: truthy and not an object. *)
Definition recognisable (v : jsval) : bool :=
  truthy v && match v with VArr _ | VObj _ => false | _ => true end.

(** A tweet object with a recognisable [id] or [text]. *)
Definition identifiable (t : jsval) : bool :=
  match t with
  | VObj fields => recognisable (lookup "id" fields) || recognisable (lookup "text" fields)
  | _ => false
  end.

(** A tweet object whose [id] and [text] are both missing or falsy. *)
Definition anonymous (t : jsval) : bool :=
  match t with
  | VObj fields => negb (truthy (lookup "id" fields)) && negb (truthy (lookup "text" fields))
  | _ => false
  end.

(** The body [{ data: tweets }]. *)
Definition tweets_body (items : list jsval) : Fetched jsval :=
  Response true "200" "" (Ret (VObj [("data", VArr items)])).

Definition tweet (id text : string) : jsval :=
  VObj [("id", VStr id); ("text", VStr text)].

End Twitter.

(* ===================================================================== *)
(** * baseline-dca.js: [createScheduledExecution] *)
(* ===================================================================== *)

Module Scheduling.
Import JS Scheduler SchedulerRuntime SchedulerRuns.
Open Scope string_scope.
Open Scope list_scope.
Open Scope Z_scope.

(** [scheduleOptions]: [type], [value], and [executeImmediately] ([None]
    when the caller left it out). *)
Record ScheduleOptions : Type := mkScheduleOptions {
  so_type : jsval;
  so_value : jsval;
  so_executeImmediately : option bool
}.

(** [scheduleOptions.type === name] *)
Definition type_is (scheduleOptions : ScheduleOptions) (name : string) : bool :=
  match so_type scheduleOptions with
  | VStr s => (s =? name)%string
  | _ => false
  end.

(** [typeof value === 'number' && value > 0 ? value : null] *)
Definition intervalMs_of (value : jsval) : option jsnum :=
  match value with
  | VNum n => if js_lt (Fin 0) n then Some n else None
  | _ => None
  end.

(** A number of milliseconds the scheduler model can take: a whole number
    below 10^21, which a template literal prints in plain digits. *)
Definition whole (n : jsnum) : option Z :=
  match n with
  | Fin q =>
      let z := Qnum q / Z.pos (Qden q) in
      if Qeq_bool q (inject_Z z) && (z <? 10 ^ 21) then Some z else None
  | _ => None
  end.

(** [Array.isArray(value) ? value : [value]], for time strings. *)
Fixpoint strings_of (items : list jsval) : option (list string) :=
  match items with
  | [] => Some []
  | VStr s :: rest =>
      match strings_of rest with
      | Some l => Some (s :: l)
      | None => None
      end
  | _ :: _ => None
  end.

Definition times_of (value : jsval) : option (list string) :=
  match value with
  | VArr items => strings_of items
  | VStr s => Some [s]
  | _ => None
  end.

(** [times.join(', ')] *)
Fixpoint join (sep : string) (l : list string) : string :=
  match l with
  | [] => ""
  | [s] => s
  | s :: rest => (s ++ sep ++ join sep rest)%string
  end.

Definition quote_mark : string := String (Ascii.ascii_of_nat 34) EmptyString.

Definition invalid_interval : string :=
  "Invalid interval format. Use milliseconds (e.g., 30000 for 30s)".

Definition invalid_type : string :=
  ("Schedule type must be " ++ quote_mark ++ "interval" ++ quote_mark ++ " or "
   ++ quote_mark ++ "times" ++ quote_mark)%string.

(** What a call leaves: its outcome ([scheduleId], [scheduleDescription]),
    the scheduler, and the schedule information it handed to the logger's
    [updateScheduleStatus], if any. *)
Record Created : Type := mkCreated {
  cr_outcome : outcome (string * string);
  cr_sys : Sys;
  cr_published : option ScheduleInfo
}.

(** [scheduleInfo.find(s => s.id === scheduleId)] on [getScheduleInfo()],
    read at time [later]. *)
Definition currentSchedule (later : Z) (scheduleId : string) (y : Sys) : option ScheduleInfo :=
  List.find (fun info => (si_id info =? scheduleId)%string) (getScheduleInfo later (sched y)).

(** [createScheduledExecution(ownerAddress, fromToken, toToken, amount,
    scheduleOptions)] at time [now], in a process whose time zone is [tz].
    The outer [None] is an input outside the model: an interval that is not
    a whole number of milliseconds, or times that are not strings the
    parsing model reads. *)
Definition createScheduledExecution (tz : Zone) (now later : Z)
    (scheduleOptions : ScheduleOptions)
    (y : Sys) : option Created :=
  if type_is scheduleOptions "interval" then
      match intervalMs_of (so_value scheduleOptions) with
      | None => Some {| cr_outcome := Throw invalid_interval; cr_sys := y;
                        cr_published := None |}
      | Some n =>
          match whole n with
          | None => None
          | Some intervalMs =>
              let executeImmediately :=
                match so_executeImmediately scheduleOptions with
                | Some b => b
                | None => false
                end in
              let (scheduleId, y1) := scheduleInterval intervalMs executeImmediately now y in
              let scheduleDescription :=
                ("Every " ++ show_Z intervalMs ++ "ms"
                 ++ (if executeImmediately then " (immediate start)" else ""))%string in
              Some {| cr_outcome := Ret (scheduleId, scheduleDescription); cr_sys := y1;
                      cr_published := currentSchedule later scheduleId y1 |}
          end
      end
  else if type_is scheduleOptions "times" then
      match times_of (so_value scheduleOptions) with
      | None => None
      | Some times =>
          match scheduleTimes tz times now y with
          | None => None
          | Some (Throw e, y1) =>
              Some {| cr_outcome := Throw e; cr_sys := y1; cr_published := None |}
          | Some (Ret scheduleId, y1) =>
              Some {| cr_outcome := Ret (scheduleId, ("At " ++ join ", " times ++ " UTC")%string);
                      cr_sys := y1;
                      cr_published := currentSchedule later scheduleId y1 |}
          end
      end
  else Some {| cr_outcome := Throw invalid_type; cr_sys := y; cr_published := None |}.

End Scheduling.

(* ===================================================================== *)
(** * baseline-range.js: one monitoring cycle *)
(* ===================================================================== *)

Module Monitor.
Import JS Engine Trading Range DCA.
Open Scope string_scope.
Open Scope list_scope.
Open Scope Z_scope.
Open Scope engine_scope.

(** [priceInfo] of a skipped cycle. *)
Record PriceInfo : Type := mkPriceInfo {
  pi_tokenToMonitor : string;
  pi_currentPrice : option jsval;
  pi_targetPrice : jsnum;
  pi_condition : string
}.

(** What [executeTrading] returns: [{ success: false, skipped: true,
    reason, priceInfo }], or a result object without [skipped]. *)
Inductive Cycle : Type :=
| Skipped (reason : string) (priceInfo : option PriceInfo)
| Executed (r : Result).

(** [result.skipped] and [result.success] as the monitoring loop reads
    them. *)
Definition skipped (c : Cycle) : bool :=
  match c with Skipped _ _ => true | Executed _ => false end.

(** [tokenToMonitor && tokenToMonitorPrice !== null] *)
Definition monitoring (tokenToMonitor : option string) (tokenToMonitorPrice : option jsnum)
  : option (string * jsnum) :=
  match tokenToMonitor, tokenToMonitorPrice with
  | Some token, Some target => if (token =? "")%string then None else Some (token, target)
  | _, _ => None
  end.

(** The price gate of [executeTrading]: [Some c] when the cycle returns
    [c] there, [None] when it goes on to trade. *)
Definition price_gate (w : World) (tokenToMonitor : option string)
    (tokenToMonitorPrice : option jsnum) (above : bool) : M (option Cycle) :=
  match monitoring tokenToMonitor tokenToMonitorPrice with
  | None => ret None
  | Some (token, target) =>
      logger_log "Checking ${tokenToMonitor} price condition..." ;;;
      priceCheck <- checkPriceCondition w token target above ;;
      if negb (pc_success priceCheck) then
        logger_log "Price check failed: ${priceCheck.error}" ;;;
        ret (Some (Skipped ("Price check failed: "
                            ++ or_default "undefined" (pc_error priceCheck)) None))
      else if negb (pc_conditionMet priceCheck) then
        logger_log "Price threshold not reached: ${tokenToMonitor} $${priceCheck.currentPrice} (target: ${priceCheck.condition} $${priceCheck.targetPrice})" ;;;
        ret (Some (Skipped "Desired price threshold not reached"
                     (Some {| pi_tokenToMonitor := token;
                              pi_currentPrice := pc_currentPrice priceCheck;
                              pi_targetPrice := target;
                              pi_condition := if above then "above" else "below" |})))
      else
        logger_log "Price condition satisfied, proceeding with trade execution..." ;;;
        ret None
  end.

(** The state in which the price gate asks for the price: the cycle has
    published its start and logged that it checks. *)
Definition at_gate (s : State) : State :=
  snd ((updateStatus "execution_start" VNull ;;;
        logger_log "Checking ${tokenToMonitor} price condition...") s).

(** The trading step of a cycle, from the balance check to the returned
    object. *)
Definition trade (w : World) (wallet : Wallet) (fromTok toTok : string)
    (amount : jsnum) : M Result :=
  updateStatus "trading_balance_check" VNull ;;;
  logger_log "Checking wallet balances for trading..." ;;;
  allBalances <- getBalances w ;;
  logger_log "Found ${balances.allBalances.length} tokens in wallet" ;;;
  let fromTokenUpper := toUpperCase fromTok in
  match List.find (holds_symbol fromTokenUpper) allBalances with
  | None =>
      updateStatus "trading_error" (VBool false) ;;;
      logger_log "No ${fromToken} found in wallet" ;;;
      ret (failure ("Wallet does not have " ++ fromTok) None None)
  | Some tokenObj =>
      if js_lt (h_uiAmount tokenObj) amount then
        let errorMsg := insufficient_message w fromTok (h_uiAmount tokenObj) amount in
        updateStatus "trading_error" (VBool false) ;;;
        logger_log "${errorMsg}" ;;;
        ret (failure errorMsg None None)
      else
        logger_log "Sufficient ${fromToken} balance: ${tokenObj.uiAmount} (need: ${amount})" ;;;
        updateStatus "token_lookup" VNull ;;;
        logger_log "Looking up ${toToken} token address..." ;;;
        toTokenResult <- getTokenMintAddress w toTok ;;
        match mr_success toTokenResult, mr_mintAddress toTokenResult with
        | true, Some toTokenMintAddress =>
            logger_log "${toToken} token found" ;;;
            updateStatus "account_check" VNull ;;;
            logger_log "Checking if you have a ${toToken} account..." ;;;
            accountExists <- checkTokenAccountExists w (walletAddress wallet) toTokenMintAddress ;;
            (if accountExists then logger_log "${toToken} account ready"
             else logger_log "First ${toToken} transaction - account will be created") ;;;
            if (fromTokenUpper =? "SOL")%string && js_lt (h_uiAmount tokenObj) minRequiredSOL then
              let needed := rt_shortfall w minRequiredSOL (h_uiAmount tokenObj) in
              updateStatus "trading_error" (VBool false) ;;;
              logger_log "Not enough SOL for swap fees" ;;;
              logger_log "Current balance: ${tokenObj.uiAmount} SOL" ;;;
              logger_log "Minimum needed: ${minRequiredSOL} SOL" ;;;
              logger_log "Please add ${needed} SOL to continue" ;;;
              ret (failure
                     ("Insufficient SOL for Jupiter swap operations. Need " ++ needed ++ " SOL more")
                     None None)
            else
              updateStatus "swapping" VNull ;;;
              logger_log "Executing swap: ${amount} ${fromToken} -> ${toToken}" ;;;
              logger_log "Using 1.5% slippage tolerance with auto priority fees" ;;;
              let swapOptions := {| slippageBps := Some 150; priorityFee := Some "auto";
                                    maxRetries := Some 2; confirmTransaction := Some true |} in
              swapResult <- swap w (walletId wallet) fromTok toTok amount
                                 (walletAddress wallet) swapOptions ;;
              (if success swapResult then
                 updateStatus "trading_success" (VBool true) ;;;
                 logger_log "Trading execution completed successfully!" ;;;
                 match signature swapResult with
                 | Some _ => logger_log "Transaction: ${swapResult.signature}"
                 | None => ret tt
                 end
               else
                 updateStatus "trading_error" (VBool false) ;;;
                 logger_log "Trading execution failed: ${swapResult.error || 'Unknown error'}") ;;;
              ret swapResult
        | _, _ =>
            updateStatus "trading_error" (VBool false) ;;;
            logger_log "Could not find ${toToken} token: ${toTokenResult.error}" ;;;
            ret (failure
                   ("Failed to get mint address for " ++ toTok ++ ": "
                    ++ or_default "undefined" (mr_error toTokenResult))
                   None None)
        end
  end.

(** [executeTrading()], the closure of the monitoring baseline function,
    for the wallet it was created with.  [None] when [fuel] cut the balance
    gate short. *)
Definition executeTrading (w : World) (wallet : Wallet) (fromTok toTok : string)
    (amount : jsnum) (tokenToMonitor : option string) (tokenToMonitorPrice : option jsnum)
    (above : bool) (fuel : nat) : M (option Cycle) :=
  try_catch
    (updateStatus "execution_start" VNull ;;;
     gate <- price_gate w tokenToMonitor tokenToMonitorPrice above ;;
     match gate with
     | Some c => ret (Some c)
     | None =>
         bal <- waitForBalance w (Some (Fin (1 # 1000))) fuel ;;
         match bal with
         | None => ret None
         | Some _ =>
             r <- trade w wallet fromTok toTok amount ;;
             ret (Some (Executed r))
         end
     end)
    (fun error =>
       logger_error "Trading execution error: ${error.message}" ;;;
       ret (Some (Executed (failure error None None)))).

End Monitor.

(* ===================================================================== *)
(** * The server: [POST /withdraw] *)
(* ===================================================================== *)

Module Withdraw.
Import JS Engine Trading.
Open Scope string_scope.
Open Scope list_scope.
Open Scope Z_scope.
Open Scope engine_scope.

(** What the handler reads of a request: the [x-api-key] header and the
    fields [apiKey], [tokenSymbol], [destinationAddress] and [amount] of
    the body, an object after [express.json()]; [VUndef] is a header or
    field that is not there. *)
Record Request : Type := mkRequest {
  x_api_key : jsval;
  body_apiKey : jsval;
  body_tokenSymbol : jsval;
  body_destinationAddress : jsval;
  body_amount : jsval
}.

(** [res.status(code).json({ success: false, error })], or
    [res.json(result)] for the result of a transfer. *)
Inductive Reply : Type :=
| Refused (code : nat) (error : string)
| Answered (result : Result).

(** [apiKey && apiKey === process.env.API_KEY], for
    [apiKey = req.headers['x-api-key'] || req.body.apiKey]; [None] is a
    variable that is not set. *)
Definition authorized (API_KEY : option string) (req : Request) : bool :=
  let apiKey := js_or (x_api_key req) (body_apiKey req) in
  truthy apiKey
  && match apiKey, API_KEY with
     | VStr a, Some k => (a =? k)%string
     | _, _ => false
     end.

(** [tokenSymbol && destinationAddress && amount] *)
Definition complete (req : Request) : bool :=
  truthy (body_tokenSymbol req) && truthy (body_destinationAddress req)
  && truthy (body_amount req).

(** [typeof amount === 'number' && amount > 0] *)
Definition positive_amount (req : Request) : option jsnum :=
  match body_amount req with
  | VNum n => if js_le n (Fin 0) then None else Some n
  | _ => None
  end.

(** [typeof destinationAddress === 'string' && destinationAddress.length >= 32] *)
Definition address_of (req : Request) : option string :=
  match body_destinationAddress req with
  | VStr d => if (String.length d <? 32)%nat then None else Some d
  | _ => None
  end.

Definition unauthorized : string := "Unauthorized: Invalid or missing API key".
Definition missing_parameters : string :=
  "Missing required parameters: tokenSymbol, destinationAddress, and amount".
Definition bad_amount : string := "Amount must be a positive number".
Definition bad_address : string := "Invalid destination address format".

Definition config_undeclared : string := "config is not defined".

(** The handler of [POST /withdraw].  A request that passes the checks is
    logged and the two modules of the program are imported; the next
    statement is [getOrCreateWallet(config.ownerAddress)], and [config] is
    declared nowhere in the module ([createServer] names its parameter
    [tradingConfig]): evaluating the argument throws a ReferenceError
    before the wallet is asked for, and the rest of the [try] block, with
    the call of [transfer] and [res.json(result)], is never reached. *)
Definition withdraw (API_KEY : option string) (req : Request) : M Reply :=
  try_catch
    (if negb (authorized API_KEY req) then ret (Refused 401 unauthorized)
     else if negb (complete req) then ret (Refused 400 missing_parameters)
     else
       match positive_amount req with
       | None => ret (Refused 400 bad_amount)
       | Some amount =>
           match address_of req with
           | None => ret (Refused 400 bad_address)
           | Some destinationAddress =>
               logger_log "API Withdrawal request: ${amount} ${tokenSymbol} -> ${destinationAddress.slice(0, 8)}...${destinationAddress.slice(-8)}" ;;;
               throw config_undeclared
           end
       end)
    (fun error =>
       logger_error "${errorMsg}" ;;;
       ret (Refused 500 ("API Withdrawal error: " ++ error))).

(** A request with the right key for 0.5 SOL, and the same without a
    key. *)
Definition a_request : Request :=
  {| x_api_key := VStr "s3cret"; body_apiKey := VUndef;
     body_tokenSymbol := VStr "SOL";
     body_destinationAddress := VStr "9WzDXwBbmkg8ZTbNMqUxvQRAyrZzDsGYdLVL9zYtAWWM";
     body_amount := VNum (Fin (1 # 2)) |}.

Definition a_request_without_key : Request :=
  {| x_api_key := VUndef; body_apiKey := VUndef;
     body_tokenSymbol := VStr "SOL";
     body_destinationAddress := VStr "9WzDXwBbmkg8ZTbNMqUxvQRAyrZzDsGYdLVL9zYtAWWM";
     body_amount := VNum (Fin (1 # 2)) |}.

End Withdraw.

(* ===================================================================== *)
(** * The merge of configuration objects: [deepMerge] *)
(* ===================================================================== *)

Module Merge.
Import JS.
Open Scope string_scope.
Open Scope list_scope.

(** [out[k] = v] on the fields of an object, kept in insertion order (the
    order of [Object.keys] for keys that are not array indices). *)
Fixpoint set_prop (k : string) (v : jsval) (fields : list (string * jsval))
  : list (string * jsval) :=
  match fields with
  | [] => [(k, v)]
  | (k', v') :: rest =>
      if k' =? k then (k', v) :: rest else (k', v') :: set_prop k v rest
  end.

(** [Object.keys(o)] *)
Definition keys (fields : list (string * jsval)) : list string := List.map fst fields.

(** The loop of [deepMerge] over the keys of [extra], parametrised by what
    is stored under a key. *)
Fixpoint merge_loop (pick : jsval -> jsval -> jsval) (base out : list (string * jsval))
    (entries : list (string * jsval)) : list (string * jsval) :=
  match entries with
  | [] => out
  | (k, ev) :: rest =>
      merge_loop pick base (set_prop k (pick (lookup k base) ev) out) rest
  end.

(** [deepMerge(base, extra)] for a plain object [base] with fields [base]
    and an [extra] that is a plain object: [out] starts as a copy of
    [base]; under each key of [extra] goes the merge of the two values when
    both are plain objects, and the value of [extra] otherwise. *)
Fixpoint merged (base : list (string * jsval)) (extra : jsval) {struct extra}
  : list (string * jsval) :=
  match extra with
  | VObj efields =>
      (fix loop (out entries : list (string * jsval)) {struct entries}
         : list (string * jsval) :=
         match entries with
         | [] => out
         | (k, ev) :: rest =>
             loop (set_prop k
                     match lookup k base, ev with
                     | VObj bfields, VObj _ => VObj (merged bfields ev)
                     | _, _ => ev
                     end
                     out)
                  rest
         end) base efields
  | _ => base
  end.

(** The value stored under a key: [deepMerge(bv, ev)] or [ev]. *)
Definition pick (bv ev : jsval) : jsval :=
  match bv, ev with
  | VObj bfields, VObj _ => VObj (merged bfields ev)
  | _, _ => ev
  end.

(** An object somewhere inside [v] (not looking into arrays) has an own
    key ["__proto__"]; assigning to that key sets the prototype instead of
    a field. *)
Fixpoint mentions_proto (v : jsval) : bool :=
  match v with
  | VObj fields =>
      (fix any (l : list (string * jsval)) : bool :=
         match l with
         | [] => false
         | (k, x) :: rest => (k =? "__proto__") || mentions_proto x || any rest
         end) fields
  | _ => false
  end.

(** [deepMerge(base, extra)].  [None] is an input outside the model: an
    [extra] that is an array or mentions ["__proto__"], or, with an object
    as [extra], a [base] that is an array or a string. *)
Definition deepMerge (base extra : jsval) : option jsval :=
  match extra with
  | VUndef | VNull | VBool _ | VNum _ | VStr _ => Some base
  | VArr _ => None
  | VObj _ =>
      if mentions_proto extra then None
      else match base with
           | VObj bfields => Some (VObj (merged bfields extra))
           | VUndef | VNull | VBool _ | VNum _ => Some (VObj (merged [] extra))
           | VStr _ | VArr _ => None
           end
  end.

(** An object literal as JavaScript has it: no key twice, at any depth
    (not looking into arrays). *)
Inductive well_formed : jsval -> Prop :=
| wf_object (fields : list (string * jsval)) :
    NoDup (keys fields) ->
    (forall k v, In (k, v) fields -> well_formed v) ->
    well_formed (VObj fields)
| wf_undefined : well_formed VUndef
| wf_null : well_formed VNull
| wf_boolean (b : bool) : well_formed (VBool b)
| wf_number (n : jsnum) : well_formed (VNum n)
| wf_string (s : string) : well_formed (VStr s)
| wf_array (items : list jsval) : well_formed (VArr items).

(** The default configuration of a strategy, and what a caller passes. *)
Definition defaults : jsval :=
  VObj [("fromToken", VStr "USDC"); ("toToken", VStr "SOL");
        ("schedule", VObj [("type", VStr "interval"); ("value", VNum (Fin 60000))]);
        ("tags", VArr [VStr "dca"])].

Definition overrides : jsval :=
  VObj [("toToken", VStr "BONK");
        ("schedule", VObj [("value", VNum (Fin 30000))]);
        ("tags", VArr [])].

End Merge.

(* ===================================================================== *)
(** * More sample worlds *)
(* ===================================================================== *)

Module MoreSamples.
Import JS Engine Trading Samples.
Open Scope string_scope.
Open Scope list_scope.
Open Scope Z_scope.

(** [w] with other answers of the quote service. *)
Definition with_quote (q : nat -> Fetched jsval) (w : World) : World :=
  {| w_wallet := w_wallet w; w_balances := w_balances w; w_tokens := w_tokens w;
     w_quote := q; w_swaptx := w_swaptx w; w_sign := w_sign w;
     w_confirm := w_confirm w;
     w_blockhash := w_blockhash w; w_token_accounts := w_token_accounts w;
     w_market := w_market w; w_latency := w_latency w; rt_show := rt_show w;
     rt_to_number := rt_to_number w; rt_pow10 := rt_pow10 w;
     rt_compile := rt_compile w; rt_expected_output := rt_expected_output w;
     rt_deserialize := rt_deserialize w; rt_public_key := rt_public_key w;
     rt_associated := rt_associated w; rt_shortfall := rt_shortfall w |}.

(** [w] with other answers to the token-account lookup. *)
Definition with_token_accounts (a : nat -> outcome nat) (w : World) : World :=
  {| w_wallet := w_wallet w; w_balances := w_balances w; w_tokens := w_tokens w;
     w_quote := w_quote w; w_swaptx := w_swaptx w; w_sign := w_sign w;
     w_confirm := w_confirm w;
     w_blockhash := w_blockhash w; w_token_accounts := a;
     w_market := w_market w; w_latency := w_latency w; rt_show := rt_show w;
     rt_to_number := rt_to_number w; rt_pow10 := rt_pow10 w;
     rt_compile := rt_compile w; rt_expected_output := rt_expected_output w;
     rt_deserialize := rt_deserialize w; rt_public_key := rt_public_key w;
     rt_associated := rt_associated w; rt_shortfall := rt_shortfall w |}.

(** [w] with other answers of the balance source. *)
Definition with_balances (b : nat -> outcome (list Holding)) (w : World) : World :=
  {| w_wallet := w_wallet w; w_balances := b; w_tokens := w_tokens w;
     w_quote := w_quote w; w_swaptx := w_swaptx w; w_sign := w_sign w;
     w_confirm := w_confirm w;
     w_blockhash := w_blockhash w; w_token_accounts := w_token_accounts w;
     w_market := w_market w; w_latency := w_latency w; rt_show := rt_show w;
     rt_to_number := rt_to_number w; rt_pow10 := rt_pow10 w;
     rt_compile := rt_compile w; rt_expected_output := rt_expected_output w;
     rt_deserialize := rt_deserialize w; rt_public_key := rt_public_key w;
     rt_associated := rt_associated w; rt_shortfall := rt_shortfall w |}.

(** [w] with other answers of the wallet service. *)
Definition with_wallet (a : nat -> outcome Wallet) (w : World) : World :=
  {| w_wallet := a; w_balances := w_balances w; w_tokens := w_tokens w;
     w_quote := w_quote w; w_swaptx := w_swaptx w; w_sign := w_sign w;
     w_confirm := w_confirm w;
     w_blockhash := w_blockhash w; w_token_accounts := w_token_accounts w;
     w_market := w_market w; w_latency := w_latency w; rt_show := rt_show w;
     rt_to_number := rt_to_number w; rt_pow10 := rt_pow10 w;
     rt_compile := rt_compile w; rt_expected_output := rt_expected_output w;
     rt_deserialize := rt_deserialize w; rt_public_key := rt_public_key w;
     rt_associated := rt_associated w; rt_shortfall := rt_shortfall w |}.

(** The quote service is rate-limited twice, then answers. *)
Definition flaky : World :=
  with_quote (fun n => if (n <? 2)%nat
                       then Response false "429" "Too Many Requests" (Throw "no body")
                       else Response true "200" "" (Ret a_quote))
             calm.


(** [w] with a signing service that answers request [n] with [g n]. *)
Definition with_sign (g : nat -> result Rejection string) (w : World) : World :=
  {| w_wallet := w_wallet w; w_balances := w_balances w; w_tokens := w_tokens w;
     w_quote := w_quote w; w_swaptx := w_swaptx w; w_sign := g;
     w_confirm := w_confirm w;
     w_blockhash := w_blockhash w; w_token_accounts := w_token_accounts w;
     w_market := w_market w; w_latency := w_latency w; rt_show := rt_show w;
     rt_to_number := rt_to_number w; rt_pow10 := rt_pow10 w;
     rt_compile := rt_compile w; rt_expected_output := rt_expected_output w;
     rt_deserialize := rt_deserialize w; rt_public_key := rt_public_key w;
     rt_associated := rt_associated w; rt_shortfall := rt_shortfall w |}.

(** The signing service rejects with a string, as a signer does that
    throws ['denied']. *)
Definition denied : World := with_sign (fun _ => Throw NoMessage) calm.

(** The signing service rejects with an [Error]. *)
Definition refused : World :=
  with_sign (fun _ => Throw (AnError "insufficient lamports")) calm.

(** The wallet service is down. *)
Definition no_wallet : World := with_wallet (fun _ => Throw "privy: 503") calm.

(** The balance source is down. *)
Definition no_balances : World := with_balances (fun _ => Throw "fetch failed") calm.

(** The token-account lookup fails. *)
Definition blind : World := with_token_accounts (fun _ => Throw "429 Too Many Requests") calm.

End MoreSamples.
(* ===================================================================== *)
(** * Properties of the logger *)
(* ===================================================================== *)

Module LoggerFacts.
Import JS Logger.

Lemma lastn_length (A : Type) (n : nat) (l : list A) :
  List.length (lastn n l) = Nat.min n (List.length l).
Proof. unfold lastn. rewrite length_skipn. lia. Qed.

Lemma lastn_short (A : Type) (n : nat) (l : list A) :
  (List.length l <= n)%nat -> lastn n l = l.
Proof.
  intros H. unfold lastn.
  replace (List.length l - n)%nat with 0%nat by lia. reflexivity.
Qed.

Lemma tl_skipn (A : Type) (k : nat) (l : list A) :
  List.tl (skipn k l) = skipn (S k) l.
Proof.
  revert l. induction k as [|k IH]; intros [|x l]; cbn [skipn List.tl]; auto.
Qed.

(** One push keeps "the buffer is the last [MAX_LOGS] entries handed in". *)
Lemma log_lastn (r : Reads) (msg : string) (lvl : option string)
    (all : list LogEntry) :
  log r msg lvl (lastn MAX_LOGS all) = lastn MAX_LOGS (all ++ [entry_of r msg lvl]).
Proof.
  unfold log. fold (entry_of r msg lvl).
  generalize (entry_of r msg lvl) as e. intro e.
  generalize MAX_LOGS as n. intro n.
  rewrite length_app, lastn_length. cbn [List.length].
  destruct (Nat.ltb_spec n (Nat.min n (List.length all) + 1)) as [Hlt|Hge].
  - assert (Hn : (n <= List.length all)%nat) by lia.
    unfold shift, lastn. rewrite length_app. cbn [List.length].
    replace (List.length all + 1 - n)%nat with (S (List.length all - n)) by lia.
    rewrite <- tl_skipn.
    rewrite (skipn_app (List.length all - n) all [e]).
    replace (List.length all - n - List.length all)%nat with 0%nat by lia.
    cbn [skipn].
    reflexivity.
  - assert (Hn : (List.length all < n)%nat) by lia.
    rewrite (@lastn_short _ n all) by lia.
    rewrite lastn_short; [reflexivity|].
    rewrite length_app. cbn [List.length]. lia.
Qed.

Lemma run_ops_lastn (ops : list LogOp) (all : list LogEntry) :
  run_ops ops (lastn MAX_LOGS all) = lastn MAX_LOGS (appended all ops).
Proof.
  unfold run_ops, appended. revert all.
  induction ops as [|op ops IH]; intros all; cbn [fold_left].
  - reflexivity.
  - destruct op as [r msg lvl|]; cbn [apply_op].
    + rewrite log_lastn. apply IH.
    + unfold clearLogs. apply (IH []).
Qed.

(** C5.  Whatever sequence of appends (and clears) reaches the buffer from
    the empty buffer of a freshly loaded module, the buffer holds at most
    1000 entries and they are exactly the most recent (at most 1000)
    entries appended since the last clear, in append order; and an append
    to a buffer that already holds 1000 entries drops the oldest one and
    puts the new entry last. *)
Theorem log_buffer_bounded_fifo :
  forall (ops : list LogOp),
    (List.length (run_ops ops []) <= 1000)%nat
    /\ run_ops ops [] = lastn 1000 (appended [] ops)
    /\ (forall r msg lvl oldest rest,
           List.length (oldest :: rest) = 1000%nat ->
           log r msg lvl (oldest :: rest) = rest ++ [entry_of r msg lvl]).
Proof.
  intros ops.
  pose proof (run_ops_lastn ops []) as H.
  change (lastn MAX_LOGS []) with (@nil LogEntry) in H.
  change 1000%nat with MAX_LOGS.
  split; [|split].
  - rewrite H, lastn_length. lia.
  - exact H.
  - intros r msg lvl oldest rest Hlen.
    unfold log. fold (entry_of r msg lvl).
    rewrite length_app. cbn [List.length] in *.
    destruct (Nat.ltb_spec MAX_LOGS (S (List.length rest) + 1)) as [_|Hge].
    + reflexivity.
    + lia.
Qed.

Lemma log_buffer_bounded_fifo_witness :
  let r := {| r_status_ts := 0; r_log_ts := 7; r_log_id := 7 # 1 |} in
  let old := entry_of r "old" None in
  log r "new" None (old :: repeat old 999)
  = repeat old 999 ++ [entry_of r "new" None].
Proof.
  intros r old.
  apply (proj2 (proj2 (log_buffer_bounded_fifo []))).
  vm_compute. reflexivity.
Defined.

(** C9.  A publish with [shouldLog = false] replaces the snapshot by the
    new stage, message, success value, details and schedule info and
    leaves the log buffer as it was; a publish with [shouldLog = true]
    writes the same snapshot and makes exactly one call of [logger.log],
    which puts one new entry at the end of the buffer (the buffer grows by
    that one entry while it is below its cap). *)
Theorem updateStatus_shouldLog :
  forall (r : Reads) (stage msg : string)
         (success details scheduleInfo : jsval) (s : Store),
    let quiet := updateStatus r stage msg success details scheduleInfo (VBool false) s in
    let loud := updateStatus r stage msg success details scheduleInfo (VBool true) s in
    currentStatus quiet = snapshot_of r stage msg success details scheduleInfo
    /\ logs quiet = logs s
    /\ currentStatus loud = snapshot_of r stage msg success details scheduleInfo
    /\ exists (text : string) (lvl : string),
         logs loud = log r text (Some lvl) (logs s)
         /\ List.last (logs loud) (entry_of r "" None) = entry_of r text (Some lvl)
         /\ ((List.length (logs s) < MAX_LOGS)%nat ->
             logs loud = logs s ++ [entry_of r text (Some lvl)]).
Proof.
  intros r stage msg success details scheduleInfo s quiet loud.
  assert (Hlast : forall text lvl buf,
             List.last (log r text (Some lvl) buf) (entry_of r "" None)
             = entry_of r text (Some lvl)).
  { intros text lvl buf. unfold log. fold (entry_of r text (Some lvl)).
    destruct (Nat.ltb_spec MAX_LOGS (List.length (buf ++ [entry_of r text (Some lvl)])))
      as [Hover|_].
    - destruct buf as [|x buf].
      + cbn [app List.length] in Hover. unfold MAX_LOGS in Hover. lia.
      + unfold shift. cbn [List.tl app]. apply last_last.
    - apply last_last. }
  assert (Hgrow : forall text lvl buf,
             (List.length buf < MAX_LOGS)%nat ->
             log r text (Some lvl) buf = buf ++ [entry_of r text (Some lvl)]).
  { intros text lvl buf Hlt. unfold log. fold (entry_of r text (Some lvl)).
    rewrite length_app. cbn [List.length].
    destruct (Nat.ltb_spec MAX_LOGS (List.length buf + 1)); [lia|reflexivity]. }
  subst quiet loud. unfold updateStatus, snapshot_of.
  cbn [default_to truthy].
  split; [reflexivity|split; [reflexivity|]].
  destruct (is_false (default_to VNull success)) eqn:Hf;
    [|destruct (is_true (default_to VNull success)) eqn:Ht];
    (split; [reflexivity|]);
    cbn [logs]; eexists; eexists; unfold error, info;
    (split; [reflexivity|split; [apply Hlast|apply Hgrow]]).
Qed.

Lemma updateStatus_shouldLog_witness :
  let r := {| r_status_ts := 5; r_log_ts := 6; r_log_id := 6 # 1 |} in
  let loud := updateStatus r "swapping" "go" (VBool true) VUndef VUndef (VBool true)
                           (initial 0) in
  exists text lvl, logs loud = [entry_of r text (Some lvl)].
Proof.
  intros r loud.
  destruct (updateStatus_shouldLog r "swapping" "go" (VBool true) VUndef VUndef (initial 0))
    as (_ & _ & _ & text & lvl & _ & _ & Hgrow).
  exists text, lvl. apply Hgrow. unfold MAX_LOGS. cbn. lia.
Defined.

End LoggerFacts.

(* ===================================================================== *)
(** * Properties of the scheduler *)
(* ===================================================================== *)

Module SchedulerFacts.
Import JS Scheduler.
Open Scope Z_scope.

Lemma map_get_set_same (k : string) (v : Schedule) (m : list (string * Schedule)) :
  map_get k (map_set k v m) = Some v.
Proof.
  induction m as [|[k' v'] m IH]; cbn [map_set map_get].
  - rewrite String.eqb_refl. reflexivity.
  - destruct (String.eqb k' k) eqn:E; cbn [map_get]; rewrite E; auto.
Qed.

(** C1 (the code departs from it).  A fire whose callback resolves with an
    object carrying [success: false] stores a [lastExecution] whose
    [success] is [true]: the stored value is [result?.success || true],
    which is never falsy. *)
Theorem wrappedFunction_resolved_failure_recorded_as_success :
  forall (scheduleId : string) (st : State) (schedule : Schedule)
         (r : FireReads) (result : jsval),
    map_get scheduleId (activeSchedules st) = Some schedule ->
    get_prop_opt result "success" = VBool false ->
    exists st' e,
      wrappedFunction scheduleId (Resolved result) r st = Ret st'
      /\ lastExecution_of scheduleId st' = Some e
      /\ ex_success e = VBool true
      /\ ex_duration e = Some (executionEnd r - executionStart r)
      /\ ex_timestamp e = recordedAt r.
Proof.
  intros scheduleId st schedule r result Hget Hsucc.
  unfold wrappedFunction. rewrite Hget, Hsucc.
  eexists. eexists. split; [reflexivity|].
  unfold lastExecution_of, with_schedules. cbn [activeSchedules].
  rewrite map_get_set_same. cbn. repeat split; reflexivity.
Qed.

Lemma wrappedFunction_resolved_failure_recorded_as_success_witness :
  exists st' e,
    wrappedFunction "interval_1" (Resolved (VObj [("success", VBool false)]))
      {| executionStart := 10; executionEnd := 25; recordedAt := 26 |}
      (snd (scheduleInterval 1000 true 0 initial)) = Ret st'
    /\ lastExecution_of "interval_1" st' = Some e
    /\ ex_success e = VBool true
    /\ ex_duration e = Some (25 - 10)
    /\ ex_timestamp e = 26.
Proof.
  eapply (@wrappedFunction_resolved_failure_recorded_as_success
            "interval_1" (snd (scheduleInterval 1000 true 0 initial)));
    reflexivity.
Defined.

(** ** Sorting *)


Lemma insert_time_perm (t : Time) (l : list Time) :
  Permutation (t :: l) (insert_time t l).
Proof.
  induction l as [|x l IH]; cbn [insert_time].
  - apply Permutation_refl.
  - destruct (minutes_of t - minutes_of x <=? 0).
    + apply Permutation_refl.
    + eapply Permutation_trans; [apply perm_swap|]. apply perm_skip, IH.
Qed.

Lemma sort_times_perm (l : list Time) : Permutation l (sort_times l).
Proof.
  induction l as [|x l IH]; cbn [sort_times].
  - apply Permutation_refl.
  - eapply Permutation_trans; [apply perm_skip, IH|]. apply insert_time_perm.
Qed.

Lemma insert_time_sorted (t : Time) (l : list Time) :
  StronglySorted by_minutes l -> StronglySorted by_minutes (insert_time t l).
Proof.
  induction l as [|x l IH]; intros Hs; cbn [insert_time].
  - constructor; constructor.
  - inversion Hs as [|? ? Hl Hx]; subst.
    destruct (Z.leb_spec (minutes_of t - minutes_of x) 0) as [Hle|Hgt].
    + constructor; [exact Hs|].
      constructor; [unfold by_minutes; lia|].
      rewrite Forall_forall in *. intros y Hy. specialize (Hx y Hy).
      unfold by_minutes in *. lia.
    + constructor; [apply IH, Hl|].
      rewrite Forall_forall in *. intros y Hy.
      apply (Permutation_in _ (Permutation_sym (insert_time_perm t l))) in Hy.
      destruct Hy as [<-|Hy]; [unfold by_minutes; lia|auto].
Qed.

Lemma sort_times_sorted (l : list Time) : StronglySorted by_minutes (sort_times l).
Proof.
  induction l as [|x l IH]; cbn [sort_times].
  - constructor.
  - apply insert_time_sorted, IH.
Qed.

(** ** Parsing *)

Lemma digit_value_range (c : ascii) (d : Z) :
  digit_value c = Some d -> 0 <= d <= 9 /\ Ascii.eqb c ":"%char = false.
Proof.
  destruct c as [[] [] [] [] [] [] [] []]; vm_compute; intros H;
    try discriminate; inversion H; subst; repeat split; discriminate.
Qed.

Lemma decimal_aux_nonneg (s : string) :
  forall acc v, 0 <= acc -> decimal_aux acc s = Some v -> 0 <= v.
Proof.
  induction s as [|c s IH]; intros acc v Hacc; cbn [decimal_aux].
  - intros H; inversion H; subst; exact Hacc.
  - destruct (digit_value c) as [d|] eqn:Hd; [|discriminate].
    apply digit_value_range in Hd. apply IH. lia.
Qed.

Lemma parseTime_nonneg (s : string) (t : Time) :
  parseTime s = Some t -> 0 <= hour t /\ 0 <= minute t.
Proof.
  unfold parseTime. destruct (split_colon s) as [|h [|m rest]]; try discriminate.
  destruct (Number_decimal h) as [hv|] eqn:Hh; [|discriminate].
  destruct (Number_decimal m) as [mv|] eqn:Hm; [|discriminate].
  intros H; inversion H; subst; cbn [hour minute].
  unfold Number_decimal in Hh, Hm.
  destruct (String.length h <=? 11)%nat; [|discriminate].
  destruct (String.length m <=? 11)%nat; [|discriminate].
  split; eapply decimal_aux_nonneg; try eassumption; lia.
Qed.

Lemma parseAll_nonneg (l : list string) :
  forall raw, parseAll l = Some raw ->
              forall t, In t raw -> 0 <= hour t /\ 0 <= minute t.
Proof.
  induction l as [|s l IH]; intros raw; cbn [parseAll].
  - intros H; inversion H; subst. intros t [].
  - destruct (parseTime s) as [x|] eqn:Hx; [|discriminate].
    destruct (parseAll l) as [xs|]; [|discriminate].
    intros H; inversion H; subst. intros t [<-|Ht].
    + eapply parseTime_nonneg; eassumption.
    + eapply IH; [reflexivity|exact Ht].
Qed.

Lemma parseTime_HHMM (c1 c2 c3 c4 : ascii) (h1 h2 m1 m2 : Z) :
  digit_value c1 = Some h1 -> digit_value c2 = Some h2 ->
  digit_value c3 = Some m1 -> digit_value c4 = Some m2 ->
  parseTime (String c1 (String c2 (String ":" (String c3 (String c4 EmptyString)))))
  = Some {| hour := 10 * h1 + h2; minute := 10 * m1 + m2 |}.
Proof.
  intros H1 H2 H3 H4.
  destruct (digit_value_range _ H1) as [_ E1].
  destruct (digit_value_range _ H2) as [_ E2].
  destruct (digit_value_range _ H3) as [_ E3].
  destruct (digit_value_range _ H4) as [_ E4].
  unfold parseTime, split_colon.
  cbn [split_colon_aux]. rewrite E1, E2, E3, E4.
  cbn [Ascii.eqb Bool.eqb]. cbn [split_colon_aux String.append].
  unfold Number_decimal. cbn [String.length Nat.leb decimal_aux].
  rewrite H1, H2, H3, H4. apply f_equal. f_equal; lia.
Qed.

(** ** The next fire *)

Lemma new_Date_valid (value : Z) : Z.abs value <= MAX_TIME -> new_Date value = Some value.
Proof.
  intros H. unfold new_Date. destruct (Z.leb_spec (Z.abs value) MAX_TIME); [reflexivity|lia].
Qed.

Lemma day_start_bounds (now : Z) : (now / DAY) * DAY <= now < (now / DAY) * DAY + DAY.
Proof.
  assert (0 < DAY) by (unfold DAY; lia).
  pose proof (Z.mul_div_le now DAY ltac:(assumption)).
  pose proof (Z.mul_succ_div_gt now DAY ltac:(assumption)).
  lia.
Qed.

Lemma ms_of_minutes (t : Time) : ms_of t = 60000 * minutes_of t.
Proof. unfold ms_of, minutes_of. ring. Qed.

(** Where the readings of the zone agree, [nowUtc] is [now] shifted by the
    offset and [todayUtc] the start of the UTC day of [now], shifted
    likewise. *)
Lemma local_midnight_steady (tz : Zone) (now : Z) :
  steady tz now ->
  Z.abs ((now / DAY) * DAY + offset_at tz now * 60000) <= MAX_TIME ->
  local_midnight tz (now + offset_at tz now * 60000)
  = Some ((now / DAY) * DAY + offset_at tz now * 60000).
Proof.
  intros [Hshift Hlocal] Hvalid. unfold local_midnight. rewrite Hshift.
  replace (now + offset_at tz now * 60000 - offset_at tz now * 60000) with now by ring.
  rewrite Hlocal. apply new_Date_valid. exact Hvalid.
Qed.

Lemma first_after_some (today nowUtc : Z) (l : list Time) (e : Z) :
  StronglySorted by_minutes l ->
  (forall t, In t l -> Z.abs (today + ms_of t) <= MAX_TIME) ->
  first_after (Some today) nowUtc l = Some e ->
  exists t, In t l /\ e = today + ms_of t /\ nowUtc < e
            /\ forall t', In t' l -> nowUtc < today + ms_of t' -> e <= today + ms_of t'.
Proof.
  induction l as [|x l IH]; intros Hs Hvalid; cbn [first_after shifted]; [discriminate|].
  inversion Hs as [|? ? Hl Hx]; subst.
  rewrite (new_Date_valid _ (Hvalid x (or_introl eq_refl))).
  destruct (Z.ltb_spec nowUtc (today + ms_of x)) as [Hlt|Hge].
  - intros H; inversion H; subst. exists x.
    split; [left; reflexivity|]. split; [reflexivity|]. split; [exact Hlt|].
    intros t' [<-|Ht'] _; [lia|].
    rewrite Forall_forall in Hx. specialize (Hx t' Ht'). unfold by_minutes in Hx.
    rewrite !ms_of_minutes. lia.
  - intros H.
    destruct (IH Hl (fun t Ht => Hvalid t (or_intror Ht)) H) as (t & Hin & He & Hlt & Hmin).
    exists t. split; [right; exact Hin|]. split; [exact He|]. split; [exact Hlt|].
    intros t' [<-|Ht'] Hafter; [lia|auto].
Qed.

Lemma first_after_none (today nowUtc : Z) (l : list Time) :
  (forall t, In t l -> Z.abs (today + ms_of t) <= MAX_TIME) ->
  first_after (Some today) nowUtc l = None ->
  forall t, In t l -> today + ms_of t <= nowUtc.
Proof.
  induction l as [|x l IH]; cbn [first_after shifted]; intros Hvalid H t Hin; [destruct Hin|].
  rewrite (new_Date_valid _ (Hvalid x (or_introl eq_refl))) in H.
  destruct (Z.ltb_spec nowUtc (today + ms_of x)) as [Hlt|Hge]; [discriminate|].
  destruct Hin as [<-|Hin]; [exact Hge|].
  exact (IH (fun t Ht => Hvalid t (or_intror Ht)) H t Hin).
Qed.

(** The recomputation at an ordinary instant, for times that make a delay
    a timer can take. *)
Lemma scheduleNext_compute_spec (tz : Zone) (parsed : list Time) (now : Z) :
  parsed <> [] ->
  StronglySorted by_minutes parsed ->
  (forall t, In t parsed -> 0 <= hour t /\ 0 <= minute t /\ ms_of t <= 2147483647 - DAY) ->
  steady tz now ->
  0 <= now <= 8000000000000000 ->
  Z.abs (offset_at tz now) <= 1440 ->
  exists nextExecution delay,
    scheduleNext_compute tz parsed now = Ret (nextExecution, delay)
    /\ nextExecution = now + delay + offset_at tz now * 60000
    /\ 0 < delay
    /\ fires_after delay = delay
    /\ ((exists t, In t parsed /\ now + delay = (now / DAY) * DAY + ms_of t
                   /\ forall t', In t' parsed -> now < (now / DAY) * DAY + ms_of t' ->
                                 now + delay <= (now / DAY) * DAY + ms_of t')
        \/ ((forall t', In t' parsed -> (now / DAY) * DAY + ms_of t' <= now)
            /\ exists t, In t parsed /\ now + delay = (now / DAY) * DAY + DAY + ms_of t
                         /\ forall t', In t' parsed -> ms_of t <= ms_of t')).
Proof.
  intros Hne Hs Hpos Hsteady Hnow Hoff.
  pose proof (day_start_bounds now) as Hday.
  assert (HDAY : DAY = 86400000) by reflexivity.
  assert (HMAX : MAX_TIME = 8640000000000000) by reflexivity.
  assert (Hms : forall t, In t parsed -> 0 <= ms_of t <= 2147483647 - DAY).
  { intros t Ht. destruct (Hpos t Ht) as (Hh & Hm & Hb). unfold ms_of in *. lia. }
  unfold scheduleNext_compute.
  rewrite new_Date_valid by lia.
  rewrite (local_midnight_steady Hsteady) by lia.
  set (o := offset_at tz now) in *.
  set (day0 := (now / DAY) * DAY) in *.
  assert (Hvalid : forall t, In t parsed -> Z.abs (day0 + o * 60000 + ms_of t) <= MAX_TIME).
  { intros t Ht. specialize (Hms t Ht). lia. }
  assert (Hfire : forall delay, 0 < delay <= 2147483647 -> fires_after delay = delay).
  { intros delay Hd. unfold fires_after.
    destruct (Z.leb_spec 1 delay); [|lia].
    destruct (Z.leb_spec delay 2147483647); [reflexivity|lia]. }
  destruct (first_after (Some (day0 + o * 60000)) (now + o * 60000) parsed) as [e|] eqn:Hfa.
  - destruct (@first_after_some _ _ _ _ Hs Hvalid Hfa) as (t & Hin & He & Hlt & Hmin).
    exists e, (e - (now + o * 60000)).
    split; [reflexivity|]. split; [lia|]. split; [lia|].
    split; [apply Hfire; specialize (Hms t Hin); lia|].
    left. exists t. split; [exact Hin|]. split; [lia|].
    intros t' Ht' Hafter. specialize (Hmin t' Ht'). lia.
  - pose proof (@first_after_none _ _ _ Hvalid Hfa) as Hall.
    destruct parsed as [|firstTime rest]; [congruence|].
    pose proof (Hms firstTime (or_introl eq_refl)) as H0.
    cbn [shifted]. rewrite new_Date_valid by lia. cbn [shifted].
    rewrite new_Date_valid by lia.
    eexists. eexists. split; [reflexivity|].
    split; [lia|]. split; [lia|]. split; [apply Hfire; lia|].
    right. split.
    + intros t' Ht'. specialize (Hall t' Ht'). lia.
    + exists firstTime. split; [left; reflexivity|]. split; [lia|].
      intros t' [<-|Ht']; [lia|].
      inversion Hs as [|? ? _ Hx]; subst.
      rewrite Forall_forall in Hx. specialize (Hx t' Ht'). unfold by_minutes in Hx.
      rewrite !ms_of_minutes. lia.
Qed.

Lemma day_of_offset (D x : Z) :
  0 <= x < DAY -> ((D * DAY + x) / DAY) * DAY = D * DAY.
Proof.
  intros Hx. assert (DAY <> 0) by (unfold DAY; lia).
  rewrite Z.div_add_l by assumption.
  rewrite (Z.div_small x DAY) by exact Hx. ring.
Qed.

Lemma steady_fixed (minutes now : Z) : steady (fixed minutes) now.
Proof. split; reflexivity. Qed.

(** C6 (the code departs from it).  Daily-times schedules.  (1) For every
    non-empty list of time strings the parser reads, the stored times are
    the parsed ones sorted ascending by minute of the day.  At an instant
    where the readings of the time zone agree, and for times that make a
    delay a timer can take, the recomputation arms a timeout that fires at
    the earliest configured time strictly after [now] on the UTC day of
    [now], or, when none remains, at the first (smallest) configured time
    of the next UTC day; the schedule keeps the sorted times, and as its
    next execution that instant shifted by the offset of the zone.  (2) A
    string of two digits, a colon and two digits is read as that hour and
    minute, and is such a time.  (3) With ["09:30"; "15:30"], a [now] of
    09:00 UTC gives 09:30 of the same day and a [now] of 16:00 UTC gives
    09:30 of the next day, at instants where the readings of the zone
    agree.  (4) They do not agree on the day the clock changes: in
    [America/New_York] at 08:00 UTC on 2024-11-03 the same schedule is
    armed for 08:30 UTC, one hour before the configured 09:30. *)
Theorem daily_times_next_fire :
  (forall (tz : Zone) (times : list string) (parsed : list Time) (now : Z) (st : State),
      parsedTimes times = Some parsed ->
      times <> [] ->
      StronglySorted by_minutes parsed
      /\ (exists raw, parseAll times = Some raw /\ Permutation raw parsed)
      /\ ((forall t, In t parsed -> ms_of t <= 2147483647 - DAY) ->
          steady tz now ->
          0 <= now <= 8000000000000000 ->
          Z.abs (offset_at tz now) <= 1440 ->
          exists nextExecution delay,
            scheduleNext_compute tz parsed now = Ret (nextExecution, delay)
            /\ nextExecution = now + delay + offset_at tz now * 60000
            /\ 0 < delay
            /\ fires_after delay = delay
            /\ ((exists t, In t parsed /\ now + delay = (now / DAY) * DAY + ms_of t
                           /\ forall t', In t' parsed ->
                                         now < (now / DAY) * DAY + ms_of t' ->
                                         now + delay <= (now / DAY) * DAY + ms_of t')
                \/ ((forall t', In t' parsed -> (now / DAY) * DAY + ms_of t' <= now)
                    /\ exists t, In t parsed
                                 /\ now + delay = (now / DAY) * DAY + DAY + ms_of t
                                 /\ forall t', In t' parsed -> ms_of t <= ms_of t'))
            /\ exists scheduleId st' schedule,
                scheduleTimes tz times now st = Some (Ret (scheduleId, delay, st'))
                /\ map_get scheduleId (activeSchedules st') = Some schedule
                /\ sc_times schedule = Some parsed
                /\ sc_nextExecution schedule = Some nextExecution))
  /\ (forall (c1 c2 c3 c4 : ascii) (h1 h2 m1 m2 : Z),
         digit_value c1 = Some h1 -> digit_value c2 = Some h2 ->
         digit_value c3 = Some m1 -> digit_value c4 = Some m2 ->
         parseTime (String c1 (String c2 (String ":" (String c3 (String c4 EmptyString)))))
         = Some {| hour := 10 * h1 + h2; minute := 10 * m1 + m2 |}
         /\ ms_of {| hour := 10 * h1 + h2; minute := 10 * m1 + m2 |} <= 2147483647 - DAY)
  /\ (forall (tz : Zone) (D : Z),
         let configured := [ {| hour := 9; minute := 30 |}; {| hour := 15; minute := 30 |} ] in
         let at_0930 := 9 * 3600000 + 30 * 60000 in
         parsedTimes ["09:30"; "15:30"]%string = Some configured
         /\ (steady tz (D * DAY + 9 * 3600000) ->
             0 <= D * DAY + 9 * 3600000 <= 8000000000000000 ->
             Z.abs (offset_at tz (D * DAY + 9 * 3600000)) <= 1440 ->
             exists next delay,
               scheduleNext_compute tz configured (D * DAY + 9 * 3600000) = Ret (next, delay)
               /\ (D * DAY + 9 * 3600000) + fires_after delay = D * DAY + at_0930)
         /\ (steady tz (D * DAY + 16 * 3600000) ->
             0 <= D * DAY + 16 * 3600000 <= 8000000000000000 ->
             Z.abs (offset_at tz (D * DAY + 16 * 3600000)) <= 1440 ->
             exists next delay,
               scheduleNext_compute tz configured (D * DAY + 16 * 3600000) = Ret (next, delay)
               /\ (D * DAY + 16 * 3600000) + fires_after delay = (D + 1) * DAY + at_0930))
  /\ (let configured := [ {| hour := 9; minute := 30 |}; {| hour := 15; minute := 30 |} ] in
      let now := 20030 * DAY + 8 * 3600000 in
      now = 1730620800000
      /\ scheduleNext_compute new_york configured now = Ret (1730640600000, 1800000)
      /\ now + fires_after 1800000 = 20030 * DAY + 8 * 3600000 + 30 * 60000
      /\ now < 20030 * DAY + 9 * 3600000 + 30 * 60000
      /\ ~ steady new_york now).
Proof.
  split; [|split; [|split]].
  - intros tz times parsed now st Hparsed Hne.
    unfold parsedTimes in Hparsed.
    destruct (parseAll times) as [raw|] eqn:Hraw; [|discriminate].
    inversion Hparsed; subst parsed; clear Hparsed.
    assert (Hperm : Permutation raw (sort_times raw)) by apply sort_times_perm.
    assert (Hpos : forall t, In t (sort_times raw) -> 0 <= hour t /\ 0 <= minute t).
    { intros t Ht. eapply parseAll_nonneg; [exact Hraw|].
      eapply Permutation_in; [apply Permutation_sym, Hperm|exact Ht]. }
    assert (Hne' : sort_times raw <> []).
    { intros E. rewrite E in Hperm. apply Permutation_sym, Permutation_nil in Hperm. subst raw.
      destruct times as [|s times]; [congruence|].
      cbn [parseAll] in Hraw. destruct (parseTime s); [|discriminate].
      destruct (parseAll times); discriminate. }
    split; [apply sort_times_sorted|].
    split; [exists raw; split; [reflexivity|exact Hperm]|].
    intros Hfit Hsteady Hnow Hoff.
    destruct (@scheduleNext_compute_spec tz (sort_times raw) now Hne'
                (sort_times_sorted raw)
                (fun t Ht => conj (proj1 (Hpos t Ht)) (conj (proj2 (Hpos t Ht)) (Hfit t Ht)))
                Hsteady Hnow Hoff)
      as (nextExecution & delay & Hc & Hn & Hlt & Hfire & Hcases).
    exists nextExecution, delay.
    split; [exact Hc|]. split; [exact Hn|]. split; [exact Hlt|].
    split; [exact Hfire|]. split; [exact Hcases|].
    unfold scheduleTimes, parsedTimes. rewrite Hraw.
    unfold scheduleNext. rewrite Hc. cbn [activeSchedules nextTimer nextScheduleId].
    rewrite map_get_set_same.
    eexists. eexists. eexists. split; [reflexivity|].
    unfold with_schedules. cbn [activeSchedules].
    split; [apply map_get_set_same|]. split; reflexivity.
  - intros c1 c2 c3 c4 h1 h2 m1 m2 H1 H2 H3 H4.
    split; [exact (parseTime_HHMM _ _ _ _ H1 H2 H3 H4)|].
    apply digit_value_range in H1, H2, H3, H4.
    unfold ms_of, DAY. cbn [hour minute]. lia.
  - intros tz D configured at_0930.
    split; [reflexivity|].
    assert (Hsorted : StronglySorted by_minutes configured).
    { repeat constructor. unfold by_minutes, minutes_of. cbn. lia. }
    assert (Hfit : forall t, In t configured ->
                             0 <= hour t /\ 0 <= minute t /\ ms_of t <= 2147483647 - DAY).
    { intros t [<-|[<-|[]]]; unfold ms_of, DAY; cbn; lia. }
    assert (H9 : 0 <= 9 * 3600000 < DAY) by (unfold DAY; lia).
    assert (H16 : 0 <= 16 * 3600000 < DAY) by (unfold DAY; lia).
    split.
    + intros Hsteady Hnow Hoff.
      destruct (@scheduleNext_compute_spec tz configured _ ltac:(discriminate) Hsorted Hfit
                  Hsteady Hnow Hoff)
        as (next & delay & Hc & _ & Hlt & Hfire & Hcases).
      exists next, delay. split; [exact Hc|]. rewrite Hfire.
      rewrite (day_of_offset D H9) in Hcases. subst at_0930.
      destruct Hcases as [(t & Hin & Heq & Hmin)|(Hall & _)].
      * pose proof (Hmin {| hour := 9; minute := 30 |} (or_introl eq_refl)) as H0930.
        unfold ms_of in *. cbn [hour minute] in *.
        destruct Hin as [<-|[<-|[]]]; cbn [hour minute] in *; lia.
      * specialize (Hall {| hour := 9; minute := 30 |} (or_introl eq_refl)).
        unfold ms_of in Hall. cbn [hour minute] in Hall. lia.
    + intros Hsteady Hnow Hoff.
      destruct (@scheduleNext_compute_spec tz configured _ ltac:(discriminate) Hsorted Hfit
                  Hsteady Hnow Hoff)
        as (next & delay & Hc & _ & Hlt & Hfire & Hcases).
      exists next, delay. split; [exact Hc|]. rewrite Hfire.
      rewrite (day_of_offset D H16) in Hcases. subst at_0930.
      destruct Hcases as [(t & Hin & Heq & Hmin)|(_ & t & Hin & Heq & Hmin)].
      * unfold ms_of in *.
        destruct Hin as [<-|[<-|[]]]; cbn [hour minute] in *; lia.
      * pose proof (Hmin {| hour := 9; minute := 30 |} (or_introl eq_refl)) as H0930.
        unfold ms_of, DAY in *. cbn [hour minute] in *.
        destruct Hin as [<-|[<-|[]]]; cbn [hour minute] in *; lia.
  - cbv zeta. split; [reflexivity|]. split; [vm_compute; reflexivity|].
    split; [reflexivity|]. split; [reflexivity|].
    intros [_ Hlocal]. vm_compute in Hlocal. discriminate.
Qed.

Lemma daily_times_next_fire_witness :
  exists next delay,
    scheduleNext_compute utc
      [ {| hour := 9; minute := 30 |}; {| hour := 15; minute := 30 |} ]
      (20000 * DAY + 16 * 3600000) = Ret (next, delay)
    /\ (20000 * DAY + 16 * 3600000) + fires_after delay
       = 20001 * DAY + (9 * 3600000 + 30 * 60000).
Proof.
  apply (proj2 (proj2 (proj1 (proj2 (proj2 daily_times_next_fire)) utc 20000))).
  - apply steady_fixed.
  - vm_compute. split; discriminate.
  - vm_compute. discriminate.
Defined.

End SchedulerFacts.

(* ===================================================================== *)
(** * Properties of trading.js *)
(* ===================================================================== *)

Module TradingFacts.
Import JS Engine Trading.
Open Scope Z_scope.

(** Run the monadic plumbing of a goal. *)
Ltac run :=
  cbv beta iota zeta delta
      [bind ret throw try_catch lift errors now emit advance sleep updateStatus
       logger_log logger_error console request set_cache get_cache
       get_cache_time].

(** The same, and read the fields of the states so built. *)
Ltac step :=
  run; cbn [clock trace jupiterTokensCache jupiterTokensCacheTime calls service_eqb].

(** C7.  The token directory is served from a cache that lives
    [CACHE_DURATION] = 5 minutes.  With no cache yet, or with a cache older
    than that, one request is made; when it brings a directory, that
    directory is returned and kept with the time of the call, and every
    call in the 5 minutes that follow returns it without a request.  Within
    that time of the last successful fetch no request is made and the
    cached directory is returned; after it, a refresh that succeeds replaces
    the cache, and a refresh that fails (the request rejects, the response
    is not ok, or the body does not parse) returns the stale directory; the
    function throws only when there is no cache and the refresh attempt
    failed, and it does throw then whenever the attempt ended in the catch
    block; a response that is not ok, with no cache, gives [null]. *)
Theorem token_directory_cache :
  forall (w : World) (s : State),
    let n := calls SvcTokens (trace s) in
    CACHE_DURATION = 300000
    /\ (forall c, jupiterTokensCache s = Some c ->
                  clock s - jupiterTokensCacheTime s <= CACHE_DURATION ->
                  getJupiterTokens w s = (Ret (Some c), s))
    /\ (forall c, jupiterTokensCache s = Some c ->
                  refresh_failed (w_tokens w n) = true ->
                  exists s', getJupiterTokens w s = (Ret (Some c), s')
                             /\ jupiterTokensCache s' = Some c
                             /\ jupiterTokensCacheTime s' = jupiterTokensCacheTime s)
    /\ (forall c ok status text body,
           jupiterTokensCache s = Some c ->
           CACHE_DURATION < clock s - jupiterTokensCacheTime s ->
           w_tokens w n = Response ok status text (Ret body) -> ok = true ->
           exists s', getJupiterTokens w s = (Ret body, s')
                      /\ jupiterTokensCache s' = body
                      /\ jupiterTokensCacheTime s' = clock s)
    /\ (forall msg s', getJupiterTokens w s = (Throw msg, s') ->
                       jupiterTokensCache s = None
                       /\ refresh_failed (w_tokens w n) = true)
    /\ (jupiterTokensCache s = None -> refresh_threw (w_tokens w n) = true ->
        exists s', getJupiterTokens w s
                   = (Throw "Unable to fetch token list from Jupiter API", s'))
    /\ (forall ok status text body,
           jupiterTokensCache s = None
           \/ CACHE_DURATION < clock s - jupiterTokensCacheTime s ->
           w_tokens w n = Response ok status text (Ret body) -> ok = true ->
           exists s', getJupiterTokens w s = (Ret body, s')
                      /\ jupiterTokensCache s' = body
                      /\ jupiterTokensCacheTime s' = clock s
                      /\ calls SvcTokens (trace s') = S n
                      /\ forall (w2 : World) (s2 : State) (c : list Token),
                           body = Some c ->
                           jupiterTokensCache s2 = jupiterTokensCache s' ->
                           jupiterTokensCacheTime s2 = jupiterTokensCacheTime s' ->
                           clock s2 - clock s <= CACHE_DURATION ->
                           getJupiterTokens w2 s2 = (Ret (Some c), s2))
    /\ (forall status text json,
           jupiterTokensCache s = None ->
           w_tokens w n = Response false status text json ->
           exists s', getJupiterTokens w s = (Ret None, s')
                      /\ jupiterTokensCache s' = None
                      /\ calls SvcTokens (trace s') = S n).
Proof.
  intros w s n. subst n.
  split; [reflexivity|].
  unfold getJupiterTokens.
  destruct s as [clk tr cache ctime]. run.
  cbv beta iota delta [clock trace jupiterTokensCache jupiterTokensCacheTime].
  repeat split.
  - intros c Hc Hfresh. subst cache. cbn [no_cache orb].
    destruct (Z.ltb_spec CACHE_DURATION (clk - ctime)); [lia|]. reflexivity.
  - intros c Hc Hfail. subst cache. cbn [no_cache orb].
    destruct (CACHE_DURATION <? clk - ctime).
    + destruct (w_tokens w (calls SvcTokens tr)) as [m|ok status text [body|m]];
        cbn in Hfail; try destruct ok; try discriminate;
        cbn; eexists; repeat split; reflexivity.
    + eexists; repeat split; reflexivity.
  - intros c ok status text body Hc Hstale Hw Hok. subst cache ok. cbn [no_cache orb].
    destruct (Z.ltb_spec CACHE_DURATION (clk - ctime)); [|lia].
    rewrite Hw. cbn. eexists; repeat split; reflexivity.
  - destruct cache as [c|]; [|reflexivity].
    cbn [no_cache orb] in H.
    destruct (CACHE_DURATION <? clk - ctime); [|discriminate].
    destruct (w_tokens w (calls SvcTokens tr)) as [m|[] status text [body|m]];
      cbn in H; discriminate.
  - destruct cache as [c|]; cbn [no_cache orb] in H.
    + destruct (CACHE_DURATION <? clk - ctime); [|discriminate].
      destruct (w_tokens w (calls SvcTokens tr)) as [m|[] status text [body|m]];
        cbn in H; discriminate.
    + destruct (w_tokens w (calls SvcTokens tr)) as [m|[] status text [body|m]];
        cbn in H; try discriminate; reflexivity.
  - intros Hc Hthrew. subst cache. cbn [no_cache orb].
    destruct (w_tokens w (calls SvcTokens tr)) as [m|[] status text [body|m]];
      cbn in Hthrew; try discriminate; cbn; eexists; reflexivity.
  - intros ok status text body Hdue Hw Hok. subst ok.
    assert (Hgo : no_cache cache || (CACHE_DURATION <? clk - ctime) = true).
    { destruct Hdue as [Hnone|Hstale].
      - subst cache. reflexivity.
      - apply Bool.orb_true_iff. right. apply Z.ltb_lt. exact Hstale. }
    rewrite Hgo, Hw. cbn. eexists. split; [reflexivity|].
    cbn [clock trace jupiterTokensCache jupiterTokensCacheTime calls service_eqb].
    split; [reflexivity|]. split; [reflexivity|]. split; [reflexivity|].
    intros w2 s2 c Hbody Hcache Htime Hclock. subst body.
    destruct s2 as [clk2 tr2 cache2 ctime2].
    cbn [clock trace jupiterTokensCache jupiterTokensCacheTime] in *. subst cache2 ctime2.
    unfold getJupiterTokens. run.
    cbv beta iota delta [clock trace jupiterTokensCache jupiterTokensCacheTime].
    cbn [no_cache orb]. change CACHE_DURATION with 300000 in *.
    destruct (Z.ltb_spec 300000 (clk2 - clk)); [lia|]. reflexivity.
  - intros status text json Hc Hw. subst cache. cbn [no_cache orb].
    rewrite Hw. cbn. eexists. repeat split; reflexivity.
Qed.

Lemma token_directory_cache_witness :
  exists s',
    getJupiterTokens (Samples.with_tokens (FetchRejects "down") Samples.calm)
                     (Samples.cached 400000)
    = (Ret (Some [Samples.SOL]), s')
    /\ jupiterTokensCache s' = Some [Samples.SOL]
    /\ jupiterTokensCacheTime s' = 0.
Proof.
  apply (proj1 (proj2 (proj2 (token_directory_cache
                                (Samples.with_tokens (FetchRejects "down") Samples.calm)
                                (Samples.cached 400000)))));
    reflexivity.
Defined.

(** C2 (as the code has it).  Once [swap] has sent its transaction, the
    confirmation step cannot change the result: whether confirmation was
    requested or not, reported an error, or threw, [swap] returns
    [success = true] with the signature of the sent transaction, and a
    reported error or a thrown one leaves a console line.  Once [transfer]
    has sent its transaction, a confirmation that throws is logged and the
    result is [success = true] with the signature; a confirmation that
    reports an on-chain error is logged and makes the result
    [success = false], with the error text and no signature. *)
Theorem confirmation_after_broadcast :
  (forall (w : World) (walletId fromSym toSym : string) (amount : jsnum)
          (walletAddress : string) (options : SwapOptions)
          (s s1 : State) (sent : Sent),
      swap_send w walletId fromSym toSym amount walletAddress options s = (Ret sent, s1) ->
      exists r s2,
        swap w walletId fromSym toSym amount walletAddress options s = (Ret r, s2)
        /\ success r = true
        /\ signature r = Some (sent_hash sent)
        /\ (or_default true (confirmTransaction options) = true ->
            match w_confirm w (calls SvcConfirm (trace s1)) with
            | Throw _ =>
                In (EConsole "Confirmation check failed: ${confirmError.message}") (trace s2)
            | Ret err =>
                truthy err = true ->
                In (EConsole "Transaction failed: ${confirmation.value.err}") (trace s2)
            end))
  /\ (forall (w : World) (walletId fromAddr toAddr tokenSymbol : string)
             (amount : jsnum) (s s1 : State) (hash : string),
         transfer_send w walletId fromAddr toAddr tokenSymbol amount s = (Ret hash, s1) ->
         exists r s2,
           transfer w walletId fromAddr toAddr tokenSymbol amount s = (Ret r, s2)
           /\ match w_confirm w (calls SvcConfirm (trace s1)) with
              | Throw _ =>
                  success r = true /\ signature r = Some hash
                  /\ In (EConsole "Confirmation check failed: ${confirmError.message}") (trace s2)
              | Ret err =>
                  if truthy err then
                    success r = false /\ signature r = None
                    /\ error r = Some ("Transaction failed: " ++ rt_show w err)%string
                    /\ In (EConsole "Transfer failed: ${confirmation.value.err}") (trace s2)
                  else
                    success r = true /\ signature r = Some hash
              end).
Proof.
  split.
  - intros w walletId fromSym toSym amount walletAddress options s s1 sent Hsend.
    unfold swap, swap_finish, swap_confirm. run. rewrite Hsend. step.
    destruct (or_default true (confirmTransaction options)).
    + destruct (w_confirm w (calls SvcConfirm (trace s1))) as [err|m].
      * destruct (truthy err) eqn:Herr;
          eexists; eexists; (split; [reflexivity|]); cbn;
          repeat split; try discriminate; intros _; auto.
      * eexists; eexists; (split; [reflexivity|]); cbn; repeat split; auto.
    + eexists; eexists; (split; [reflexivity|]); cbn; repeat split; discriminate.
  - intros w walletId fromAddr toAddr tokenSymbol amount s s1 hash Hsend.
    unfold transfer, transfer_finish, transfer_confirm. run. rewrite Hsend. step.
    destruct (w_confirm w (calls SvcConfirm (trace s1))) as [err|m].
    + destruct (truthy err) eqn:Herr;
        eexists; eexists; (split; [reflexivity|]); cbn; repeat split; auto.
    + eexists; eexists; (split; [reflexivity|]); cbn; repeat split; auto.
Qed.

Lemma confirmation_after_broadcast_witness :
  exists r s2,
    swap (Samples.with_confirm (Throw "timeout") Samples.calm)
         "w1" "SOL" "USDC" (Fin 1) Samples.alice no_options (initial 0) = (Ret r, s2)
    /\ success r = true
    /\ signature r = Some "sig1".
Proof.
  destruct (proj1 confirmation_after_broadcast
              (Samples.with_confirm (Throw "timeout") Samples.calm)
              "w1" "SOL" "USDC" (Fin 1) Samples.alice no_options (initial 0)
              _ _ eq_refl)
    as (r & s2 & Hrun & Hok & Hsig & _).
  exists r, s2. split; [exact Hrun|]. split; [exact Hok|exact Hsig].
Defined.

(** C2 does not hold for [transfer] as stated: with a sent transaction
    whose confirmation reports an on-chain error, the result is a failure
    without signature. *)
Lemma transfer_confirmation_error_flips_result :
  let w := Samples.with_confirm (Ret (VStr "InstructionError")) Samples.calm in
  exists s1 r s2,
    transfer_send w "w1" Samples.alice Samples.bob "SOL" (Fin 1) (initial 0) = (Ret "sig1", s1)
    /\ transfer w "w1" Samples.alice Samples.bob "SOL" (Fin 1) (initial 0) = (Ret r, s2)
    /\ success r = false
    /\ signature r = None
    /\ error r = Some "Transaction failed: InstructionError"%string.
Proof.
  cbv zeta. eexists. eexists. eexists.
  split; [vm_compute; reflexivity|].
  split; [vm_compute; reflexivity|].
  split; [reflexivity|]. split; reflexivity.
Qed.

End TradingFacts.

(* ===================================================================== *)
(** * Properties of baseline-dca.js *)
(* ===================================================================== *)

Module DCAFacts.
Import JS Engine Trading DCA.
Import TradingFacts.
Open Scope Z_scope.

(** The balance gate talks to the balance source only. *)
Lemma balance_loop_calls (w : World) (minimumSOL : jsnum) (svc : Service) :
  service_eqb SvcBalances svc = false ->
  forall (fuel : nat) (s : State),
    calls svc (trace (snd (balance_loop w minimumSOL fuel s))) = calls svc (trace s).
Proof.
  intros Hsvc. induction fuel as [|fuel IH]; intros s; [reflexivity|].
  cbn [balance_loop]. unfold getBalances. step.
  destruct (w_balances w (calls SvcBalances (trace s))) as [allBalances|m]; step.
  - destruct (js_ge _ minimumSOL); step.
    + cbn [snd trace calls]. rewrite Hsvc. reflexivity.
    + rewrite IH. cbn [trace calls]. rewrite Hsvc. reflexivity.
  - rewrite IH. cbn [trace calls]. rewrite Hsvc. reflexivity.
Qed.

Lemma gate_phase_calls (w : World) (ownerAddress : string) (svc : Service) :
  service_eqb SvcBalances svc = false ->
  service_eqb SvcWallet svc = false ->
  forall (fuel : nat) (s : State),
    calls svc (trace (snd (gate_phase w ownerAddress fuel s))) = calls svc (trace s).
Proof.
  intros Hb Hw fuel s. unfold gate_phase, waitForBalance. step.
  destruct (w_wallet w (calls SvcWallet (trace s))) as [wallet|m]; step.
  - match goal with
    | |- context [balance_loop w ?m fuel ?st] =>
        pose proof (@balance_loop_calls w m svc Hb fuel st) as Hloop;
        destruct (balance_loop w m fuel st) as [[[b|]|e] st']
    end; cbn [snd] in *; rewrite Hloop; cbn [trace calls]; rewrite Hw; reflexivity.
  - cbn [snd trace calls]. rewrite Hw. reflexivity.
Qed.




End DCAFacts.

(* ===================================================================== *)
(** * Properties of baseline-range.js *)
(* ===================================================================== *)

Module RangeFacts.
Import JS Engine Trading Range.
Import TradingFacts.
Open Scope Z_scope.

(** Case analysis on whatever a [match] of the goal is stuck on. *)
Ltac split_match :=
  match goal with
  | |- context [match ?x with _ => _ end] =>
      first [ is_var x; destruct x
            | lazymatch x with
              | context [match _ with _ => _ end] => fail
              | _ => destruct x eqn:?
              end ]
  end.

Ltac explore :=
  repeat (step;
          cbn [get_prop lookup is_false String.eqb Ascii.eqb Bool.eqb fst snd];
          try split_match).

(** [price] never rejects, and all it does is one request to the market
    data service. *)
Lemma price_returns (w : World) (symbol : string) (s : State) :
  exists v, price w symbol s = (Ret v, after_request w SvcMarket s).
Proof.
  unfold price, marketData, after_request.
  explore; eexists; reflexivity.
Qed.

(** The value [price] returns depends on the state only through the number
    of requests already sent to the market data service. *)
Lemma price_value_frame (w : World) (symbol : string) (s s' : State) :
  calls SvcMarket (trace s') = calls SvcMarket (trace s) ->
  fst (price w symbol s') = fst (price w symbol s).
Proof.
  intros Hcalls. unfold price, marketData. step. rewrite Hcalls.
  explore; reflexivity.
Qed.

Lemma js_ge_le_finite (a b : Q) :
  (js_ge (Fin a) (Fin b) = true <-> (b <= a)%Q)
  /\ (js_le (Fin a) (Fin b) = true <-> (a <= b)%Q).
Proof.
  unfold js_ge, js_le, num_lt.
  split.
  - destruct (Qle_bool b a) eqn:E; cbn; split; intros H; try discriminate; try reflexivity.
    + apply Qle_bool_iff; exact E.
    + apply Qle_bool_iff in H. congruence.
  - destruct (Qle_bool a b) eqn:E; cbn; split; intros H; try discriminate; try reflexivity.
    + apply Qle_bool_iff; exact E.
    + apply Qle_bool_iff in H. congruence.
Qed.

(** What a call of [checkPriceCondition] returns when [price] returned
    [v]. *)
Lemma checkPriceCondition_on (w : World) (symbol : string) (targetPrice : jsnum)
    (above : bool) (s : State) (v : jsval) :
  fst (price w symbol s) = Ret v ->
  exists pc s',
    checkPriceCondition w symbol targetPrice above s = (Ret pc, s')
    /\ match shape_of v with
       | BareNumber n =>
           pc_success pc = true /\ pc_currentPrice pc = Some (VNum n)
           /\ pc_conditionMet pc = (if above then js_ge n targetPrice else js_le n targetPrice)
       | PriceObject p =>
           pc_success pc = true /\ pc_currentPrice pc = Some p
           /\ pc_conditionMet pc = condition_met w above p targetPrice
       | ErrorObject err =>
           pc = check_failed ("Failed to get " ++ symbol ++ " price: " ++ rt_show w err)%string
       | Unrecognized =>
           exists msg, pc = check_failed msg
                       /\ (match v with
                           | VNull => True
                           | _ => msg = ("Invalid price format for " ++ symbol)%string
                           end)
       end.
Proof.
  intros Hv. unfold checkPriceCondition. step.
  match goal with
  | |- context [price w symbol ?st] =>
      destruct (price_returns w symbol st) as [v0 Hv0];
      pose proof (price_value_frame w symbol s st eq_refl) as Hframe;
      rewrite Hv0 in *; cbn [fst] in Hframe; rewrite Hv in Hframe;
      inversion Hframe; subst v0; clear Hframe Hv0
  end.
  unfold after_request, evaluate, condition_met, to_number. step.
  destruct v as [| |b|n|str|items|fields]; cbn [typeof jstype_eqb shape_of]; step;
    cbn [get_prop lookup is_false truthy String.eqb Ascii.eqb Bool.eqb];
    try (eexists; eexists; split; [reflexivity|]; eexists; split; reflexivity).
  - (* a number *)
    destruct above; [destruct (js_ge n targetPrice)|destruct (js_le n targetPrice)]; step;
      eexists; eexists; (split; [reflexivity|]); cbn; repeat split.
  - (* an object *)
    destruct (is_false (lookup "success" fields)); step.
    + eexists; eexists; split; reflexivity.
    + destruct (truthy (lookup "price" fields)) eqn:Hp; step.
      * destruct (lookup "price" fields) as [| |pb|pn|pstr|pitems|pfields];
          try discriminate Hp;
          (destruct above;
           [ match goal with |- context [js_ge ?a ?b] => destruct (js_ge a b) end
           | match goal with |- context [js_le ?a ?b] => destruct (js_le a b) end ]);
          step; eexists; eexists; (split; [reflexivity|]); cbn; repeat split.
      * eexists; eexists; split; [reflexivity|]. eexists; split; reflexivity.
Qed.

(** C4.  [checkPriceCondition] on each shape of the price result: a bare
    number [n] gives [success = true] and [conditionMet = (n >= target)] for
    Above, [(n <= target)] for Below, both bounds inclusive; an object with
    a (truthy) price gives the same evaluation on that price; an object with
    [success: false] gives [success = false], [conditionMet = false]; any
    other shape gives an error result with [success = false] and
    [conditionMet = false]; no shape makes the call throw.  With target 100
    and Above, a price of 105 gives [conditionMet = true] and 95 gives
    [false]. *)
Theorem checkPriceCondition_shapes :
  (forall (w : World) (symbol : string) (targetPrice : jsnum) (above : bool)
          (s : State) (v : jsval),
      fst (price w symbol s) = Ret v ->
      exists pc s',
        checkPriceCondition w symbol targetPrice above s = (Ret pc, s')
        /\ match shape_of v with
           | BareNumber n =>
               pc_success pc = true /\ pc_currentPrice pc = Some (VNum n)
               /\ pc_conditionMet pc
                  = (if above then js_ge n targetPrice else js_le n targetPrice)
           | PriceObject p =>
               pc_success pc = true /\ pc_currentPrice pc = Some p
               /\ pc_conditionMet pc = condition_met w above p targetPrice
           | ErrorObject err =>
               pc_success pc = false /\ pc_conditionMet pc = false
               /\ pc_error pc
                  = Some ("Failed to get " ++ symbol ++ " price: " ++ rt_show w err)%string
           | Unrecognized =>
               pc_success pc = false /\ pc_conditionMet pc = false
               /\ exists msg, pc_error pc = Some msg
           end)
  /\ (forall (a b : Q),
         (js_ge (Fin a) (Fin b) = true <-> (b <= a)%Q)
         /\ (js_le (Fin a) (Fin b) = true <-> (a <= b)%Q)
         /\ js_ge (Fin a) (Fin a) = true /\ js_le (Fin a) (Fin a) = true)
  /\ (forall (w : World) (n : jsnum) (targetPrice : jsnum) (above : bool),
         condition_met w above (VNum n) targetPrice
         = (if above then js_ge n targetPrice else js_le n targetPrice))
  /\ (forall (w : World) (s : State),
         (fst (price w "SOL" s) = Ret (VNum (Fin 105)) ->
          exists pc s', checkPriceCondition w "SOL" (Fin 100) true s = (Ret pc, s')
                        /\ pc_success pc = true /\ pc_conditionMet pc = true)
         /\ (fst (price w "SOL" s) = Ret (VNum (Fin 95)) ->
             exists pc s', checkPriceCondition w "SOL" (Fin 100) true s = (Ret pc, s')
                           /\ pc_success pc = true /\ pc_conditionMet pc = false)).
Proof.
  split; [|split; [|split]].
  - intros w symbol targetPrice above s v Hv.
    destruct (checkPriceCondition_on w symbol targetPrice above s Hv)
      as (pc & s' & Hrun & Hshape).
    exists pc, s'. split; [exact Hrun|].
    destruct (shape_of v) as [n|p|err|].
    + exact Hshape.
    + exact Hshape.
    + subst pc. repeat split.
    + destruct Hshape as (msg & -> & _). repeat split. exists msg. reflexivity.
  - intros a b. destruct (js_ge_le_finite a b) as [Hge Hle].
    split; [exact Hge|]. split; [exact Hle|].
    split; [apply (proj1 (js_ge_le_finite a a))|apply (proj2 (js_ge_le_finite a a))];
      apply Qle_refl.
  - intros w n targetPrice above. reflexivity.
  - intros w s. split; intros Hv;
      destruct (checkPriceCondition_on w "SOL" (Fin 100) true s Hv)
        as (pc & s' & Hrun & Hok & _ & Hmet);
      exists pc, s'; (split; [exact Hrun|]); (split; [exact Hok|]); rewrite Hmet; reflexivity.
Qed.

Lemma checkPriceCondition_shapes_witness :
  exists pc s',
    checkPriceCondition Samples.calm "SOL" (Fin 100) true (initial 0) = (Ret pc, s')
    /\ pc_success pc = true /\ pc_conditionMet pc = true.
Proof.
  apply (proj1 (proj2 (proj2 (proj2 checkPriceCondition_shapes)) Samples.calm (initial 0))).
  reflexivity.
Defined.

(** C10.  A price result that is an object whose [price] is falsy (0, NaN,
    [null], [undefined], the empty string, [false]) and that is not an error
    object is not evaluated against that price: the call returns the
    invalid-price-format error with [success = false] and
    [conditionMet = false].  In particular for [{ price: 0 }]. *)
Theorem falsy_price_is_invalid_format :
  (forall (w : World) (symbol : string) (targetPrice : jsnum) (above : bool)
          (s : State) (fields : list (string * jsval)),
      fst (price w symbol s) = Ret (VObj fields) ->
      is_false (lookup "success" fields) = false ->
      truthy (lookup "price" fields) = false ->
      exists pc s',
        checkPriceCondition w symbol targetPrice above s = (Ret pc, s')
        /\ pc = check_failed ("Invalid price format for " ++ symbol)%string
        /\ pc_success pc = false /\ pc_conditionMet pc = false
        /\ pc_currentPrice pc = None)
  /\ (forall (w : World) (symbol : string) (targetPrice : jsnum) (above : bool)
             (s : State) (p : jsval),
         fst (price w symbol s) = Ret (VObj [("price"%string, p)]) ->
         truthy p = false ->
         exists s',
           checkPriceCondition w symbol targetPrice above s
           = (Ret (check_failed ("Invalid price format for " ++ symbol)%string), s'))
  /\ truthy (VNum (Fin 0)) = false.
Proof.
  assert (General :
    forall (w : World) (symbol : string) (targetPrice : jsnum) (above : bool)
           (s : State) (fields : list (string * jsval)),
      fst (price w symbol s) = Ret (VObj fields) ->
      is_false (lookup "success" fields) = false ->
      truthy (lookup "price" fields) = false ->
      exists pc s',
        checkPriceCondition w symbol targetPrice above s = (Ret pc, s')
        /\ pc = check_failed ("Invalid price format for " ++ symbol)%string
        /\ pc_success pc = false /\ pc_conditionMet pc = false
        /\ pc_currentPrice pc = None).
  { intros w symbol targetPrice above s fields Hv Hsucc Hprice.
    destruct (checkPriceCondition_on w symbol targetPrice above s Hv)
      as (pc & s' & Hrun & Hshape).
    cbn [shape_of] in Hshape. rewrite Hsucc, Hprice in Hshape.
    destruct Hshape as (msg & -> & ->).
    eexists. eexists. split; [exact Hrun|]. repeat split. }
  split; [exact General|]. split; [|reflexivity].
  intros w symbol targetPrice above s p Hv Hp.
  destruct (General w symbol targetPrice above s [("price"%string, p)] Hv eq_refl Hp)
    as (pc & s' & Hrun & -> & _).
  exists s'. exact Hrun.
Qed.

Lemma falsy_price_is_invalid_format_witness :
  exists s',
    checkPriceCondition
      (Samples.with_market (Samples.market_price (VObj [("price"%string, VNum (Fin 0))]))
                           Samples.calm)
      "SOL" (Fin 100) false (initial 0)
    = (Ret (check_failed "Invalid price format for SOL"), s').
Proof.
  apply (proj1 (proj2 falsy_price_is_invalid_format)
           (Samples.with_market (Samples.market_price (VObj [("price"%string, VNum (Fin 0))]))
                                Samples.calm)
           "SOL" (Fin 100) false (initial 0) (VNum (Fin 0)));
    reflexivity.
Defined.

End RangeFacts.

(* ===================================================================== *)
(** * The wait loop *)
(* ===================================================================== *)

Module WaitFacts.
Import JS Engine Trading Range Traces Gate.
Import TradingFacts RangeFacts.
Open Scope Z_scope.

Lemma prefix_nil (tr : list Event) : tr = [] ++ tr.
Proof. reflexivity. Qed.

Lemma prefix_cons (e : Event) (l evs tr : list Event) :
  l = evs ++ tr -> e :: l = (e :: evs) ++ tr.
Proof. intros ->. reflexivity. Qed.

(** Find the events a trace has on top of [tr]. *)
Ltac prefix := repeat first [ apply prefix_nil | eapply prefix_cons ].

Lemma polls_and_sleeps_app (a b : list Event) :
  polls_and_sleeps (a ++ b) = polls_and_sleeps a ++ polls_and_sleeps b.
Proof.
  induction a as [|e a IH]; [reflexivity|].
  destruct e as [svc|ms|stage ok|lvl t|t|ixs]; cbn [polls_and_sleeps app];
    try exact IH; try (rewrite IH; reflexivity).
  destruct svc; cbn [app]; try exact IH; rewrite IH; reflexivity.
Qed.

(** Close a goal "the run ends in this state, whose trace extends the old
    one by events of which only one is a request". *)
Ltac finish_effect :=
  eexists; eexists; split;
  [ apply f_equal; apply f_equal4; [reflexivity|prefix|reflexivity|reflexivity]
  | reflexivity ].

(** One poll: it returns, it costs the latency of its request, and of the
    events it leaves exactly one is a request or a sleep: the request. *)
Lemma checkPriceCondition_effect (w : World) (symbol : string) (targetPrice : jsnum)
    (above : bool) (s : State) :
  exists pc evs,
    checkPriceCondition w symbol targetPrice above s
    = (Ret pc,
       {| clock := clock s + Z.of_N (w_latency w SvcMarket (calls SvcMarket (trace s)));
          trace := evs ++ trace s;
          jupiterTokensCache := jupiterTokensCache s;
          jupiterTokensCacheTime := jupiterTokensCacheTime s |})
    /\ polls_and_sleeps (rev evs) = [ECall SvcMarket].
Proof.
  unfold checkPriceCondition. step.
  match goal with
  | |- context [price w symbol ?st] =>
      destruct (price_returns w symbol st) as [v Hv]; rewrite Hv; clear Hv
  end.
  unfold after_request, evaluate. step.
  destruct v as [| |b|n|str|items|fields]; cbn [typeof jstype_eqb]; step;
    cbn [get_prop lookup is_false truthy String.eqb Ascii.eqb Bool.eqb];
    try finish_effect.
  - destruct (condition_met w above (VNum n) targetPrice); step; finish_effect.
  - destruct (is_false (lookup "success" fields)); step; [finish_effect|].
    destruct (truthy (lookup "price" fields)); step; [|finish_effect].
    destruct (condition_met w above (lookup "price" fields) targetPrice); step;
      finish_effect.
Qed.

Lemma enough_fuel_suffices (maxWaitTime : option Z) :
  Z.max 0 (or_default default_maxWaitTime maxWaitTime) + 30000
  <= 30000 * Z.of_nat (enough_fuel maxWaitTime).
Proof.
  unfold enough_fuel, checkInterval.
  generalize (or_default default_maxWaitTime maxWaitTime) as limit. intros limit.
  rewrite Nat2Z.inj_add. change (Z.of_nat 2) with 2.
  destruct (Z_le_gt_dec limit 0) as [Hneg|Hpos].
  - pose proof (Nat2Z.is_nonneg (Z.to_nat (limit / 30000))). lia.
  - assert (0 <= limit / 30000) by (apply Z.div_pos; lia).
    rewrite Z2Nat.id by assumption.
    pose proof (Z.mul_succ_div_gt limit 30000 ltac:(lia)). lia.
Qed.

(** The loop with enough passes left: it ends, in a timeout or on a poll
    whose condition is met; it never throws; its polls are separated by
    sleeps of 30 seconds. *)
Lemma wait_loop_runs (w : World) (symbol : string) (targetPrice : jsnum)
    (above : bool) (maxWaitTime startTime : Z) :
  forall (fuel : nat) (s : State),
    Z.max 0 (maxWaitTime - (clock s - startTime)) + 30000 <= 30000 * Z.of_nat fuel ->
    exists r s' evs,
      wait_loop w symbol targetPrice above maxWaitTime startTime fuel s = (Ret (Some r), s')
      /\ trace s' = evs ++ trace s
      /\ cadence (polls_and_sleeps (rev evs)) = true
      /\ match r with
         | None => maxWaitTime <= clock s' - startTime
         | Some pc =>
             pc_success pc = true /\ pc_conditionMet pc = true
             /\ exists s0 s0', checkPriceCondition w symbol targetPrice above s0 = (Ret pc, s0')
         end.
Proof.
  induction fuel as [|fuel IH]; intros s Hfuel.
  - exfalso. change (Z.of_nat 0) with 0 in Hfuel. lia.
  - cbn [wait_loop]. step.
    destruct (Z.ltb_spec (clock s - startTime) maxWaitTime) as [Hin|Hout].
    + destruct (checkPriceCondition_effect w symbol targetPrice above s)
        as (pc & evs & Hrun & Hpoll).
      rewrite Hrun. step.
      pose proof (N2Z.is_nonneg (w_latency w SvcMarket (calls SvcMarket (trace s)))) as Hlat.
      change (Z.max 0 checkInterval) with 30000.
      destruct (pc_success pc) eqn:Hok; cbn [negb].
      * destruct (pc_conditionMet pc) eqn:Hmet; step.
        -- exists (Some pc). eexists.
           exists (ELog "info" "Price condition achieved! Proceeding with trade execution..."
                   :: EStatus "price_condition_achieved" (VBool true) :: evs).
           split; [reflexivity|]. split; [reflexivity|].
           split.
           ++ cbn [rev]. rewrite !polls_and_sleeps_app, Hpoll. reflexivity.
           ++ split; [exact Hok|]. split; [exact Hmet|].
              eexists. eexists. exact Hrun.
        -- match goal with
           | |- context [wait_loop _ _ _ _ _ _ fuel ?st] =>
               destruct (IH st) as (r & s' & evs' & Hloop & Htr & Hcad & Hres)
           end.
           { cbn [clock]. rewrite Nat2Z.inj_succ in Hfuel. lia. }
           rewrite Hloop. exists r, s'. exists (evs' ++ ESleep checkInterval :: evs).
           split; [reflexivity|].
           split; [rewrite Htr; cbn [trace]; rewrite <- app_assoc; reflexivity|].
           split; [|exact Hres].
           rewrite rev_app_distr. cbn [rev].
           rewrite !polls_and_sleeps_app, Hpoll. cbn. exact Hcad.
      * step.
        match goal with
        | |- context [wait_loop _ _ _ _ _ _ fuel ?st] =>
            destruct (IH st) as (r & s' & evs' & Hloop & Htr & Hcad & Hres)
        end.
        { cbn [clock]. rewrite Nat2Z.inj_succ in Hfuel. lia. }
        rewrite Hloop. exists r, s'.
        exists (evs' ++ ESleep checkInterval
                  :: ELog "info" "Price check failed, retrying in 30 seconds..." :: evs).
        split; [reflexivity|].
        split; [rewrite Htr; cbn [trace]; rewrite <- app_assoc; reflexivity|].
        split; [|exact Hres].
        rewrite rev_app_distr. cbn [rev].
        rewrite !polls_and_sleeps_app, Hpoll. cbn. exact Hcad.
    + exists None, s, []. split; [reflexivity|]. split; [reflexivity|].
      split; [reflexivity|exact Hout].
Qed.

Lemma calls_repeat (i : nat) : calls SvcMarket (List.repeat (ECall SvcMarket) i) = i.
Proof. induction i as [|i IH]; [reflexivity|]. cbn. rewrite IH. reflexivity. Qed.

(** The result of a poll depends on the state only through the number of
    requests already sent to the price feed. *)
Lemma checkPriceCondition_value_frame (w : World) (symbol : string) (targetPrice : jsnum)
    (above : bool) (s s' : State) :
  calls SvcMarket (trace s') = calls SvcMarket (trace s) ->
  fst (checkPriceCondition w symbol targetPrice above s')
  = fst (checkPriceCondition w symbol targetPrice above s).
Proof.
  intros Hcalls. unfold checkPriceCondition. step.
  match goal with
  | |- context [price w symbol ?a] =>
      match goal with
      | |- context [price w symbol ?b] =>
          lazymatch a with
          | b => fail
          | _ =>
              pose proof (@price_value_frame w symbol b a) as Hv;
              destruct (price_returns w symbol a) as [va Ha];
              destruct (price_returns w symbol b) as [vb Hb]
          end
      end
  end.
  rewrite Ha, Hb in Hv. cbn [fst] in Hv.
  rewrite Ha, Hb.
  assert (Heq : va = vb).
  { assert (H : @Ret string jsval va = Ret vb); [|inversion H; reflexivity].
    apply Hv. cbn [trace calls]. congruence. }
  subst vb. clear. unfold evaluate.
  explore; reflexivity.
Qed.

Lemma calls_app (svc : Service) (a b : list Event) :
  calls svc (a ++ b) = (calls svc a + calls svc b)%nat.
Proof.
  induction a as [|e a IH]; [reflexivity|].
  destruct e as [svc'|ms|stage ok|lvl t|t|ixs]; cbn [calls app]; try exact IH.
  destruct (service_eqb svc' svc); [rewrite IH; reflexivity|exact IH].
Qed.

Lemma calls_rev (svc : Service) (l : list Event) : calls svc (rev l) = calls svc l.
Proof.
  induction l as [|e l IH]; [reflexivity|].
  cbn [rev]. rewrite calls_app, IH.
  destruct e as [svc'|ms|stage ok|lvl t|t|ixs]; cbn [calls]; try lia.
  destruct (service_eqb svc' svc); lia.
Qed.

Lemma calls_polls_and_sleeps (l : list Event) :
  calls SvcMarket (polls_and_sleeps l) = calls SvcMarket l.
Proof.
  induction l as [|e l IH]; [reflexivity|].
  destruct e as [svc'|ms|stage ok|lvl t|t|ixs]; cbn [polls_and_sleeps calls]; try exact IH.
  destruct svc'; cbn [calls service_eqb]; try exact IH. rewrite IH. reflexivity.
Qed.

Lemma sleeps_app (a b : list Event) : sleeps (a ++ b) = sleeps b ++ sleeps a.
Proof.
  induction a as [|e a IH]; [cbn; rewrite app_nil_r; reflexivity|].
  destruct e as [svc'|ms|stage ok|lvl t|t|ixs]; cbn [sleeps app]; try exact IH.
  rewrite IH, app_assoc. reflexivity.
Qed.

Lemma sleeps_rev (l : list Event) : sleeps (rev l) = rev (sleeps l).
Proof.
  induction l as [|e l IH]; [reflexivity|].
  cbn [rev]. rewrite sleeps_app, IH.
  destruct e as [svc'|ms|stage ok|lvl t|t|ixs]; cbn [sleeps app]; try reflexivity.
  rewrite rev_app_distr. reflexivity.
Qed.

Lemma sleeps_polls_and_sleeps (l : list Event) :
  sleeps (polls_and_sleeps l) = sleeps l.
Proof.
  induction l as [|e l IH]; [reflexivity|].
  destruct e as [svc'|ms|stage ok|lvl t|t|ixs]; cbn [polls_and_sleeps sleeps]; try exact IH.
  - destruct svc'; cbn [sleeps]; exact IH.
  - rewrite IH. reflexivity.
Qed.

(** A poll, seen from the loop: it returns what the poll on that request
    returns, makes one request, costs its latency, and does not sleep. *)
Lemma checkPriceCondition_poll (w : World) (symbol : string) (targetPrice : jsnum)
    (above : bool) (s : State) :
  exists pc s1,
    checkPriceCondition w symbol targetPrice above s = (Ret pc, s1)
    /\ poll w symbol targetPrice above (calls SvcMarket (trace s)) = Ret pc
    /\ calls SvcMarket (trace s1) = S (calls SvcMarket (trace s))
    /\ sleeps (trace s1) = sleeps (trace s)
    /\ clock s1 = clock s + Z.of_N (w_latency w SvcMarket (calls SvcMarket (trace s))).
Proof.
  destruct (checkPriceCondition_effect w symbol targetPrice above s)
    as (pc & evs & Hrun & Hpoll).
  eexists. eexists. split; [exact Hrun|].
  split.
  - unfold poll.
    rewrite (@checkPriceCondition_value_frame w symbol targetPrice above s
               (asked (calls SvcMarket (trace s)))).
    + rewrite Hrun. reflexivity.
    + cbn [asked trace]. apply calls_repeat.
  - cbn [trace clock]. split; [|split; [|reflexivity]].
    + rewrite calls_app, <- (calls_rev SvcMarket evs), <- calls_polls_and_sleeps, Hpoll.
      reflexivity.
    + rewrite sleeps_app.
      assert (Hnone : sleeps evs = []).
      { rewrite <- (rev_involutive evs), sleeps_rev, <- sleeps_polls_and_sleeps, Hpoll.
        reflexivity. }
      rewrite Hnone, app_nil_r. reflexivity.
Qed.

(** One pass of the loop while the wait has not run out. *)
Lemma wait_pass (w : World) (symbol : string) (targetPrice : jsnum) (above : bool)
    (maxWaitTime startTime : Z) (fuel : nat) (s : State) :
  clock s - startTime < maxWaitTime ->
  exists pc s1,
    poll w symbol targetPrice above (calls SvcMarket (trace s)) = Ret pc
    /\ calls SvcMarket (trace s1) = S (calls SvcMarket (trace s))
    /\ if pc_success pc && pc_conditionMet pc then
         wait_loop w symbol targetPrice above maxWaitTime startTime (S fuel) s
         = (Ret (Some (Some pc)), s1)
         /\ sleeps (trace s1) = sleeps (trace s)
         /\ clock s1 = clock s + Z.of_N (w_latency w SvcMarket (calls SvcMarket (trace s)))
       else
         wait_loop w symbol targetPrice above maxWaitTime startTime (S fuel) s
         = wait_loop w symbol targetPrice above maxWaitTime startTime fuel s1
         /\ sleeps (trace s1) = sleeps (trace s) ++ [30000]
         /\ clock s1 = clock s + Z.of_N (w_latency w SvcMarket (calls SvcMarket (trace s)))
                       + 30000.
Proof.
  intros Hin.
  destruct (checkPriceCondition_poll w symbol targetPrice above s)
    as (pc & s1 & Hrun & Hpoll & Hcalls & Hsleeps & Hclock).
  cbn [wait_loop]. step.
  destruct (Z.ltb_spec (clock s - startTime) maxWaitTime) as [_|Hout]; [|lia].
  rewrite Hrun. step. change (Z.max 0 checkInterval) with 30000.
  exists pc.
  destruct (pc_success pc); cbn [negb andb].
  - destruct (pc_conditionMet pc); step; eexists;
      (split; [exact Hpoll|split; [|split; [reflexivity|split]]]);
      cbn [trace clock calls sleeps]; try assumption; try (rewrite Hsleeps; reflexivity);
      rewrite Hclock; reflexivity.
  - step. eexists.
    (split; [exact Hpoll|split; [|split; [reflexivity|split]]]);
      cbn [trace clock calls sleeps]; try assumption; try (rewrite Hsleeps; reflexivity);
      rewrite Hclock; reflexivity.
Qed.

Lemma wait_loop_met (w : World) (symbol : string) (targetPrice : jsnum) (above : bool)
    (maxWaitTime startTime : Z) (pc : PriceCheck) (k : nat) :
  forall (fuel : nat) (s : State),
    (k < fuel)%nat ->
    (forall i, (i <= k)%nat ->
               clock s - startTime + 30000 * Z.of_nat i
               + latencies w SvcMarket (calls SvcMarket (trace s)) i < maxWaitTime) ->
    (forall i, (i < k)%nat ->
               ends_wait (poll w symbol targetPrice above (calls SvcMarket (trace s) + i))
               = false) ->
    poll w symbol targetPrice above (calls SvcMarket (trace s) + k) = Ret pc ->
    pc_success pc = true -> pc_conditionMet pc = true ->
    exists s',
      wait_loop w symbol targetPrice above maxWaitTime startTime fuel s
      = (Ret (Some (Some pc)), s')
      /\ calls SvcMarket (trace s') = (calls SvcMarket (trace s) + k + 1)%nat
      /\ sleeps (trace s') = sleeps (trace s) ++ List.repeat 30000 k
      /\ clock s' = clock s + 30000 * Z.of_nat k
                    + latencies w SvcMarket (calls SvcMarket (trace s)) (S k).
Proof.
  induction k as [|k IH]; intros fuel s Hfuel Htime Hwait Hgood Hok Hmet;
    (destruct fuel as [|fuel]; [lia|]);
    (destruct (@wait_pass w symbol targetPrice above maxWaitTime startTime fuel s)
      as (pc0 & s1 & Hpoll & Hcalls & Hpass);
     [pose proof (Htime 0%nat ltac:(lia)) as H0; cbn [latencies] in H0; lia|]).
  - rewrite Nat.add_0_r in Hgood. rewrite Hgood in Hpoll. inversion Hpoll; subst pc0.
    rewrite Hok, Hmet in Hpass. cbn [andb] in Hpass.
    destruct Hpass as (Hrun & Hsl & Hclk).
    exists s1. split; [exact Hrun|]. split; [lia|].
    split; [cbn [List.repeat]; rewrite app_nil_r; exact Hsl|].
    cbn [latencies]. lia.
  - pose proof (Hwait 0%nat ltac:(lia)) as H0. rewrite Nat.add_0_r, Hpoll in H0.
    cbn [ends_wait] in H0. rewrite H0 in Hpass.
    destruct Hpass as (Hrun & Hsl & Hclk).
    destruct (IH fuel s1 ltac:(lia)) as (s' & Hrun' & Hc' & Hsl' & Hclk').
    + intros i Hi. rewrite Hcalls, Hclk.
      pose proof (Htime (S i) ltac:(lia)) as Hi'.
      change (latencies w SvcMarket (calls SvcMarket (trace s)) (S i))
        with (Z.of_N (w_latency w SvcMarket (calls SvcMarket (trace s)))
              + latencies w SvcMarket (S (calls SvcMarket (trace s))) i) in Hi'.
      lia.
    + intros i Hi. rewrite Hcalls.
      replace (S (calls SvcMarket (trace s)) + i)%nat
        with (calls SvcMarket (trace s) + S i)%nat by lia.
      apply Hwait. lia.
    + rewrite Hcalls.
      replace (S (calls SvcMarket (trace s)) + k)%nat
        with (calls SvcMarket (trace s) + S k)%nat by lia.
      exact Hgood.
    + exact Hok.
    + exact Hmet.
    + exists s'. split; [rewrite Hrun; exact Hrun'|]. split; [lia|].
      split; [rewrite Hsl', Hsl, <- app_assoc; reflexivity|].
      rewrite Hclk', Hclk, Hcalls.
      change (latencies w SvcMarket (calls SvcMarket (trace s)) (S (S k)))
        with (Z.of_N (w_latency w SvcMarket (calls SvcMarket (trace s)))
              + latencies w SvcMarket (S (calls SvcMarket (trace s))) (S k)).
      lia.
Qed.

Lemma wait_loop_times_out (w : World) (symbol : string) (targetPrice : jsnum) (above : bool)
    (maxWaitTime startTime : Z) (k : nat) :
  forall (fuel : nat) (s : State),
    (k < fuel)%nat ->
    (forall i, (i < k)%nat ->
               clock s - startTime + 30000 * Z.of_nat i
               + latencies w SvcMarket (calls SvcMarket (trace s)) i < maxWaitTime) ->
    maxWaitTime <= clock s - startTime + 30000 * Z.of_nat k
                   + latencies w SvcMarket (calls SvcMarket (trace s)) k ->
    (forall i, (i < k)%nat ->
               ends_wait (poll w symbol targetPrice above (calls SvcMarket (trace s) + i))
               = false) ->
    exists s',
      wait_loop w symbol targetPrice above maxWaitTime startTime fuel s
      = (Ret (Some None), s')
      /\ calls SvcMarket (trace s') = (calls SvcMarket (trace s) + k)%nat
      /\ sleeps (trace s') = sleeps (trace s) ++ List.repeat 30000 k
      /\ clock s' = clock s + 30000 * Z.of_nat k
                    + latencies w SvcMarket (calls SvcMarket (trace s)) k.
Proof.
  induction k as [|k IH]; intros fuel s Hfuel Htime Hup Hwait;
    (destruct fuel as [|fuel]; [lia|]).
  - cbn [latencies] in Hup. cbn [wait_loop]. step.
    destruct (Z.ltb_spec (clock s - startTime) maxWaitTime) as [Hin|_]; [lia|].
    exists s. split; [reflexivity|]. split; [lia|].
    split; [cbn [List.repeat]; rewrite app_nil_r; reflexivity|]. cbn [latencies]. lia.
  - destruct (@wait_pass w symbol targetPrice above maxWaitTime startTime fuel s)
      as (pc0 & s1 & Hpoll & Hcalls & Hpass).
    { pose proof (Htime 0%nat ltac:(lia)) as H0. cbn [latencies] in H0. lia. }
    pose proof (Hwait 0%nat ltac:(lia)) as H0. rewrite Nat.add_0_r, Hpoll in H0.
    cbn [ends_wait] in H0. rewrite H0 in Hpass.
    destruct Hpass as (Hrun & Hsl & Hclk).
    destruct (IH fuel s1 ltac:(lia)) as (s' & Hrun' & Hc' & Hsl' & Hclk').
    + intros i Hi. rewrite Hcalls, Hclk.
      pose proof (Htime (S i) ltac:(lia)) as Hi'.
      change (latencies w SvcMarket (calls SvcMarket (trace s)) (S i))
        with (Z.of_N (w_latency w SvcMarket (calls SvcMarket (trace s)))
              + latencies w SvcMarket (S (calls SvcMarket (trace s))) i) in Hi'.
      lia.
    + rewrite Hcalls, Hclk.
      change (latencies w SvcMarket (calls SvcMarket (trace s)) (S k))
        with (Z.of_N (w_latency w SvcMarket (calls SvcMarket (trace s)))
              + latencies w SvcMarket (S (calls SvcMarket (trace s))) k) in Hup.
      lia.
    + intros i Hi. rewrite Hcalls.
      replace (S (calls SvcMarket (trace s)) + i)%nat
        with (calls SvcMarket (trace s) + S i)%nat by lia.
      apply Hwait. lia.
    + exists s'. split; [rewrite Hrun; exact Hrun'|]. split; [lia|].
      split; [rewrite Hsl', Hsl, <- app_assoc; reflexivity|].
      rewrite Hclk', Hclk, Hcalls.
      change (latencies w SvcMarket (calls SvcMarket (trace s)) (S k))
        with (Z.of_N (w_latency w SvcMarket (calls SvcMarket (trace s)))
              + latencies w SvcMarket (S (calls SvcMarket (trace s))) k).
      lia.
Qed.
(** C8.  [waitForPriceCondition]: the default of [maxWaitTime] is 24 hours
    and the poll interval 30 seconds; with enough passes allowed for the
    wait, the call returns and never throws; the requests to the price feed
    it made are separated by sleeps of exactly 30 seconds; it returns either
    the result of a poll whose condition was met, or, once [maxWaitTime] has
    elapsed, a result with [timeout: true]; and a poll that fails inside the
    wait is followed by a log line and the same 30-second sleep, after which
    the loop goes on.  The run is fixed by the answers of the price feed:
    when poll [k + 1] is the first that succeeds with the condition met and
    the wait has not run out before it, the call returns the result of that
    poll after [k + 1] requests and [k] sleeps of 30 seconds; when the wait
    runs out first, before poll [k + 1], the call returns the timeout result
    after [k] requests and [k] sleeps.  A poll counts as not ending the wait
    whether it failed or found the condition unmet. *)
Theorem waitForPriceCondition_polls :
  default_maxWaitTime = 86400000
  /\ checkInterval = 30000
  /\ (forall (w : World) (symbol : string) (targetPrice : jsnum) (above : bool)
             (maxWaitTime : option Z) (s : State),
         exists pc s' evs,
           waitForPriceCondition w symbol targetPrice above maxWaitTime
             (enough_fuel maxWaitTime) s = (Ret (Some pc), s')
           /\ trace s' = evs ++ trace s
           /\ cadence (polls_and_sleeps (rev evs)) = true
           /\ ((pc = timed_out /\ pc_timeout pc = Some true
                /\ or_default default_maxWaitTime maxWaitTime <= clock s' - clock s)
               \/ (pc_timeout pc = None /\ pc_success pc = true /\ pc_conditionMet pc = true
                   /\ exists s0 s0',
                       checkPriceCondition w symbol targetPrice above s0 = (Ret pc, s0'))))
  /\ (forall (w : World) (symbol : string) (targetPrice : jsnum) (above : bool)
             (maxWaitTime startTime : Z) (fuel : nat) (s s1 : State) (pc : PriceCheck),
         clock s - startTime < maxWaitTime ->
         checkPriceCondition w symbol targetPrice above s = (Ret pc, s1) ->
         pc_success pc = false ->
         wait_loop w symbol targetPrice above maxWaitTime startTime (S fuel) s
         = wait_loop w symbol targetPrice above maxWaitTime startTime fuel
             {| clock := clock s1 + 30000;
                trace := ESleep 30000
                           :: ELog "info" "Price check failed, retrying in 30 seconds..."
                           :: trace s1;
                jupiterTokensCache := jupiterTokensCache s1;
                jupiterTokensCacheTime := jupiterTokensCacheTime s1 |})
  /\ (forall (w : World) (symbol : string) (targetPrice : jsnum) (above : bool)
             (maxWaitTime : option Z) (k fuel : nat) (s : State) (pc : PriceCheck),
         let limit := or_default default_maxWaitTime maxWaitTime in
         let base := calls SvcMarket (trace s) in
         (k < fuel)%nat ->
         (forall i, (i <= k)%nat ->
                    30000 * Z.of_nat i + latencies w SvcMarket base i < limit) ->
         (forall i, (i < k)%nat ->
                    ends_wait (poll w symbol targetPrice above (base + i)) = false) ->
         poll w symbol targetPrice above (base + k) = Ret pc ->
         pc_success pc = true ->
         pc_conditionMet pc = true ->
         exists s',
           waitForPriceCondition w symbol targetPrice above maxWaitTime fuel s
           = (Ret (Some pc), s')
           /\ calls SvcMarket (trace s') = (base + k + 1)%nat
           /\ sleeps (trace s') = sleeps (trace s) ++ List.repeat 30000 k
           /\ clock s' = clock s + 30000 * Z.of_nat k + latencies w SvcMarket base (S k))
  /\ (forall (w : World) (symbol : string) (targetPrice : jsnum) (above : bool)
             (maxWaitTime : option Z) (k fuel : nat) (s : State),
         let limit := or_default default_maxWaitTime maxWaitTime in
         let base := calls SvcMarket (trace s) in
         (k < fuel)%nat ->
         (forall i, (i < k)%nat ->
                    30000 * Z.of_nat i + latencies w SvcMarket base i < limit) ->
         limit <= 30000 * Z.of_nat k + latencies w SvcMarket base k ->
         (forall i, (i < k)%nat ->
                    ends_wait (poll w symbol targetPrice above (base + i)) = false) ->
         exists s',
           waitForPriceCondition w symbol targetPrice above maxWaitTime fuel s
           = (Ret (Some timed_out), s')
           /\ pc_timeout timed_out = Some true
           /\ calls SvcMarket (trace s') = (base + k)%nat
           /\ sleeps (trace s') = sleeps (trace s) ++ List.repeat 30000 k
           /\ clock s' = clock s + 30000 * Z.of_nat k + latencies w SvcMarket base k).
Proof.
  split; [reflexivity|]. split; [reflexivity|].
  split; [|split; [|split]]; cycle 2.
  { intros w symbol targetPrice above maxWaitTime k fuel s pc limit base
           Hfuel Htime Hwait Hgood Hok Hmet.
    unfold waitForPriceCondition. step. fold limit.
    match goal with
    | |- context [wait_loop w symbol targetPrice above limit ?start fuel ?st] =>
        destruct (@wait_loop_met w symbol targetPrice above limit start pc k fuel st Hfuel)
          as (s' & Hrun & Hcalls & Hsleeps & Hclock);
          [ intros i Hi; cbn [clock trace calls];
            pose proof (Htime i Hi) as Hi'; fold base; lia
          | exact Hwait | exact Hgood | exact Hok | exact Hmet | ]
    end.
    rewrite Hrun. exists s'. split; [reflexivity|].
    split; [exact Hcalls|]. split; [exact Hsleeps|exact Hclock]. }
  { intros w symbol targetPrice above maxWaitTime k fuel s limit base
           Hfuel Htime Hup Hwait.
    unfold waitForPriceCondition. step. fold limit.
    match goal with
    | |- context [wait_loop w symbol targetPrice above limit ?start fuel ?st] =>
        destruct (@wait_loop_times_out w symbol targetPrice above limit start k fuel st Hfuel)
          as (s' & Hrun & Hcalls & Hsleeps & Hclock);
          [ intros i Hi; cbn [clock trace calls];
            pose proof (Htime i Hi) as Hi'; fold base; lia
          | cbn [clock trace calls]; fold base; lia
          | exact Hwait | ]
    end.
    rewrite Hrun. eexists. split; [reflexivity|]. split; [reflexivity|].
    cbn [trace clock calls sleeps].
    split; [exact Hcalls|]. split; [exact Hsleeps|exact Hclock]. }
  - intros w symbol targetPrice above maxWaitTime s.
    unfold waitForPriceCondition. step.
    match goal with
    | |- context [wait_loop w symbol targetPrice above ?limit ?start ?fuel ?st] =>
        destruct (@wait_loop_runs w symbol targetPrice above limit start fuel st)
          as (r & s' & evs & Hloop & Htr & Hcad & Hres)
    end.
    { cbn [clock]. replace (clock s - clock s) with 0 by ring. rewrite Z.sub_0_r.
      apply enough_fuel_suffices. }
    rewrite Hloop. cbn [trace] in Htr.
    destruct r as [pc|].
    + destruct Hres as (Hok & Hmet & s0 & s0' & Hrun).
      exists pc, s'.
      exists (evs ++ [ELog "info" "Checking every 30 seconds...";
                      ELog "info" "Starting price monitoring: ${tokenToMonitor} ${above ? 'above' : 'below'} $${targetPrice}";
                      EStatus "price_monitoring_start" VNull]).
      split; [reflexivity|].
      split; [rewrite Htr, <- app_assoc; reflexivity|].
      split.
      * rewrite rev_app_distr, polls_and_sleeps_app. exact Hcad.
      * right. split; [|split; [exact Hok|split; [exact Hmet|]]].
        -- unfold checkPriceCondition in Hrun.
           pose proof (checkPriceCondition_effect w symbol targetPrice above s0)
             as (pc' & evs' & Hrun' & _).
           unfold checkPriceCondition in Hrun'. rewrite Hrun in Hrun'.
           inversion Hrun'; subst pc'.
           clear - Hok Hrun. revert Hrun. unfold evaluate. explore;
             intros Hrun; inversion Hrun; subst; try reflexivity; discriminate.
        -- exists s0, s0'. exact Hrun.
    + eexists. eexists.
      exists (ELog "info" "Price monitoring timeout reached after ${maxWaitTime / (60 * 60 * 1000)} hours"
              :: EStatus "price_monitoring_timeout" (VBool false)
              :: evs ++ [ELog "info" "Checking every 30 seconds...";
                         ELog "info" "Starting price monitoring: ${tokenToMonitor} ${above ? 'above' : 'below'} $${targetPrice}";
                         EStatus "price_monitoring_start" VNull]).
      split; [reflexivity|]. cbn [trace].
      split; [rewrite Htr; cbn [app]; rewrite <- app_assoc; reflexivity|].
      split.
      * cbn [rev]. rewrite rev_app_distr, !polls_and_sleeps_app. cbn.
        rewrite !app_nil_r. exact Hcad.
      * left. split; [reflexivity|]. split; [reflexivity|]. cbn [clock]. exact Hres.
  - intros w symbol targetPrice above maxWaitTime startTime fuel s s1 pc Hin Hrun Hfail.
    cbn [wait_loop]. step.
    destruct (Z.ltb_spec (clock s - startTime) maxWaitTime) as [_|Hout]; [|lia].
    rewrite Hrun. step. rewrite Hfail. cbn [negb]. step.
    change (Z.max 0 checkInterval) with 30000. reflexivity.
Qed.

Lemma waitForPriceCondition_polls_witness :
  exists s',
    waitForPriceCondition Samples.recovering "SOL" (Fin 100) true None 5 (initial 0)
    = (Ret (Some {| pc_success := true; pc_currentPrice := Some (VNum (Fin 105));
                    pc_targetPrice := Some (Fin 100); pc_conditionMet := true;
                    pc_condition := Some "above"%string; pc_error := None;
                    pc_timeout := None |}), s')
    /\ calls SvcMarket (trace s') = 3%nat
    /\ sleeps (trace s') = [30000; 30000]
    /\ clock s' = 60300.
Proof.
  destruct (proj1 (proj2 (proj2 (proj2 (proj2 waitForPriceCondition_polls))))
              Samples.recovering "SOL"%string (Fin 100) true None 2%nat 5%nat (initial 0)
              {| pc_success := true; pc_currentPrice := Some (VNum (Fin 105));
                 pc_targetPrice := Some (Fin 100); pc_conditionMet := true;
                 pc_condition := Some "above"%string; pc_error := None;
                 pc_timeout := None |}
              ltac:(lia))
    as (s' & Hrun & Hcalls & Hsleeps & Hclock).
  - intros i Hi. destruct i as [|[|[|i]]]; [vm_compute; reflexivity ..|lia].
  - intros i Hi. destruct i as [|[|i]]; [vm_compute; reflexivity ..|lia].
  - vm_compute. reflexivity.
  - reflexivity.
  - reflexivity.
  - exists s'. split; [exact Hrun|]. split; [exact Hcalls|]. split; [exact Hsleeps|].
    rewrite Hclock. reflexivity.
Defined.

End WaitFacts.

(* ===================================================================== *)
(** * Properties of the scheduler's registrations and stops *)
(* ===================================================================== *)

Module SchedulerRuntimeFacts.
Import JS Scheduler SchedulerRuntime SchedulerRuns.
Import SchedulerFacts.
Open Scope list_scope.

(** ** The [activeSchedules] map *)

Lemma map_get_in (k : string) (m : list (string * Schedule)) (v : Schedule) :
  map_get k m = Some v -> In k (List.map fst m).
Proof.
  induction m as [|[k' v'] m IH]; cbn [map_get List.map fst]; [discriminate|].
  destruct (String.eqb_spec k' k) as [->|Hne]; [left; reflexivity|].
  intros H. right. exact (IH H).
Qed.

Lemma map_get_in_pair (k : string) (m : list (string * Schedule)) (v : Schedule) :
  map_get k m = Some v -> In (k, v) m.
Proof.
  induction m as [|[k' v'] m IH]; cbn [map_get]; [discriminate|].
  destruct (String.eqb_spec k' k) as [->|Hne].
  - intros H. inversion H. left. reflexivity.
  - intros H. right. exact (IH H).
Qed.

Lemma map_get_none (k : string) (m : list (string * Schedule)) :
  ~ In k (List.map fst m) -> map_get k m = None.
Proof.
  induction m as [|[k' v'] m IH]; cbn [map_get List.map fst]; [reflexivity|].
  intros Hnot. destruct (String.eqb_spec k' k) as [->|Hne].
  - exfalso. apply Hnot. left. reflexivity.
  - apply IH. intros Hin. apply Hnot. right. exact Hin.
Qed.

Lemma map_get_some_of_in (k : string) (m : list (string * Schedule)) :
  In k (List.map fst m) -> exists v, map_get k m = Some v.
Proof.
  induction m as [|[k' v'] m IH]; cbn [map_get List.map fst]; [intros []|].
  destruct (String.eqb_spec k' k) as [->|Hne]; [eexists; reflexivity|].
  intros [Heq|Hin]; [congruence|exact (IH Hin)].
Qed.

Lemma map_set_fresh (k : string) (v : Schedule) (m : list (string * Schedule)) :
  ~ In k (List.map fst m) -> map_set k v m = m ++ [(k, v)].
Proof.
  induction m as [|[k' v'] m IH]; cbn [map_set List.map fst app]; [reflexivity|].
  intros Hnot. destruct (String.eqb_spec k' k) as [->|Hne].
  - exfalso. apply Hnot. left. reflexivity.
  - rewrite IH; [reflexivity|]. intros Hin. apply Hnot. right. exact Hin.
Qed.

Lemma map_set_present_ids (k : string) (v : Schedule) (m : list (string * Schedule)) :
  In k (List.map fst m) -> List.map fst (map_set k v m) = List.map fst m.
Proof.
  induction m as [|[k' v'] m IH]; cbn [map_set List.map fst]; [intros []|].
  destruct (String.eqb_spec k' k) as [->|Hne]; [reflexivity|].
  intros [Heq|Hin]; [congruence|]. cbn [List.map fst]. rewrite IH by exact Hin. reflexivity.
Qed.

Lemma map_get_set_other (k k' : string) (v : Schedule) (m : list (string * Schedule)) :
  k' <> k -> map_get k' (map_set k v m) = map_get k' m.
Proof.
  intros Hne. induction m as [|[k0 v0] m IH]; cbn [map_set map_get].
  - destruct (String.eqb_spec k k'); [congruence|reflexivity].
  - destruct (String.eqb_spec k0 k) as [->|Hk]; cbn [map_get].
    + destruct (String.eqb_spec k k'); [congruence|reflexivity].
    + destruct (String.eqb_spec k0 k'); [reflexivity|exact IH].
Qed.

Lemma map_get_delete_other (k k' : string) (m : list (string * Schedule)) :
  k' <> k -> map_get k' (map_delete k m) = map_get k' m.
Proof.
  intros Hne. induction m as [|[k0 v0] m IH]; cbn [map_delete map_get]; [reflexivity|].
  destruct (String.eqb_spec k0 k) as [->|Hk]; cbn [map_get].
  - destruct (String.eqb_spec k k'); [congruence|reflexivity].
  - destruct (String.eqb_spec k0 k'); [reflexivity|exact IH].
Qed.

Lemma map_delete_ids_incl (k : string) (m : list (string * Schedule)) :
  incl (List.map fst (map_delete k m)) (List.map fst m).
Proof.
  induction m as [|[k0 v0] m IH]; cbn [map_delete List.map fst]; [apply incl_refl|].
  destruct (String.eqb k0 k).
  - apply incl_tl, incl_refl.
  - cbn [List.map fst]. intros x [<-|Hx]; [left; reflexivity|right; exact (IH x Hx)].
Qed.

Lemma map_delete_nodup (k : string) (m : list (string * Schedule)) :
  NoDup (List.map fst m) ->
  NoDup (List.map fst (map_delete k m)) /\ ~ In k (List.map fst (map_delete k m)).
Proof.
  induction m as [|[k0 v0] m IH]; cbn [map_delete List.map fst]; intros Hnd.
  - split; [constructor|intros []].
  - inversion Hnd as [|? ? Hnot Hnd']; subst.
    destruct (String.eqb_spec k0 k) as [->|Hk].
    + split; assumption.
    + destruct (IH Hnd') as [IH1 IH2]. cbn [List.map fst]. split.
      * constructor; [|exact IH1]. intros Hin. apply Hnot.
        exact (map_delete_ids_incl k m k0 Hin).
      * intros [Heq|Hin]; [congruence|exact (IH2 Hin)].
Qed.

Lemma map_get_delete_in (k k' : string) (m : list (string * Schedule)) (v : Schedule) :
  map_get k' (map_delete k m) = Some v -> NoDup (List.map fst m) -> map_get k' m = Some v.
Proof.
  intros Hget Hnd. destruct (String.eqb_spec k' k) as [->|Hne].
  - exfalso. apply (proj2 (map_delete_nodup k m Hnd)). exact (map_get_in _ _ Hget).
  - rewrite map_get_delete_other in Hget by exact Hne. exact Hget.
Qed.

(** ** Timer handles *)

Lemma clear_incl (h : nat) (l : list nat) : incl (clear h l) l.
Proof. unfold clear. intros x Hx. apply filter_In in Hx. tauto. Qed.

Lemma clear_gone (h : nat) (l : list nat) : ~ In h (clear h l).
Proof.
  unfold clear. intros Hin. apply filter_In in Hin. destruct Hin as [_ H].
  rewrite Nat.eqb_refl in H. discriminate.
Qed.

Lemma clear_opt_incl (h : option nat) (l : list nat) : incl (clear_opt h l) l.
Proof. destruct h; [apply clear_incl|apply incl_refl]. Qed.

(** ** Printed counters *)

Lemma to_uint_nonnil (n : nat) : Nat.to_uint n <> Decimal.Nil.
Proof.
  rewrite <- (DecimalNat.Unsigned.of_to n) at 1.
  rewrite DecimalNat.Unsigned.to_of. apply DecimalFacts.unorm_nonnil.
Qed.

Lemma show_nat_inj (n m : nat) : show_nat n = show_nat m -> n = m.
Proof.
  unfold show_nat. intros H.
  apply DecimalNat.Unsigned.to_uint_inj.
  pose proof (NilZero.usu (Nat.to_uint n) (to_uint_nonnil n)) as Hn.
  pose proof (NilZero.usu (Nat.to_uint m) (to_uint_nonnil m)) as Hm.
  rewrite H in Hn. rewrite Hn in Hm. inversion Hm. reflexivity.
Qed.

(** ** The invariant *)

Ltac split_invariant := split; [|split; [|split; [|split]]].

Lemma fresh_id (y : Sys) :
  ids_below y ->
  ~ In ("interval_" ++ show_nat (nextScheduleId (sched y)))%string (ids y)
  /\ ~ In ("times_" ++ show_nat (nextScheduleId (sched y)))%string (ids y).
Proof.
  intros Hb. split; intros Hin; destruct (Hb _ Hin) as (n & Hlt & [H|H]);
    cbn [String.append] in H; try discriminate H;
    inversion H as [Hshow]; apply show_nat_inj in Hshow; lia.
Qed.

Lemma invariant_insert (m : list (string * Schedule)) (nid nt : nat) (l : list nat)
    (hb : option nat) (lc : nat) (k : string) (s : Schedule) (nt' : nat)
    (l' : list nat) (hb' : option nat) (lc' : nat) :
  Invariant (mkSys (mkState m nid nt) l hb lc) ->
  (k = ("interval_" ++ show_nat nid)%string \/ k = ("times_" ++ show_nat nid)%string) ->
  (nt <= nt')%nat ->
  (forall h, sc_intervalId s = Some h \/ sc_timeoutId s = Some h -> (h < nt')%nat) ->
  (forall h, In h l' -> (h < nt')%nat) ->
  (forall h, hb' = Some h -> (h < nt')%nat) ->
  Invariant (mkSys (mkState (map_set k s m) (S nid) nt') l' hb' lc')
  /\ map_set k s m = m ++ [(k, s)].
Proof.
  intros (Hnd & Hb & Hh1 & Hh2 & Hh3) Hk Hnt Hs Hl Hhb.
  assert (Hfresh : ~ In k (List.map fst m)).
  { pose proof (@fresh_id (mkSys (mkState m nid nt) l hb lc) Hb) as [F1 F2].
    unfold ids in F1, F2. cbn [sched activeSchedules nextScheduleId] in F1, F2.
    destruct Hk as [->| ->]; assumption. }
  unfold Invariant, ids_below, handles_below, ids in *.
  cbn [sched activeSchedules nextScheduleId nextTimer live statusUpdateInterval] in *.
  rewrite (map_set_fresh k s m Hfresh).
  split; [|reflexivity].
  split_invariant.
  - rewrite List.map_app. cbn [List.map fst].
    apply NoDup_app; [exact Hnd|constructor; [intros []|constructor]|].
    intros x Hx [<-|[]]. exact (Hfresh Hx).
  - intros k0 Hin. rewrite List.map_app in Hin. apply in_app_or in Hin.
    destruct Hin as [Hin|[<-|[]]].
    + destruct (Hb k0 Hin) as (n & Hlt & Hform). exists n. split; [lia|exact Hform].
    + exists nid. split; [lia|exact Hk].
  - intros k0 s0 h Hget Hhandle.
    rewrite <- (map_set_fresh k s m Hfresh) in Hget.
    destruct (String.eqb_spec k0 k) as [->|Hne].
    + rewrite map_get_set_same in Hget. inversion Hget; subst s0. exact (Hs h Hhandle).
    + rewrite map_get_set_other in Hget by exact Hne.
      specialize (Hh1 k0 s0 h Hget Hhandle). lia.
  - exact Hhb.
  - exact Hl.
Qed.

Lemma invariant_update (m : list (string * Schedule)) (nid nt : nat) (l : list nat)
    (hb : option nat) (lc : nat) (k : string) (s' : Schedule) (nt' : nat)
    (l' : list nat) (hb' : option nat) (lc' : nat) :
  Invariant (mkSys (mkState m nid nt) l hb lc) ->
  In k (List.map fst m) ->
  (nt <= nt')%nat ->
  (forall h, sc_intervalId s' = Some h \/ sc_timeoutId s' = Some h -> (h < nt')%nat) ->
  (forall h, In h l' -> (h < nt')%nat) ->
  (forall h, hb' = Some h -> (h < nt')%nat) ->
  Invariant (mkSys (mkState (map_set k s' m) nid nt') l' hb' lc').
Proof.
  intros (Hnd & Hb & Hh1 & Hh2 & Hh3) Hk Hnt Hs Hl Hhb.
  unfold Invariant, ids_below, handles_below, ids in *.
  cbn [sched activeSchedules nextScheduleId nextTimer live statusUpdateInterval] in *.
  rewrite (map_set_present_ids k s' m Hk).
  split_invariant; try assumption.
  intros k0 s0 h Hget Hhandle.
  destruct (String.eqb_spec k0 k) as [->|Hne].
  - rewrite map_get_set_same in Hget. inversion Hget; subst s0. exact (Hs h Hhandle).
  - rewrite map_get_set_other in Hget by exact Hne.
    specialize (Hh1 k0 s0 h Hget Hhandle). lia.
Qed.

Lemma invariant_delete (m : list (string * Schedule)) (nid nt : nat) (l : list nat)
    (hb : option nat) (lc : nat) (k : string) (l' : list nat) (hb' : option nat) (lc' : nat) :
  Invariant (mkSys (mkState m nid nt) l hb lc) ->
  incl l' l ->
  (forall h, hb' = Some h -> hb = Some h) ->
  Invariant (mkSys (mkState (map_delete k m) nid nt) l' hb' lc').
Proof.
  intros (Hnd & Hb & Hh1 & Hh2 & Hh3) Hl Hhb.
  unfold Invariant, ids_below, handles_below, ids in *.
  cbn [sched activeSchedules nextScheduleId nextTimer live statusUpdateInterval] in *.
  split_invariant.
  - exact (proj1 (map_delete_nodup k m Hnd)).
  - intros k0 Hin. apply Hb. exact (map_delete_ids_incl k m k0 Hin).
  - intros k0 s0 h Hget Hhandle.
    exact (Hh1 k0 s0 h (map_get_delete_in k k0 m Hget Hnd) Hhandle).
  - intros h Hh. exact (Hh2 h (Hhb h Hh)).
  - intros h Hin. exact (Hh3 h (Hl h Hin)).
Qed.

Lemma invariant_weaken (m : list (string * Schedule)) (nid nt : nat) (l : list nat)
    (hb : option nat) (lc : nat) (nt' : nat) (l' : list nat) (hb' : option nat) (lc' : nat) :
  Invariant (mkSys (mkState m nid nt) l hb lc) ->
  (nt <= nt')%nat ->
  (forall h, In h l' -> (h < nt')%nat) ->
  (forall h, hb' = Some h -> (h < nt')%nat) ->
  Invariant (mkSys (mkState m nid nt') l' hb' lc').
Proof.
  intros (Hnd & Hb & Hh1 & Hh2 & Hh3) Hnt Hl Hhb.
  unfold Invariant, ids_below, handles_below, ids in *.
  cbn [sched activeSchedules nextScheduleId nextTimer live statusUpdateInterval] in *.
  split_invariant; try assumption.
  intros k0 s0 h Hget Hhandle. specialize (Hh1 k0 s0 h Hget Hhandle). lia.
Qed.

Lemma invariant_startStatusUpdates (y : Sys) :
  Invariant y -> Invariant (startStatusUpdates y).
Proof.
  destruct y as [[m nid nt] l hb lc]. intros Hinv.
  unfold startStatusUpdates. cbn [statusUpdateInterval sched activeSchedules nextScheduleId
    nextTimer live].
  destruct hb as [h|]; [exact Hinv|].
  pose proof Hinv as (_ & _ & _ & _ & Hl). cbn in Hl.
  eapply invariant_weaken; [exact Hinv|lia| |].
  - intros h [<-|Hin]; [lia|]. specialize (Hl h Hin). lia.
  - intros h Hh. inversion Hh. lia.
Qed.

Lemma invariant_stopStatusUpdates (y : Sys) :
  Invariant y -> Invariant (stopStatusUpdates y).
Proof.
  destruct y as [[m nid nt] l hb lc]. intros Hinv.
  unfold stopStatusUpdates. cbn [statusUpdateInterval sched live logCounter].
  destruct hb as [h|]; [|exact Hinv].
  pose proof Hinv as (_ & _ & _ & _ & Hl). cbn in Hl.
  eapply invariant_weaken; [exact Hinv|lia| |].
  - intros x Hx. apply Hl. exact (clear_incl h l x Hx).
  - intros x Hx. discriminate Hx.
Qed.

Lemma invariant_stopSchedule (scheduleId : string) (y : Sys) :
  Invariant y -> Invariant (snd (stopSchedule scheduleId y)).
Proof.
  destruct y as [[m nid nt] l hb lc]. intros Hinv.
  unfold stopSchedule. cbn [sched activeSchedules live statusUpdateInterval logCounter].
  destruct (map_get scheduleId m) as [schedule|]; [|exact Hinv].
  cbn [snd].
  assert (Hdel : Invariant
            (mkSys (with_schedules (map_delete scheduleId m) (mkState m nid nt))
                   (clear_opt (sc_timeoutId schedule) (clear_opt (sc_intervalId schedule) l))
                   hb lc)).
  { unfold with_schedules. cbn [nextScheduleId nextTimer].
    eapply invariant_delete; [exact Hinv| |auto].
    intros x Hx. apply clear_opt_incl in Hx. apply clear_opt_incl in Hx. exact Hx. }
  destruct (map_delete scheduleId m); [apply invariant_stopStatusUpdates|]; exact Hdel.
Qed.

Lemma invariant_stop_each (scheduleIds : list string) :
  forall (c : nat) (y : Sys), Invariant y -> Invariant (snd (stop_each scheduleIds c y)).
Proof.
  induction scheduleIds as [|k rest IH]; intros c y Hinv; cbn [stop_each]; [exact Hinv|].
  pose proof (invariant_stopSchedule k Hinv) as Hstep.
  destruct (stopSchedule k y) as [stopped y1]. cbn [snd] in Hstep.
  apply IH. exact Hstep.
Qed.

Lemma invariant_wrappedFunction (scheduleId : string) (cb : Settled) (r : FireReads)
    (y : Sys) (st : State) :
  Invariant y ->
  wrappedFunction scheduleId cb r (sched y) = Ret st ->
  Invariant (with_sched st y).
Proof.
  destruct y as [[m nid nt] l hb lc]. intros Hinv.
  unfold wrappedFunction, with_sched.
  cbn [sched activeSchedules live statusUpdateInterval logCounter].
  assert (Hupd : forall schedule e,
             map_get scheduleId m = Some schedule ->
             Invariant (mkSys (with_schedules
                                 (map_set scheduleId (set_lastExecution e schedule) m)
                                 (mkState m nid nt)) l hb lc)).
  { intros schedule e Hget. unfold with_schedules. cbn [nextScheduleId nextTimer].
    pose proof Hinv as (_ & _ & Hh1 & Hh2 & Hh3). cbn in Hh1, Hh2, Hh3.
    eapply invariant_update; [exact Hinv|exact (map_get_in _ _ Hget)|lia| |exact Hh3|exact Hh2].
    intros h Hh. cbn [set_lastExecution sc_intervalId sc_timeoutId] in Hh.
    exact (Hh1 scheduleId schedule h Hget Hh). }
  destruct cb as [result|error]; destruct (map_get scheduleId m) as [schedule|] eqn:Hget.
  - intros H; inversion H; subst. apply (Hupd schedule _ eq_refl).
  - intros H; inversion H; subst. exact Hinv.
  - destruct (message_of error) as [msg|e]; [|discriminate].
    intros H; inversion H; subst. apply (Hupd schedule _ eq_refl).
  - intros H; inversion H; subst. exact Hinv.
Qed.

Lemma invariant_scheduleNext (tz : Zone) (scheduleId : string) (times : list Time) (now : Z)
    (y : Sys) :
  Invariant y -> Invariant (snd (scheduleNext tz scheduleId times now y)).
Proof.
  destruct y as [[m nid nt] l hb lc]. intros Hinv.
  unfold scheduleNext, Scheduler.scheduleNext.
  cbn [sched activeSchedules nextScheduleId nextTimer live statusUpdateInterval logCounter].
  destruct (scheduleNext_compute tz times now) as [[nextExecution delay]|e]; [|exact Hinv].
  pose proof Hinv as (_ & _ & Hh1 & Hh2 & Hh3). cbn in Hh1, Hh2, Hh3.
  assert (Hl : forall h, In h (nt :: l) -> (h < S nt)%nat).
  { intros h [<-|Hin]; [lia|]. specialize (Hh3 h Hin). lia. }
  assert (Hhb : forall h, hb = Some h -> (h < S nt)%nat).
  { intros h Hh. specialize (Hh2 h Hh). lia. }
  destruct (map_get scheduleId m) as [schedule|] eqn:Hget; cbn [snd].
  - unfold with_schedules. cbn [nextScheduleId nextTimer].
    eapply invariant_update; [exact Hinv|exact (map_get_in _ _ Hget)|lia| |exact Hl|exact Hhb].
    intros h [Hh|Hh]; cbn [sc_intervalId sc_timeoutId] in Hh.
    + specialize (Hh1 scheduleId schedule h Hget (or_introl Hh)). lia.
    + inversion Hh. lia.
  - eapply invariant_weaken; [exact Hinv|lia|exact Hl|exact Hhb].
Qed.

Lemma invariant_step (y y' : Sys) : Invariant y -> Step y y' -> Invariant y'.
Proof.
  intros Hinv Hstep. destruct Hstep.
  - (* scheduleInterval *)
    destruct y as [[m nid nt] l hb lc].
    unfold scheduleInterval, Scheduler.scheduleInterval.
    cbn [sched activeSchedules nextScheduleId nextTimer live statusUpdateInterval logCounter snd].
    apply invariant_startStatusUpdates.
    pose proof Hinv as (_ & _ & Hh1 & Hh2 & Hh3). cbn in Hh1, Hh2, Hh3.
    refine (proj1 (@invariant_insert m nid nt l hb lc _ _ _ _ _ _ Hinv
                     (or_introl eq_refl) _ _ _ _)).
    + lia.
    + intros h [Hh|Hh]; cbn in Hh; inversion Hh. lia.
    + intros h [<-|Hin]; [lia|]. specialize (Hh3 h Hin). lia.
    + intros h Hh. specialize (Hh2 h Hh). lia.
  - (* scheduleTimes *)
    destruct y as [[m nid nt] l hb lc].
    unfold scheduleTimes in H. destruct (parsedTimes times) as [parsed|]; [|discriminate].
    unfold register_times in H.
    cbn [sched activeSchedules nextScheduleId nextTimer live statusUpdateInterval logCounter] in H.
    pose proof Hinv as (_ & _ & Hh1 & Hh2 & Hh3). cbn in Hh1, Hh2, Hh3.
    match type of H with
    | match scheduleNext tz ?k parsed now ?y1 with _ => _ end = _ =>
        assert (Hreg : Invariant y1);
        [| pose proof (invariant_scheduleNext tz k parsed now Hreg) as Hnext;
           destruct (scheduleNext tz k parsed now y1) as [[delay|e] y2]; cbn [snd] in Hnext;
           inversion H; subst; [apply invariant_startStatusUpdates|]; exact Hnext ]
    end.
    refine (proj1 (@invariant_insert m nid nt l hb lc _ _ _ _ _ _ Hinv
                     (or_intror eq_refl) _ _ _ _)).
    + lia.
    + intros h [Hh|Hh]; cbn in Hh; discriminate Hh.
    + exact Hh3.
    + exact Hh2.
  - apply invariant_stopSchedule. exact Hinv.
  - unfold stopAllSchedules.
    pose proof (invariant_stop_each (List.map fst (activeSchedules (sched y))) 0 Hinv) as H.
    destruct (stop_each (List.map fst (activeSchedules (sched y))) 0 y) as [c y1].
    cbn [snd] in *. apply invariant_stopStatusUpdates. exact H.
  - eapply invariant_wrappedFunction; eassumption.
  - destruct y as [[m nid nt] l hb lc]. unfold timeout_fires.
    cbn [sched live statusUpdateInterval logCounter].
    pose proof Hinv as (_ & _ & _ & Hh2 & Hh3). cbn in Hh2, Hh3.
    eapply invariant_weaken; [exact Hinv|lia| |exact Hh2].
    intros x Hx. apply Hh3. exact (clear_incl h l x Hx).
  - unfold timeout_resumes in H.
    destruct (wrappedFunction scheduleId cb r (sched y)) as [st|e] eqn:Hw.
    + pose proof (@invariant_wrappedFunction scheduleId cb r y st Hinv Hw) as Hmid.
      unfold with_sched in Hmid.
      pose proof (invariant_scheduleNext tz scheduleId times now' Hmid) as Hnext.
      rewrite H in Hnext. exact Hnext.
    + inversion H; subst. exact Hinv.
Qed.

Lemma invariant_initial : Invariant initial.
Proof.
  unfold Invariant, ids_below, handles_below, ids, initial, Scheduler.initial.
  cbn. split_invariant; try constructor; try (intros; discriminate); intros; contradiction.
Qed.

Lemma reachable_invariant (y : Sys) : Reachable y -> Invariant y.
Proof.
  induction 1 as [|y y' _ IH Hstep]; [exact invariant_initial|].
  exact (invariant_step IH Hstep).
Qed.

Lemma reachable_one_interval : Reachable one_interval.
Proof. exact (ReachStep ReachInitial (StepInterval initial 1000 true 0)). Qed.

Lemma reachable_two_schedules : Reachable two_schedules.
Proof.
  apply (ReachStep reachable_one_interval).
  apply (@StepTimes one_interval two_schedules utc ["09:30"; "15:30"]%string
           1728030600000 (Ret "times_2"%string)).
  vm_compute. reflexivity.
Qed.

Lemma map_get_app_fresh (k k' : string) (v s : Schedule) (m : list (string * Schedule)) :
  map_get k m = Some s -> ~ In k' (List.map fst m) ->
  map_get k (map_set k' v m) = Some s.
Proof.
  intros Hget Hfresh. rewrite map_get_set_other; [exact Hget|].
  intros ->. apply Hfresh. exact (map_get_in _ _ Hget).
Qed.

(** The ids after a registration. *)
Lemma scheduleInterval_ids (intervalMs : Z) (executeImmediately : bool) (now : Z) (y : Sys) :
  ids_below y ->
  ids (snd (scheduleInterval intervalMs executeImmediately now y))
  = ids y ++ [fst (scheduleInterval intervalMs executeImmediately now y)]
  /\ ~ In (fst (scheduleInterval intervalMs executeImmediately now y)) (ids y).
Proof.
  intros Hb. destruct (fresh_id Hb) as [Hfi _].
  destruct y as [[m nid nt] l hb lc].
  unfold scheduleInterval, Scheduler.scheduleInterval, startStatusUpdates, ids in *.
  cbn [sched activeSchedules nextScheduleId nextTimer live statusUpdateInterval
       logCounter fst snd] in *.
  split; [|exact Hfi].
  destruct hb; cbn [sched activeSchedules];
    rewrite (map_set_fresh _ _ m Hfi), List.map_app; reflexivity.
Qed.

Lemma scheduleTimes_ids (tz : Zone) (times : list string) (now : Z) (y y' : Sys)
    (o : outcome string) :
  ids_below y ->
  scheduleTimes tz times now y = Some (o, y') ->
  ids y' = ids y ++ [("times_" ++ show_nat (nextScheduleId (sched y)))%string]
  /\ ~ In ("times_" ++ show_nat (nextScheduleId (sched y)))%string (ids y)
  /\ (o = Ret ("times_" ++ show_nat (nextScheduleId (sched y)))%string
      \/ exists e, o = Throw e).
Proof.
  intros Hb Hrun. destruct (fresh_id Hb) as [_ Hft].
  destruct y as [[m nid nt] l hb lc].
  unfold scheduleTimes in Hrun. destruct (parsedTimes times) as [parsed|]; [|discriminate].
  unfold register_times, scheduleNext, Scheduler.scheduleNext, ids in *.
  cbn [sched activeSchedules nextScheduleId nextTimer live statusUpdateInterval
       logCounter fst snd] in *.
  set (k := ("times_" ++ show_nat nid)%string) in *.
  assert (Hidsreg : forall v, List.map fst (map_set k v m) = List.map fst m ++ [k]).
  { intros v. rewrite (map_set_fresh k v m Hft), List.map_app. reflexivity. }
  destruct (scheduleNext_compute tz parsed now) as [[nextExecution delay]|e].
  - rewrite map_get_set_same in Hrun. inversion Hrun; subst o y'; clear Hrun.
    unfold startStatusUpdates, with_schedules. cbn [statusUpdateInterval sched activeSchedules].
    split; [|split; [exact Hft|left; reflexivity]].
    destruct hb; cbn [sched activeSchedules];
      (rewrite map_set_present_ids; [apply Hidsreg|]);
      rewrite Hidsreg; apply in_or_app; right; left; reflexivity.
  - inversion Hrun; subst o y'; clear Hrun. cbn [sched activeSchedules].
    split; [apply Hidsreg|]. split; [exact Hft|right; eexists; reflexivity].
Qed.

(** X1.  In every state the scheduler can reach, schedule ids are pairwise
    distinct, and a registration (interval or daily times, also one that
    throws) adds exactly one schedule under an id that was not in use and
    leaves every schedule already registered as it was. *)
Theorem registration_never_replaces :
  forall (y : Sys),
    Reachable y ->
    NoDup (ids y)
    /\ (forall (intervalMs : Z) (executeImmediately : bool) (now : Z),
           let r := scheduleInterval intervalMs executeImmediately now y in
           ids (snd r) = ids y ++ [fst r]
           /\ ~ In (fst r) (ids y)
           /\ forall k s, map_get k (activeSchedules (sched y)) = Some s ->
                          map_get k (activeSchedules (sched (snd r))) = Some s)
    /\ (forall (tz : Zone) (times : list string) (now : Z) (o : outcome string) (y' : Sys),
           scheduleTimes tz times now y = Some (o, y') ->
           exists scheduleId,
             ids y' = ids y ++ [scheduleId]
             /\ ~ In scheduleId (ids y)
             /\ (o = Ret scheduleId \/ exists e, o = Throw e)
             /\ forall k s, map_get k (activeSchedules (sched y)) = Some s ->
                            map_get k (activeSchedules (sched y')) = Some s).
Proof.
  intros y Hreach. pose proof (reachable_invariant Hreach) as Hinv.
  pose proof Hinv as (Hnd & Hb & _).
  destruct (fresh_id Hb) as [Hfi Hft].
  split; [exact Hnd|]. split.
  - intros intervalMs executeImmediately now r. subst r.
    destruct y as [[m nid nt] l hb lc].
    unfold scheduleInterval, Scheduler.scheduleInterval, ids in *.
    cbn [sched activeSchedules nextScheduleId nextTimer live statusUpdateInterval
         logCounter fst snd] in *.
    assert (Hact : forall y0, activeSchedules (sched (startStatusUpdates y0))
                              = activeSchedules (sched y0)).
    { intros y0. unfold startStatusUpdates. destruct (statusUpdateInterval y0); reflexivity. }
    rewrite Hact. cbn [sched activeSchedules].
    rewrite (map_set_fresh _ _ m Hfi), List.map_app. cbn [List.map fst].
    split; [reflexivity|]. split; [exact Hfi|].
    intros k s Hget. rewrite <- (map_set_fresh _ _ m Hfi).
    apply map_get_app_fresh; assumption.
  - intros tz times now o y' Hrun.
    destruct y as [[m nid nt] l hb lc].
    unfold scheduleTimes in Hrun. destruct (parsedTimes times) as [parsed|]; [|discriminate].
    unfold register_times, scheduleNext, Scheduler.scheduleNext, ids in *.
    cbn [sched activeSchedules nextScheduleId nextTimer live statusUpdateInterval
         logCounter fst snd] in *.
    exists ("times_" ++ show_nat nid)%string.
    set (k := ("times_" ++ show_nat nid)%string) in *.
    assert (Hact : forall y0, activeSchedules (sched (startStatusUpdates y0))
                              = activeSchedules (sched y0)).
    { intros y0. unfold startStatusUpdates. destruct (statusUpdateInterval y0); reflexivity. }
    assert (Hidsreg : forall v, List.map fst (map_set k v m) = List.map fst m ++ [k]).
    { intros v. rewrite (map_set_fresh k v m Hft), List.map_app. reflexivity. }
    destruct (scheduleNext_compute tz parsed now) as [[nextExecution delay]|e].
    + rewrite map_get_set_same in Hrun. inversion Hrun; subst o y'; clear Hrun.
      rewrite Hact. unfold with_schedules. cbn [sched activeSchedules].
      split.
      { rewrite map_set_present_ids; [apply Hidsreg|].
        rewrite Hidsreg. apply in_or_app. right. left. reflexivity. }
      split; [exact Hft|]. split; [left; reflexivity|].
      intros k0 s Hget.
      rewrite map_get_set_other.
      * apply map_get_app_fresh; assumption.
      * intros ->. apply Hft. exact (map_get_in _ _ Hget).
    + inversion Hrun; subst o y'; clear Hrun. cbn [sched activeSchedules].
      split; [apply Hidsreg|]. split; [exact Hft|]. split; [right; eexists; reflexivity|].
      intros k0 s Hget. apply map_get_app_fresh; assumption.
Qed.

Lemma registration_never_replaces_witness :
  ids (snd (scheduleInterval 5000 false 10 one_interval))
  = ids one_interval ++ [fst (scheduleInterval 5000 false 10 one_interval)].
Proof.
  exact (proj1 (proj1 (proj2 (registration_never_replaces reachable_one_interval))
                  5000%Z false 10%Z)).
Defined.

Lemma map_delete_length (k : string) (m : list (string * Schedule)) (v : Schedule) :
  map_get k m = Some v -> S (List.length (map_delete k m)) = List.length m.
Proof.
  induction m as [|[k0 v0] m IH]; cbn [map_get map_delete List.length]; [discriminate|].
  destruct (String.eqb k0 k); [reflexivity|].
  intros H. cbn [List.length]. rewrite (IH H). reflexivity.
Qed.

(** What one [stopSchedule] does. *)
Lemma stopSchedule_effect :
  forall (scheduleId : string) (y : Sys),
    NoDup (ids y) ->
    (map_get scheduleId (activeSchedules (sched y)) = None ->
     stopSchedule scheduleId y = (false, y))
    /\ (forall schedule,
           map_get scheduleId (activeSchedules (sched y)) = Some schedule ->
           exists y',
             stopSchedule scheduleId y = (true, y')
             /\ map_get scheduleId (activeSchedules (sched y')) = None
             /\ S (List.length (ids y')) = List.length (ids y)
             /\ (forall k, k <> scheduleId ->
                           map_get k (activeSchedules (sched y'))
                           = map_get k (activeSchedules (sched y)))
             /\ (forall h, holds_handle schedule h -> ~ In h (live y'))
             /\ incl (live y') (live y)
             /\ (List.length (ids y) = 1%nat ->
                 statusUpdateInterval y' = None
                 /\ forall h, statusUpdateInterval y = Some h -> ~ In h (live y'))
             /\ ((1 < List.length (ids y))%nat ->
                 statusUpdateInterval y' = statusUpdateInterval y)).
Proof.
  intros scheduleId y Hnd. destruct y as [[m nid nt] l hb lc].
  unfold stopSchedule, ids in *.
  cbn [sched activeSchedules live statusUpdateInterval logCounter] in *.
  split; [intros ->; reflexivity|].
  intros schedule Hget. rewrite Hget.
  pose proof (map_delete_nodup scheduleId m Hnd) as [_ Hgone].
  pose proof (map_delete_length scheduleId m Hget) as Hlen.
  set (live2 := clear_opt (sc_timeoutId schedule) (clear_opt (sc_intervalId schedule) l)).
  assert (Hincl : incl live2 l).
  { intros x Hx. unfold live2 in Hx. apply clear_opt_incl in Hx. apply clear_opt_incl in Hx.
    exact Hx. }
  assert (Hcleared : forall h, holds_handle schedule h -> ~ In h live2).
  { intros h [Hh|Hh] Hin; unfold live2 in Hin.
    - apply clear_opt_incl in Hin. rewrite Hh in Hin. exact (clear_gone h l Hin).
    - rewrite Hh in Hin. cbn [clear_opt] in Hin. exact (clear_gone h _ Hin). }
  destruct (map_delete scheduleId m) as [|kv rest] eqn:Hdel.
  - eexists. split; [reflexivity|].
    unfold stopStatusUpdates, with_schedules.
    cbn [sched activeSchedules live statusUpdateInterval logCounter nextScheduleId nextTimer].
    assert (Hone : forall k, k <> scheduleId -> map_get k m = None).
    { intros k Hne. rewrite <- (@map_get_delete_other scheduleId k m Hne), Hdel. reflexivity. }
    destruct hb as [h0|];
      cbn [sched activeSchedules live statusUpdateInterval List.map List.length map_get].
    + split; [reflexivity|]. split; [rewrite List.length_map in *; exact Hlen|].
      split; [intros k Hne; symmetry; exact (Hone k Hne)|].
      split; [intros h Hh Hin; exact (Hcleared h Hh (clear_incl h0 live2 h Hin))|].
      split; [intros x Hx; exact (Hincl x (clear_incl h0 live2 x Hx))|].
      split.
      * intros _. split; [reflexivity|]. intros h Hh. inversion Hh; subst h.
        apply clear_gone.
      * rewrite List.length_map in *. cbn [List.length] in Hlen. intros Hlt. lia.
    + split; [reflexivity|]. split; [rewrite List.length_map in *; exact Hlen|].
      split; [intros k Hne; symmetry; exact (Hone k Hne)|].
      split; [exact Hcleared|]. split; [exact Hincl|].
      split; [intros _; split; [reflexivity|intros h Hh; discriminate Hh]|reflexivity].
  - eexists. split; [reflexivity|].
    unfold with_schedules.
    cbn [sched activeSchedules live statusUpdateInterval logCounter nextScheduleId nextTimer].
    split; [exact (map_get_none _ _ Hgone)|].
    split; [rewrite !List.length_map; exact Hlen|].
    split; [intros k Hne; rewrite <- Hdel; exact (@map_get_delete_other scheduleId k m Hne)|].
    split; [exact Hcleared|]. split; [exact Hincl|].
    split; [|reflexivity].
    rewrite List.length_map in *. cbn [List.length] in Hlen.
    intros Hone. lia.
Qed.

(** X2.  [stopSchedule]: an id that is not registered gives [false] and
    changes nothing.  A registered id gives [true]; that schedule is gone,
    every other schedule is untouched, the handles it held are no longer
    armed and no timer is armed by the call; the heartbeat is stopped when
    it was the last schedule and left alone otherwise.  Stopping the same
    id a second time gives [false] and changes nothing. *)
Theorem stopSchedule_removes_one :
  forall (scheduleId : string) (y : Sys),
    NoDup (ids y) ->
    (map_get scheduleId (activeSchedules (sched y)) = None ->
     stopSchedule scheduleId y = (false, y))
    /\ (forall schedule,
           map_get scheduleId (activeSchedules (sched y)) = Some schedule ->
           exists y',
             stopSchedule scheduleId y = (true, y')
             /\ map_get scheduleId (activeSchedules (sched y')) = None
             /\ S (List.length (ids y')) = List.length (ids y)
             /\ (forall k, k <> scheduleId ->
                           map_get k (activeSchedules (sched y'))
                           = map_get k (activeSchedules (sched y)))
             /\ (forall h, holds_handle schedule h -> ~ In h (live y'))
             /\ incl (live y') (live y)
             /\ (List.length (ids y) = 1%nat ->
                 statusUpdateInterval y' = None
                 /\ forall h, statusUpdateInterval y = Some h -> ~ In h (live y'))
             /\ ((1 < List.length (ids y))%nat ->
                 statusUpdateInterval y' = statusUpdateInterval y)
             /\ stopSchedule scheduleId y' = (false, y')).
Proof.
  intros scheduleId y Hnd.
  destruct (@stopSchedule_effect scheduleId y Hnd) as [Hmiss Hhit].
  split; [exact Hmiss|].
  intros schedule Hget.
  destruct (Hhit schedule Hget)
    as (y' & Hrun & Hgone & Hlen & Hother & Hcleared & Hincl & Hlast & Hmore).
  exists y'.
  split; [exact Hrun|]. split; [exact Hgone|]. split; [exact Hlen|].
  split; [exact Hother|]. split; [exact Hcleared|]. split; [exact Hincl|].
  split; [exact Hlast|]. split; [exact Hmore|].
  assert (Hnd' : NoDup (ids y')).
  { assert (Hy : y' = snd (stopSchedule scheduleId y)) by (rewrite Hrun; reflexivity).
    rewrite Hy. destruct y as [[m nid nt] l hb lc].
    unfold stopSchedule, ids in *. cbn [sched activeSchedules] in *. rewrite Hget.
    pose proof (map_delete_nodup scheduleId m Hnd) as [Hnd2 _].
    destruct (map_delete scheduleId m) as [|kv rest];
      [destruct hb|]; cbn [snd sched activeSchedules stopStatusUpdates with_schedules];
      exact Hnd2. }
  exact (proj1 (@stopSchedule_effect scheduleId y' Hnd') Hgone).
Qed.

Lemma stopSchedule_removes_one_witness :
  exists y',
    stopSchedule "interval_1" two_schedules = (true, y')
    /\ map_get "interval_1" (activeSchedules (sched y')) = None
    /\ ids y' = ["times_2"].
Proof.
  destruct (proj2 (@stopSchedule_removes_one "interval_1" two_schedules
                     (proj1 (reachable_invariant reachable_two_schedules)))
              (mkSchedule TyInterval (Some 1%nat) (Some 1000%Z) (Some true) None 0%Z
                          None None None) eq_refl)
    as (y' & Hrun & Hgone & _).
  exists y'. split; [exact Hrun|]. split; [exact Hgone|].
  assert (Hy : y' = snd (stopSchedule "interval_1" two_schedules)) by (rewrite Hrun; reflexivity).
  rewrite Hy. vm_compute. reflexivity.
Defined.

(** What stopping leaves armed, schedule by schedule. *)
Lemma stop_each_all (m : list (string * Schedule)) :
  forall (c : nat) (y : Sys),
    activeSchedules (sched y) = m ->
    NoDup (List.map fst m) ->
    exists y',
      stop_each (List.map fst m) c y = ((c + List.length m)%nat, y')
      /\ activeSchedules (sched y') = []
      /\ incl (live y') (live y)
      /\ (forall k s h, map_get k m = Some s -> holds_handle s h -> ~ In h (live y'))
      /\ (m <> [] ->
          statusUpdateInterval y' = None
          /\ forall h, statusUpdateInterval y = Some h -> ~ In h (live y'))
      /\ (m = [] -> y' = y).
Proof.
  induction m as [|[k v] m IH]; intros c y Hact Hnd; cbn [List.map fst stop_each].
  - exists y. rewrite Nat.add_0_r.
    split; [reflexivity|]. split; [exact Hact|]. split; [apply incl_refl|].
    split; [intros k s h Hget; discriminate Hget|].
    split; [intros H; congruence|reflexivity].
  - inversion Hnd as [|? ? Hnot Hnd']; subst.
    assert (Hndy : NoDup (ids y)) by (unfold ids; rewrite Hact; exact Hnd).
    assert (Hget : map_get k (activeSchedules (sched y)) = Some v).
    { rewrite Hact. cbn [map_get]. rewrite String.eqb_refl. reflexivity. }
    destruct (proj2 (@stopSchedule_effect k y Hndy) v Hget)
      as (y1 & Hstop & _ & _ & Hother & Hcleared & Hincl & Hlast & Hmore).
    rewrite Hstop.
    assert (Hact1 : activeSchedules (sched y1) = m).
    { unfold stopSchedule in Hstop. rewrite Hget in Hstop.
      rewrite Hact in Hstop. cbn [map_delete] in Hstop. rewrite String.eqb_refl in Hstop.
      inversion Hstop as [Hy1]. destruct m; [unfold stopStatusUpdates|];
        cbn [sched statusUpdateInterval]; [destruct (statusUpdateInterval y)|]; reflexivity. }
    destruct (IH (S c) y1 Hact1 Hnd')
      as (y' & Hrun & Hempty & Hincl' & Hcleared' & Hhb' & Hnil').
    exists y'. split; [rewrite Hrun; f_equal; cbn [List.length]; lia|].
    split; [exact Hempty|].
    split; [intros x Hx; exact (Hincl x (Hincl' x Hx))|].
    split.
    + intros k0 s h Hget0 Hh Hin. cbn [map_get] in Hget0.
      destruct (String.eqb_spec k k0) as [->|Hne].
      * inversion Hget0; subst s. exact (Hcleared h Hh (Hincl' h Hin)).
      * exact (Hcleared' k0 s h Hget0 Hh Hin).
    + split; [|intros H; discriminate H].
      intros _. unfold ids in Hlast, Hmore. rewrite Hact in Hlast, Hmore.
      cbn [List.map List.length] in Hlast, Hmore.
      destruct m as [|kv rest].
      * specialize (Hnil' eq_refl). subst y'.
        destruct (Hlast eq_refl) as [Hnone Hgoneh]. split; assumption.
      * destruct Hhb' as [Hnone Hgoneh]; [discriminate|].
        split; [exact Hnone|]. intros h Hh. apply Hgoneh.
        rewrite Hmore; [exact Hh|]. cbn [List.map List.length]. lia.
Qed.

(** X3.  [stopAllSchedules] stops every registered schedule: it returns
    their number, leaves no schedule registered and no heartbeat, and
    neither a handle held by one of the schedules nor the heartbeat's is
    armed afterwards; it arms nothing. *)
Theorem stopAllSchedules_stops_everything :
  forall (y : Sys),
    NoDup (ids y) ->
    exists y',
      stopAllSchedules y = (List.length (ids y), y')
      /\ activeSchedules (sched y') = []
      /\ statusUpdateInterval y' = None
      /\ (forall k s h, map_get k (activeSchedules (sched y)) = Some s ->
                        holds_handle s h -> ~ In h (live y'))
      /\ (forall h, statusUpdateInterval y = Some h -> ~ In h (live y'))
      /\ incl (live y') (live y).
Proof.
  intros y Hnd. unfold stopAllSchedules, ids in *.
  destruct (@stop_each_all (activeSchedules (sched y)) 0 y eq_refl Hnd)
    as (y1 & Hrun & Hempty & Hincl & Hcleared & Hhb & Hnil).
  rewrite Hrun. rewrite List.length_map. cbn [Nat.add].
  exists (stopStatusUpdates y1). split; [reflexivity|].
  assert (Hlive : incl (live (stopStatusUpdates y1)) (live y1)).
  { unfold stopStatusUpdates. destruct (statusUpdateInterval y1) as [h|];
      cbn [live]; [apply clear_incl|apply incl_refl]. }
  split; [unfold stopStatusUpdates; destruct (statusUpdateInterval y1); exact Hempty|].
  split; [unfold stopStatusUpdates; destruct (statusUpdateInterval y1) eqn:E;
          [reflexivity|exact E]|].
  split; [intros k s h Hget Hh Hin; exact (Hcleared k s h Hget Hh (Hlive h Hin))|].
  split; [|intros x Hx; exact (Hincl x (Hlive x Hx))].
  intros h Hh Hin.
  destruct (activeSchedules (sched y)) as [|kv rest] eqn:Hm.
  - specialize (Hnil eq_refl). subst y1.
    unfold stopStatusUpdates in Hin. rewrite Hh in Hin. cbn [live] in Hin.
    exact (clear_gone h _ Hin).
  - destruct Hhb as [_ Hgone]; [discriminate|].
    exact (Hgone h Hh (Hlive h Hin)).
Qed.

Lemma stopAllSchedules_stops_everything_witness :
  exists y',
    stopAllSchedules two_schedules = (2%nat, y')
    /\ activeSchedules (sched y') = []
    /\ statusUpdateInterval y' = None
    /\ live y' = [].
Proof.
  destruct (@stopAllSchedules_stops_everything two_schedules
              (proj1 (reachable_invariant reachable_two_schedules)))
    as (y' & Hrun & Hempty & Hhb & _).
  exists y'. split; [exact Hrun|]. split; [exact Hempty|]. split; [exact Hhb|].
  assert (Hy : y' = snd (stopAllSchedules two_schedules)) by (rewrite Hrun; reflexivity).
  rewrite Hy. vm_compute. reflexivity.
Defined.

(** X4.  The wrapper of one fire when the callback did not resolve
    normally or the schedule is gone.  A schedule that has been stopped
    meanwhile gets no record and nothing changes; a callback that rejects
    with an object carrying a message is recorded as
    [{timestamp, success: false, error: message}], without a duration, and
    the wrapper returns normally, touching no other schedule; a callback
    that rejects with [null] or [undefined] makes the wrapper itself
    reject. *)
Theorem wrappedFunction_on_failure :
  forall (scheduleId : string) (r : FireReads) (st : State),
    (forall cb, map_get scheduleId (activeSchedules st) = None ->
                wrappedFunction scheduleId cb r st = Ret st)
    /\ (forall schedule fields,
           map_get scheduleId (activeSchedules st) = Some schedule ->
           exists st',
             wrappedFunction scheduleId (Rejected (VObj fields)) r st = Ret st'
             /\ lastExecution_of scheduleId st'
                = Some {| ex_timestamp := recordedAt r; ex_duration := None;
                          ex_success := VBool false; ex_details := None;
                          ex_error := Some (lookup "message" fields) |}
             /\ (forall k, k <> scheduleId ->
                           map_get k (activeSchedules st') = map_get k (activeSchedules st))
             /\ nextScheduleId st' = nextScheduleId st)
    /\ (forall schedule error,
           map_get scheduleId (activeSchedules st) = Some schedule ->
           error = VNull \/ error = VUndef ->
           exists msg, wrappedFunction scheduleId (Rejected error) r st = Throw msg).
Proof.
  intros scheduleId r st. unfold wrappedFunction. split; [|split].
  - intros cb Hget. rewrite Hget. destruct cb; reflexivity.
  - intros schedule fields Hget. rewrite Hget. cbn [message_of get_prop].
    eexists. split; [reflexivity|].
    unfold lastExecution_of, with_schedules. cbn [activeSchedules nextScheduleId].
    rewrite map_get_set_same. cbn [set_lastExecution sc_lastExecution].
    split; [reflexivity|]. split; [|reflexivity].
    intros k Hne. apply map_get_set_other. exact Hne.
  - intros schedule error Hget [-> | ->]; rewrite Hget; cbn [message_of get_prop];
      eexists; reflexivity.
Qed.

Lemma wrappedFunction_on_failure_witness :
  exists st',
    wrappedFunction "interval_1" (Rejected (VObj [("message"%string, VStr "boom")]))
      {| executionStart := 10; executionEnd := 25; recordedAt := 26 |}
      (sched one_interval) = Ret st'
    /\ lastExecution_of "interval_1" st'
       = Some {| ex_timestamp := 26; ex_duration := None; ex_success := VBool false;
                 ex_details := None; ex_error := Some (VStr "boom") |}.
Proof.
  destruct (proj1 (proj2 (wrappedFunction_on_failure "interval_1"
                            {| executionStart := 10; executionEnd := 25; recordedAt := 26 |}
                            (sched one_interval)))
              (mkSchedule TyInterval (Some 1%nat) (Some 1000%Z) (Some true) None 0%Z
                          None None None)
              [("message"%string, VStr "boom")] eq_refl)
    as (st' & Hrun & Hlast & _).
  exists st'. split; [exact Hrun|exact Hlast].
Defined.

(** ** Handles nobody holds *)

Lemma clear_keeps (h x : nat) (l : list nat) : In h l -> h <> x -> In h (clear x l).
Proof.
  intros Hin Hne. unfold clear. apply filter_In. split; [exact Hin|].
  destruct (Nat.eqb_spec h x); [contradiction|reflexivity].
Qed.

Lemma clear_opt_keeps (h : nat) (x : option nat) (l : list nat) :
  In h l -> x <> Some h -> In h (clear_opt x l).
Proof.
  intros Hin Hne. destruct x as [x|]; [|exact Hin].
  apply clear_keeps; [exact Hin|]. intros ->. apply Hne. reflexivity.
Qed.

Lemma orphan_stopStatusUpdates (h : nat) (y : Sys) :
  Orphan h y -> Orphan h (stopStatusUpdates y).
Proof.
  intros (Hnd & Hin & Hheld & Hhb). unfold stopStatusUpdates.
  destruct (statusUpdateInterval y) as [h0|] eqn:E.
  - split; [exact Hnd|]. split; [|split; [exact Hheld|discriminate]].
    cbn [live]. apply clear_keeps; [exact Hin|]. intros ->. apply Hhb. reflexivity.
  - split; [exact Hnd|]. split; [exact Hin|]. split; [exact Hheld|]. rewrite E. discriminate.
Qed.

Lemma orphan_stopSchedule (h : nat) (scheduleId : string) (y : Sys) :
  Orphan h y -> Orphan h (snd (stopSchedule scheduleId y)).
Proof.
  intros Horphan. pose proof Horphan as (Hnd & Hin & Hheld & Hhb).
  unfold stopSchedule.
  destruct (map_get scheduleId (activeSchedules (sched y))) as [schedule|] eqn:Hget;
    [|exact Horphan].
  cbn [snd].
  set (y1 := {| sched := with_schedules (map_delete scheduleId (activeSchedules (sched y)))
                           (sched y);
                live := clear_opt (sc_timeoutId schedule)
                          (clear_opt (sc_intervalId schedule) (live y));
                statusUpdateInterval := statusUpdateInterval y;
                logCounter := logCounter y |}).
  assert (H1 : Orphan h y1).
  { split; [|split; [|split]].
    - unfold ids, y1, with_schedules. cbn [sched activeSchedules].
      exact (proj1 (map_delete_nodup scheduleId _ Hnd)).
    - unfold y1. cbn [live].
      apply clear_opt_keeps;
        [apply clear_opt_keeps; [exact Hin|]|];
        intros Heq; apply (Hheld scheduleId schedule Hget); [left|right]; exact Heq.
    - unfold y1, with_schedules. cbn [sched activeSchedules]. intros k s Hk.
      exact (Hheld k s (map_get_delete_in _ _ _ Hk Hnd)).
    - exact Hhb. }
  destruct (map_delete scheduleId (activeSchedules (sched y))) eqn:Hdel.
  - exact (orphan_stopStatusUpdates H1).
  - exact H1.
Qed.

Lemma orphan_stop_each (h : nat) (l : list string) :
  forall (c : nat) (y : Sys), Orphan h y -> Orphan h (snd (stop_each l c y)).
Proof.
  induction l as [|k l IH]; intros c y Horphan; cbn [stop_each]; [exact Horphan|].
  pose proof (@orphan_stopSchedule h k y Horphan) as H1.
  destruct (stopSchedule k y) as [stopped y1]. cbn [snd] in H1.
  apply IH. exact H1.
Qed.

Lemma orphan_stopAllSchedules (h : nat) (y : Sys) :
  Orphan h y -> Orphan h (snd (stopAllSchedules y)).
Proof.
  intros Horphan. unfold stopAllSchedules.
  pose proof (@orphan_stop_each h (List.map fst (activeSchedules (sched y))) 0 y Horphan) as H1.
  destruct (stop_each (List.map fst (activeSchedules (sched y))) 0 y) as [c y1].
  cbn [snd] in *. exact (orphan_stopStatusUpdates H1).
Qed.

Lemma reachable_stopped_in_flight : Reachable stopped_in_flight.
Proof.
  exact (ReachStep (ReachStep reachable_two_schedules (StepTimeoutFires two_schedules 3))
           (StepStop (timeout_fires 3 two_schedules) "times_2")).
Qed.

(** At an instant a clock can show, in a zone whose offsets are at most a
    day, the recomputation finds its next date. *)
Lemma scheduleNext_compute_returns (tz : Zone) (t : Time) (times : list Time) (now : Z) :
  Z.abs now <= 8000000000000000 ->
  (forall v, Z.abs (offset_at tz v) <= 1440) ->
  (forall v, Z.abs (offset_of_local tz v) <= 1440) ->
  Z.abs (ms_of t) <= 2147483647 ->
  exists nextExecution delay,
    scheduleNext_compute tz (t :: times) now = Ret (nextExecution, delay).
Proof.
  intros Hnow Hoff Hlocal Ht. unfold scheduleNext_compute, local_midnight.
  pose proof (Hoff now) as H1.
  set (nowUtc := now + offset_at tz now * 60000).
  assert (Hn : Z.abs nowUtc <= 8000000100000000) by (subst nowUtc; lia).
  rewrite (@new_Date_valid nowUtc) by (unfold MAX_TIME; lia).
  pose proof (Hoff nowUtc) as H2.
  set (shiftedBack := nowUtc - offset_at tz nowUtc * 60000).
  pose proof (day_start_bounds shiftedBack) as Hday.
  set (midnight := shiftedBack / DAY * DAY) in *.
  pose proof (Hlocal midnight) as H3.
  set (todayUtc := midnight + offset_of_local tz midnight * 60000).
  assert (Hm : Z.abs todayUtc <= 8000000400000000).
  { unfold DAY in Hday. subst todayUtc shiftedBack. lia. }
  rewrite (@new_Date_valid todayUtc) by (unfold MAX_TIME; lia).
  destruct (first_after (Some todayUtc) nowUtc (t :: times)) as [e|].
  - eexists. eexists. reflexivity.
  - cbn [shifted].
    rewrite (@new_Date_valid (todayUtc + 24 * 3600000)) by (unfold MAX_TIME; lia).
    cbn [shifted].
    rewrite (@new_Date_valid (todayUtc + 24 * 3600000 + ms_of t))
      by (unfold MAX_TIME; lia).
    eexists. eexists. reflexivity.
Qed.

(** X5.  A daily-times schedule that is stopped while its callback is
    running comes back as a timer nobody can cancel.  When the rest of the
    timeout callback runs for an id that is no longer registered (and the
    times list is not empty), nothing is recorded and no schedule appears.
    When [scheduleNext] finds its next date, as it does at every instant a
    clock can show, a new timeout is armed; no schedule and no heartbeat
    holds its handle, so it stays armed through every later [stopSchedule]
    and through [stopAllSchedules].  When the next date is an Invalid Date,
    the callback rejects with the RangeError and nothing is armed. *)
Theorem stopped_daily_schedule_rearms :
  forall (tz : Zone) (scheduleId : string) (t : Time) (times : list Time) (cb : Settled)
         (r : FireReads) (now' : Z) (y : Sys),
    Reachable y ->
    map_get scheduleId (activeSchedules (sched y)) = None ->
    exists o y',
      timeout_resumes tz scheduleId (t :: times) cb r now' y = (o, y')
      /\ activeSchedules (sched y') = activeSchedules (sched y)
      /\ match scheduleNext_compute tz (t :: times) now' with
         | Ret (_, delay) =>
             o = Ret delay
             /\ live y' = nextTimer (sched y) :: live y
             /\ ~ In (nextTimer (sched y)) (live y)
             /\ (forall k s, map_get k (activeSchedules (sched y')) = Some s ->
                             ~ holds_handle s (nextTimer (sched y)))
             /\ (forall k, In (nextTimer (sched y)) (live (snd (stopSchedule k y'))))
             /\ In (nextTimer (sched y)) (live (snd (stopAllSchedules y')))
         | Throw e =>
             o = Throw e /\ e = "Invalid time value"%string
             /\ sched y' = sched y /\ live y' = live y
             /\ statusUpdateInterval y' = statusUpdateInterval y
         end
      /\ (Z.abs now' <= 8000000000000000 ->
          (forall v, Z.abs (offset_at tz v) <= 1440) ->
          (forall v, Z.abs (offset_of_local tz v) <= 1440) ->
          Z.abs (ms_of t) <= 2147483647 ->
          exists delay, o = Ret delay /\ live y' = nextTimer (sched y) :: live y).
Proof.
  intros tz scheduleId t times cb r now' y Hreach Hnone.
  pose proof (@scheduleNext_compute_returns tz t times now') as Hreturns.
  pose proof (reachable_invariant Hreach) as (Hnd & _ & Hs & Hhb & Hlive).
  unfold timeout_resumes.
  assert (Hw : wrappedFunction scheduleId cb r (sched y) = Ret (sched y)).
  { unfold wrappedFunction. rewrite Hnone. destruct cb; reflexivity. }
  rewrite Hw. unfold scheduleNext, Scheduler.scheduleNext. cbn [sched live].
  destruct (scheduleNext_compute tz (t :: times) now') as [[nextExecution delay]|e] eqn:Hc.
  - cbn [activeSchedules]. rewrite Hnone.
    eexists. eexists. split; [reflexivity|].
    cbn [sched activeSchedules live statusUpdateInterval].
    split; [reflexivity|].
    split; [|intros _ _ _ _; exists delay; split; reflexivity].
    split; [reflexivity|]. split; [reflexivity|].
    assert (Hfresh : ~ In (nextTimer (sched y)) (live y)).
    { intros Hin. pose proof (Hlive _ Hin). lia. }
    split; [exact Hfresh|].
    assert (Hunheld : forall k s, map_get k (activeSchedules (sched y)) = Some s ->
                                  ~ holds_handle s (nextTimer (sched y))).
    { intros k s Hk Hh. pose proof (Hs k s _ Hk Hh). lia. }
    split; [exact Hunheld|].
    match goal with
    | |- (forall k, In _ (live (snd (stopSchedule k ?y')))) /\ _ =>
        assert (Horphan : Orphan (nextTimer (sched y)) y')
    end.
    { split; [exact Hnd|]. split; [left; reflexivity|]. split; [exact Hunheld|].
      cbn [statusUpdateInterval]. intros Heq. pose proof (Hhb _ Heq). lia. }
    split.
    + intros k. exact (proj1 (proj2 (@orphan_stopSchedule _ k _ Horphan))).
    + exact (proj1 (proj2 (orphan_stopAllSchedules Horphan))).
  - eexists. eexists. split; [reflexivity|].
    cbn [sched live statusUpdateInterval].
    split; [reflexivity|].
    split; [|intros Hnow Hoff Hlocal Ht;
             destruct (Hreturns Hnow Hoff Hlocal Ht) as (n & d & Hret); discriminate Hret].
    split; [reflexivity|].
    split; [|repeat split].
    unfold scheduleNext_compute in Hc.
    repeat match type of Hc with
           | match ?x with _ => _ end = _ => destruct x
           | (let (_, _) := ?x in _) = _ => destruct x
           end; try discriminate; inversion Hc; reflexivity.
Qed.

Lemma stopped_daily_schedule_rearms_witness :
  exists delay y',
    timeout_resumes utc "times_2"
      [ {| hour := 9; minute := 30 |}; {| hour := 15; minute := 30 |} ]
      (Resolved VUndef)
      {| executionStart := 1728034200000; executionEnd := 1728034205000;
         recordedAt := 1728034205000 |}
      1728034205000 stopped_in_flight = (Ret delay, y')
    /\ ids y' = ["interval_1"]
    /\ live y' = [4%nat; 2%nat; 1%nat]
    /\ In 4%nat (live (snd (stopAllSchedules y'))).
Proof.
  destruct (@stopped_daily_schedule_rearms utc "times_2"
              {| hour := 9; minute := 30 |} [ {| hour := 15; minute := 30 |} ]
              (Resolved VUndef)
              {| executionStart := 1728034200000; executionEnd := 1728034205000;
                 recordedAt := 1728034205000 |}
              1728034205000 stopped_in_flight reachable_stopped_in_flight eq_refl)
    as (o & y' & Hrun & Hsame & Hcase & _).
  assert (Hc : scheduleNext_compute utc
                 [ {| hour := 9; minute := 30 |}; {| hour := 15; minute := 30 |} ]
                 1728034205000
               = Ret (1728055800000, 21595000)) by (vm_compute; reflexivity).
  rewrite Hc in Hcase. destruct Hcase as (Ho & Hlive & _ & _ & _ & Hleft).
  subst o.
  exists 21595000, y'. split; [exact Hrun|].
  split; [unfold ids; rewrite Hsame; vm_compute; reflexivity|].
  split; [rewrite Hlive; vm_compute; reflexivity|exact Hleft].
Defined.

(** [scheduleTimes] on an empty list. *)
Lemma scheduleTimes_empty_effect :
  forall (tz : Zone) (now : Z) (y : Sys),
    Reachable y ->
    exists y',
      scheduleTimes tz [] now y
      = Some (Throw "Cannot read properties of undefined (reading 'hour')", y')
      /\ ids y' = ids y ++ [("times_" ++ show_nat (nextScheduleId (sched y)))%string]
      /\ map_get ("times_" ++ show_nat (nextScheduleId (sched y)))%string
           (activeSchedules (sched y'))
         = Some {| sc_type := TyTimes; sc_intervalId := None; sc_intervalMs := None;
                   sc_executeImmediately := None; sc_times := Some [];
                   sc_startTime := now; sc_lastExecution := None;
                   sc_timeoutId := None; sc_nextExecution := None |}
      /\ nextScheduleId (sched y') = S (nextScheduleId (sched y))
      /\ live y' = live y
      /\ statusUpdateInterval y' = statusUpdateInterval y.
Proof.
  intros tz now y Hreach.
  pose proof (reachable_invariant Hreach) as (_ & Hb & _).
  destruct (fresh_id Hb) as [_ Hfresh].
  assert (Hc : scheduleNext_compute tz [] now
               = Throw "Cannot read properties of undefined (reading 'hour')").
  { unfold scheduleNext_compute. destruct (new_Date _); reflexivity. }
  unfold scheduleTimes, parsedTimes, register_times, scheduleNext, Scheduler.scheduleNext.
  cbn [parseAll sort_times sched live statusUpdateInterval]. rewrite Hc.
  eexists. split; [reflexivity|].
  unfold ids in *. cbn [sched activeSchedules nextScheduleId live statusUpdateInterval].
  rewrite (@map_set_fresh _ _ _ Hfresh).
  split; [rewrite List.map_app; reflexivity|].
  split; [|repeat split].
  rewrite <- (@map_set_fresh _ _ _ Hfresh). apply map_get_set_same.
Qed.

(** X6.  [scheduleTimes] with an empty list of times throws, but only
    after the schedule has been registered: the id is used up, the
    schedule stays in [activeSchedules] with no timeout and no next
    execution, no timer is armed, and the heartbeat is not started by this
    call.  [getScheduleInfo] goes on reporting the schedule, with no next
    execution, until [stopSchedule] is called with its id, which removes
    it and gives [true]. *)
Theorem scheduleTimes_empty_registers_then_throws :
  forall (tz : Zone) (now : Z) (y : Sys),
    Reachable y ->
    exists y',
      scheduleTimes tz [] now y
      = Some (Throw "Cannot read properties of undefined (reading 'hour')", y')
      /\ ids y' = ids y ++ [("times_" ++ show_nat (nextScheduleId (sched y)))%string]
      /\ map_get ("times_" ++ show_nat (nextScheduleId (sched y)))%string
           (activeSchedules (sched y'))
         = Some {| sc_type := TyTimes; sc_intervalId := None; sc_intervalMs := None;
                   sc_executeImmediately := None; sc_times := Some [];
                   sc_startTime := now; sc_lastExecution := None;
                   sc_timeoutId := None; sc_nextExecution := None |}
      /\ nextScheduleId (sched y') = S (nextScheduleId (sched y))
      /\ live y' = live y
      /\ statusUpdateInterval y' = statusUpdateInterval y
      /\ (forall later,
             exists info,
               In info (getScheduleInfo later (sched y'))
               /\ si_id info = ("times_" ++ show_nat (nextScheduleId (sched y)))%string
               /\ si_type info = TyTimes
               /\ si_times info = Some []
               /\ si_nextExecution info = None
               /\ si_nextExecutionFormatted info = None)
      /\ exists y'',
           stopSchedule ("times_" ++ show_nat (nextScheduleId (sched y)))%string y'
           = (true, y'')
           /\ map_get ("times_" ++ show_nat (nextScheduleId (sched y)))%string
                (activeSchedules (sched y''))
              = None
           /\ List.length (ids y'') = List.length (ids y).
Proof.
  intros tz now y Hreach.
  destruct (scheduleTimes_empty_effect tz now Hreach)
    as (y' & Hrun & Hids & Hget & Hnext & Hlive & Hhb).
  exists y'.
  split; [exact Hrun|]. split; [exact Hids|]. split; [exact Hget|].
  split; [exact Hnext|]. split; [exact Hlive|]. split; [exact Hhb|].
  pose proof (reachable_invariant Hreach) as (Hnd & Hb & _).
  destruct (fresh_id Hb) as [_ Hfresh].
  set (id := ("times_" ++ show_nat (nextScheduleId (sched y)))%string) in *.
  split.
  - intros later. eexists. split.
    + unfold getScheduleInfo.
      apply (in_map (fun kv => schedule_info later (fst kv) (snd kv))).
      exact (map_get_in_pair _ _ Hget).
    + cbn [fst snd schedule_info sc_type sc_times sc_nextExecution si_id si_type si_times
             si_nextExecution si_nextExecutionFormatted].
      repeat split.
  - assert (Hnd' : NoDup (ids y')).
    { rewrite Hids. apply NoDup_app; [exact Hnd|repeat constructor; intros []|].
      intros x Hx [Hx'|[]]. subst x. exact (Hfresh Hx). }
    destruct (proj2 (@stopSchedule_effect id y' Hnd') _ Hget)
      as (y'' & Hstop & Hgone & Hlen & _).
    exists y''. split; [exact Hstop|]. split; [exact Hgone|].
    rewrite Hids, List.length_app in Hlen. cbn [List.length] in Hlen. lia.
Qed.

Lemma scheduleTimes_empty_registers_then_throws_witness :
  exists y',
    scheduleTimes utc [] 5000 one_interval
    = Some (Throw "Cannot read properties of undefined (reading 'hour')", y')
    /\ ids y' = ["interval_1"; "times_2"].
Proof.
  destruct (@scheduleTimes_empty_registers_then_throws utc 5000 one_interval
              reachable_one_interval)
    as (y' & Hrun & Hids & _).
  exists y'. split; [exact Hrun|]. rewrite Hids. vm_compute. reflexivity.
Defined.

(** ** The countdown of an interval schedule *)

(** X7.  The countdown [getScheduleInfo] reports for an interval schedule.
    With a positive interval and a clock not before the schedule's start,
    [nextExecutionIn] is more than 0 and at most the interval, and
    [now + nextExecutionIn] is the first whole multiple of the interval
    after [now], counted from the start; the text splits it into whole
    minutes and 0 to 59 seconds.  With an interval of 0 the countdown is
    NaN and the text is ["NaNm NaNs"]. *)
Theorem interval_countdown_spec :
  forall (now startTime intervalMs : Z),
    (0 < intervalMs ->
     startTime <= now ->
     exists n,
       nextExecutionIn (interval_countdown now startTime intervalMs) = Some n
       /\ nextExecutionTime (interval_countdown now startTime intervalMs) = Some (now + n)
       /\ 0 < n <= intervalMs
       /\ now + n = startTime + ((now - startTime) / intervalMs + 1) * intervalMs
       /\ (exists minutes seconds,
              nextExecutionFormatted (interval_countdown now startTime intervalMs)
              = (show_Z minutes ++ "m " ++ show_Z seconds ++ "s")%string
              /\ 0 <= seconds < 60
              /\ 0 <= minutes
              /\ minutes * 60000 + seconds * 1000 <= n < minutes * 60000 + seconds * 1000 + 1000))
    /\ (intervalMs = 0 ->
        interval_countdown now startTime intervalMs
        = {| nextExecutionIn := None; nextExecutionTime := None;
             nextExecutionFormatted := "NaNm NaNs" |}).
Proof.
  intros now startTime intervalMs. split.
  - intros Hpos Hle. unfold interval_countdown, js_rem.
    destruct (Z.eqb_spec intervalMs 0) as [->|_]; [lia|].
    cbn [nextExecutionIn nextExecutionTime nextExecutionFormatted].
    rewrite (Z.rem_mod_nonneg (now - startTime) intervalMs) by lia.
    pose proof (Z.mod_pos_bound (now - startTime) intervalMs Hpos) as Hmod.
    pose proof (Z.div_mod (now - startTime) intervalMs ltac:(lia)) as Hdm.
    set (q := (now - startTime) / intervalMs) in *.
    set (m := (now - startTime) mod intervalMs) in *.
    assert (Hn : Z.max 0 (intervalMs - m) = intervalMs - m) by lia.
    rewrite Hn. set (n := intervalMs - m).
    exists n. split; [reflexivity|]. split; [reflexivity|].
    split; [unfold n; lia|]. split; [unfold n; nia|].
    exists (n / 60000), (Z.rem n 60000 / 1000). split; [reflexivity|].
    assert (Hnpos : 0 < n) by (unfold n; lia).
    rewrite (Z.rem_mod_nonneg n 60000) by lia.
    pose proof (Z.mod_pos_bound n 60000 ltac:(lia)) as Hm60.
    pose proof (Z.div_mod n 60000 ltac:(lia)) as Hd60.
    pose proof (Z.div_mod (n mod 60000) 1000 ltac:(lia)) as Hd1.
    pose proof (Z.mod_pos_bound (n mod 60000) 1000 ltac:(lia)) as Hm1.
    assert (0 <= n / 60000) by (apply Z.div_pos; lia).
    assert (0 <= n mod 60000 / 1000) by (apply Z.div_pos; lia).
    assert (n mod 60000 / 1000 < 60) by (apply Z.div_lt_upper_bound; lia).
    repeat split; lia.
  - intros ->. reflexivity.
Qed.

Lemma interval_countdown_spec_witness :
  exists n,
    nextExecutionIn (interval_countdown 61500 0 60000) = Some n
    /\ 0 < n <= 60000
    /\ 61500 + n = 120000.
Proof.
  destruct (proj1 (interval_countdown_spec 61500 0 60000) ltac:(lia) ltac:(lia))
    as (n & Hn & _ & Hbound & Hnext & _).
  exists n. split; [exact Hn|]. split; [exact Hbound|].
  rewrite Hnext. vm_compute. reflexivity.
Defined.

(** ** The heartbeat *)

Lemma heartbeat_ticks_run (n : nat) :
  forall (y : Sys),
    activeSchedules (sched y) <> [] ->
    (logCounter y < 12)%nat ->
    fst (heartbeat_ticks n y)
    = List.map (fun k => Some (((logCounter y + k) mod 12 =? 0)%nat)) (seq 1 n)
    /\ sched (snd (heartbeat_ticks n y)) = sched y
    /\ live (snd (heartbeat_ticks n y)) = live y
    /\ statusUpdateInterval (snd (heartbeat_ticks n y)) = statusUpdateInterval y
    /\ logCounter (snd (heartbeat_ticks n y)) = ((logCounter y + n) mod 12)%nat.
Proof.
  induction n as [|n IH]; intros y Hne Hlt.
  - cbn [heartbeat_ticks fst snd seq List.map]. rewrite Nat.add_0_r.
    rewrite Nat.mod_small by exact Hlt. repeat split.
  - cbn [heartbeat_ticks]. unfold heartbeat_tick.
    destruct (activeSchedules (sched y)) as [|kv rest] eqn:Hm; [congruence|].
    set (y1 := {| sched := sched y; live := live y;
                  statusUpdateInterval := statusUpdateInterval y;
                  logCounter := if (12 <=? S (logCounter y))%nat then 0%nat
                                else S (logCounter y) |}).
    assert (Hne1 : activeSchedules (sched y1) <> []) by (unfold y1; cbn [sched]; congruence).
    assert (Hc1 : logCounter y1 = (S (logCounter y) mod 12)%nat).
    { unfold y1. cbn [logCounter]. destruct (Nat.leb_spec 12 (S (logCounter y))).
      - replace (S (logCounter y)) with 12%nat by lia. reflexivity.
      - rewrite Nat.mod_small by lia. reflexivity. }
    assert (Hlt1 : (logCounter y1 < 12)%nat).
    { rewrite Hc1. apply Nat.mod_upper_bound. lia. }
    destruct (IH y1 Hne1 Hlt1) as (Hflags & Hs & Hl & Hh & Hc).
    destruct (heartbeat_ticks n y1) as [flags y2]. cbn [fst snd] in *.
    split; [|split; [exact Hs|split; [exact Hl|split; [exact Hh|]]]].
    + cbn [seq List.map]. f_equal.
      * f_equal. destruct (Nat.leb_spec 12 (S (logCounter y))).
        -- replace (logCounter y + 1)%nat with 12%nat by lia. reflexivity.
        -- rewrite Nat.mod_small by lia. destruct (Nat.eqb_spec (logCounter y + 1) 0); lia.
      * rewrite Hflags. rewrite <- (seq_shift n 1). rewrite List.map_map.
        apply List.map_ext. intros k. rewrite Hc1. do 2 f_equal.
        rewrite Nat.Div0.add_mod_idemp_l. f_equal. lia.
    + rewrite Hc, Hc1. rewrite Nat.Div0.add_mod_idemp_l. f_equal. lia.
Qed.

(** X8.  The heartbeat publishes on every tick that finds a schedule but
    asks for a log entry only on every twelfth one: of [n] ticks in a row
    after the heartbeat started, the [k]-th calls
    [updateScheduleStatus(true)] exactly when 12 divides [k], so [n / 12]
    of them do; a tick that finds no schedule does nothing and does not
    count.  Ticks change neither the schedules nor the timers. *)
Theorem heartbeat_logs_every_twelfth :
  forall (n : nat) (y : Sys),
    (activeSchedules (sched y) <> [] ->
     logCounter y = 0%nat ->
     (forall k, (k < n)%nat ->
                nth_error (fst (heartbeat_ticks n y)) k = Some (Some ((S k mod 12 =? 0)%nat)))
     /\ List.length (fst (heartbeat_ticks n y)) = n
     /\ List.length (List.filter (fun f => match f with Some true => true | _ => false end)
                       (fst (heartbeat_ticks n y))) = (n / 12)%nat
     /\ sched (snd (heartbeat_ticks n y)) = sched y
     /\ live (snd (heartbeat_ticks n y)) = live y)
    /\ (activeSchedules (sched y) = [] ->
        heartbeat_ticks n y = (List.repeat None n, y)).
Proof.
  intros n y. split.
  - intros Hne Hzero.
    destruct (@heartbeat_ticks_run n y Hne ltac:(lia)) as (Hflags & Hs & Hl & _ & _).
    rewrite Hzero in Hflags. cbn [Nat.add] in Hflags.
    split; [|split; [|split; [|split; [exact Hs|exact Hl]]]].
    + intros k Hk. rewrite Hflags.
      rewrite nth_error_map, nth_error_seq.
      destruct (Nat.ltb_spec k n); [reflexivity|lia].
    + rewrite Hflags, List.length_map, List.length_seq. reflexivity.
    + rewrite Hflags. clear.
      assert (H : forall m,
                 List.length
                   (List.filter (fun f : option bool => match f with Some true => true | _ => false end)
                      (List.map (fun k => Some ((k mod 12 =? 0)%nat)) (seq 1 m)))
                 = (m / 12)%nat).
      { induction m as [|m IH]; [reflexivity|].
        rewrite seq_S, List.map_app, List.filter_app, List.length_app, IH.
        cbn [List.map List.filter Nat.add].
        pose proof (Nat.div_mod_eq m 12) as Hm.
        pose proof (Nat.div_mod_eq (S m) 12) as HS.
        pose proof (Nat.mod_upper_bound m 12 ltac:(lia)) as Hb.
        pose proof (Nat.mod_upper_bound (S m) 12 ltac:(lia)) as HbS.
        destruct (Nat.eqb_spec (S m mod 12) 0) as [Hz|Hnz]; cbn [List.length]; nia. }
      apply H.
  - intros Hnil. induction n as [|n IH]; [reflexivity|].
    cbn [heartbeat_ticks List.repeat]. unfold heartbeat_tick. rewrite Hnil.
    rewrite IH. reflexivity.
Qed.

Lemma heartbeat_logs_every_twelfth_witness :
  List.length (List.filter (fun f => match f with Some true => true | _ => false end)
                 (fst (heartbeat_ticks 30 one_interval))) = 2%nat.
Proof.
  apply (proj1 (heartbeat_logs_every_twelfth 30 one_interval)).
  - vm_compute. discriminate.
  - vm_compute. reflexivity.
Defined.

End SchedulerRuntimeFacts.

(* ===================================================================== *)
(** * trading.js: retries *)
(* ===================================================================== *)

Module RetryFacts.
Import JS Engine Trading Traces.
Import TradingFacts.
Open Scope string_scope.
Open Scope list_scope.
Open Scope Z_scope.

Lemma service_eqb_refl (svc : Service) : service_eqb svc svc = true.
Proof. destruct svc; reflexivity. Qed.

Lemma calls_after_request (w : World) (svc : Service) (s : State) :
  calls svc (trace (after_request w svc s)) = S (calls svc (trace s)).
Proof.
  unfold after_request, request. cbn [snd trace calls].
  rewrite service_eqb_refl. reflexivity.
Qed.

Section Loop.
Variable w : World.
Variable svc : Service.
Variable answers : nat -> Fetched jsval.
Variable attempt_of : Fetched jsval -> outcome jsval.
Variable loop : Z -> Z -> nat -> M (option jsval).
Variable line : string.

(** One pass of the loop. *)
Hypothesis pass :
  forall (maxRetries attempt : Z) (left : nat) (s : State),
    loop maxRetries attempt (S left) s
    = if attempt <=? maxRetries then
        match attempt_of (answers (calls svc (trace s))) with
        | Ret data => (Ret (Some data), after_request w svc s)
        | Throw e =>
            if attempt =? maxRetries then (Throw e, failed_pass w svc line s)
            else loop maxRetries (attempt + 1) left
                   (backed_off (1000 * attempt) (failed_pass w svc line s))
        end
      else (Ret None, s).

Lemma calls_backed_off (a : Z) (s : State) :
  calls svc (trace (backed_off a (failed_pass w svc line s))) = S (calls svc (trace s)).
Proof.
  unfold backed_off, failed_pass. cbn [trace calls]. apply calls_after_request.
Qed.

Lemma sleeps_backed_off (a : Z) (s : State) :
  sleeps (trace (backed_off a (failed_pass w svc line s))) = sleeps (trace s) ++ [a].
Proof. reflexivity. Qed.

Lemma loop_succeeds (maxRetries : nat) (data : jsval) (k : nat) :
  forall (a left : nat) (s : State),
    (a + k <= maxRetries)%nat ->
    (k < left)%nat ->
    (forall i, (i < k)%nat ->
               exists e, attempt_of (answers (calls svc (trace s) + i)%nat) = Throw e) ->
    attempt_of (answers (calls svc (trace s) + k)%nat) = Ret data ->
    exists s',
      loop (Z.of_nat maxRetries) (Z.of_nat a) left s = (Ret (Some data), s')
      /\ calls svc (trace s') = (calls svc (trace s) + k + 1)%nat
      /\ sleeps (trace s')
         = sleeps (trace s) ++ List.map (fun i => 1000 * Z.of_nat i) (seq a k).
Proof.
  induction k as [|k IH]; intros a left s Hle Hleft Hfail Hgood;
    (destruct left as [|left]; [lia|]); rewrite pass;
    (destruct (Z.leb_spec (Z.of_nat a) (Z.of_nat maxRetries)); [|lia]).
  - rewrite Nat.add_0_r in Hgood. rewrite Hgood.
    eexists. split; [reflexivity|]. rewrite calls_after_request.
    split; [lia|]. cbn [seq List.map]. rewrite app_nil_r. reflexivity.
  - destruct (Hfail 0%nat ltac:(lia)) as [e He]. rewrite Nat.add_0_r in He. rewrite He.
    destruct (Z.eqb_spec (Z.of_nat a) (Z.of_nat maxRetries)); [lia|].
    replace (Z.of_nat a + 1) with (Z.of_nat (S a)) by lia.
    destruct (IH (S a) left (backed_off (1000 * Z.of_nat a) (failed_pass w svc line s)))
      as (s' & Hrun & Hcalls & Hsleeps).
    + lia.
    + lia.
    + intros i Hi. rewrite calls_backed_off.
      replace (S (calls svc (trace s)) + i)%nat with (calls svc (trace s) + S i)%nat by lia.
      apply Hfail. lia.
    + rewrite calls_backed_off.
      replace (S (calls svc (trace s)) + k)%nat with (calls svc (trace s) + S k)%nat by lia.
      exact Hgood.
    + exists s'. split; [exact Hrun|]. rewrite Hcalls, Hsleeps, calls_backed_off.
      split; [lia|]. rewrite sleeps_backed_off. cbn [seq List.map].
      rewrite <- app_assoc. reflexivity.
Qed.

Lemma loop_gives_up (maxRetries : nat) (e : string) (k : nat) :
  forall (a left : nat) (s : State),
    (a + k = maxRetries)%nat ->
    (k < left)%nat ->
    (forall i, (i < k)%nat ->
               exists e', attempt_of (answers (calls svc (trace s) + i)%nat) = Throw e') ->
    attempt_of (answers (calls svc (trace s) + k)%nat) = Throw e ->
    exists s',
      loop (Z.of_nat maxRetries) (Z.of_nat a) left s = (Throw e, s')
      /\ calls svc (trace s') = (calls svc (trace s) + k + 1)%nat
      /\ sleeps (trace s')
         = sleeps (trace s) ++ List.map (fun i => 1000 * Z.of_nat i) (seq a k).
Proof.
  induction k as [|k IH]; intros a left s Hle Hleft Hfail Hlast;
    (destruct left as [|left]; [lia|]); rewrite pass;
    (destruct (Z.leb_spec (Z.of_nat a) (Z.of_nat maxRetries)); [|lia]).
  - rewrite Nat.add_0_r in Hlast. rewrite Hlast.
    destruct (Z.eqb_spec (Z.of_nat a) (Z.of_nat maxRetries)); [|lia].
    eexists. split; [reflexivity|]. unfold failed_pass. cbn [trace calls sleeps].
    rewrite calls_after_request. split; [lia|].
    cbn [seq List.map]. rewrite app_nil_r. reflexivity.
  - destruct (Hfail 0%nat ltac:(lia)) as [e' He]. rewrite Nat.add_0_r in He. rewrite He.
    destruct (Z.eqb_spec (Z.of_nat a) (Z.of_nat maxRetries)); [lia|].
    replace (Z.of_nat a + 1) with (Z.of_nat (S a)) by lia.
    destruct (IH (S a) left (backed_off (1000 * Z.of_nat a) (failed_pass w svc line s)))
      as (s' & Hrun & Hcalls & Hsleeps).
    + lia.
    + lia.
    + intros i Hi. rewrite calls_backed_off.
      replace (S (calls svc (trace s)) + i)%nat with (calls svc (trace s) + S i)%nat by lia.
      apply Hfail. lia.
    + rewrite calls_backed_off.
      replace (S (calls svc (trace s)) + k)%nat with (calls svc (trace s) + S k)%nat by lia.
      exact Hlast.
    + exists s'. split; [exact Hrun|]. rewrite Hcalls, Hsleeps, calls_backed_off.
      split; [lia|]. rewrite sleeps_backed_off. cbn [seq List.map].
      rewrite <- app_assoc. reflexivity.
Qed.

Lemma loop_retries : RetriesWithBackoff w svc answers attempt_of loop.
Proof.
  intros maxRetries s Hpos base. subst base. split.
  - intros k data Hk Hfail Hgood.
    exact (@loop_succeeds maxRetries data k 1 maxRetries s ltac:(lia) ltac:(lia) Hfail Hgood).
  - intros e Hfail Hlast.
    destruct (@loop_gives_up maxRetries e (maxRetries - 1) 1 maxRetries s
                ltac:(lia) ltac:(lia) Hfail Hlast) as (s' & Hrun & Hcalls & Hsleeps).
    exists s'. split; [exact Hrun|]. split; [lia|exact Hsleeps].
Qed.

End Loop.

Lemma quote_pass (w : World) (maxRetries attempt : Z) (left : nat) (s : State) :
  quote_loop w maxRetries attempt (S left) s
  = if attempt <=? maxRetries then
      match quote_attempt (w_quote w (calls SvcQuote (trace s))) with
      | Ret data => (Ret (Some data), after_request w SvcQuote s)
      | Throw e =>
          if attempt =? maxRetries
          then (Throw e,
                failed_pass w SvcQuote
                  "Quote attempt ${attempt}/${maxRetries} failed: ${error.message}" s)
          else quote_loop w maxRetries (attempt + 1) left
                 (backed_off (1000 * attempt)
                    (failed_pass w SvcQuote
                       "Quote attempt ${attempt}/${maxRetries} failed: ${error.message}" s))
      end
    else (Ret None, s).
Proof.
  cbn [quote_loop]. destruct (attempt <=? maxRetries); [|reflexivity].
  destruct s as [clk tr cache ctime].
  unfold quote_attempt, retry_catch, failed_pass, backed_off, after_request. run.
  cbv beta iota delta [clock trace jupiterTokensCache jupiterTokensCacheTime snd].
  destruct (w_quote w (calls SvcQuote tr)) as [m|ok status text [quoteData|m]];
    [destruct (attempt =? maxRetries); reflexivity
    |destruct ok; cbn [negb]
    |destruct ok; cbn [negb]];
    try (destruct (attempt =? maxRetries); reflexivity).
  destruct (get_prop quoteData "outAmount") as [outAmount|m];
    [|destruct (attempt =? maxRetries); reflexivity].
  destruct (negb (truthy outAmount) || is_string_zero outAmount);
    [destruct (attempt =? maxRetries); reflexivity|reflexivity].
Qed.

Lemma swaptx_pass (w : World) (maxRetries attempt : Z) (left : nat) (s : State) :
  swaptx_loop w maxRetries attempt (S left) s
  = if attempt <=? maxRetries then
      match swaptx_attempt (w_swaptx w (calls SvcSwapTx (trace s))) with
      | Ret data => (Ret (Some data), after_request w SvcSwapTx s)
      | Throw e =>
          if attempt =? maxRetries
          then (Throw e,
                failed_pass w SvcSwapTx
                  "Swap transaction attempt ${attempt}/${maxRetries} failed: ${error.message}" s)
          else swaptx_loop w maxRetries (attempt + 1) left
                 (backed_off (1000 * attempt)
                    (failed_pass w SvcSwapTx
                       "Swap transaction attempt ${attempt}/${maxRetries} failed: ${error.message}" s))
      end
    else (Ret None, s).
Proof.
  cbn [swaptx_loop]. destruct (attempt <=? maxRetries); [|reflexivity].
  destruct s as [clk tr cache ctime].
  unfold swaptx_attempt, retry_catch, failed_pass, backed_off, after_request. run.
  cbv beta iota delta [clock trace jupiterTokensCache jupiterTokensCacheTime snd].
  destruct (w_swaptx w (calls SvcSwapTx tr)) as [m|ok status text [swapData|m]];
    [destruct (attempt =? maxRetries); reflexivity
    |destruct ok; cbn [negb]
    |destruct ok; cbn [negb]];
    try (destruct (attempt =? maxRetries); reflexivity).
  destruct (get_prop swapData "swapTransaction") as [tx|m];
    [|destruct (attempt =? maxRetries); reflexivity].
  destruct (negb (truthy tx));
    [destruct (attempt =? maxRetries); reflexivity|reflexivity].
Qed.

(** X9.  The two retry loops of [swap], for the quote and for the swap
    transaction, make one request per attempt and stop at the first answer
    that passes; after a failed attempt that is not the last they wait
    [1000 * attempt] ms (1 s, 2 s, ...); when all [maxRetries] attempts
    fail, the error of the last one is thrown at once, with no wait after
    it. *)
Theorem swap_retry_loops_back_off :
  forall (w : World),
    RetriesWithBackoff w SvcQuote (w_quote w) quote_attempt (quote_loop w)
    /\ RetriesWithBackoff w SvcSwapTx (w_swaptx w) swaptx_attempt (swaptx_loop w).
Proof.
  intros w. split.
  - exact (@loop_retries w SvcQuote (w_quote w) quote_attempt (quote_loop w) _ (quote_pass w)).
  - exact (@loop_retries w SvcSwapTx (w_swaptx w) swaptx_attempt (swaptx_loop w) _
             (swaptx_pass w)).
Qed.

Lemma swap_retry_loops_back_off_witness :
  exists s',
    quote_loop MoreSamples.flaky 3 1 3 (initial 0) = (Ret (Some Samples.a_quote), s')
    /\ calls SvcQuote (trace s') = 3%nat
    /\ sleeps (trace s') = [1000; 2000].
Proof.
  destruct (proj1 (proj1 (swap_retry_loops_back_off MoreSamples.flaky) 3%nat (initial 0)
                     ltac:(lia))
              2%nat Samples.a_quote ltac:(lia))
    as (s' & Hrun & Hcalls & Hsleeps).
  - intros i Hi. destruct i as [|[|i]]; [eexists; reflexivity|eexists; reflexivity|lia].
  - reflexivity.
  - exists s'. split; [exact Hrun|]. split; [exact Hcalls|exact Hsleeps].
Defined.

End RetryFacts.

(* ===================================================================== *)
(** * trading.js: [swap], [transfer] and the token lookup *)
(* ===================================================================== *)

Module SwapFacts.
Import JS Engine Trading Traces.
Import TradingFacts RetryFacts.
Open Scope string_scope.
Open Scope list_scope.
Open Scope Z_scope.

Lemma calls_after_other (w : World) (svc' svc : Service) (s : State) :
  service_eqb svc' svc = false ->
  calls svc (trace (after_request w svc' s)) = calls svc (trace s).
Proof.
  intros H. unfold after_request, request. cbn [snd trace calls]. rewrite H. reflexivity.
Qed.

Lemma getJupiterTokens_calls (w : World) (svc : Service) :
  service_eqb SvcTokens svc = false ->
  forall s, calls svc (trace (snd (getJupiterTokens w s))) = calls svc (trace s).
Proof.
  intros Hsvc s. destruct s as [clk tr cache ctime]. unfold getJupiterTokens. run.
  cbv beta iota delta [clock trace jupiterTokensCache jupiterTokensCacheTime].
  destruct (no_cache cache || (CACHE_DURATION <? clk - ctime)); [|reflexivity].
  destruct (w_tokens w (calls SvcTokens tr)) as [m|[] status text [body|m]];
    cbn [snd trace calls lift]; try destruct (no_cache cache); cbn [snd trace calls];
    rewrite ?Hsvc; reflexivity.
Qed.

Lemma quote_loop_calls (w : World) (svc : Service) (maxRetries : Z) :
  service_eqb SvcQuote svc = false ->
  forall (left : nat) (attempt : Z) (s : State),
    calls svc (trace (snd (quote_loop w maxRetries attempt left s))) = calls svc (trace s).
Proof.
  intros Hsvc. induction left as [|left IH]; intros attempt s; [reflexivity|].
  rewrite quote_pass. destruct (attempt <=? maxRetries); [|reflexivity].
  destruct (quote_attempt _) as [data|e].
  - cbn [snd]. apply calls_after_other. exact Hsvc.
  - destruct (attempt =? maxRetries).
    + cbn [snd]. unfold failed_pass. cbn [trace calls]. apply calls_after_other. exact Hsvc.
    + rewrite IH. unfold backed_off, failed_pass. cbn [trace calls].
      apply calls_after_other. exact Hsvc.
Qed.

Lemma swaptx_loop_calls (w : World) (svc : Service) (maxRetries : Z) :
  service_eqb SvcSwapTx svc = false ->
  forall (left : nat) (attempt : Z) (s : State),
    calls svc (trace (snd (swaptx_loop w maxRetries attempt left s))) = calls svc (trace s).
Proof.
  intros Hsvc. induction left as [|left IH]; intros attempt s; [reflexivity|].
  rewrite swaptx_pass. destruct (attempt <=? maxRetries); [|reflexivity].
  destruct (swaptx_attempt _) as [data|e].
  - cbn [snd]. apply calls_after_other. exact Hsvc.
  - destruct (attempt =? maxRetries).
    + cbn [snd]. unfold failed_pass. cbn [trace calls]. apply calls_after_other. exact Hsvc.
    + rewrite IH. unfold backed_off, failed_pass. cbn [trace calls].
      apply calls_after_other. exact Hsvc.
Qed.

Lemma prop_of_total (v : option jsval) (k' k : string) (a : jsval) :
  prop_of v k = Ret a -> exists b, prop_of v k' = Ret b.
Proof.
  destruct v as [[| |b|n|str|items|fields]|]; cbn [prop_of get_prop]; try discriminate;
    intros _; try (eexists; reflexivity);
    destruct (k' =? "length")%string; eexists; reflexivity.
Qed.

Lemma swap_prepare_signs (w : World) (walletId fromSym toSym : string) (amount : jsnum)
    (walletAddress : string) (options : SwapOptions) (s : State) :
  match swap_prepare w walletId fromSym toSym amount walletAddress options s with
  | (Ret p, s1) =>
      calls SvcSign (trace s1) = S (calls SvcSign (trace s))
      /\ pr_request p = calls SvcSign (trace s)
      /\ exists routePlan, prop_of (pr_quoteData p) "routePlan" = Ret routePlan
  | (Throw e, s1) => calls SvcSign (trace s1) = calls SvcSign (trace s)
  end.
Proof.
  unfold swap_prepare. run.
  pose proof (@getJupiterTokens_calls w SvcSign eq_refl s) as H1.
  destruct (getJupiterTokens w s) as [[tokens|e] s1]; cbn [snd] in H1; [|exact H1].
  destruct (find_token tokens fromSym) as [fromInfo|e]; [|exact H1].
  destruct (find_token tokens toSym) as [toInfo|e]; [|exact H1].
  destruct fromInfo as [fromInfo|]; [|exact H1].
  destruct toInfo as [toInfo|]; [|exact H1].
  destruct (raw_units w amount (tk_decimals fromInfo)) as [rawAmount|e]; [|exact H1].
  match goal with
  | |- context [quote_loop w ?R ?a ?l s1] =>
      pose proof (@quote_loop_calls w SvcSign R eq_refl l a s1) as H2;
      destruct (quote_loop w R a l s1) as [[quoteData|e] s2]
  end; cbn [snd] in H2; [|congruence].
  destruct (prop_of quoteData "outAmount") as [outAmount|e] eqn:Hout; [|congruence].
  destruct (@prop_of_total quoteData "priceImpactPct" _ _ Hout) as [impact ->].
  match goal with
  | |- context [swaptx_loop w ?R ?a ?l s2] =>
      pose proof (@swaptx_loop_calls w SvcSign R eq_refl l a s2) as H3;
      destruct (swaptx_loop w R a l s2) as [[swapData|e] s3]
  end; cbn [snd] in H3; [|congruence].
  destruct (prop_of swapData "swapTransaction") as [tx|e]; [|congruence].
  destruct (rt_deserialize w tx) as [u|e]; [|congruence].
  cbn [trace calls service_eqb pr_request pr_quoteData].
  split; [congruence|]. split; [congruence|].
  exact (@prop_of_total quoteData "routePlan" _ _ Hout).
Qed.

Lemma swap_send_signs (w : World) (walletId fromSym toSym : string) (amount : jsnum)
    (walletAddress : string) (options : SwapOptions) (s : State) :
  match swap_send w walletId fromSym toSym amount walletAddress options s with
  | (Ret sent, s1) =>
      calls SvcSign (trace s1) = S (calls SvcSign (trace s))
      /\ w_sign w (calls SvcSign (trace s)) = Ret (sent_hash sent)
  | (Throw e, s1) =>
      (calls SvcSign (trace s1) = calls SvcSign (trace s) /\ exists msg, e = AnError msg)
      \/ (calls SvcSign (trace s1) = S (calls SvcSign (trace s))
          /\ w_sign w (calls SvcSign (trace s)) = Throw e)
  end.
Proof.
  pose proof (swap_prepare_signs w walletId fromSym toSym amount walletAddress options s)
    as Hp.
  unfold swap_send. run.
  destruct (swap_prepare w walletId fromSym toSym amount walletAddress options s)
    as [[p|e] s1].
  - destruct Hp as (Hc & Hn & routePlan & Hr). rewrite Hn, Hr.
    destruct (w_sign w (calls SvcSign (trace s))) as [hash|e];
      cbn [trace calls service_eqb sent_hash].
    + split; [exact Hc|reflexivity].
    + right. split; [exact Hc|reflexivity].
  - left. split; [exact Hp|]. exists e. reflexivity.
Qed.

Lemma swap_confirm_returns (w : World) (confirm : bool) (s : State) :
  exists s', swap_confirm w confirm s = (Ret tt, s')
             /\ calls SvcSign (trace s') = calls SvcSign (trace s).
Proof.
  unfold swap_confirm. destruct confirm; [|eexists; split; reflexivity]. run.
  cbn [trace calls].
  destruct (w_confirm w _) as [err|m]; [destruct (truthy err)|];
    eexists; (split; [reflexivity|]); reflexivity.
Qed.

Lemma classify_cases (msg : string) :
  In (classify msg)
     ["insufficient_funds"; "slippage_exceeded"; "timeout"; "no_route"; "unknown"].
Proof.
  unfold classify.
  destruct (includes "insufficient" msg); [left; reflexivity|].
  destruct (includes "slippage" msg); [right; left; reflexivity|].
  destruct (includes "timeout" msg); [right; right; left; reflexivity|].
  destruct (includes "route" msg); [right; right; right; left; reflexivity|].
  right; right; right; right; left; reflexivity.
Qed.

Lemma swap_outcome :
  forall (w : World) (walletId fromSym toSym : string) (amount : jsnum)
         (walletAddress : string) (options : SwapOptions) (s : State),
    exists o s',
      swap w walletId fromSym toSym amount walletAddress options s = (o, s')
      /\ (calls SvcSign (trace s') = calls SvcSign (trace s)
          \/ calls SvcSign (trace s') = S (calls SvcSign (trace s)))
      /\ match o with
         | Ret r =>
             (success r = true ->
              calls SvcSign (trace s') = S (calls SvcSign (trace s))
              /\ (exists hash, w_sign w (calls SvcSign (trace s)) = Ret hash
                               /\ signature r = Some hash)
              /\ error r = None /\ errorCategory r = None)
             /\ (success r = false ->
                 signature r = None
                 /\ exists msg,
                     error r = Some msg
                     /\ errorCategory r = Some (classify msg)
                     /\ In (classify msg)
                           ["insufficient_funds"; "slippage_exceeded"; "timeout";
                            "no_route"; "unknown"]
                     /\ (calls SvcSign (trace s') = S (calls SvcSign (trace s)) ->
                         w_sign w (calls SvcSign (trace s)) = Throw (AnError msg)))
         | Throw e =>
             calls SvcSign (trace s') = S (calls SvcSign (trace s))
             /\ ((w_sign w (calls SvcSign (trace s)) = Throw NoMessage
                  /\ e = "Cannot read properties of undefined (reading 'includes')")
                 \/ (w_sign w (calls SvcSign (trace s)) = Throw RejectedNull
                     /\ e = "Cannot read properties of null (reading 'message')")
                 \/ (w_sign w (calls SvcSign (trace s)) = Throw RejectedUndefined
                     /\ e = "Cannot read properties of undefined (reading 'message')"))
         end.
Proof.
  intros w walletId fromSym toSym amount walletAddress options s.
  pose proof (swap_send_signs w walletId fromSym toSym amount walletAddress options s) as Hs.
  unfold swap, swap_finish, swap_catch. run.
  destruct (swap_send w walletId fromSym toSym amount walletAddress options s)
    as [[sent|e] s1].
  - destruct Hs as [Hcalls Hsign].
    destruct (swap_confirm_returns w (or_default true (confirmTransaction options)) s1)
      as (s2 & Hc & Hc2).
    rewrite Hc. eexists. eexists. split; [reflexivity|].
    cbn [success signature error errorCategory].
    split; [right; congruence|]. split.
    + intros _. split; [congruence|]. split; [|split; reflexivity].
      exists (sent_hash sent). split; [exact Hsign|reflexivity].
    + discriminate.
  - destruct e as [msg| | |]; cbn [message_read];
      eexists; eexists; (split; [reflexivity|]).
    + cbn [failure success signature error errorCategory].
      split; [destruct Hs as [[H _]|[H _]]; [left|right]; exact H|].
      split; [discriminate|].
      intros _. split; [reflexivity|]. exists msg. split; [reflexivity|].
      split; [reflexivity|]. split; [apply classify_cases|].
      intros Hone. destruct Hs as [[H _]|[_ H]]; [lia|exact H].
    + destruct Hs as [[_ [msg Hmsg]]|[Hone Hsign]]; [discriminate Hmsg|].
      split; [right; exact Hone|]. split; [exact Hone|].
      left. split; [exact Hsign|reflexivity].
    + destruct Hs as [[_ [msg Hmsg]]|[Hone Hsign]]; [discriminate Hmsg|].
      split; [right; exact Hone|]. split; [exact Hone|].
      right. left. split; [exact Hsign|reflexivity].
    + destruct Hs as [[_ [msg Hmsg]]|[Hone Hsign]]; [discriminate Hmsg|].
      split; [right; exact Hone|]. split; [exact Hone|].
      right. right. split; [exact Hsign|reflexivity].
Qed.

Lemma find_first (A : Type) (f : A -> bool) (l : list A) (x : A) :
  List.find f l = Some x ->
  exists before after,
    l = before ++ x :: after /\ f x = true /\ forall y, In y before -> f y = false.
Proof.
  induction l as [|a l IH]; cbn [List.find]; [discriminate|].
  destruct (f a) eqn:Hfa.
  - intros H. inversion H; subst a. exists [], l. split; [reflexivity|].
    split; [exact Hfa|intros y []].
  - intros H. destruct (IH H) as (before & after & -> & Hx & Hbefore).
    exists (a :: before), after. split; [reflexivity|]. split; [exact Hx|].
    intros y [<-|Hy]; [exact Hfa|exact (Hbefore y Hy)].
Qed.

Lemma find_same (A : Type) (f g : A -> bool) (l : list A) :
  (forall x, f x = g x) -> List.find f l = List.find g l.
Proof.
  intros H. induction l as [|a l IH]; cbn [List.find]; [reflexivity|].
  rewrite H, IH. reflexivity.
Qed.

Lemma find_none_all (A : Type) (f : A -> bool) (l : list A) :
  List.find f l = None -> forall y, In y l -> f y = false.
Proof. intros H y Hy. exact (List.find_none f l H y Hy). Qed.

(** [getTokenMintAddress] in terms of the directory it was given. *)
Lemma getTokenMintAddress_on (w : World) (symbol : string) (s : State) :
  getTokenMintAddress w symbol s
  = (Ret match fst (getJupiterTokens w s) with
         | Ret (Some tokens) =>
             match List.find (symbol_matches symbol) tokens with
             | Some tk => {| mr_success := true; mr_mintAddress := Some (tk_address tk);
                             mr_tokenInfo := Some tk; mr_error := None |}
             | None => {| mr_success := false; mr_mintAddress := None; mr_tokenInfo := None;
                          mr_error := Some ("Token with symbol '" ++ symbol ++ "' not found")%string |}
             end
         | Ret None => {| mr_success := false; mr_mintAddress := None; mr_tokenInfo := None;
                          mr_error := Some "Cannot read properties of null (reading 'find')" |}
         | Throw e => {| mr_success := false; mr_mintAddress := None; mr_tokenInfo := None;
                         mr_error := Some e |}
         end,
     snd (getJupiterTokens w s)).
Proof.
  unfold getTokenMintAddress. run.
  destruct (getJupiterTokens w s) as [[[tokens|]|e] s1]; cbn [fst snd find_token];
    [|reflexivity|reflexivity].
  destruct (List.find (symbol_matches symbol) tokens); reflexivity.
Qed.

Lemma symbol_matches_upper (a b : string) (t : Token) :
  toUpperCase a = toUpperCase b -> symbol_matches a t = symbol_matches b t.
Proof. intros H. unfold symbol_matches. rewrite H. reflexivity. Qed.

(** X12.  [getTokenMintAddress] never rejects.  On success it returns the
    first token of the directory whose symbol equals the requested one up
    to letter case (tokens without a symbol never match); on failure it
    returns no address and a message, which is
    "Token with symbol '<symbol>' not found" when the directory was there.
    Two spellings that differ only in case get the same token. *)
Theorem getTokenMintAddress_first_match_ignoring_case :
  forall (w : World) (symbol : string) (s : State),
    exists r s',
      getTokenMintAddress w symbol s = (Ret r, s')
      /\ (mr_success r = true ->
          exists before tk after,
            fst (getJupiterTokens w s) = Ret (Some (before ++ tk :: after))
            /\ symbol_matches symbol tk = true
            /\ (forall t, In t before -> symbol_matches symbol t = false)
            /\ mr_mintAddress r = Some (tk_address tk)
            /\ mr_tokenInfo r = Some tk
            /\ mr_error r = None)
      /\ (mr_success r = false ->
          mr_mintAddress r = None
          /\ exists msg,
              mr_error r = Some msg
              /\ forall tokens,
                  fst (getJupiterTokens w s) = Ret (Some tokens) ->
                  msg = ("Token with symbol '" ++ symbol ++ "' not found")%string
                  /\ forall t, In t tokens -> symbol_matches symbol t = false)
      /\ (forall symbol',
             toUpperCase symbol' = toUpperCase symbol ->
             exists r',
               getTokenMintAddress w symbol' s = (Ret r', s')
               /\ mr_success r' = mr_success r
               /\ mr_mintAddress r' = mr_mintAddress r
               /\ mr_tokenInfo r' = mr_tokenInfo r).
Proof.
  intros w symbol s. eexists. eexists. split; [apply getTokenMintAddress_on|].
  destruct (getJupiterTokens w s) as [[[tokens|]|e] s1] eqn:Hdir; cbn [fst snd].
  - destruct (List.find (symbol_matches symbol) tokens) as [tk|] eqn:Hfind;
      cbn [mr_success mr_mintAddress mr_tokenInfo mr_error].
    + split; [|split; [discriminate|]].
      * intros _. destruct (find_first _ _ Hfind) as (before & after & -> & Htk & Hbefore).
        exists before, tk, after. repeat split; try reflexivity; assumption.
      * intros symbol' Hup. rewrite getTokenMintAddress_on, Hdir. cbn [fst snd].
        rewrite (@find_same _ (symbol_matches symbol') (symbol_matches symbol) tokens (fun t => @symbol_matches_upper symbol' symbol t Hup)).
        rewrite Hfind. eexists. repeat split.
    + split; [discriminate|]. split.
      * intros _. split; [reflexivity|]. eexists. split; [reflexivity|].
        intros tokens' Heq. inversion Heq; subst tokens'. split; [reflexivity|].
        exact (find_none_all _ _ Hfind).
      * intros symbol' Hup. rewrite getTokenMintAddress_on, Hdir. cbn [fst snd].
        rewrite (@find_same _ (symbol_matches symbol') (symbol_matches symbol) tokens (fun t => @symbol_matches_upper symbol' symbol t Hup)).
        rewrite Hfind. eexists. repeat split.
  - cbn [mr_success mr_mintAddress mr_tokenInfo mr_error].
    split; [discriminate|]. split.
    + intros _. split; [reflexivity|]. eexists. split; [reflexivity|]. intros ? H; discriminate H.
    + intros symbol' Hup. rewrite getTokenMintAddress_on, Hdir. eexists. repeat split.
  - cbn [mr_success mr_mintAddress mr_tokenInfo mr_error].
    split; [discriminate|]. split.
    + intros _. split; [reflexivity|]. eexists. split; [reflexivity|]. intros ? H; discriminate H.
    + intros symbol' Hup. rewrite getTokenMintAddress_on, Hdir. eexists. repeat split.
Qed.

Lemma getTokenMintAddress_first_match_ignoring_case_witness :
  exists r s',
    getTokenMintAddress Samples.calm "usdc" (initial 0) = (Ret r, s')
    /\ mr_mintAddress r = Some (tk_address Samples.USDC).
Proof.
  destruct (getTokenMintAddress_first_match_ignoring_case Samples.calm "USDC" (initial 0))
    as (r & s' & Hrun & Hok & _ & Hcase).
  destruct (Hcase "usdc" eq_refl) as (r' & Hrun' & _ & Hmint & _).
  exists r', s'. split; [exact Hrun'|]. rewrite Hmint.
  assert (Hr : mr_success r = true).
  { assert (H : r = match fst (getTokenMintAddress Samples.calm "USDC" (initial 0)) with
                    | Ret x => x
                    | Throw _ => r
                    end) by (rewrite Hrun; reflexivity).
    rewrite H. vm_compute. reflexivity. }
  destruct (Hok Hr) as (before & tk & after & Hdir & Hmatch & _ & Haddr & _).
  rewrite Haddr. f_equal.
  vm_compute in Hdir. inversion Hdir as [Hlist].
  destruct before as [|b0 [|b1 before]].
  - inversion Hlist; subst tk. vm_compute in Hmatch. discriminate Hmatch.
  - inversion Hlist; subst. reflexivity.
  - inversion Hlist as [[H0 H1]]. destruct before; discriminate.
Defined.



(** X11.  [swap] gives up as soon as the directory does not know one of
    the two symbols: the result is the failure
    "Token not found: <from> or <to>" and nothing happens after the
    directory lookup, so no quote, no swap transaction and no signature is
    requested.  A directory that was read as [null] ends the call the same
    way, with the TypeError of [tokens.find] and the category "unknown". *)
Theorem swap_unknown_token_fails_fast :
  forall (w : World) (walletId fromSym toSym : string) (amount : jsnum)
         (walletAddress : string) (options : SwapOptions) (s : State),
    (forall tokens,
        fst (getJupiterTokens w s) = Ret (Some tokens) ->
        List.find (symbol_matches fromSym) tokens = None
        \/ List.find (symbol_matches toSym) tokens = None ->
        let msg := ("Token not found: " ++ fromSym ++ " or " ++ toSym)%string in
        swap w walletId fromSym toSym amount walletAddress options s
        = (Ret (failure msg (Some (classify msg))
                  (Some (clock (snd (getJupiterTokens w s))))),
           snd (getJupiterTokens w s)))
    /\ (fst (getJupiterTokens w s) = Ret None ->
        swap w walletId fromSym toSym amount walletAddress options s
        = (Ret (failure "Cannot read properties of null (reading 'find')" (Some "unknown")
                  (Some (clock (snd (getJupiterTokens w s))))),
           snd (getJupiterTokens w s))).
Proof.
  intros w walletId fromSym toSym amount walletAddress options s.
  unfold swap, swap_send, swap_prepare, swap_catch. run.
  destruct (getJupiterTokens w s) as [[[tokens|]|e] s1]; cbn [fst snd]; split.
  - intros tokens' Heq Hmiss. inversion Heq; subst tokens'. cbn [find_token].
    destruct Hmiss as [H|H]; rewrite H.
    + destruct (List.find (symbol_matches toSym) tokens); reflexivity.
    + destruct (List.find (symbol_matches fromSym) tokens); reflexivity.
  - intros H. discriminate H.
  - intros tokens' Heq. discriminate Heq.
  - intros _. reflexivity.
  - intros tokens' Heq. discriminate Heq.
  - intros H. discriminate H.
Qed.

Lemma swap_unknown_token_fails_fast_witness :
  exists s',
    swap Samples.calm "w1" "SOL" "DOGE" (Fin 1) Samples.alice no_options (initial 0)
    = (Ret (failure "Token not found: SOL or DOGE" (Some "unknown") (Some 100)), s')
    /\ calls SvcQuote (trace s') = 0%nat.
Proof.
  eexists. split.
  - apply (proj1 (swap_unknown_token_fails_fast Samples.calm "w1" "SOL" "DOGE" (Fin 1)
                    Samples.alice no_options (initial 0)) Samples.directory).
    + vm_compute. reflexivity.
    + right. vm_compute. reflexivity.
  - vm_compute. reflexivity.
Defined.


(** ** [transfer] *)

Lemma checkTokenAccountExists_on (w : World) (walletAddress mintAddress : string)
    (s : State) :
  checkTokenAccountExists w walletAddress mintAddress s
  = match rt_public_key w walletAddress, rt_public_key w mintAddress with
    | Ret _, Ret _ =>
        (Ret match w_token_accounts w (calls SvcTokenAccounts (trace s)) with
             | Ret count => (0 <? count)%nat
             | Throw _ => false
             end,
         after_request w SvcTokenAccounts s)
    | _, _ => (Ret false, s)
    end.
Proof.
  unfold checkTokenAccountExists, after_request. run.
  destruct (rt_public_key w walletAddress); [|reflexivity].
  destruct (rt_public_key w mintAddress); [|reflexivity].
  destruct (w_token_accounts w _); reflexivity.
Qed.

Lemma checkTokenAccountExists_calls (w : World) (walletAddress mintAddress : string)
    (svc : Service) (s : State) :
  service_eqb SvcTokenAccounts svc = false ->
  calls svc (trace (snd (checkTokenAccountExists w walletAddress mintAddress s)))
  = calls svc (trace s).
Proof.
  intros Hsvc. rewrite checkTokenAccountExists_on.
  destruct (rt_public_key w walletAddress); [|reflexivity].
  destruct (rt_public_key w mintAddress); [|reflexivity].
  cbn [snd]. apply calls_after_other. exact Hsvc.
Qed.

Lemma transfer_prepare_signs (w : World) (walletId fromAddr toAddr tokenSymbol : string)
    (amount : jsnum) (s : State) :
  match transfer_prepare w walletId fromAddr toAddr tokenSymbol amount s with
  | (Ret n, s1) =>
      calls SvcSign (trace s1) = S (calls SvcSign (trace s))
      /\ n = calls SvcSign (trace s)
  | (Throw e, s1) => calls SvcSign (trace s1) = calls SvcSign (trace s)
  end.
Proof.
  unfold transfer_prepare. run.
  destruct (rt_public_key w fromAddr) as [fromPublicKey|e]; [|reflexivity].
  destruct (rt_public_key w toAddr) as [toPublicKey|e]; [|reflexivity].
  cbn [trace calls service_eqb].
  destruct (w_blockhash w _) as [bh|e]; [|reflexivity].
  destruct (toUpperCase tokenSymbol =? "SOL")%string.
  - destruct (rt_compile w _) as [u|e]; cbn [trace calls service_eqb];
      [split; reflexivity|reflexivity].
  - match goal with
    | |- context [getTokenMintAddress w tokenSymbol ?st] => set (s0 := st)
    end.
    assert (H0 : calls SvcSign (trace s0) = calls SvcSign (trace s)) by reflexivity.
    rewrite getTokenMintAddress_on.
    pose proof (@getJupiterTokens_calls w SvcSign eq_refl s0) as H1.
    set (s1 := snd (getJupiterTokens w s0)) in *.
    match goal with
    | |- context [mr_success ?x] => destruct x as [ok mint info err]
    end.
    cbn [mr_success mr_mintAddress mr_tokenInfo mr_error].
    destruct ok; [|congruence].
    destruct mint as [mintAddress|]; [|congruence].
    destruct info as [tokenInfo|]; [|congruence].
    destruct (rt_public_key w mintAddress) as [mintPublicKey|e]; [|congruence].
    destruct (raw_units w amount (tk_decimals tokenInfo)) as [rawAmount|e];
      [|congruence].
    destruct (rt_associated w mintPublicKey fromPublicKey) as [fromTokenAccount|e];
      [|congruence].
    destruct (rt_associated w mintPublicKey toPublicKey) as [toTokenAccount|e];
      [|congruence].
    pose proof (@checkTokenAccountExists_calls w toAddr mintAddress SvcSign s1 eq_refl) as H2.
    destruct (checkTokenAccountExists w toAddr mintAddress s1) as [[toAccountExists|e] s2];
      cbn [snd] in H2; [|congruence].
    destruct (rt_compile w _) as [u|e]; cbn [trace calls service_eqb];
      [split; congruence|congruence].
Qed.

Lemma transfer_send_signs (w : World) (walletId fromAddr toAddr tokenSymbol : string)
    (amount : jsnum) (s : State) :
  match transfer_send w walletId fromAddr toAddr tokenSymbol amount s with
  | (Ret hash, s1) =>
      calls SvcSign (trace s1) = S (calls SvcSign (trace s))
      /\ w_sign w (calls SvcSign (trace s)) = Ret hash
  | (Throw e, s1) =>
      (calls SvcSign (trace s1) = calls SvcSign (trace s) /\ exists msg, e = AnError msg)
      \/ (calls SvcSign (trace s1) = S (calls SvcSign (trace s))
          /\ w_sign w (calls SvcSign (trace s)) = Throw e)
  end.
Proof.
  pose proof (transfer_prepare_signs w walletId fromAddr toAddr tokenSymbol amount s) as Hp.
  unfold transfer_send. run.
  destruct (transfer_prepare w walletId fromAddr toAddr tokenSymbol amount s)
    as [[n|e] s1].
  - destruct Hp as (Hc & ->).
    destruct (w_sign w (calls SvcSign (trace s))) as [hash|e];
      cbn [trace calls service_eqb].
    + split; [exact Hc|reflexivity].
    + right. split; [exact Hc|reflexivity].
  - left. split; [exact Hp|]. exists e. reflexivity.
Qed.

Lemma transfer_confirm_returns (w : World) (s : State) :
  exists early s', transfer_confirm w s = (Ret early, s')
                   /\ calls SvcSign (trace s') = calls SvcSign (trace s)
                   /\ match early with
                      | Some r => success r = false /\ signature r = None
                                  /\ exists msg, error r = Some msg
                      | None => True
                      end.
Proof.
  unfold transfer_confirm. run. cbn [trace calls].
  destruct (w_confirm w _) as [err|m]; [destruct (truthy err)|];
    eexists; eexists; (split; [reflexivity|]); (split; [reflexivity|]);
    cbn [failure success signature error]; try exact I.
  split; [reflexivity|]. split; [reflexivity|]. eexists. reflexivity.
Qed.

Lemma transfer_outcome :
  forall (w : World) (walletId fromAddr toAddr tokenSymbol : string)
         (amount : jsnum) (s : State),
    exists o s',
      transfer w walletId fromAddr toAddr tokenSymbol amount s = (o, s')
      /\ (calls SvcSign (trace s') = calls SvcSign (trace s)
          \/ calls SvcSign (trace s') = S (calls SvcSign (trace s)))
      /\ match o with
         | Ret r =>
             (success r = true ->
              calls SvcSign (trace s') = S (calls SvcSign (trace s))
              /\ (exists hash, w_sign w (calls SvcSign (trace s)) = Ret hash
                               /\ signature r = Some hash)
              /\ error r = None)
             /\ (success r = false ->
                 signature r = None /\ errorCategory r = None
                 /\ ((exists msg, error r = Some msg)
                     \/ (error r = None
                         /\ calls SvcSign (trace s') = S (calls SvcSign (trace s))
                         /\ w_sign w (calls SvcSign (trace s)) = Throw NoMessage)))
         | Throw e =>
             calls SvcSign (trace s') = S (calls SvcSign (trace s))
             /\ ((w_sign w (calls SvcSign (trace s)) = Throw RejectedNull
                  /\ e = "Cannot read properties of null (reading 'message')")
                 \/ (w_sign w (calls SvcSign (trace s)) = Throw RejectedUndefined
                     /\ e = "Cannot read properties of undefined (reading 'message')"))
         end.
Proof.
  intros w walletId fromAddr toAddr tokenSymbol amount s.
  pose proof (transfer_send_signs w walletId fromAddr toAddr tokenSymbol amount s) as Hs.
  unfold transfer, transfer_finish, transfer_catch. run.
  destruct (transfer_send w walletId fromAddr toAddr tokenSymbol amount s)
    as [[hash|e] s1].
  - destruct Hs as [Hcalls Hsign].
    destruct (transfer_confirm_returns w s1) as (early & s2 & Hc & Hc2 & Hearly).
    rewrite Hc. destruct early as [r|].
    + destruct Hearly as (Hf & Hsig & msg & Hmsg).
      eexists. eexists. split; [reflexivity|].
      split; [right; congruence|]. split; [rewrite Hf; discriminate|].
      intros _. split; [exact Hsig|]. split; [|left; exists msg; exact Hmsg].
      unfold transfer_confirm in Hc. revert Hc. run.
      destruct (w_confirm w _) as [err|m]; [destruct (truthy err)|];
        intros Hc; inversion Hc; reflexivity.
    + eexists. eexists. split; [reflexivity|].
      cbn [success signature error errorCategory].
      split; [right; congruence|]. split; [|discriminate].
      intros _. split; [congruence|]. split; [|reflexivity].
      exists hash. split; [exact Hsign|reflexivity].
  - destruct e as [msg| | |]; cbn [message_read];
      eexists; eexists; (split; [reflexivity|]).
    + cbn [rejected success signature error errorCategory].
      split; [destruct Hs as [[H _]|[H _]]; [left|right]; exact H|].
      split; [discriminate|].
      intros _. split; [reflexivity|]. split; [reflexivity|].
      left. exists msg. reflexivity.
    + destruct Hs as [[_ [msg Hmsg]]|[Hone Hsign]]; [discriminate Hmsg|].
      cbn [rejected success signature error errorCategory].
      split; [right; exact Hone|]. split; [discriminate|].
      intros _. split; [reflexivity|]. split; [reflexivity|].
      right. split; [reflexivity|]. split; [exact Hone|exact Hsign].
    + destruct Hs as [[_ [msg Hmsg]]|[Hone Hsign]]; [discriminate Hmsg|].
      split; [right; exact Hone|]. split; [exact Hone|].
      left. split; [exact Hsign|reflexivity].
    + destruct Hs as [[_ [msg Hmsg]]|[Hone Hsign]]; [discriminate Hmsg|].
      split; [right; exact Hone|]. split; [exact Hone|].
      right. split; [exact Hsign|reflexivity].
Qed.

(** X10.  One call of [swap] or [transfer] sends at most one transaction
    to the signer, whatever the retries before it, and every failure that
    comes with a message is returned as a result object.  A result with
    [success = true] carries the signature the signer returned and no
    error; a failed [swap] carries no signature, the error message and one
    of the five categories, and when the signer was reached at all it is
    the signer's own rejection that is reported; so a [swap] whose
    transaction the signer accepted reports success, whatever the
    confirmation did.  With the other services rejecting with [Error]s,
    the calls themselves reject in one situation only, after the
    transaction went to the signer: when the signer rejects with a value
    that has no message (a string, say), the [catch] block of [swap] throws
    the TypeError of [error.message.includes] and [swap] rejects with it,
    while [transfer] returns a failure without an error text; when the
    signer rejects with [null] or [undefined], reading [error.message]
    throws in both. *)
Theorem swap_and_transfer_sign_at_most_once :
  (forall (w : World) (walletId fromSym toSym : string) (amount : jsnum)
          (walletAddress : string) (options : SwapOptions) (s : State),
      exists o s',
        swap w walletId fromSym toSym amount walletAddress options s = (o, s')
        /\ (calls SvcSign (trace s') = calls SvcSign (trace s)
            \/ calls SvcSign (trace s') = S (calls SvcSign (trace s)))
        /\ match o with
           | Ret r =>
               (success r = true ->
                calls SvcSign (trace s') = S (calls SvcSign (trace s))
                /\ (exists hash, w_sign w (calls SvcSign (trace s)) = Ret hash
                                 /\ signature r = Some hash)
                /\ error r = None /\ errorCategory r = None)
               /\ (success r = false ->
                   signature r = None
                   /\ exists msg,
                       error r = Some msg
                       /\ errorCategory r = Some (classify msg)
                       /\ In (classify msg)
                             ["insufficient_funds"; "slippage_exceeded"; "timeout";
                              "no_route"; "unknown"]
                       /\ (calls SvcSign (trace s') = S (calls SvcSign (trace s)) ->
                           w_sign w (calls SvcSign (trace s)) = Throw (AnError msg)))
               /\ (forall hash,
                      calls SvcSign (trace s') = S (calls SvcSign (trace s)) ->
                      w_sign w (calls SvcSign (trace s)) = Ret hash ->
                      success r = true /\ signature r = Some hash)
           | Throw e =>
               calls SvcSign (trace s') = S (calls SvcSign (trace s))
               /\ ((w_sign w (calls SvcSign (trace s)) = Throw NoMessage
                    /\ e = "Cannot read properties of undefined (reading 'includes')")
                   \/ (w_sign w (calls SvcSign (trace s)) = Throw RejectedNull
                       /\ e = "Cannot read properties of null (reading 'message')")
                   \/ (w_sign w (calls SvcSign (trace s)) = Throw RejectedUndefined
                       /\ e = "Cannot read properties of undefined (reading 'message')"))
           end
        /\ (forall rejection,
               calls SvcSign (trace s') = S (calls SvcSign (trace s)) ->
               w_sign w (calls SvcSign (trace s)) = Throw rejection ->
               (forall msg, rejection <> AnError msg) ->
               exists e, o = Throw e))
  /\ (forall (w : World) (walletId fromAddr toAddr tokenSymbol : string)
             (amount : jsnum) (s : State),
         exists o s',
           transfer w walletId fromAddr toAddr tokenSymbol amount s = (o, s')
           /\ (calls SvcSign (trace s') = calls SvcSign (trace s)
               \/ calls SvcSign (trace s') = S (calls SvcSign (trace s)))
           /\ match o with
              | Ret r =>
                  (success r = true ->
                   calls SvcSign (trace s') = S (calls SvcSign (trace s))
                   /\ (exists hash, w_sign w (calls SvcSign (trace s)) = Ret hash
                                    /\ signature r = Some hash)
                   /\ error r = None)
                  /\ (success r = false ->
                      signature r = None /\ errorCategory r = None
                      /\ ((exists msg, error r = Some msg)
                          \/ (error r = None
                              /\ calls SvcSign (trace s') = S (calls SvcSign (trace s))
                              /\ w_sign w (calls SvcSign (trace s)) = Throw NoMessage)))
              | Throw e =>
                  calls SvcSign (trace s') = S (calls SvcSign (trace s))
                  /\ ((w_sign w (calls SvcSign (trace s)) = Throw RejectedNull
                       /\ e = "Cannot read properties of null (reading 'message')")
                      \/ (w_sign w (calls SvcSign (trace s)) = Throw RejectedUndefined
                          /\ e = "Cannot read properties of undefined (reading 'message')"))
              end).
Proof.
  split.
  - intros w walletId fromSym toSym amount walletAddress options s.
    destruct (swap_outcome w walletId fromSym toSym amount walletAddress options s)
      as (o & s' & Hrun & Hcount & Ho).
    exists o, s'.
    split; [exact Hrun|]. split; [exact Hcount|].
    destruct o as [r|e].
    + destruct Ho as [Hok Hko]. split.
      * split; [exact Hok|]. split; [exact Hko|].
        intros hash Hsent Hsigned.
        destruct (success r) eqn:Hs.
        -- destruct (Hok eq_refl) as (_ & (hash' & Hsigned' & Hsig) & _).
           rewrite Hsigned in Hsigned'. inversion Hsigned'; subst hash'.
           split; [reflexivity|exact Hsig].
        -- destruct (Hko eq_refl) as (_ & msg & _ & _ & _ & Hrejected).
           rewrite (Hrejected Hsent) in Hsigned. discriminate.
      * intros rejection Hsent Hrejects Hbare. exfalso.
        destruct (success r) eqn:Hs.
        -- destruct (Hok eq_refl) as (_ & (hash & Hsigned & _) & _).
           rewrite Hrejects in Hsigned. discriminate.
        -- destruct (Hko eq_refl) as (_ & msg & _ & _ & _ & Hrejected).
           rewrite (Hrejected Hsent) in Hrejects. inversion Hrejects as [Heq].
           exact (Hbare msg (eq_sym Heq)).
    + split; [exact Ho|]. intros _ _ _ _. exists e. reflexivity.
  - exact transfer_outcome.
Qed.

Lemma swap_and_transfer_sign_at_most_once_witness :
  exists s',
    swap MoreSamples.denied "w1" "SOL" "USDC" (Fin 1) Samples.alice no_options (initial 0)
    = (Throw "Cannot read properties of undefined (reading 'includes')", s')
    /\ calls SvcSign (trace s') = 1%nat.
Proof.
  destruct (proj1 swap_and_transfer_sign_at_most_once MoreSamples.denied "w1" "SOL" "USDC"
              (Fin 1) Samples.alice no_options (initial 0))
    as (o & s' & Hrun & _ & Ho & Hrejects).
  assert (Hone : calls SvcSign (trace s') = 1%nat).
  { assert (H : s' = snd (swap MoreSamples.denied "w1" "SOL" "USDC" (Fin 1) Samples.alice
                            no_options (initial 0))) by (rewrite Hrun; reflexivity).
    rewrite H. vm_compute. reflexivity. }
  destruct (Hrejects NoMessage Hone eq_refl) as [e ->];
    [intros msg H; discriminate H|].
  destruct Ho as (_ & [[_ ->]|[[H _]|[H _]]]);
    [|vm_compute in H; discriminate H|vm_compute in H; discriminate H].
  exists s'. split; [exact Hrun|exact Hone].
Defined.



Lemma getJupiterTokens_transactions (w : World) (s : State) :
  transactions (trace (snd (getJupiterTokens w s))) = transactions (trace s).
Proof.
  destruct s as [clk tr cache ctime]. unfold getJupiterTokens. run.
  cbv beta iota delta [clock trace jupiterTokensCache jupiterTokensCacheTime].
  destruct (no_cache cache || (CACHE_DURATION <? clk - ctime)); [|reflexivity].
  destruct (w_tokens w (calls SvcTokens tr)) as [m|[] status text [body|m]];
    cbn [snd trace transactions lift]; try destruct (no_cache cache);
    reflexivity.
Qed.

Lemma transfer_confirm_transactions (w : World) (s : State) :
  transactions (trace (snd (transfer_confirm w s))) = transactions (trace s).
Proof.
  unfold transfer_confirm. run.
  destruct (w_confirm w _) as [err|m]; [destruct (truthy err)|]; reflexivity.
Qed.

Lemma transfer_state (w : World) (walletId fromAddr toAddr tokenSymbol : string)
    (amount : jsnum) (s : State) :
  snd (transfer w walletId fromAddr toAddr tokenSymbol amount s)
  = match transfer_send w walletId fromAddr toAddr tokenSymbol amount s with
    | (Ret hash, s1) => snd (transfer_finish w fromAddr toAddr tokenSymbol amount hash s1)
    | (Throw _, s1) => s1
    end.
Proof.
  unfold transfer, transfer_catch. run.
  destruct (transfer_send w walletId fromAddr toAddr tokenSymbol amount s) as [[hash|e] s1];
    [|destruct e; reflexivity].
  destruct (transfer_finish w fromAddr toAddr tokenSymbol amount hash s1) as [[r|e] s2];
    reflexivity.
Qed.

Lemma transfer_finish_frame (w : World) (fromAddr toAddr tokenSymbol : string)
    (amount : jsnum) (hash : string) (s : State) :
  transactions (trace (snd (transfer_finish w fromAddr toAddr tokenSymbol amount hash s)))
  = transactions (trace s)
  /\ forall svc, service_eqb SvcConfirm svc = false ->
                 calls svc (trace (snd (transfer_finish w fromAddr toAddr tokenSymbol amount
                                          hash s)))
                 = calls svc (trace s).
Proof.
  unfold transfer_finish, transfer_confirm. run.
  destruct (w_confirm w _) as [err|m]; [destruct (truthy err)|];
    (split; [reflexivity|]); intros svc Hsvc; cbn [snd trace calls]; rewrite Hsvc;
    reflexivity.
Qed.

(** [Math.floor(amount * 1e9)] *)
Lemma transfer_send_sol (w : World) (walletId fromAddr toAddr tokenSymbol : string)
    (amount : jsnum) (s : State) (fromPublicKey toPublicKey blockhash : string) :
  rt_public_key w fromAddr = Ret fromPublicKey ->
  rt_public_key w toAddr = Ret toPublicKey ->
  w_blockhash w (calls SvcBlockhash (trace s)) = Ret blockhash ->
  toUpperCase tokenSymbol = "SOL" ->
  let instructions :=
    [SystemTransfer fromPublicKey toPublicKey
       (js_floor (js_mul amount (Fin (inject_Z 1000000000))))] in
  let s1 := snd (transfer_send w walletId fromAddr toAddr tokenSymbol amount s) in
  transactions (trace s1)
  = transactions (trace s)
    ++ match rt_compile w instructions with Ret _ => [instructions] | Throw _ => [] end
  /\ calls SvcSign (trace s1)
     = match rt_compile w instructions with
       | Ret _ => S (calls SvcSign (trace s))
       | Throw _ => calls SvcSign (trace s)
       end
  /\ calls SvcTokens (trace s1) = calls SvcTokens (trace s)
  /\ calls SvcTokenAccounts (trace s1) = calls SvcTokenAccounts (trace s).
Proof.
  intros Hfrom Hto Hbh Hsol. unfold transfer_send, transfer_prepare. run.
  rewrite Hfrom, Hto. cbn [trace calls service_eqb]. rewrite Hbh.
  apply String.eqb_eq in Hsol. rewrite Hsol.
  destruct (rt_compile w _) as [u|e]; cbn [trace calls service_eqb snd transactions].
  - destruct (w_sign w _) as [hash|e]; cbn [snd trace transactions calls service_eqb];
      repeat split; reflexivity.
  - rewrite app_nil_r. repeat split; reflexivity.
Qed.

Lemma transfer_send_spl (w : World) (walletId fromAddr toAddr tokenSymbol : string)
    (amount : jsnum) (s : State) (fromPublicKey toPublicKey blockhash : string)
    (tokenInfo : Token) (mintPublicKey fromTokenAccount toTokenAccount : string)
    (rawAmount : Z) :
  rt_public_key w fromAddr = Ret fromPublicKey ->
  rt_public_key w toAddr = Ret toPublicKey ->
  w_blockhash w (calls SvcBlockhash (trace s)) = Ret blockhash ->
  toUpperCase tokenSymbol <> "SOL" ->
  fst (getTokenMintAddress w tokenSymbol (after_request w SvcBlockhash s))
  = Ret {| mr_success := true; mr_mintAddress := Some (tk_address tokenInfo);
           mr_tokenInfo := Some tokenInfo; mr_error := None |} ->
  rt_public_key w (tk_address tokenInfo) = Ret mintPublicKey ->
  raw_units w amount (tk_decimals tokenInfo) = Ret rawAmount ->
  rt_associated w mintPublicKey fromPublicKey = Ret fromTokenAccount ->
  rt_associated w mintPublicKey toPublicKey = Ret toTokenAccount ->
  let instructions :=
    match w_token_accounts w (calls SvcTokenAccounts (trace s)) with
    | Ret (S _) => []
    | _ => [CreateAssociatedTokenAccount fromPublicKey toTokenAccount
              toPublicKey mintPublicKey]
    end
    ++ [TokenTransfer fromTokenAccount toTokenAccount fromPublicKey rawAmount] in
  let s1 := snd (transfer_send w walletId fromAddr toAddr tokenSymbol amount s) in
  transactions (trace s1)
  = transactions (trace s)
    ++ match rt_compile w instructions with Ret _ => [instructions] | Throw _ => [] end
  /\ calls SvcSign (trace s1)
     = match rt_compile w instructions with
       | Ret _ => S (calls SvcSign (trace s))
       | Throw _ => calls SvcSign (trace s)
       end.
Proof.
  intros Hfrom Hto Hbh Hsol Hmint Hmk Hraw Hfa Hta. unfold transfer_send, transfer_prepare.
  run.
  rewrite Hfrom, Hto. cbn [trace calls service_eqb]. rewrite Hbh.
  apply String.eqb_neq in Hsol. rewrite Hsol.
  match goal with
  | |- context [getTokenMintAddress w tokenSymbol ?st] =>
      change st with (after_request w SvcBlockhash s)
  end.
  set (s0 := after_request w SvcBlockhash s) in *.
  pose proof (f_equal snd (getTokenMintAddress_on w tokenSymbol s0)) as Hon.
  destruct (getTokenMintAddress w tokenSymbol s0) as [o s1'].
  cbn [fst snd] in Hmint, Hon. subst o s1'.
  cbn [mr_success mr_mintAddress mr_tokenInfo].
  rewrite Hmk, Hraw, Hfa, Hta.
  rewrite checkTokenAccountExists_on, Hto, Hmk.
  pose proof (getJupiterTokens_transactions w s0) as Ht.
  pose proof (@getJupiterTokens_calls w SvcTokenAccounts eq_refl s0) as Hc.
  pose proof (@getJupiterTokens_calls w SvcSign eq_refl s0) as Hg.
  set (s1 := snd (getJupiterTokens w s0)) in *.
  assert (Hc0 : calls SvcTokenAccounts (trace s1) = calls SvcTokenAccounts (trace s))
    by (rewrite Hc; reflexivity).
  assert (Ht0 : transactions (trace s1) = transactions (trace s))
    by (rewrite Ht; reflexivity).
  assert (Hg0 : calls SvcSign (trace s1) = calls SvcSign (trace s))
    by (rewrite Hg; reflexivity).
  rewrite Hc0.
  destruct (w_token_accounts w (calls SvcTokenAccounts (trace s))) as [[|n]|e];
    cbn [Nat.ltb Nat.leb];
    (destruct (rt_compile w _) as [u|e'];
     [destruct (w_sign w _) as [hash|e'']|rewrite app_nil_r]);
    cbn [snd trace transactions calls service_eqb after_request request];
    rewrite Ht0, Hg0; split; reflexivity.
Qed.

(** X13.  What [transfer] puts in the transaction it signs, and that it
    signs nothing when the transaction cannot be built.  For SOL, in any
    letter case, it is the single system transfer of
    [Math.floor(amount * 1e9)] lamports, the product being the double
    nearest to the exact one, and neither the token directory nor the
    token-account lookup is asked.  For another token it is the token
    transfer of [BigInt(Math.floor(amount * Math.pow(10, decimals)))] raw
    units between the two associated accounts, preceded by the creation of
    the recipient's account unless the lookup reported at least one
    account: a lookup that fails counts as "no account". *)
Theorem transfer_instructions :
  forall (w : World) (walletId fromAddr toAddr tokenSymbol : string) (amount : jsnum)
         (s : State) (fromPublicKey toPublicKey blockhash : string),
    rt_public_key w fromAddr = Ret fromPublicKey ->
    rt_public_key w toAddr = Ret toPublicKey ->
    w_blockhash w (calls SvcBlockhash (trace s)) = Ret blockhash ->
    let s' := snd (transfer w walletId fromAddr toAddr tokenSymbol amount s) in
    (toUpperCase tokenSymbol = "SOL" ->
     let instructions :=
       [SystemTransfer fromPublicKey toPublicKey
          (js_floor (js_mul amount (Fin (inject_Z 1000000000))))] in
     transactions (trace s')
     = transactions (trace s)
       ++ match rt_compile w instructions with Ret _ => [instructions] | Throw _ => [] end
     /\ calls SvcSign (trace s')
        = match rt_compile w instructions with
          | Ret _ => S (calls SvcSign (trace s))
          | Throw _ => calls SvcSign (trace s)
          end
     /\ calls SvcTokens (trace s') = calls SvcTokens (trace s)
     /\ calls SvcTokenAccounts (trace s') = calls SvcTokenAccounts (trace s))
    /\ (forall (tokenInfo : Token) (mintPublicKey fromTokenAccount toTokenAccount : string)
               (rawAmount : Z),
           toUpperCase tokenSymbol <> "SOL" ->
           fst (getTokenMintAddress w tokenSymbol (after_request w SvcBlockhash s))
           = Ret {| mr_success := true; mr_mintAddress := Some (tk_address tokenInfo);
                    mr_tokenInfo := Some tokenInfo; mr_error := None |} ->
           rt_public_key w (tk_address tokenInfo) = Ret mintPublicKey ->
           raw_units w amount (tk_decimals tokenInfo) = Ret rawAmount ->
           rt_associated w mintPublicKey fromPublicKey = Ret fromTokenAccount ->
           rt_associated w mintPublicKey toPublicKey = Ret toTokenAccount ->
           let instructions :=
             match w_token_accounts w (calls SvcTokenAccounts (trace s)) with
             | Ret (S _) => []
             | _ => [CreateAssociatedTokenAccount fromPublicKey toTokenAccount
                       toPublicKey mintPublicKey]
             end
             ++ [TokenTransfer fromTokenAccount toTokenAccount fromPublicKey rawAmount] in
           transactions (trace s')
           = transactions (trace s)
             ++ match rt_compile w instructions with
                | Ret _ => [instructions]
                | Throw _ => []
                end
           /\ calls SvcSign (trace s')
              = match rt_compile w instructions with
                | Ret _ => S (calls SvcSign (trace s))
                | Throw _ => calls SvcSign (trace s)
                end).
Proof.
  intros w walletId fromAddr toAddr tokenSymbol amount s fromPublicKey toPublicKey blockhash
         Hfrom Hto Hbh s'. subst s'.
  rewrite transfer_state.
  split.
  - intros Hsol instructions.
    pose proof (@transfer_send_sol w walletId fromAddr toAddr tokenSymbol amount s
                  _ _ _ Hfrom Hto Hbh Hsol) as (Ht & Hs & Hc1 & Hc2).
    fold instructions in Ht, Hs.
    destruct (transfer_send w walletId fromAddr toAddr tokenSymbol amount s)
      as [[hash|e] s1]; cbn [snd] in *; [|repeat split; assumption].
    destruct (transfer_finish_frame w fromAddr toAddr tokenSymbol amount hash s1)
      as [Hft Hfc].
    rewrite Hft, !Hfc by reflexivity. repeat split; assumption.
  - intros tokenInfo mintPublicKey fromTokenAccount toTokenAccount rawAmount
           Hsol Hmint Hmk Hraw Hfa Hta instructions.
    pose proof (@transfer_send_spl w walletId fromAddr toAddr tokenSymbol amount s
                  _ _ _ _ _ _ _ _ Hfrom Hto Hbh Hsol Hmint Hmk Hraw Hfa Hta) as (Ht & Hs).
    fold instructions in Ht, Hs.
    destruct (transfer_send w walletId fromAddr toAddr tokenSymbol amount s)
      as [[hash|e] s1]; cbn [snd] in *; [|split; assumption].
    destruct (transfer_finish_frame w fromAddr toAddr tokenSymbol amount hash s1)
      as [Hft Hfc].
    rewrite Hft, !Hfc by reflexivity. split; assumption.
Qed.

Lemma transfer_instructions_witness :
  transactions
    (trace (snd (transfer Samples.calm "w1" Samples.alice Samples.bob "sol"
                   (nearest_double (1001 # 1000)) (initial 0))))
  = [[SystemTransfer Samples.alice Samples.bob (Fin (inject_Z 1000999999))]]
  /\ transactions
       (trace (snd (transfer MoreSamples.blind "w1" Samples.alice Samples.bob "usdc" (Fin 1)
                      (initial 0))))
     = [[CreateAssociatedTokenAccount Samples.alice
           (tk_address Samples.USDC ++ "/" ++ Samples.bob)%string Samples.bob
           (tk_address Samples.USDC);
         TokenTransfer (tk_address Samples.USDC ++ "/" ++ Samples.alice)%string
           (tk_address Samples.USDC ++ "/" ++ Samples.bob)%string Samples.alice 1000000]].
Proof.
  split.
  - refine (eq_trans
              (proj1 (proj1 (@transfer_instructions Samples.calm "w1" Samples.alice
                               Samples.bob "sol" (nearest_double (1001 # 1000)) (initial 0)
                               Samples.alice Samples.bob "bh1" eq_refl eq_refl eq_refl)
                        _)) _);
      vm_compute; reflexivity.
  - refine (eq_trans
              (proj1 (proj2 (@transfer_instructions MoreSamples.blind "w1" Samples.alice
                               Samples.bob "usdc" (Fin 1) (initial 0) Samples.alice
                               Samples.bob "bh1" eq_refl eq_refl eq_refl)
                        Samples.USDC (tk_address Samples.USDC)
                        (tk_address Samples.USDC ++ "/" ++ Samples.alice)%string
                        (tk_address Samples.USDC ++ "/" ++ Samples.bob)%string 1000000
                        _ _ _ _ _ _)) _);
      try (vm_compute; reflexivity).
    vm_compute. discriminate.
Defined.


End SwapFacts.

(* ===================================================================== *)
(** * baseline-dca.js: the balance gate and the one-shot execution *)
(* ===================================================================== *)

Module GateFacts.
Import JS Engine Trading DCA Traces Gate.
Import TradingFacts RetryFacts SwapFacts.
Open Scope string_scope.
Open Scope list_scope.
Open Scope Z_scope.

Lemma balance_pass (w : World) (minimumSOL : jsnum) (fuel : nat) (s : State) :
  exists s1,
    calls SvcBalances (trace s1) = S (calls SvcBalances (trace s))
    /\ (forall svc, service_eqb SvcBalances svc = false ->
                    calls svc (trace s1) = calls svc (trace s))
    /\ transactions (trace s1) = transactions (trace s)
    /\ match balance_reading minimumSOL (w_balances w (calls SvcBalances (trace s))) with
       | Some b =>
           balance_loop w minimumSOL (S fuel) s = (Ret (Some b), s1)
           /\ sleeps (trace s1) = sleeps (trace s)
           /\ clock s1 = clock s + Z.of_N (w_latency w SvcBalances (calls SvcBalances (trace s)))
       | None =>
           balance_loop w minimumSOL (S fuel) s = balance_loop w minimumSOL fuel s1
           /\ sleeps (trace s1) = sleeps (trace s) ++ [60000]
           /\ clock s1 = clock s + Z.of_N (w_latency w SvcBalances (calls SvcBalances (trace s)))
                         + 60000
       end.
Proof.
  cbn [balance_loop]. unfold getBalances, balance_reading, sol_balance. step.
  destruct (w_balances w (calls SvcBalances (trace s))) as [allBalances|m]; step.
  - destruct (js_ge _ minimumSOL); step; eexists;
      (split; [|split; [|split; [|split; [reflexivity|split]]]]);
      try reflexivity;
      try (intros svc Hsvc; change (service_eqb SvcBalances svc = false) in Hsvc;
           cbn [trace calls]; rewrite Hsvc; reflexivity);
      cbn [clock]; lia.
  - eexists;
      (split; [|split; [|split; [|split; [reflexivity|split]]]]);
      try reflexivity;
      try (intros svc Hsvc; change (service_eqb SvcBalances svc = false) in Hsvc;
           cbn [trace calls]; rewrite Hsvc; reflexivity);
      cbn [clock]; lia.
Qed.


Lemma latencies_snoc (w : World) (svc : Service) (n : nat) :
  forall base,
    latencies w svc base (S n)
    = latencies w svc base n + Z.of_N (w_latency w svc (base + n)%nat).
Proof.
  induction n as [|n IH]; intros base.
  - cbn [latencies]. rewrite Nat.add_0_r. lia.
  - change (latencies w svc base (S (S n)))
      with (Z.of_N (w_latency w svc base) + latencies w svc (S base) (S n)).
    rewrite IH. cbn [latencies]. replace (S base + n)%nat with (base + S n)%nat by lia. lia.
Qed.


Lemma balance_loop_returns (w : World) (minimumSOL : jsnum) (fuel : nat) :
  forall s, exists o s', balance_loop w minimumSOL fuel s = (Ret o, s').
Proof.
  induction fuel as [|fuel IH]; intros s; [eexists; eexists; reflexivity|].
  destruct (balance_pass w minimumSOL fuel s) as (s1 & _ & _ & _ & Hpass).
  destruct (balance_reading _ _) as [b|].
  - destruct Hpass as [Hrun _]. eexists; eexists; exact Hrun.
  - destruct Hpass as [Hrun _]. rewrite Hrun. apply IH.
Qed.





Lemma getTokenMintAddress_returns (w : World) (symbol : string) (s : State) :
  exists r s', getTokenMintAddress w symbol s = (Ret r, s').
Proof. eexists. eexists. apply getTokenMintAddress_on. Qed.

Lemma checkTokenAccountExists_returns (w : World) (walletAddress mintAddress : string)
    (s : State) :
  exists b s', checkTokenAccountExists w walletAddress mintAddress s = (Ret b, s').
Proof.
  rewrite checkTokenAccountExists_on.
  destruct (rt_public_key w walletAddress); [|eexists; eexists; reflexivity].
  destruct (rt_public_key w mintAddress); eexists; eexists; reflexivity.
Qed.

Lemma gate_phase_outcome (w : World) (ownerAddress : string) (fuel : nat) (s : State) :
  match w_wallet w (calls SvcWallet (trace s)) with
  | Throw m => exists s', gate_phase w ownerAddress fuel s = (Throw m, s')
  | Ret wallet =>
      exists o s', gate_phase w ownerAddress fuel s = (Ret o, s')
                   /\ (o = Some wallet \/ o = None)
  end.
Proof.
  unfold gate_phase, waitForBalance. step.
  destruct (w_wallet w (calls SvcWallet (trace s))) as [wallet|m]; step;
    [|eexists; reflexivity].
  match goal with
  | |- context [balance_loop w ?m fuel ?st] =>
      destruct (@balance_loop_returns w m fuel st) as (o & s' & Hrun); rewrite Hrun
  end.
  destruct o as [b|]; eexists; eexists; (split; [reflexivity|]); [left|right]; reflexivity.
Qed.

Lemma getTokenMintAddress_frame (w : World) (symbol : string) (svc : Service) (s : State) :
  service_eqb SvcTokens svc = false ->
  exists r s', getTokenMintAddress w symbol s = (Ret r, s')
               /\ calls svc (trace s') = calls svc (trace s).
Proof.
  intros Hsvc. eexists. eexists. split; [apply getTokenMintAddress_on|].
  apply getJupiterTokens_calls. exact Hsvc.
Qed.

Lemma checkTokenAccountExists_frame (w : World) (walletAddress mintAddress : string)
    (svc : Service) (s : State) :
  service_eqb SvcTokenAccounts svc = false ->
  exists b s', checkTokenAccountExists w walletAddress mintAddress s = (Ret b, s')
               /\ calls svc (trace s') = calls svc (trace s).
Proof.
  intros Hsvc.
  pose proof (@checkTokenAccountExists_calls w walletAddress mintAddress svc s Hsvc) as H.
  destruct (checkTokenAccountExists_returns w walletAddress mintAddress s) as (b & s' & Hrun).
  rewrite Hrun in H. exists b, s'. split; [exact Hrun|exact H].
Qed.

Lemma trade_phase_no_balances (w : World) (wallet : Wallet) (fromTok toTok : string)
    (amount : jsnum) (s : State) (m : string) :
  w_balances w (calls SvcBalances (trace s)) = Throw m ->
  exists s',
    trade_phase w wallet fromTok toTok amount s = (Throw m, s')
    /\ calls SvcSign (trace s') = calls SvcSign (trace s).
Proof.
  intros Hbal. unfold trade_phase, getBalances. step. rewrite Hbal. step.
  eexists. split; reflexivity.
Qed.

Lemma trade_phase_signs (w : World) (wallet : Wallet) (fromTok toTok : string)
    (amount : jsnum) (s : State) (allBalances : list Holding) :
  w_balances w (calls SvcBalances (trace s)) = Ret allBalances ->
  exists o s',
    trade_phase w wallet fromTok toTok amount s = (o, s')
    /\ (calls SvcSign (trace s') = calls SvcSign (trace s)
        \/ calls SvcSign (trace s') = S (calls SvcSign (trace s)))
    /\ match o with
       | Ret r =>
           (success r = true ->
            calls SvcSign (trace s') = S (calls SvcSign (trace s))
            /\ exists hash, w_sign w (calls SvcSign (trace s)) = Ret hash
                            /\ signature r = Some hash)
           /\ (success r = false ->
               signature r = None
               /\ (exists msg, error r = Some msg)
               /\ (calls SvcSign (trace s') = S (calls SvcSign (trace s)) ->
                   exists msg, w_sign w (calls SvcSign (trace s)) = Throw (AnError msg)))
       | Throw e =>
           calls SvcSign (trace s') = S (calls SvcSign (trace s))
           /\ exists rejection,
               w_sign w (calls SvcSign (trace s)) = Throw rejection
               /\ forall msg, rejection <> AnError msg
       end.
Proof.
  intros Hbal. unfold trade_phase, getBalances. step. rewrite Hbal. step.
  assert (Hfail : forall msg t (s' : State),
             calls SvcSign (trace s') = calls SvcSign (trace s) ->
             exists o s'0,
               (@Ret string Result (immediate_failure msg t), s') = (o, s'0)
               /\ (calls SvcSign (trace s'0) = calls SvcSign (trace s)
                   \/ calls SvcSign (trace s'0) = S (calls SvcSign (trace s)))
               /\ match o with
                  | Ret r =>
                      (success r = true ->
                       calls SvcSign (trace s'0) = S (calls SvcSign (trace s))
                       /\ exists hash, w_sign w (calls SvcSign (trace s)) = Ret hash
                                       /\ signature r = Some hash)
                      /\ (success r = false ->
                          signature r = None
                          /\ (exists msg, error r = Some msg)
                          /\ (calls SvcSign (trace s'0) = S (calls SvcSign (trace s)) ->
                              exists msg,
                                w_sign w (calls SvcSign (trace s)) = Throw (AnError msg)))
                  | Throw e =>
                      calls SvcSign (trace s'0) = S (calls SvcSign (trace s))
                      /\ exists rejection,
                          w_sign w (calls SvcSign (trace s)) = Throw rejection
                          /\ forall msg, rejection <> AnError msg
                  end).
  { intros msg t s' Hs'. eexists. eexists. split; [reflexivity|].
    split; [left; exact Hs'|]. cbn [immediate_failure success signature error].
    split; [discriminate|]. intros _. split; [reflexivity|].
    split; [eexists; reflexivity|]. intros Hone. lia. }
  destruct (List.find _ allBalances) as [tokenObj|]; [|apply Hfail; reflexivity].
  destruct (js_lt (h_uiAmount tokenObj) amount); [apply Hfail; reflexivity|].
  step.
  match goal with
  | |- context [getTokenMintAddress w toTok ?st] =>
      destruct (@getTokenMintAddress_frame w toTok SvcSign st eq_refl) as (tr & s1 & Hrun & H1);
      destruct (getTokenMintAddress w toTok st) as [o1 s1']; inversion Hrun; subst o1 s1';
      clear Hrun
  end.
  cbn [trace calls service_eqb] in H1.
  destruct tr as [ok mint info err]. cbn [mr_success mr_mintAddress mr_error].
  destruct ok; [|apply Hfail; exact H1].
  destruct mint as [toTokenMintAddress|]; [|apply Hfail; exact H1].
  match goal with
  | |- context [checkTokenAccountExists w ?a ?b ?st] =>
      destruct (@checkTokenAccountExists_frame w a b SvcSign st eq_refl)
        as (accountExists & s2 & Hrun & H2);
      destruct (checkTokenAccountExists w a b st) as [o2 s2']; inversion Hrun; subst o2 s2';
      clear Hrun
  end.
  cbn [trace calls service_eqb] in H2.
  assert (H2' : calls SvcSign (trace s2) = calls SvcSign (trace s)) by congruence.
  destruct accountExists; step.
  all: destruct ((toUpperCase fromTok =? "SOL")%string && js_lt (h_uiAmount tokenObj) minRequiredSOL);
    step; try (apply Hfail; cbn [trace calls service_eqb]; exact H2').
  all: match goal with
       | |- context [swap ?w0 ?a ?b ?c ?d ?e ?f ?st] =>
           destruct (swap_outcome w0 a b c d e f st) as (o3 & s3 & Hrun & Hle & Ho);
           destruct (swap w0 a b c d e f st) as [o3' s3']; inversion Hrun; subst o3' s3';
           clear Hrun
       end.
  all: destruct o3 as [r|e];
    [destruct Ho as [Hok Hko]
    |destruct Ho as (Hone & Hcases)].
  all: cbn [trace calls service_eqb] in *.
  all: try rewrite H2' in Hle.
  all: try rewrite H2' in Hok.
  all: try rewrite H2' in Hko.
  all: try rewrite H2' in Hone.
  all: try rewrite H2' in Hcases.
  all: try (eexists; eexists; (split; [reflexivity|]);
            split; [right; exact Hone|]; split; [exact Hone|];
            destruct Hcases as [[Hs _]|[[Hs _]|[Hs _]]];
            eexists; (split; [exact Hs|]); intros msg H; discriminate H).
  all: destruct (success r) eqn:Hsucc; step.
  all: try (destruct (Hok eq_refl) as (Hc & (hash & Hsign & Hsg) & _);
            rewrite Hsg; step;
            eexists; eexists; (split; [reflexivity|]);
            cbn [trace calls service_eqb immediate_result success signature error];
            rewrite ?Hsucc;
            split; [right; exact Hc|]; split; [|discriminate];
            intros _; split; [exact Hc|]; exists hash; split; [exact Hsign|exact Hsg]).
  all: destruct (Hko eq_refl) as (Hsg & msg & Hmsg & _ & _ & Hsigner);
    eexists; eexists; (split; [reflexivity|]);
    cbn [trace calls service_eqb immediate_result success signature error];
    rewrite ?Hsucc;
    split; [exact Hle|]; split; [discriminate|];
    intros _; split; [exact Hsg|]; split; [exists msg; exact Hmsg|];
    intros Hone; exists msg; exact (Hsigner Hone).
Qed.


(** X15.  The one-shot baseline function rejects in exactly three
    situations: the wallet service fails, the balance read that opens the
    trading step fails, or the trading step has sent its transaction and
    the signer rejects it with a value that has no message, so that [swap]
    itself rejects.  What its caller then sees is not that error but the
    ReferenceError "wallet is not defined" of its own [catch] block; every
    other failure (unknown token, insufficient funds, a swap that failed
    with a message) comes back as a result object. *)
Theorem baselineFunction_rejects_with_reference_error :
  forall (w : World) (ownerAddress fromTok toTok : string) (amount : jsnum)
         (fuel : nat) (s : State),
    let s0 := snd (updateStatus "initializing" VNull s) in
    (forall msg s',
        baselineFunction w ownerAddress fromTok toTok amount fuel s = (Throw msg, s') ->
        msg = "wallet is not defined"
        /\ ((exists m, w_wallet w (calls SvcWallet (trace s)) = Throw m)
            \/ (exists wallet s1 m,
                   gate_phase w ownerAddress fuel s0 = (Ret (Some wallet), s1)
                   /\ w_balances w (calls SvcBalances (trace s1)) = Throw m)
            \/ (exists wallet s1 rejection,
                   gate_phase w ownerAddress fuel s0 = (Ret (Some wallet), s1)
                   /\ calls SvcSign (trace s') = S (calls SvcSign (trace s1))
                   /\ w_sign w (calls SvcSign (trace s1)) = Throw rejection
                   /\ forall m, rejection <> AnError m)))
    /\ (forall m,
           w_wallet w (calls SvcWallet (trace s)) = Throw m ->
           exists s',
             baselineFunction w ownerAddress fromTok toTok amount fuel s
             = (Throw "wallet is not defined", s'))
    /\ (forall wallet s1 m,
           gate_phase w ownerAddress fuel s0 = (Ret (Some wallet), s1) ->
           w_balances w (calls SvcBalances (trace s1)) = Throw m ->
           exists s',
             baselineFunction w ownerAddress fromTok toTok amount fuel s
             = (Throw "wallet is not defined", s'))
    /\ (forall wallet s1 rejection,
           gate_phase w ownerAddress fuel s0 = (Ret (Some wallet), s1) ->
           let s2 := snd (trade_phase w wallet fromTok toTok amount s1) in
           calls SvcSign (trace s2) = S (calls SvcSign (trace s1)) ->
           w_sign w (calls SvcSign (trace s1)) = Throw rejection ->
           (forall m, rejection <> AnError m) ->
           baselineFunction w ownerAddress fromTok toTok amount fuel s
           = (Throw "wallet is not defined", s2)).
Proof.
  intros w ownerAddress fromTok toTok amount fuel s s0.
  pose proof (gate_phase_outcome w ownerAddress fuel s0) as Hgate.
  change (calls SvcWallet (trace s0)) with (calls SvcWallet (trace s)) in Hgate.
  unfold baselineFunction. run.
  change {| clock := clock s; trace := EStatus "initializing" VNull :: trace s;
            jupiterTokensCache := jupiterTokensCache s;
            jupiterTokensCacheTime := jupiterTokensCacheTime s |} with s0.
  split; [|split; [|split]].
  - intros msg s'.
    destruct (w_wallet w (calls SvcWallet (trace s))) as [wallet|m].
    + destruct Hgate as (o & s1 & Hrun & Ho). rewrite Hrun.
      destruct Ho as [-> | ->]; [|discriminate].
      destruct (w_balances w (calls SvcBalances (trace s1))) as [l|m] eqn:Hbal.
      * destruct (trade_phase_signs w wallet fromTok toTok amount s1 Hbal)
          as (o & s2 & Ht & _ & Ho).
        rewrite Ht. destruct o as [r|e]; [discriminate|].
        destruct Ho as (Hone & rejection & Hsign & Hbare).
        intros H. inversion H; subst s'.
        split; [reflexivity|]. right. right. exists wallet, s1, rejection.
        split; [reflexivity|]. split; [exact Hone|]. split; [exact Hsign|exact Hbare].
      * destruct (trade_phase_no_balances w wallet fromTok toTok amount s1 Hbal)
          as (s2 & Ht & _).
        rewrite Ht. intros H. inversion H.
        split; [reflexivity|]. right. left. exists wallet, s1, m.
        split; [reflexivity|exact Hbal].
    + destruct Hgate as (s1 & Hrun). rewrite Hrun. intros H. inversion H.
      split; [reflexivity|]. left. exists m. reflexivity.
  - intros m Hw. rewrite Hw in Hgate. destruct Hgate as (s1 & Hrun). rewrite Hrun.
    eexists. reflexivity.
  - intros wallet s1 m Hrun Hbal. rewrite Hrun.
    destruct (trade_phase_no_balances w wallet fromTok toTok amount s1 Hbal)
      as (s2 & Ht & _).
    rewrite Ht. eexists. reflexivity.
  - intros wallet s1 rejection Hrun Hone Hsign Hbare. rewrite Hrun.
    destruct (w_balances w (calls SvcBalances (trace s1))) as [l|m] eqn:Hbal.
    + destruct (trade_phase_signs w wallet fromTok toTok amount s1 Hbal)
        as (o & s2 & Ht & _ & Ho).
      rewrite Ht in *. cbn [snd] in Hone. destruct o as [r|e]; [exfalso|reflexivity].
      destruct Ho as [Hok Hko]. destruct (success r) eqn:Hsucc.
      * destruct (Hok eq_refl) as (_ & hash & Hsigned & _).
        rewrite Hsign in Hsigned. discriminate.
      * destruct (Hko eq_refl) as (_ & _ & Hsigner).
        destruct (Hsigner Hone) as [msg Hrejected].
        rewrite Hsign in Hrejected. inversion Hrejected as [Heq].
        exact (Hbare msg Heq).
    + destruct (trade_phase_no_balances w wallet fromTok toTok amount s1 Hbal)
        as (s2 & Ht & Hsame).
      rewrite Ht in *. cbn [snd] in Hone. lia.
Qed.

Lemma baselineFunction_rejects_with_reference_error_witness :
  exists s',
    baselineFunction MoreSamples.denied "owner" "SOL" "USDC" (Fin (1 # 2)) 5 (initial 0)
    = (Throw "wallet is not defined", s')
    /\ calls SvcSign (trace s') = 1%nat.
Proof.
  eexists. split.
  - apply (proj2 (proj2 (proj2 (baselineFunction_rejects_with_reference_error
                                  MoreSamples.denied "owner" "SOL" "USDC" (Fin (1 # 2)) 5
                                  (initial 0))))
             {| walletId := "w1"; walletAddress := Samples.alice |}
             (snd (gate_phase MoreSamples.denied "owner" 5
                     (snd (updateStatus "initializing" VNull (initial 0)))))
             NoMessage).
    + vm_compute. reflexivity.
    + vm_compute. reflexivity.
    + vm_compute. reflexivity.
    + intros m H. discriminate H.
  - vm_compute. reflexivity.
Defined.



(** X16.  One run of the one-shot baseline function sends at most one
    transaction to the signer.  It reports [success = true] only when it
    sent exactly one and the signer accepted it, and the result then
    carries the signer's signature; a failure result carries a message and
    no signature; a run that is still waiting for funds has sent nothing;
    a run that rejects has sent nothing, or exactly one transaction, which
    the signer rejected with a value that has no message. *)
Theorem baselineFunction_signs_at_most_once :
  forall (w : World) (ownerAddress fromTok toTok : string) (amount : jsnum)
         (fuel : nat) (s : State),
    match baselineFunction w ownerAddress fromTok toTok amount fuel s with
    | (Ret (Some r), s') =>
        (calls SvcSign (trace s') = calls SvcSign (trace s)
         \/ calls SvcSign (trace s') = S (calls SvcSign (trace s)))
        /\ (success r = true ->
            calls SvcSign (trace s') = S (calls SvcSign (trace s))
            /\ exists hash, w_sign w (calls SvcSign (trace s)) = Ret hash
                            /\ signature r = Some hash)
        /\ (success r = false -> signature r = None /\ exists msg, error r = Some msg)
    | (Ret None, s') => calls SvcSign (trace s') = calls SvcSign (trace s)
    | (Throw _, s') =>
        calls SvcSign (trace s') = calls SvcSign (trace s)
        \/ (calls SvcSign (trace s') = S (calls SvcSign (trace s))
            /\ exists rejection,
                w_sign w (calls SvcSign (trace s)) = Throw rejection
                /\ forall msg, rejection <> AnError msg)
    end.
Proof.
  intros w ownerAddress fromTok toTok amount fuel s.
  unfold baselineFunction. run.
  match goal with
  | |- context [gate_phase w ownerAddress fuel ?st] => set (s0 := st)
  end.
  pose proof (@DCAFacts.gate_phase_calls w ownerAddress SvcSign eq_refl eq_refl fuel s0) as Hg.
  change (calls SvcSign (trace s0)) with (calls SvcSign (trace s)) in Hg.
  destruct (gate_phase w ownerAddress fuel s0) as [[[wallet|]|e] s1]; cbn [snd] in Hg;
    [|exact Hg|left; exact Hg].
  destruct (w_balances w (calls SvcBalances (trace s1))) as [allBalances|m] eqn:Hbal.
  - destruct (trade_phase_signs w wallet fromTok toTok amount s1 Hbal)
      as (o & s2 & Hrun & Hle & Ho).
    rewrite Hrun. rewrite Hg in Hle, Ho. destruct o as [r|e].
    + destruct Ho as [Hok Hko]. split; [exact Hle|]. split; [exact Hok|].
      intros Hf. destruct (Hko Hf) as (Hsg & Hmsg & _). split; assumption.
    + right. exact Ho.
  - destruct (trade_phase_no_balances w wallet fromTok toTok amount s1 Hbal)
      as (s2 & Hrun & Hsame).
    rewrite Hrun. left. congruence.
Qed.

Lemma baselineFunction_signs_at_most_once_witness :
  exists r s',
    baselineFunction Samples.calm "owner" "SOL" "USDC" (Fin (1 # 2)) 5 (initial 0)
    = (Ret (Some r), s')
    /\ success r = true
    /\ calls SvcSign (trace s') = 1%nat.
Proof.
  pose proof (baselineFunction_signs_at_most_once Samples.calm "owner" "SOL" "USDC"
                (Fin (1 # 2)) 5 (initial 0)) as H.
  destruct (baselineFunction Samples.calm "owner" "SOL" "USDC" (Fin (1 # 2)) 5 (initial 0))
    as [[[r|]|e] s'] eqn:Hrun;
    [|exfalso; vm_compute in Hrun; discriminate Hrun
     |exfalso; vm_compute in Hrun; discriminate Hrun].
  destruct H as (_ & Hok & _).
  assert (Hr : success r = true).
  { vm_compute in Hrun. inversion Hrun. reflexivity. }
  exists r, s'. split; [reflexivity|]. split; [exact Hr|].
  exact (proj1 (Hok Hr)).
Defined.


End GateFacts.

(* ===================================================================== *)
(** * baseline-range.js: the monitoring cycle *)
(* ===================================================================== *)

Module MonitorFacts.
Import JS Engine Trading Range DCA Traces Gate Monitor.
Import TradingFacts RangeFacts RetryFacts SwapFacts GateFacts.
Open Scope string_scope.
Open Scope list_scope.
Open Scope Z_scope.

(** Close a goal about the state a poll leaves. *)
Ltac settle_poll :=
  eexists; eexists; (split; [reflexivity|]);
  cbn [trace calls service_eqb sleeps transactions];
  (split; [reflexivity|]);
  (split; [intros svc Hsvc; cbn [trace calls]; rewrite ?Hsvc; reflexivity|]);
  split; reflexivity.

Lemma checkPriceCondition_frame (w : World) (symbol : string) (targetPrice : jsnum)
    (above : bool) (s : State) :
  exists pc s',
    checkPriceCondition w symbol targetPrice above s = (Ret pc, s')
    /\ calls SvcMarket (trace s') = S (calls SvcMarket (trace s))
    /\ (forall svc, service_eqb SvcMarket svc = false ->
                    calls svc (trace s') = calls svc (trace s))
    /\ sleeps (trace s') = sleeps (trace s)
    /\ transactions (trace s') = transactions (trace s).
Proof.
  unfold checkPriceCondition. run.
  match goal with
  | |- context [price w symbol ?st] =>
      destruct (price_returns w symbol st) as [v Hv]; rewrite Hv; clear Hv
  end.
  unfold after_request, evaluate, request. run.
  destruct v as [| |b|n|str|items|fields]; cbn [typeof jstype_eqb]; run;
    cbn [get_prop lookup is_false truthy String.eqb Ascii.eqb Bool.eqb fst snd];
    try settle_poll.
  - destruct (condition_met w above (VNum n) targetPrice); run; settle_poll.
  - destruct (is_false (lookup "success" fields)); run; [settle_poll|].
    destruct (truthy (lookup "price" fields)); run; [|settle_poll].
    destruct (condition_met w above (lookup "price" fields) targetPrice); run;
      settle_poll.
Qed.


Lemma price_gate_outcome (w : World) (token : string) (target : jsnum) (above : bool)
    (s : State) :
  token <> "" ->
  let s0 := snd (logger_log "Checking ${tokenToMonitor} price condition..." s) in
  exists pc s1 s',
    checkPriceCondition w token target above s0 = (Ret pc, s1)
    /\ calls SvcMarket (trace s') = S (calls SvcMarket (trace s))
    /\ (forall svc, service_eqb SvcMarket svc = false ->
                    calls svc (trace s') = calls svc (trace s))
    /\ sleeps (trace s') = sleeps (trace s)
    /\ transactions (trace s') = transactions (trace s)
    /\ price_gate w (Some token) (Some target) above s
       = (Ret (if negb (pc_success pc) then
                 Some (Skipped ("Price check failed: "
                                ++ or_default "undefined" (pc_error pc)) None)
               else if negb (pc_conditionMet pc) then
                 Some (Skipped "Desired price threshold not reached"
                         (Some {| pi_tokenToMonitor := token;
                                  pi_currentPrice := pc_currentPrice pc;
                                  pi_targetPrice := target;
                                  pi_condition := if above then "above" else "below" |}))
               else None), s').
Proof.
  intros Hne s0. unfold price_gate, monitoring.
  apply String.eqb_neq in Hne. rewrite Hne. run.
  change {| clock := clock s;
            trace := ELog "info" "Checking ${tokenToMonitor} price condition..." :: trace s;
            jupiterTokensCache := jupiterTokensCache s;
            jupiterTokensCacheTime := jupiterTokensCacheTime s |} with s0.
  destruct (checkPriceCondition_frame w token target above s0)
    as (pc & s1 & Hrun & Hm & Hframe & Hsl & Htx).
  rewrite Hrun. exists pc, s1.
  change (calls SvcMarket (trace s0)) with (calls SvcMarket (trace s)) in Hm.
  change (sleeps (trace s0)) with (sleeps (trace s)) in Hsl.
  change (transactions (trace s0)) with (transactions (trace s)) in Htx.
  assert (Hframe' : forall svc, service_eqb SvcMarket svc = false ->
                                calls svc (trace s1) = calls svc (trace s))
    by (intros svc Hsvc; exact (Hframe svc Hsvc)).
  destruct (pc_success pc); cbn [negb]; [destruct (pc_conditionMet pc); cbn [negb]|];
    eexists; (split; [reflexivity|]);
    (split; [|split; [|split; [|split; [|reflexivity]]]]);
    cbn [trace calls sleeps transactions]; assumption.
Qed.


(** X19.  The price gate of a monitoring cycle.  With a token to monitor
    and a target price, a cycle whose price check fails or finds the
    condition unmet returns a skipped result
    ("Price check failed: ..." or "Desired price threshold not reached")
    and has done nothing but ask the price once: no balance is read, no
    token looked up, no quote or signature requested, and it has not
    slept. *)
Theorem executeTrading_skips_without_trading :
  forall (w : World) (wallet : Wallet) (fromTok toTok : string) (amount : jsnum)
         (token : string) (target : jsnum) (above : bool) (fuel : nat)
         (s s1 : State) (pc : PriceCheck),
    token <> "" ->
    checkPriceCondition w token target above (at_gate s) = (Ret pc, s1) ->
    pc_success pc && pc_conditionMet pc = false ->
    exists reason info s',
      executeTrading w wallet fromTok toTok amount (Some token) (Some target) above fuel s
      = (Ret (Some (Skipped reason info)), s')
      /\ reason = (if pc_success pc then "Desired price threshold not reached"
                   else "Price check failed: " ++ or_default "undefined" (pc_error pc))%string
      /\ calls SvcMarket (trace s') = S (calls SvcMarket (trace s))
      /\ (forall svc, service_eqb SvcMarket svc = false ->
                      calls svc (trace s') = calls svc (trace s))
      /\ sleeps (trace s') = sleeps (trace s)
      /\ transactions (trace s') = transactions (trace s).
Proof.
  intros w wallet fromTok toTok amount token target above fuel s s1 pc Hne Hcheck Hunmet.
  unfold executeTrading. run.
  match goal with
  | |- context [price_gate w (Some token) (Some target) above ?st] => set (s0 := st)
  end.
  destruct (@price_gate_outcome w token target above s0 Hne)
    as (pc' & s1' & s' & Hcheck' & Hm & Hframe & Hsl & Htx & Hgate).
  change (snd (logger_log "Checking ${tokenToMonitor} price condition..." s0))
    with (at_gate s) in Hcheck'.
  rewrite Hcheck in Hcheck'. inversion Hcheck'; subst pc' s1'. clear Hcheck'.
  rewrite Hgate.
  change (calls SvcMarket (trace s0)) with (calls SvcMarket (trace s)) in Hm.
  change (sleeps (trace s0)) with (sleeps (trace s)) in Hsl.
  change (transactions (trace s0)) with (transactions (trace s)) in Htx.
  assert (Hframe' : forall svc, service_eqb SvcMarket svc = false ->
                                calls svc (trace s') = calls svc (trace s))
    by (intros svc Hsvc; exact (Hframe svc Hsvc)).
  destruct (pc_success pc); cbn [negb andb] in *.
  - rewrite Hunmet. cbn [negb].
    eexists. eexists. eexists. split; [reflexivity|]. split; [reflexivity|].
    split; [exact Hm|]. split; [exact Hframe'|]. split; assumption.
  - eexists. eexists. eexists. split; [reflexivity|]. split; [reflexivity|].
    split; [exact Hm|]. split; [exact Hframe'|]. split; assumption.
Qed.

Lemma executeTrading_skips_without_trading_witness :
  exists info s',
    executeTrading Samples.calm {| walletId := "w1"; walletAddress := Samples.alice |}
      "USDC" "SOL" (Fin 1) (Some "SOL") (Some (Fin 200)) true 5 (initial 0)
    = (Ret (Some (Skipped "Desired price threshold not reached" info)), s')
    /\ calls SvcMarket (trace s') = 1%nat
    /\ calls SvcBalances (trace s') = 0%nat.
Proof.
  pose (pc := {| pc_success := true; pc_currentPrice := Some (VNum (Fin 105));
                 pc_targetPrice := Some (Fin 200); pc_conditionMet := false;
                 pc_condition := Some "above"; pc_error := None; pc_timeout := None |}).
  assert (Hcheck : checkPriceCondition Samples.calm "SOL" (Fin 200) true (at_gate (initial 0))
                   = (Ret pc, snd (checkPriceCondition Samples.calm "SOL" (Fin 200) true
                                     (at_gate (initial 0)))))
    by (vm_compute; reflexivity).
  destruct (@executeTrading_skips_without_trading Samples.calm
              {| walletId := "w1"; walletAddress := Samples.alice |}
              "USDC" "SOL" (Fin 1) "SOL" (Fin 200) true 5 (initial 0) _ pc
              ltac:(discriminate) Hcheck eq_refl)
    as (reason & info & s' & Hrun & Hreason & Hm & Hframe & _).
  exists info, s'. cbn [pc pc_success] in Hreason. subst reason.
  split; [exact Hrun|]. split; [exact Hm|]. exact (Hframe SvcBalances eq_refl).
Defined.


Lemma trade_signs (w : World) (wallet : Wallet) (fromTok toTok : string)
    (amount : jsnum) (s : State) :
  match trade w wallet fromTok toTok amount s with
  | (Ret r, s') =>
      (calls SvcSign (trace s') = calls SvcSign (trace s)
       \/ calls SvcSign (trace s') = S (calls SvcSign (trace s)))
      /\ (success r = true ->
          calls SvcSign (trace s') = S (calls SvcSign (trace s))
          /\ exists hash, w_sign w (calls SvcSign (trace s)) = Ret hash
                          /\ signature r = Some hash)
      /\ (success r = false -> signature r = None /\ exists msg, error r = Some msg)
  | (Throw _, s') =>
      calls SvcSign (trace s') = calls SvcSign (trace s)
      \/ calls SvcSign (trace s') = S (calls SvcSign (trace s))
  end.
Proof.
  unfold trade, getBalances. step.
  destruct (w_balances w (calls SvcBalances (trace s))) as [allBalances|m]; step;
    [|left; reflexivity].
  assert (Hfail : forall msg (s' : State),
             calls SvcSign (trace s') = calls SvcSign (trace s) ->
             (calls SvcSign (trace s') = calls SvcSign (trace s)
              \/ calls SvcSign (trace s') = S (calls SvcSign (trace s)))
             /\ (success (failure msg None None) = true ->
                 calls SvcSign (trace s') = S (calls SvcSign (trace s))
                 /\ exists hash, w_sign w (calls SvcSign (trace s)) = Ret hash
                                 /\ signature (failure msg None None) = Some hash)
             /\ (success (failure msg None None) = false ->
                 signature (failure msg None None) = None
                 /\ exists msg0, error (failure msg None None) = Some msg0)).
  { intros msg s' Hs'. split; [left; exact Hs'|]. cbn [failure success signature error].
    split; [discriminate|]. intros _. split; [reflexivity|]. eexists. reflexivity. }
  destruct (List.find _ allBalances) as [tokenObj|]; [|apply Hfail; reflexivity].
  destruct (js_lt (h_uiAmount tokenObj) amount); [apply Hfail; reflexivity|].
  step.
  match goal with
  | |- context [getTokenMintAddress w toTok ?st] =>
      destruct (@getTokenMintAddress_frame w toTok SvcSign st eq_refl) as (tr & s1 & Hrun & H1);
      destruct (getTokenMintAddress w toTok st) as [o1 s1']; inversion Hrun; subst o1 s1';
      clear Hrun
  end.
  cbn [trace calls service_eqb] in H1.
  destruct tr as [ok mint info err]. cbn [mr_success mr_mintAddress mr_error].
  destruct ok; [|apply Hfail; exact H1].
  destruct mint as [toTokenMintAddress|]; [|apply Hfail; exact H1].
  match goal with
  | |- context [checkTokenAccountExists w ?a ?b ?st] =>
      destruct (@checkTokenAccountExists_frame w a b SvcSign st eq_refl)
        as (accountExists & s2 & Hrun & H2);
      destruct (checkTokenAccountExists w a b st) as [o2 s2']; inversion Hrun; subst o2 s2';
      clear Hrun
  end.
  cbn [trace calls service_eqb] in H2.
  assert (H2' : calls SvcSign (trace s2) = calls SvcSign (trace s)) by congruence.
  destruct accountExists; step.
  all: destruct ((toUpperCase fromTok =? "SOL")%string && js_lt (h_uiAmount tokenObj) minRequiredSOL);
    step; try (apply Hfail; cbn [trace calls service_eqb]; exact H2').
  all: match goal with
       | |- context [swap ?w0 ?a ?b ?c ?d ?e ?f ?st] =>
           destruct (swap_outcome w0 a b c d e f st) as (o3 & s3 & Hrun & Hle & Ho);
           destruct (swap w0 a b c d e f st) as [o3' s3']; inversion Hrun; subst o3' s3';
           clear Hrun
       end.
  all: cbn [trace calls service_eqb] in Hle; rewrite H2' in Hle.
  all: destruct o3 as [r|e]; [destruct Ho as [Hok Hko]|exact Hle].
  all: cbn [trace calls service_eqb] in Hok, Hko; rewrite H2' in Hok, Hko.
  all: destruct (success r) eqn:Hsucc; step.
  all: try (destruct (Hok eq_refl) as (Hc & (hash & Hsign & Hsg) & _);
            rewrite Hsg; step;
            cbn [trace calls service_eqb]; rewrite ?Hsucc;
            split; [right; exact Hc|]; split; [|discriminate];
            intros _; split; [exact Hc|]; exists hash; split; [exact Hsign|exact Hsg]).
  all: destruct (Hko eq_refl) as (Hsg & msg & Hmsg & _);
    cbn [trace calls service_eqb]; rewrite ?Hsucc;
    split; [exact Hle|]; split; [discriminate|];
    intros _; split; [exact Hsg|exists msg; exact Hmsg].
Qed.


Lemma price_gate_frame (w : World) (tokenToMonitor : option string)
    (tokenToMonitorPrice : option jsnum) (above : bool) (s : State) :
  exists g s1,
    price_gate w tokenToMonitor tokenToMonitorPrice above s = (Ret g, s1)
    /\ (forall svc, service_eqb SvcMarket svc = false ->
                    calls svc (trace s1) = calls svc (trace s))
    /\ match g with
       | Some (Skipped _ _) => monitoring tokenToMonitor tokenToMonitorPrice <> None
       | Some (Executed _) => False
       | None => True
       end.
Proof.
  destruct (monitoring tokenToMonitor tokenToMonitorPrice) as [[token target]|] eqn:Hmon.
  - assert (Hargs : tokenToMonitor = Some token /\ tokenToMonitorPrice = Some target
                    /\ token <> "").
    { unfold monitoring in Hmon.
      destruct tokenToMonitor as [t0|]; [|discriminate].
      destruct tokenToMonitorPrice as [p0|]; [|discriminate].
      destruct (String.eqb_spec t0 ""); [discriminate|].
      inversion Hmon; subst. repeat split. assumption. }
    destruct Hargs as (-> & -> & Hne).
    destruct (@price_gate_outcome w token target above s Hne)
      as (pc & s1 & s' & _ & _ & Hframe & _ & _ & Hgate).
    rewrite Hgate. eexists. eexists. split; [reflexivity|]. split; [exact Hframe|].
    destruct (pc_success pc); cbn [negb]; [destruct (pc_conditionMet pc); cbn [negb]|];
      try exact I; discriminate.
  - unfold price_gate. rewrite Hmon. eexists. eexists. split; [reflexivity|].
    split; [reflexivity|exact I].
Qed.

(** X20.  A monitoring cycle never rejects: whatever fails inside comes
    back as a result object.  It is skipped only when price monitoring is
    on, and a skipped cycle has neither read a balance nor signed.  A cycle
    that trades sends at most one transaction to the signer, reports
    [success = true] only with the signature the signer returned, and a
    failure with a message and no signature. *)
Theorem executeTrading_never_rejects_and_signs_at_most_once :
  forall (w : World) (wallet : Wallet) (fromTok toTok : string) (amount : jsnum)
         (tokenToMonitor : option string) (tokenToMonitorPrice : option jsnum)
         (above : bool) (fuel : nat) (s : State),
    exists o s',
      executeTrading w wallet fromTok toTok amount tokenToMonitor tokenToMonitorPrice
        above fuel s = (Ret o, s')
      /\ match o with
         | Some (Skipped _ _) =>
             monitoring tokenToMonitor tokenToMonitorPrice <> None
             /\ calls SvcSign (trace s') = calls SvcSign (trace s)
             /\ calls SvcBalances (trace s') = calls SvcBalances (trace s)
         | Some (Executed r) =>
             (calls SvcSign (trace s') = calls SvcSign (trace s)
              \/ calls SvcSign (trace s') = S (calls SvcSign (trace s)))
             /\ (success r = true ->
                 calls SvcSign (trace s') = S (calls SvcSign (trace s))
                 /\ exists hash, w_sign w (calls SvcSign (trace s)) = Ret hash
                                 /\ signature r = Some hash)
             /\ (success r = false -> signature r = None /\ exists msg, error r = Some msg)
         | None => calls SvcSign (trace s') = calls SvcSign (trace s)
         end.
Proof.
  intros w wallet fromTok toTok amount tokenToMonitor tokenToMonitorPrice above fuel s.
  unfold executeTrading. run.
  match goal with
  | |- context [price_gate w tokenToMonitor tokenToMonitorPrice above ?st] => set (s0 := st)
  end.
  destruct (price_gate_frame w tokenToMonitor tokenToMonitorPrice above s0)
    as (g & s1 & Hgate & Hframe & Hg).
  rewrite Hgate.
  assert (Hsign1 : calls SvcSign (trace s1) = calls SvcSign (trace s))
    by (rewrite (Hframe SvcSign eq_refl); reflexivity).
  assert (Hbal1 : calls SvcBalances (trace s1) = calls SvcBalances (trace s))
    by (rewrite (Hframe SvcBalances eq_refl); reflexivity).
  destruct g as [[reason info|r]|]; [| destruct Hg |].
  - eexists. eexists. split; [reflexivity|]. split; [exact Hg|]. split; assumption.
  - unfold waitForBalance. run.
    match goal with
    | |- context [balance_loop w ?m fuel ?st] =>
        pose proof (@DCAFacts.balance_loop_calls w m SvcSign eq_refl fuel st) as Hloop;
        destruct (@balance_loop_returns w m fuel st) as (bal & s2 & Hrun);
        rewrite Hrun in Hloop |- *
    end.
    cbn [snd trace calls] in Hloop.
    assert (Hsign2 : calls SvcSign (trace s2) = calls SvcSign (trace s)) by congruence.
    destruct bal as [b|]; [|eexists; eexists; split; [reflexivity|exact Hsign2]].
    pose proof (trade_signs w wallet fromTok toTok amount s2) as Htrade.
    destruct (trade w wallet fromTok toTok amount s2) as [[r|e] s3].
    + eexists. eexists. split; [reflexivity|].
      rewrite Hsign2 in Htrade. exact Htrade.
    + eexists. eexists. split; [reflexivity|].
      cbn [trace calls failure success signature error].
      rewrite Hsign2 in Htrade.
      split; [exact Htrade|]. split; [discriminate|].
      intros _. split; [reflexivity|]. eexists. reflexivity.
Qed.

Lemma executeTrading_never_rejects_and_signs_at_most_once_witness :
  exists o s',
    executeTrading MoreSamples.no_balances
      {| walletId := "w1"; walletAddress := Samples.alice |}
      "SOL" "USDC" (Fin 1) None None true 5 (initial 0) = (Ret o, s')
    /\ calls SvcSign (trace s') = 0%nat.
Proof.
  destruct (executeTrading_never_rejects_and_signs_at_most_once MoreSamples.no_balances
              {| walletId := "w1"; walletAddress := Samples.alice |}
              "SOL" "USDC" (Fin 1) None None true 5 (initial 0))
    as (o & s' & Hrun & _).
  exists o, s'. split; [exact Hrun|].
  assert (Hs : s' = snd (executeTrading MoreSamples.no_balances
                           {| walletId := "w1"; walletAddress := Samples.alice |}
                           "SOL" "USDC" (Fin 1) None None true 5 (initial 0)))
    by (rewrite Hrun; reflexivity).
  rewrite Hs. vm_compute. reflexivity.
Defined.


End MonitorFacts.

(* ===================================================================== *)
(** * trading.js: new tweets *)
(* ===================================================================== *)

Module TwitterFacts.
Import JS Engine Twitter.
Open Scope string_scope.
Open Scope list_scope.

Lemma strict_eq_refl (v : jsval) : recognisable v = true -> strict_eq v v = true.
Proof.
  destruct v as [| |b|[q| | |]|s|items|fields]; cbn [recognisable truthy andb strict_eq];
    try discriminate; intros _.
  - apply Bool.eqb_reflx.
  - apply Qeq_bool_iff. reflexivity.
  - reflexivity.
  - reflexivity.
  - apply String.eqb_refl.
Qed.

Lemma recognisable_truthy (v : jsval) : recognisable v = true -> truthy v = true.
Proof. unfold recognisable. intros H. apply andb_prop in H. tauto. Qed.

Lemma same_field_objects (k : string) (c l : list (string * jsval)) :
  same_field k (VObj c) (VObj l)
  = Ret (truthy (lookup k c) && (truthy (lookup k l) && strict_eq (lookup k c) (lookup k l))).
Proof.
  unfold same_field. cbn [get_prop]. destruct (truthy (lookup k c)); reflexivity.
Qed.

Lemma same_tweet_objects (c l : list (string * jsval)) :
  exists b, same_tweet (VObj c) (VObj l) = Ret b.
Proof.
  unfold same_tweet. rewrite !same_field_objects.
  destruct (truthy (lookup "id" c) && _); eexists; reflexivity.
Qed.

Lemma same_tweet_refl (t : jsval) : identifiable t = true -> same_tweet t t = Ret true.
Proof.
  destruct t as [| |b|n|s|items|fields]; cbn [identifiable]; try discriminate.
  intros H. unfold same_tweet. rewrite !same_field_objects.
  destruct (recognisable (lookup "id" fields)) eqn:Hid.
  - rewrite (recognisable_truthy _ Hid), (strict_eq_refl _ Hid). reflexivity.
  - cbn [orb] in H. rewrite (recognisable_truthy _ H), (strict_eq_refl _ H).
    destruct (truthy (lookup "id" fields) && _); reflexivity.
Qed.

Lemma known_member (lastTweets : list jsval) (t : jsval) :
  (forall l, In l lastTweets -> identifiable l = true) ->
  In t lastTweets -> known lastTweets t = Ret true.
Proof.
  induction lastTweets as [|l rest IH]; intros Hall Hin; [destruct Hin|].
  cbn [known].
  assert (Ht : identifiable t = true) by (apply Hall; exact Hin).
  destruct Hin as [->|Hin].
  - rewrite (same_tweet_refl _ Ht). reflexivity.
  - assert (Hl : identifiable l = true) by (apply Hall; left; reflexivity).
    destruct t as [| |b|n|s|items|c]; try discriminate Ht.
    destruct l as [| |b|n|s|items|lf]; try discriminate Hl.
    destruct (same_tweet_objects c lf) as [[|] ->]; [reflexivity|].
    apply IH; [intros x Hx; apply Hall; right; exact Hx|exact Hin].
Qed.

Lemma known_anonymous (lastTweets : list jsval) (t : jsval) :
  anonymous t = true -> known lastTweets t = Ret false.
Proof.
  destruct t as [| |b|n|s|items|fields]; cbn [anonymous]; try discriminate.
  intros H. apply andb_prop in H. destruct H as [Hid Htext].
  apply Bool.negb_true_iff in Hid, Htext.
  induction lastTweets as [|l rest IH]; [reflexivity|].
  cbn [known]. unfold same_tweet, same_field. cbn [get_prop]. rewrite Hid, Htext.
  exact IH.
Qed.

Lemma first_new_found (lastTweets : list jsval) (t : jsval) :
  forall items,
    first_new lastTweets items = Ret (Some t) ->
    exists before after,
      items = before ++ t :: after
      /\ known lastTweets t = Ret false
      /\ forall b, In b before -> known lastTweets b = Ret true.
Proof.
  induction items as [|c rest IH]; cbn [first_new]; [discriminate|].
  destruct (known lastTweets c) as [[|]|e] eqn:Hc; [| |discriminate].
  - intros H. destruct (IH H) as (before & after & -> & Ht & Hbefore).
    exists (c :: before), after. split; [reflexivity|]. split; [exact Ht|].
    intros b [<-|Hb]; [exact Hc|exact (Hbefore b Hb)].
  - intros H. inversion H; subst c. exists [], rest. split; [reflexivity|].
    split; [exact Hc|intros b []].
Qed.

Lemma first_new_none (lastTweets items : list jsval) :
  (forall t, In t items -> known lastTweets t = Ret true) ->
  first_new lastTweets items = Ret None.
Proof.
  induction items as [|c rest IH]; intros Hall; [reflexivity|].
  cbn [first_new]. rewrite (Hall c (or_introl eq_refl)).
  apply IH. intros t Ht. apply Hall. right. exact Ht.
Qed.

Lemma first_new_at (lastTweets before after : list jsval) (t : jsval) :
  (forall b, In b before -> known lastTweets b = Ret true) ->
  known lastTweets t = Ret false ->
  first_new lastTweets (before ++ t :: after) = Ret (Some t).
Proof.
  intros Hbefore Ht. induction before as [|c rest IH]; cbn [app first_new].
  - rewrite Ht. reflexivity.
  - rewrite (Hbefore c (or_introl eq_refl)). apply IH.
    intros b Hb. apply Hbefore. right. exact Hb.
Qed.

(** X17.  What [twitter] reports as a new tweet.  Called without earlier
    tweets it never reports one.  Otherwise the tweet it reports is the
    first of the current ones, in the order received, that matches none of
    the earlier tweets by a shared truthy [id] or [text]; all those before
    it are known.  Polling again with the tweets just received reports
    nothing new, provided every tweet carries an [id] or [text] that can
    be compared; a tweet object whose [id] and [text] are both missing or
    empty can never match and is reported as new on every poll it is the
    first unknown one of. *)
Theorem twitter_new_tweet_detection :
  forall (user : string),
    (forall answer r,
        twitter answer user [] = Some r -> hasNewTweet r = false /\ newTweet r = VNull)
    /\ (forall answer lastTweets r,
           twitter answer user lastTweets = Some r ->
           hasNewTweet r = true ->
           exists before after,
             currentTweets r = Some (VArr (before ++ newTweet r :: after))
             /\ known lastTweets (newTweet r) = Ret false
             /\ forall b, In b before -> known lastTweets b = Ret true)
    /\ (forall status text data items,
           get_prop data "data" = Ret (VArr items) ->
           items <> [] ->
           (forall t, In t items -> identifiable t = true) ->
           exists r,
             twitter (Response true status text (Ret data)) user items = Some r
             /\ hasNewTweet r = false /\ report_error r = None)
    /\ (forall status text data lastTweets before t after,
           get_prop data "data" = Ret (VArr (before ++ t :: after)) ->
           lastTweets <> [] ->
           anonymous t = true ->
           (forall b, In b before -> known lastTweets b = Ret true) ->
           exists r,
             twitter (Response true status text (Ret data)) user lastTweets = Some r
             /\ hasNewTweet r = true /\ newTweet r = t).
Proof.
  intros user. split; [|split; [|split]].
  - intros answer r. unfold twitter.
    destruct answer as [e|[] status text [data|e]]; cbn [negb];
      try (intros H; inversion H; split; reflexivity).
    destruct (get_prop data "data"); intros H; inversion H; split; reflexivity.
  - intros answer lastTweets r. unfold twitter.
    destruct answer as [e|[] status text [data|e]]; cbn [negb];
      try (intros H; inversion H; discriminate).
    destruct (get_prop data "data") as [tweets|e];
      [|intros H; inversion H; discriminate].
    destruct lastTweets as [|l0 rest]; [intros H; inversion H; discriminate|].
    destruct (js_or tweets (VArr [])) as [| |b|n|s|items|fields];
      try (intros H; inversion H; discriminate).
    destruct (first_new (l0 :: rest) items) as [[t|]|e] eqn:Hfirst;
      intros H; inversion H; cbn [hasNewTweet newTweet currentTweets]; try discriminate.
    intros _. destruct (first_new_found _ _ Hfirst) as (before & after & -> & Ht & Hb).
    exists before, after. split; [reflexivity|]. split; assumption.
  - intros status text data items Hdata Hne Hall. unfold twitter. cbn [negb].
    rewrite Hdata. cbn [js_or truthy].
    destruct items as [|i0 rest]; [congruence|].
    rewrite first_new_none.
    + eexists. split; [reflexivity|]. split; reflexivity.
    + intros t Ht. apply known_member; assumption.
  - intros status text data lastTweets before t after Hdata Hne Hanon Hbefore.
    unfold twitter. cbn [negb]. rewrite Hdata. cbn [js_or truthy].
    destruct lastTweets as [|l0 rest]; [congruence|].
    rewrite (@first_new_at (l0 :: rest) before after t Hbefore (@known_anonymous (l0 :: rest) t Hanon)).
    eexists. split; [reflexivity|]. split; reflexivity.
Qed.

Lemma twitter_new_tweet_detection_witness :
  exists r,
    twitter (tweets_body [tweet "1" "gm"; VObj []]) "user" [tweet "1" "gm"; VObj []] = Some r
    /\ hasNewTweet r = true
    /\ newTweet r = VObj [].
Proof.
  apply (proj2 (proj2 (proj2 (twitter_new_tweet_detection "user")))
           "200" "" (VObj [("data", VArr [tweet "1" "gm"; VObj []])])
           [tweet "1" "gm"; VObj []] [tweet "1" "gm"] (VObj []) []).
  - reflexivity.
  - discriminate.
  - reflexivity.
  - intros b [<-|[]]. reflexivity.
Defined.


End TwitterFacts.

(* ===================================================================== *)
(** * The merge of configuration objects *)
(* ===================================================================== *)

Module MergeFacts.
Import JS Merge.
Open Scope string_scope.
Open Scope list_scope.

Lemma lookup_set_same (k : string) (v : jsval) (l : list (string * jsval)) :
  lookup k (set_prop k v l) = v.
Proof.
  induction l as [|[k' v'] l IH]; cbn [set_prop lookup].
  - rewrite String.eqb_refl. reflexivity.
  - destruct (String.eqb_spec k' k) as [->|Hne]; cbn [lookup].
    + rewrite String.eqb_refl. reflexivity.
    + destruct (String.eqb_spec k' k); [contradiction|exact IH].
Qed.

Lemma lookup_set_other (k k' : string) (v : jsval) (l : list (string * jsval)) :
  k' <> k -> lookup k' (set_prop k v l) = lookup k' l.
Proof.
  intros Hne. induction l as [|[k0 v0] l IH]; cbn [set_prop lookup].
  - destruct (String.eqb_spec k k'); [congruence|reflexivity].
  - destruct (String.eqb_spec k0 k) as [->|Hk]; cbn [lookup].
    + destruct (String.eqb_spec k k'); [congruence|reflexivity].
    + destruct (String.eqb_spec k0 k'); [reflexivity|exact IH].
Qed.

Lemma keys_set_prop (k : string) (v : jsval) (l : list (string * jsval)) :
  In k (keys (set_prop k v l)) /\ incl (keys l) (keys (set_prop k v l)).
Proof.
  unfold keys. induction l as [|[k' v'] l [IHin IHincl]]; cbn [set_prop List.map fst].
  - split; [left; reflexivity|intros x []].
  - destruct (String.eqb_spec k' k) as [->|Hne]; cbn [List.map fst].
    + split; [left; reflexivity|apply incl_refl].
    + split; [right; exact IHin|].
      intros x [<-|Hx]; [left; reflexivity|right; exact (IHincl x Hx)].
Qed.

Lemma set_prop_same (k : string) (l : list (string * jsval)) :
  In k (keys l) -> set_prop k (lookup k l) l = l.
Proof.
  unfold keys. induction l as [|[k' v'] l IH]; cbn [set_prop lookup List.map fst];
    [intros []|].
  destruct (String.eqb_spec k' k) as [->|Hne]; [reflexivity|].
  intros [Heq|Hin]; [congruence|]. rewrite (IH Hin). reflexivity.
Qed.

Lemma lookup_in (k : string) (v : jsval) (l : list (string * jsval)) :
  NoDup (keys l) -> In (k, v) l -> lookup k l = v.
Proof.
  unfold keys. induction l as [|[k' v'] l IH]; cbn [lookup List.map fst]; [intros _ []|].
  intros Hnd Hin. inversion Hnd as [|? ? Hnot Hnd']; subst.
  destruct Hin as [Heq|Hin].
  - inversion Heq; subst. rewrite String.eqb_refl. reflexivity.
  - destruct (String.eqb_spec k' k) as [->|Hne]; [|exact (IH Hnd' Hin)].
    exfalso. apply Hnot. apply (List.in_map fst) in Hin. exact Hin.
Qed.

Lemma merged_as_loop (base efields : list (string * jsval)) :
  merged base (VObj efields) = merge_loop pick base base efields.
Proof.
  cbn [merged]. generalize base at 2 4. induction efields as [|[k ev] rest IH]; intros out.
  - reflexivity.
  - cbn [merge_loop]. rewrite <- IH. reflexivity.
Qed.

Lemma merge_loop_keys (f : jsval -> jsval -> jsval) (base : list (string * jsval))
    (entries : list (string * jsval)) :
  forall out,
    incl (keys out) (keys (merge_loop f base out entries))
    /\ incl (keys entries) (keys (merge_loop f base out entries)).
Proof.
  induction entries as [|[k ev] rest IH]; intros out; cbn [merge_loop].
  - split; [apply incl_refl|intros x []].
  - destruct (IH (set_prop k (f (lookup k base) ev) out)) as [Hout Hrest].
    destruct (keys_set_prop k (f (lookup k base) ev) out) as [Hk Hincl].
    split.
    + intros x Hx. exact (Hout x (Hincl x Hx)).
    + intros x [<-|Hx]; [exact (Hout _ Hk)|exact (Hrest x Hx)].
Qed.

Lemma merge_loop_untouched (f : jsval -> jsval -> jsval) (base : list (string * jsval))
    (k : string) (entries : list (string * jsval)) :
  forall out,
    ~ In k (keys entries) ->
    lookup k (merge_loop f base out entries) = lookup k out.
Proof.
  induction entries as [|[k' ev] rest IH]; intros out Hnot; cbn [merge_loop]; [reflexivity|].
  rewrite IH.
  - apply lookup_set_other. intros ->. apply Hnot. left. reflexivity.
  - intros Hin. apply Hnot. right. exact Hin.
Qed.

Lemma merge_loop_written (f : jsval -> jsval -> jsval) (base : list (string * jsval))
    (k : string) (ev : jsval) (entries : list (string * jsval)) :
  forall out,
    NoDup (keys entries) ->
    In (k, ev) entries ->
    lookup k (merge_loop f base out entries) = f (lookup k base) ev.
Proof.
  induction entries as [|[k' ev'] rest IH]; intros out Hnd Hin; [destruct Hin|].
  cbn [merge_loop]. inversion Hnd as [|? ? Hnot Hnd']; subst.
  destruct Hin as [Heq|Hin].
  - inversion Heq; subst. rewrite merge_loop_untouched by exact Hnot.
    apply lookup_set_same.
  - apply IH; assumption.
Qed.

(** Merging an object into itself changes nothing. *)
Lemma merged_self (v : jsval) :
  well_formed v -> forall x, v = VObj x -> merged x v = x.
Proof.
  induction 1 as [fields Hnd Hall IH| | | | | |]; intros x Hx; try discriminate Hx.
  inversion Hx; subst x. rewrite merged_as_loop.
  assert (Hloop : forall entries,
             incl entries fields -> merge_loop pick fields fields entries = fields).
  { induction entries as [|[k ev] rest IHr]; intros Hincl; [reflexivity|].
    cbn [merge_loop].
    assert (Hin : In (k, ev) fields) by (apply Hincl; left; reflexivity).
    rewrite (@lookup_in _ _ _ Hnd Hin).
    assert (Hpick : pick ev ev = ev).
    { destruct ev as [| |b|n|s|items|a]; try reflexivity.
      cbn [pick]. rewrite (IH k (VObj a) Hin a eq_refl). reflexivity. }
    rewrite Hpick. rewrite <- (@lookup_in _ _ _ Hnd Hin) at 1.
    rewrite set_prop_same.
    - apply IHr. intros e He. apply Hincl. right. exact He.
    - apply (List.in_map fst) in Hin. exact Hin. }
  apply Hloop. apply incl_refl.
Qed.

(** Merging the same [extra] in a second time changes nothing. *)
Lemma merged_twice (v : jsval) :
  well_formed v ->
  forall base, merged (merged base v) v = merged base v.
Proof.
  induction 1 as [fields Hnd Hall IH| | | | | |]; intros base; try reflexivity.
  rewrite !merged_as_loop.
  set (m := merge_loop pick base base fields).
  assert (Hloop : forall entries, incl entries fields -> merge_loop pick m m entries = m).
  { induction entries as [|[k ev] rest IHr]; intros Hincl; [reflexivity|].
    cbn [merge_loop].
    assert (Hin : In (k, ev) fields) by (apply Hincl; left; reflexivity).
    assert (Hm : lookup k m = pick (lookup k base) ev)
      by (apply merge_loop_written; assumption).
    assert (Hpick : pick (lookup k m) ev = lookup k m).
    { rewrite Hm.
      destruct (lookup k base) as [| |b|n|s|items|b'];
        destruct ev as [| |b0|n0|s0|items0|e']; cbn [pick]; try reflexivity;
        try (rewrite (@merged_self _ (Hall k _ Hin) _ eq_refl); reflexivity).
      rewrite (IH k _ Hin b'). reflexivity. }
    rewrite Hpick, set_prop_same.
    - apply IHr. intros e He. apply Hincl. right. exact He.
    - apply (proj2 (merge_loop_keys pick base fields base)).
      apply (List.in_map fst) in Hin. exact Hin. }
  apply Hloop. apply incl_refl.
Qed.

Lemma mentions_proto_entry (fields : list (string * jsval)) (k : string) (v : jsval) :
  mentions_proto (VObj fields) = false -> In (k, v) fields -> mentions_proto v = false.
Proof.
  induction fields as [|[k' v'] rest IH]; intros Hm Hin; [destruct Hin|].
  cbn [mentions_proto] in Hm.
  apply Bool.orb_false_iff in Hm. destruct Hm as [Hm Hrest].
  apply Bool.orb_false_iff in Hm. destruct Hm as [_ Hv].
  destruct Hin as [Heq|Hin]; [inversion Heq; subst; exact Hv|].
  apply IH; [exact Hrest|exact Hin].
Qed.

(** X18.  [deepMerge(base, extra)].  An [extra] that is missing, [null]
    or not an object gives back [base].  For two plain objects the result
    keeps every key of [base] that [extra] does not mention, with its
    value; under a key of [extra] it holds the merge of the two values when
    both are plain objects and the value of [extra] in every other case (so
    arrays and scalars are replaced, never combined); it has all keys of
    both.  Merging the same [extra] in again changes nothing, and an object
    merged with itself is unchanged. *)
Theorem deepMerge_overrides_and_is_idempotent :
  (forall base extra,
      match extra with VObj _ | VArr _ => False | _ => True end ->
      deepMerge base extra = Some base)
  /\ (forall bfields efields,
         well_formed (VObj efields) ->
         mentions_proto (VObj efields) = false ->
         exists out,
           deepMerge (VObj bfields) (VObj efields) = Some (VObj out)
           /\ (forall k, ~ In k (keys efields) -> lookup k out = lookup k bfields)
           /\ (forall k ev,
                  In (k, ev) efields ->
                  match lookup k bfields, ev with
                  | VObj _, VObj _ => deepMerge (lookup k bfields) ev = Some (lookup k out)
                  | _, _ => lookup k out = ev
                  end)
           /\ incl (keys bfields) (keys out)
           /\ incl (keys efields) (keys out)
           /\ deepMerge (VObj out) (VObj efields) = Some (VObj out))
  /\ (forall fields,
         well_formed (VObj fields) ->
         mentions_proto (VObj fields) = false ->
         deepMerge (VObj fields) (VObj fields) = Some (VObj fields)).
Proof.
  split; [|split].
  - intros base [| |b|n|s|items|fields] H; try reflexivity; destruct H.
  - intros bfields efields Hwf Hproto.
    exists (merged bfields (VObj efields)).
    unfold deepMerge. rewrite Hproto.
    split; [reflexivity|].
    inversion Hwf as [fields Hnd Hall Heq| | | | | |]; subst.
    split; [|split; [|split; [|split]]].
    + intros k Hnot. rewrite merged_as_loop. apply merge_loop_untouched. exact Hnot.
    + intros k ev Hin.
      assert (Hw : lookup k (merged bfields (VObj efields)) = pick (lookup k bfields) ev)
        by (rewrite merged_as_loop; apply merge_loop_written; assumption).
      rewrite Hw.
      destruct (lookup k bfields) as [| |b|n|s|items|b'];
        destruct ev as [| |b0|n0|s0|items0|e']; try reflexivity.
      rewrite (@mentions_proto_entry _ _ _ Hproto Hin). reflexivity.
    + rewrite merged_as_loop. apply (proj1 (merge_loop_keys pick bfields efields bfields)).
    + rewrite merged_as_loop. apply (proj2 (merge_loop_keys pick bfields efields bfields)).
    + rewrite (@merged_twice _ Hwf). reflexivity.
  - intros fields Hwf Hproto. unfold deepMerge. rewrite Hproto.
    rewrite (@merged_self _ Hwf _ eq_refl). reflexivity.
Qed.

Lemma overrides_well_formed : well_formed overrides.
Proof.
  apply wf_object.
  - unfold keys. cbn [List.map fst].
    repeat (constructor; [cbn [In]; intuition discriminate|]). constructor.
  - intros k v [H|[H|[H|[]]]]; inversion H; subst; try constructor.
    + unfold keys. cbn [List.map fst].
      repeat (constructor; [cbn [In]; intuition discriminate|]). constructor.
    + intros k' v' [H'|[]]. inversion H'; subst. constructor.
Qed.

Lemma deepMerge_overrides_and_is_idempotent_witness :
  exists out,
    deepMerge defaults overrides = Some (VObj out)
    /\ lookup "fromToken" out = VStr "USDC"
    /\ lookup "toToken" out = VStr "BONK"
    /\ deepMerge (VObj out) overrides = Some (VObj out).
Proof.
  destruct (proj1 (proj2 deepMerge_overrides_and_is_idempotent)
              [("fromToken", VStr "USDC"); ("toToken", VStr "SOL");
               ("schedule", VObj [("type", VStr "interval"); ("value", VNum (Fin 60000))]);
               ("tags", VArr [VStr "dca"])]
              [("toToken", VStr "BONK");
               ("schedule", VObj [("value", VNum (Fin 30000))]);
               ("tags", VArr [])]
              overrides_well_formed eq_refl)
    as (out & Hrun & Hkeep & Hset & _ & _ & Hagain).
  exists out. split; [exact Hrun|]. split; [|split; [|exact Hagain]].
  - rewrite Hkeep; [reflexivity|]. unfold keys. cbn [List.map fst In].
    intuition discriminate.
  - exact (Hset "toToken" (VStr "BONK") (or_introl eq_refl)).
Defined.


End MergeFacts.

(* ===================================================================== *)
(** * baseline-dca.js: creating a schedule *)
(* ===================================================================== *)

Module SchedulingFacts.
Import JS Scheduler SchedulerRuntime SchedulerRuns Scheduling.
Import SchedulerFacts SchedulerRuntimeFacts.
Open Scope string_scope.
Open Scope list_scope.
Open Scope Z_scope.

Lemma si_id_schedule_info (now : Z) (k : string) (s : Schedule) :
  si_id (schedule_info now k s) = k.
Proof. unfold schedule_info. destruct (sc_type s); reflexivity. Qed.

Lemma currentSchedule_map_get (later : Z) (scheduleId : string) (y : Sys) :
  currentSchedule later scheduleId y
  = option_map (schedule_info later scheduleId)
      (map_get scheduleId (activeSchedules (sched y))).
Proof.
  unfold currentSchedule, getScheduleInfo.
  induction (activeSchedules (sched y)) as [|[k s] m IH];
    cbn [List.map List.find map_get fst snd option_map]; [reflexivity|].
  rewrite si_id_schedule_info.
  destruct (String.eqb_spec k scheduleId) as [->|Hne]; [reflexivity|exact IH].
Qed.

Lemma strings_of_nil (items : list jsval) : strings_of items = Some [] -> items = [].
Proof.
  destruct items as [|v rest]; [reflexivity|]. cbn [strings_of].
  destruct v; try discriminate. destruct (strings_of rest); discriminate.
Qed.

Lemma parsedTimes_nil (times : list string) : parsedTimes times = Some [] -> times = [].
Proof.
  unfold parsedTimes. destruct times as [|t rest]; [reflexivity|].
  cbn [parseAll]. destruct (parseTime t); [|discriminate].
  destruct (parseAll rest) as [l|]; [|discriminate].
  intros H. inversion H as [Hs].
  pose proof (sort_times_perm (t0 :: l)) as Hp. cbn [sort_times] in Hp. rewrite Hs in Hp.
  apply Permutation.Permutation_sym, Permutation.Permutation_nil in Hp. discriminate Hp.
Qed.

Lemma new_Date_range (value t : Z) : new_Date value = Some t -> Z.abs t <= MAX_TIME.
Proof.
  unfold new_Date. destruct (Z.leb_spec (Z.abs value) MAX_TIME) as [Hle|Hgt]; [|discriminate].
  intros H. inversion H; subst. exact Hle.
Qed.

Lemma shifted_range (d : Date) (ms t : Z) : shifted d ms = Some t -> Z.abs t <= MAX_TIME.
Proof. destruct d as [v|]; [apply new_Date_range|discriminate]. Qed.

Lemma first_after_range (todayUtc : Date) (nowUtc : Z) (times : list Time) (t : Z) :
  first_after todayUtc nowUtc times = Some t -> Z.abs t <= MAX_TIME.
Proof.
  induction times as [|time rest IH]; cbn [first_after]; [discriminate|].
  destruct (shifted todayUtc (ms_of time)) as [e|] eqn:He; [|exact IH].
  destruct (nowUtc <? e); [|exact IH].
  intros H. inversion H; subst. exact (@shifted_range _ _ _ He).
Qed.

(** A next execution that is computed is a valid date. *)
Lemma scheduleNext_compute_valid (tz : Zone) (parsed : list Time) (now nextExecution delay : Z) :
  scheduleNext_compute tz parsed now = Ret (nextExecution, delay) ->
  Z.abs nextExecution <= MAX_TIME.
Proof.
  unfold scheduleNext_compute.
  destruct (new_Date _) as [nowUtc|]; [|destruct parsed; discriminate].
  destruct (first_after _ nowUtc parsed) as [e|] eqn:Hfa.
  - intros H. inversion H; subst. exact (@first_after_range _ _ _ _ Hfa).
  - destruct parsed as [|firstTime rest]; [discriminate|].
    destruct (shifted _ (ms_of firstTime)) as [e|] eqn:He; [|discriminate].
    intros H. inversion H; subst. exact (@shifted_range _ _ _ He).
Qed.

(** What the recomputation throws, and when. *)
Lemma scheduleNext_compute_throws (tz : Zone) (parsed : list Time) (now : Z) (e : string) :
  scheduleNext_compute tz parsed now = Throw e ->
  (parsed = [] /\ e = "Cannot read properties of undefined (reading 'hour')")
  \/ (parsed <> [] /\ e = "Invalid time value").
Proof.
  unfold scheduleNext_compute. intros Hc.
  destruct parsed as [|firstTime rest].
  - left. split; [reflexivity|].
    destruct (new_Date _); cbn [first_after] in Hc; inversion Hc; reflexivity.
  - right. split; [discriminate|].
    repeat match type of Hc with
           | match ?x with _ => _ end = _ => destruct x
           end; try discriminate; inversion Hc; reflexivity.
Qed.

Lemma scheduleTimes_throws (tz : Zone) (times : list string) (now : Z) (y y' : Sys)
    (e : string) :
  scheduleTimes tz times now y = Some (Throw e, y') ->
  live y' = live y
  /\ statusUpdateInterval y' = statusUpdateInterval y
  /\ exists parsed,
      parsedTimes times = Some parsed
      /\ scheduleNext_compute tz parsed now = Throw e
      /\ ((times = [] /\ e = "Cannot read properties of undefined (reading 'hour')")
          \/ (times <> [] /\ e = "Invalid time value")).
Proof.
  unfold scheduleTimes. destruct (parsedTimes times) as [parsed|] eqn:Hp; [|discriminate].
  destruct (register_times parsed now (sched y)) as [scheduleId st1].
  unfold scheduleNext, Scheduler.scheduleNext.
  destruct (scheduleNext_compute tz parsed now) as [[nextExecution delay]|e'] eqn:Hc.
  - cbn [sched]. destruct (map_get scheduleId _); discriminate.
  - intros H. inversion H; subst e' y'; clear H. cbn [live statusUpdateInterval].
    split; [reflexivity|]. split; [reflexivity|].
    exists parsed. split; [reflexivity|]. split; [exact Hc|].
    destruct (@scheduleNext_compute_throws _ _ _ _ Hc) as [[Hnil He]|[Hne He]].
    + left. split; [|exact He]. apply parsedTimes_nil. rewrite Hp, Hnil. reflexivity.
    + right. split; [|exact He]. intros Hnil. subst times. cbn in Hp.
      inversion Hp. congruence.
Qed.

Lemma heartbeat_after_start (y : Sys) : statusUpdateInterval (startStatusUpdates y) <> None.
Proof.
  unfold startStatusUpdates. destruct (statusUpdateInterval y) eqn:E; cbn; congruence.
Qed.


(** X21.  [createScheduledExecution], for an interval in whole
    milliseconds or for time strings of digits, a colon and digits, either
    registers exactly one schedule or leaves the scheduler as it was.  When
    it returns, the id it returns is new, the schedule is registered under
    it, the heartbeat runs, and the information published for the status is
    that of this schedule; an interval schedule has a positive interval.
    An interval that is not a positive number, and a type other than
    "interval" and "times", are refused before anything is registered.
    When [scheduleTimes] throws, it is after the schedule has been
    registered, and the schedule stays, without a timer and without the
    heartbeat having been started: so it is with an empty list of times
    (TypeError) and with times whose next execution is not a valid date
    (RangeError), as for the hour 3000000000. *)
Theorem createScheduledExecution_registers_or_changes_nothing :
  forall (tz : Zone) (now later : Z) (scheduleOptions : ScheduleOptions) (y : Sys) (c : Created),
    Reachable y ->
    createScheduledExecution tz now later scheduleOptions y = Some c ->
    match cr_outcome c with
    | Ret (scheduleId, _) =>
        ids (cr_sys c) = ids y ++ [scheduleId]
        /\ ~ In scheduleId (ids y)
        /\ statusUpdateInterval (cr_sys c) <> None
        /\ (exists schedule,
               map_get scheduleId (activeSchedules (sched (cr_sys c))) = Some schedule
               /\ cr_published c = Some (schedule_info later scheduleId schedule)
               /\ (type_is scheduleOptions "interval" = true ->
                   exists intervalMs,
                     0 < intervalMs /\ sc_intervalMs schedule = Some intervalMs)
               /\ (type_is scheduleOptions "interval" = false ->
                   exists nextExecution,
                     sc_nextExecution schedule = Some nextExecution
                     /\ Z.abs nextExecution <= MAX_TIME))
    | Throw e =>
        cr_published c = None
        /\ ((cr_sys c = y /\ (e = invalid_interval \/ e = invalid_type))
            \/ (type_is scheduleOptions "times" = true
                /\ (exists times parsed,
                       times_of (so_value scheduleOptions) = Some times
                       /\ parsedTimes times = Some parsed
                       /\ scheduleNext_compute tz parsed now = Throw e
                       /\ ((times = []
                            /\ e = "Cannot read properties of undefined (reading 'hour')")
                           \/ (times <> [] /\ e = "Invalid time value")))
                /\ ids (cr_sys c)
                   = ids y ++ [("times_" ++ show_nat (nextScheduleId (sched y)))%string]
                /\ live (cr_sys c) = live y
                /\ statusUpdateInterval (cr_sys c) = statusUpdateInterval y))
    end.
Proof.
  intros tz now later scheduleOptions y c Hreach.
  pose proof (reachable_invariant Hreach) as (_ & Hbelow & _).
  unfold createScheduledExecution.
  destruct (type_is scheduleOptions "interval") eqn:Hi.
  - destruct (intervalMs_of (so_value scheduleOptions)) as [n|] eqn:Hn.
    + destruct (whole n) as [intervalMs|] eqn:Hw; [|discriminate].
      set (ei := match so_executeImmediately scheduleOptions with
                 | Some b => b
                 | None => false
                 end).
      destruct (@scheduleInterval_ids intervalMs ei now y Hbelow) as (Hids & Hfresh).
      assert (Hget : exists schedule,
                 map_get (fst (scheduleInterval intervalMs ei now y))
                   (activeSchedules (sched (snd (scheduleInterval intervalMs ei now y))))
                 = Some schedule
                 /\ sc_intervalMs schedule = Some intervalMs).
      { unfold scheduleInterval, Scheduler.scheduleInterval, startStatusUpdates.
        cbn [fst snd sched statusUpdateInterval].
        destruct (statusUpdateInterval y); cbn [sched activeSchedules];
          rewrite map_get_set_same; eexists; split; reflexivity. }
      assert (Hhb : statusUpdateInterval (snd (scheduleInterval intervalMs ei now y)) <> None).
      { unfold scheduleInterval.
        destruct (Scheduler.scheduleInterval intervalMs ei now (sched y)). cbn [snd].
        apply heartbeat_after_start. }
      destruct (scheduleInterval intervalMs ei now y) as [scheduleId y1].
      cbn [fst snd] in *. intros H. inversion H; subst c; clear H.
      cbn [cr_outcome cr_sys cr_published].
      split; [exact Hids|]. split; [exact Hfresh|]. split; [exact Hhb|].
      destruct Hget as (schedule & Hget & Hms). exists schedule.
      split; [exact Hget|]. split; [rewrite currentSchedule_map_get, Hget; reflexivity|].
      split; [|discriminate].
      intros _. exists intervalMs. split; [|exact Hms].
      unfold intervalMs_of in Hn. destruct (so_value scheduleOptions); try discriminate.
      destruct (js_lt (Fin 0) n0) eqn:Hlt; [|discriminate]. inversion Hn; subst n0.
      unfold whole in Hw. destruct n as [q| | |]; try discriminate.
      destruct (Qeq_bool q (inject_Z (Qnum q / Z.pos (Qden q)))) eqn:Hq; [|discriminate].
      destruct (Qnum q / Z.pos (Qden q) <? 10 ^ 21); [|discriminate].
      inversion Hw; subst intervalMs. cbn [andb] in *.
      apply Qeq_bool_iff in Hq.
      unfold js_lt, num_lt in Hlt. destruct (Qle_bool q 0) eqn:Hle; [discriminate|].
      assert (Hpos : (0 < q)%Q).
      { apply Qnot_le_lt. intros Hc. apply Qle_bool_iff in Hc. congruence. }
      rewrite Hq in Hpos. unfold Qlt, inject_Z in Hpos. cbn in Hpos. lia.
    + intros H. inversion H; subst c. cbn [cr_outcome cr_sys cr_published].
      split; [reflexivity|]. left. split; [reflexivity|left; reflexivity].
  - destruct (type_is scheduleOptions "times") eqn:Ht.
    + destruct (times_of (so_value scheduleOptions)) as [times|] eqn:Htm; [|discriminate].
      destruct (scheduleTimes tz times now y) as [[[scheduleId|e] y1]|] eqn:Hrun;
        [| |discriminate].
      * intros H. inversion H; subst c; clear H. cbn [cr_outcome cr_sys cr_published].
        destruct (@scheduleTimes_ids tz times now y y1 _ Hbelow Hrun) as (Hids & Hfresh & Ho).
        destruct Ho as [Ho|[e Ho]]; [|discriminate]. injection Ho as Hid.
        change (scheduleId = ("times_" ++ show_nat (nextScheduleId (sched y)))%string) in Hid.
        rewrite <- Hid in Hids, Hfresh.
        split; [exact Hids|]. split; [exact Hfresh|].
        unfold scheduleTimes in Hrun.
        destruct (parsedTimes times) as [parsed|]; [|discriminate].
        unfold register_times, scheduleNext, Scheduler.scheduleNext in Hrun.
        cbn [sched activeSchedules nextTimer nextScheduleId live statusUpdateInterval
             logCounter] in Hrun.
        destruct (scheduleNext_compute tz parsed now) as [[nextExecution delay]|e] eqn:Hc;
          [|discriminate].
        rewrite map_get_set_same in Hrun.
        inversion Hrun as [[Hid' Hy1]]. clear Hrun.
        split; [apply heartbeat_after_start|].
        eexists. split.
        -- unfold startStatusUpdates, with_schedules.
           cbn [statusUpdateInterval sched activeSchedules].
           destruct (statusUpdateInterval y); cbn [sched activeSchedules];
             apply map_get_set_same.
        -- split.
           ++ rewrite currentSchedule_map_get.
              unfold startStatusUpdates, with_schedules.
              cbn [statusUpdateInterval sched activeSchedules].
              destruct (statusUpdateInterval y); cbn [sched activeSchedules];
                rewrite map_get_set_same; reflexivity.
           ++ split; [discriminate|]. intros _. cbn [sc_nextExecution].
              exists nextExecution. split; [reflexivity|].
              exact (@scheduleNext_compute_valid _ _ _ _ _ Hc).
      * intros H. inversion H; subst c; clear H. cbn [cr_outcome cr_sys cr_published].
        split; [reflexivity|]. right.
        destruct (@scheduleTimes_ids tz times now y y1 _ Hbelow Hrun) as (Hids & _ & _).
        destruct (@scheduleTimes_throws _ _ _ _ _ _ Hrun)
          as (Hlive & Hhb & parsed & Hp & Hc & Hwhy).
        split; [reflexivity|].
        split; [exists times, parsed; repeat split; assumption|].
        split; [exact Hids|]. split; [exact Hlive|exact Hhb].
    + intros H. inversion H; subst c. cbn [cr_outcome cr_sys cr_published].
      split; [reflexivity|]. left. split; [reflexivity|right; reflexivity].
Qed.

Lemma createScheduledExecution_registers_or_changes_nothing_witness :
  exists c,
    createScheduledExecution utc 5000 5000
      {| so_type := VStr "times"; so_value := VArr [VStr "3000000000:00"];
         so_executeImmediately := None |} one_interval = Some c
    /\ cr_outcome c = Throw "Invalid time value"
    /\ ids (cr_sys c) = ["interval_1"; "times_2"]
    /\ live (cr_sys c) = live one_interval.
Proof.
  destruct (createScheduledExecution utc 5000 5000
              {| so_type := VStr "times"; so_value := VArr [VStr "3000000000:00"];
                 so_executeImmediately := None |} one_interval) as [c|] eqn:Hrun;
    [|exfalso; vm_compute in Hrun; discriminate Hrun].
  pose proof (createScheduledExecution_registers_or_changes_nothing _ _ _ _
                reachable_one_interval Hrun) as H.
  assert (Hout : cr_outcome c = Throw "Invalid time value").
  { vm_compute in Hrun. inversion Hrun. reflexivity. }
  assert (Hids0 : ids (cr_sys c) = ["interval_1"; "times_2"]).
  { vm_compute in Hrun. inversion Hrun. reflexivity. }
  rewrite Hout in H. destruct H as (_ & [[Hsame _]|(_ & _ & Hids & Hlive & _)]).
  - exfalso. rewrite Hsame in Hids0. vm_compute in Hids0. discriminate Hids0.
  - exists c. split; [reflexivity|]. split; [exact Hout|].
    split; [rewrite Hids; reflexivity|exact Hlive].
Defined.

End SchedulingFacts.

(* ===================================================================== *)
(** * The server: withdrawals *)
(* ===================================================================== *)

Module WithdrawFacts.
Import JS Engine Trading Traces Withdraw.
Import TradingFacts.
Open Scope string_scope.
Open Scope list_scope.
Open Scope Z_scope.

(** X22.  [POST /withdraw] never transfers anything.  Without the
    configured API key (also when no key is configured) the answer is 401;
    with the key but without a token, a recipient of at least 32
    characters and a positive amount the answer is 400 with the message of
    the first check that fails; in both cases nothing else happens.  A
    request that passes every check is logged and then answered with 500
    and "API Withdrawal error: config is not defined": the handler reads
    [config], a name that is not declared, before it asks for the wallet.
    So the handler never rejects, every answer is a refusal, and no
    request reaches a service or the signer. *)
Theorem withdraw_never_transfers :
  forall (API_KEY : option string) (req : Request) (s : State),
    (authorized API_KEY req = false ->
     withdraw API_KEY req s = (Ret (Refused 401 unauthorized), s))
    /\ (authorized API_KEY req = true ->
        complete req = false \/ positive_amount req = None \/ address_of req = None ->
        withdraw API_KEY req s
        = (Ret (Refused 400
                  (if negb (complete req) then missing_parameters
                   else match positive_amount req with
                        | None => bad_amount
                        | Some _ => bad_address
                        end)), s))
    /\ (authorized API_KEY req = true ->
        complete req = true ->
        positive_amount req <> None ->
        address_of req <> None ->
        exists s',
          withdraw API_KEY req s
          = (Ret (Refused 500 "API Withdrawal error: config is not defined"), s')
          /\ clock s' = clock s
          /\ exists line failed, trace s' = ELog "error" failed :: ELog "info" line :: trace s)
    /\ (exists code msg s',
           withdraw API_KEY req s = (Ret (Refused code msg), s')
           /\ In code [401; 400; 500]%nat
           /\ (forall svc, calls svc (trace s') = calls svc (trace s))
           /\ transactions (trace s') = transactions (trace s)).
Proof.
  intros API_KEY req s. unfold withdraw. run.
  destruct (authorized API_KEY req) eqn:Hauth; cbn [negb].
  2:{ split; [reflexivity|]. split; [discriminate|]. split; [discriminate|].
      eexists. eexists. eexists. split; [reflexivity|].
      split; [left; reflexivity|]. split; reflexivity. }
  split; [discriminate|].
  destruct (complete req) eqn:Hcomplete; cbn [negb].
  2:{ split; [reflexivity|]. split; [discriminate|].
      eexists. eexists. eexists. split; [reflexivity|].
      split; [right; left; reflexivity|]. split; reflexivity. }
  destruct (positive_amount req) as [amount|] eqn:Hamount.
  2:{ split; [reflexivity|]. split; [intros _ _ H; contradiction H; reflexivity|].
      eexists. eexists. eexists. split; [reflexivity|].
      split; [right; left; reflexivity|]. split; reflexivity. }
  destruct (address_of req) as [address|] eqn:Haddress.
  2:{ split; [reflexivity|]. split; [intros _ _ _ H; contradiction H; reflexivity|].
      eexists. eexists. eexists. split; [reflexivity|].
      split; [right; left; reflexivity|]. split; reflexivity. }
  split; [intros _ [H|[H|H]]; discriminate H|].
  split.
  - intros _ _ _ _. eexists. split; [reflexivity|]. split; [reflexivity|].
    eexists. eexists. reflexivity.
  - eexists. eexists. eexists. split; [reflexivity|].
    split; [right; right; left; reflexivity|]. split; reflexivity.
Qed.

Lemma withdraw_never_transfers_witness :
  exists s',
    withdraw (Some "s3cret") a_request (initial 0)
    = (Ret (Refused 500 "API Withdrawal error: config is not defined"), s')
    /\ clock s' = 0.
Proof.
  destruct (proj1 (proj2 (proj2 (withdraw_never_transfers (Some "s3cret") a_request
                                   (initial 0))))
              eq_refl eq_refl)
    as (s' & Hrun & Hclock & _).
  - vm_compute. discriminate.
  - vm_compute. discriminate.
  - exists s'. split; [exact Hrun|exact Hclock].
Defined.


End WithdrawFacts.
